(** * fuse-archive: the archive access engine of [src/main.cc]

    A shallow embedding of the parts of [main.cc] that serve reads from
    an archive: the passphrase error classification, pathname
    validation, the side-buffer pool, the [Reader] and the reader cache,
    the in-memory directory tree built at start-up, and the [my_read]
    callback.

    Conventions of the embedding.
    - [int64_t], [ssize_t], [off_t] and [time_t] values are [Z]; signed
      arithmetic is written in [Z] (signed overflow has no defined
      behaviour in C++).  Unsigned values ([uint64_t], [size_t],
      [mode_t]) are [Z] too, and every conversion to an unsigned type
      and every unsigned increment is written with [to_uint64].
    - A C string is the [string] of its characters before the
      terminating NUL; a null [const char*] is [None].
    - Global variables are fields of explicit state records that the
      functions take and return.
    - libarchive is not part of the program: it is an interface
      ([Libarchive]) whose operations thread the state of an archive
      handle, and every theorem holds for every implementation of it.
    - [abort()] and a failed [assert] end the run with [Aborted]; a loop
      whose number of iterations depends on libarchive takes a fuel
      argument and yields [OutOfFuel] when it is exhausted.
    - [syslog] calls do not change any state that the program reads and
      are left out. *)

From Stdlib Require Import ZArith String Ascii List Lia Bool.
From stdpp Require Import base option list gmap strings.

Open Scope string_scope.
Open Scope list_scope.
Open Scope Z_scope.

(** ** Machine integers and platform constants *)

Definition UINT64_MAX : Z := 2 ^ 64 - 1.
Definition INT_MAX : Z := 2 ^ 31 - 1.

(** Conversion of a value to [uint64_t] (and to [size_t]). *)
Definition to_uint64 (z : Z) : Z := z mod 2 ^ 64.

(** [<cerrno>] values on Linux. *)
Definition EIO : Z := 5.
Definition EINVAL : Z := 22.

(** [<sys/stat.h>] file-type bits. *)
Definition S_IFMT : Z := 61440 (* 0170000 *).
Definition S_IFDIR : Z := 16384 (* 0040000 *).
Definition S_IFCHR : Z := 8192 (* 0020000 *).
Definition S_IFBLK : Z := 24576 (* 0060000 *).
Definition S_IFREG : Z := 32768 (* 0100000 *).
Definition S_IFIFO : Z := 4096 (* 0010000 *).
Definition S_IFLNK : Z := 40960 (* 0120000 *).
Definition S_IFSOCK : Z := 49152 (* 0140000 *).

Definition S_ISDIR (m : Z) : bool := Z.land m S_IFMT =? S_IFDIR.
Definition S_ISCHR (m : Z) : bool := Z.land m S_IFMT =? S_IFCHR.
Definition S_ISBLK (m : Z) : bool := Z.land m S_IFMT =? S_IFBLK.
Definition S_ISFIFO (m : Z) : bool := Z.land m S_IFMT =? S_IFIFO.
Definition S_ISLNK (m : Z) : bool := Z.land m S_IFMT =? S_IFLNK.
Definition S_ISSOCK (m : Z) : bool := Z.land m S_IFMT =? S_IFSOCK.

(** [<archive.h>] status codes. *)
Definition ARCHIVE_EOF : Z := 1.
Definition ARCHIVE_OK : Z := 0.
Definition ARCHIVE_RETRY : Z := -10.
Definition ARCHIVE_WARN : Z := -20.
Definition ARCHIVE_FAILED : Z := -25.
Definition ARCHIVE_FATAL : Z := -30.

(** ** Compile-time configuration *)

Definition BLOCK_SIZE : Z := 16384.
Definition NUM_SAVED_READERS : nat := 8.
Definition NUM_SIDE_BUFFERS : nat := 8.
Definition SIDE_BUFFER_SIZE : Z := 131072.
Definition SIDE_BUFFER_INDEX_COMPRESSED : nat := 0.
Definition SIDE_BUFFER_INDEX_DECOMPRESSED : nat := 1.
Definition block_size : Z := 512.

(** ** Exit codes *)

Definition EXIT_CODE_GENERIC_FAILURE : Z := 1.
Definition EXIT_CODE_CANNOT_OPEN_ARCHIVE : Z := 11.
Definition EXIT_CODE_PASSPHRASE_REQUIRED : Z := 20.
Definition EXIT_CODE_PASSPHRASE_INCORRECT : Z := 21.
Definition EXIT_CODE_PASSPHRASE_NOT_SUPPORTED : Z := 22.
Definition EXIT_CODE_INVALID_RAW_ARCHIVE : Z := 30.
Definition EXIT_CODE_INVALID_ARCHIVE_HEADER : Z := 31.
Definition EXIT_CODE_INVALID_ARCHIVE_CONTENTS : Z := 32.

(** ** Libarchive error codes *)

(** [std::string_view::starts_with]. *)
Definition starts_with (e prefix : string) : bool := String.prefix prefix e.

Definition not_supported_prefixes : list string :=
  [ "Crypto codec not supported";
    "Decryption is unsupported";
    "Encrypted file is unsupported";
    "Encryption is not supported";
    "RAR encryption support unavailable";
    "The archive header is encrypted, but currently not supported";
    "The file content is encrypted, but currently not supported";
    "Unsupported encryption format" ].

Definition determine_passphrase_exit_code (e : string) : Z :=
  if starts_with e "Incorrect passphrase" then EXIT_CODE_PASSPHRASE_INCORRECT
  else if starts_with e "Passphrase required" then EXIT_CODE_PASSPHRASE_REQUIRED
  else if existsb (starts_with e) not_supported_prefixes
       then EXIT_CODE_PASSPHRASE_NOT_SUPPORTED
  else EXIT_CODE_INVALID_ARCHIVE_CONTENTS.

(** ** Outcome of a run *)

Inductive result (A : Type) : Type :=
| Ok (a : A)      (* the function returned [a] *)
| Aborted         (* [abort()], a failed [assert], or a null dereference *)
| OutOfFuel.      (* the loop was still running when the fuel ran out *)
Arguments Ok {A} a.
Arguments Aborted {A}.
Arguments OutOfFuel {A}.

#[global] Instance result_ret : MRet result := fun A a => Ok a.
#[global] Instance result_bind : MBind result := fun A B f m =>
  match m with
  | Ok a => f a
  | Aborted => Aborted
  | OutOfFuel => OutOfFuel
  end.

(** Dereferencing a pointer: a null or dangling pointer ends the run. *)
Definition deref {A : Type} (o : option A) : result A :=
  match o with
  | Some a => Ok a
  | None => Aborted
  end.

(** ** The libarchive interface *)

(** What the accessors of a [struct archive_entry] return. *)
Record struct_archive_entry : Type := {
  archive_entry_pathname_utf8 : option string;
  archive_entry_pathname : option string;
  archive_entry_mode : Z;
  archive_entry_symlink_utf8 : option string;
  archive_entry_symlink : option string;
  archive_entry_size : Z;
  archive_entry_size_is_set : bool;
  archive_entry_mtime : Z;
}.

(** The operations on a [struct archive] that the program calls.  Each
    takes the state of the handle and returns its new state.
    [archive_read_next_header] returns the status and the entry pointer
    it stores; [archive_read_data a len] returns the [ssize_t] result
    and the bytes it stored at the start of the destination. *)
Class Libarchive : Type := {
  struct_archive : Type;
  archive_read_new : option struct_archive;
  archive_read_add_passphrase : struct_archive -> string -> struct_archive;
  archive_read_support_filter_all : struct_archive -> struct_archive;
  archive_read_support_format_all : struct_archive -> struct_archive;
  archive_read_support_format_raw : struct_archive -> struct_archive;
  archive_read_open_filename :
    struct_archive -> string -> Z -> Z * struct_archive;
  archive_read_next_header :
    struct_archive -> Z * option struct_archive_entry * struct_archive;
  archive_read_data :
    struct_archive -> Z -> Z * list Byte.byte * struct_archive;
}.

(** A library call that stores [src] at the start of the buffer [dst]. *)
Definition store (src dst : list Byte.byte) : list Byte.byte :=
  src ++ drop (length src) dst.

(** [memcpy(dst, src, n)]. *)
Definition memcpy (dst src : list Byte.byte) (n : nat) : list Byte.byte :=
  take n src ++ drop n dst.

(** ** Side buffers *)

Module side_buffer_metadata.

Record t : Type := {
  index_within_archive : Z;
  offset_within_entry : Z;
  length : Z;
  lru_priority : Z;
}.

(** The [length] argument is a [uint64_t]; the difference
    [this->length - o] is converted to [uint64_t] for the comparison
    with it. *)
Definition contains (this : t)
    (index_within_archive0 offset_within_entry0 length0 : Z) : bool :=
  if (0 <=? index_within_archive this) &&
     (index_within_archive this =? index_within_archive0) &&
     (offset_within_entry this <=? offset_within_entry0)
  then
    let o := offset_within_entry0 - offset_within_entry this in
    (o <=? length this) && (length0 <=? to_uint64 (length this - o))
  else false.

(** A zero-initialised element of the static array. *)
Definition zero : t :=
  {| index_within_archive := 0; offset_within_entry := 0;
     length := 0; lru_priority := 0 |}.

End side_buffer_metadata.

(** [g_side_buffer_data], [g_side_buffer_metadata] and
    [side_buffer_metadata::next_lru_priority].  Both arrays have
    [NUM_SIDE_BUFFERS] elements. *)
Record side_buffers : Type := {
  g_side_buffer_data : list (list Byte.byte);
  g_side_buffer_metadata : list side_buffer_metadata.t;
  next_lru_priority : Z;
}.

Definition meta_at (s : side_buffers) (i : nat) : side_buffer_metadata.t :=
  default side_buffer_metadata.zero (g_side_buffer_metadata s !! i).

Definition data_at (s : side_buffers) (i : nat) : list Byte.byte :=
  default [] (g_side_buffer_data s !! i).

Definition set_meta (s : side_buffers) (i : nat)
    (m : side_buffer_metadata.t) : side_buffers :=
  {| g_side_buffer_data := g_side_buffer_data s;
     g_side_buffer_metadata := <[i := m]> (g_side_buffer_metadata s);
     next_lru_priority := next_lru_priority s |}.

Definition set_data (s : side_buffers) (i : nat)
    (d : list Byte.byte) : side_buffers :=
  {| g_side_buffer_data := <[i := d]> (g_side_buffer_data s);
     g_side_buffer_metadata := g_side_buffer_metadata s;
     next_lru_priority := next_lru_priority s |}.

(** [++side_buffer_metadata::next_lru_priority]: the new value and the
    state holding it. *)
Definition incr_next_lru_priority (s : side_buffers) : Z * side_buffers :=
  let v := to_uint64 (next_lru_priority s + 1) in
  (v, {| g_side_buffer_data := g_side_buffer_data s;
         g_side_buffer_metadata := g_side_buffer_metadata s;
         next_lru_priority := v |}).

(** The scan for the lowest LRU priority shared by [acquire_side_buffer]
    and [release_reader]: the loop over [i = 1 .. n-1], started at
    element 0. *)
Definition oldest_index (lru : nat -> Z) (n : nat) : nat :=
  fst (foldl (fun '(oldest_i, oldest_lru_priority) i =>
                if oldest_lru_priority >? lru i then (i, lru i)
                else (oldest_i, oldest_lru_priority))
             (0%nat, lru 0%nat) (seq 1 (n - 1))).

Definition acquire_side_buffer (s : side_buffers) : nat * side_buffers :=
  let oldest_i :=
    oldest_index (fun i => side_buffer_metadata.lru_priority (meta_at s i))
                 NUM_SIDE_BUFFERS in
  (oldest_i,
   set_meta s oldest_i
     {| side_buffer_metadata.index_within_archive := -1;
        side_buffer_metadata.offset_within_entry := -1;
        side_buffer_metadata.length := -1;
        side_buffer_metadata.lru_priority := UINT64_MAX |}).

(** The search loop of [read_from_side_buffer]: [(best_i, best_length)]
    after the iterations for the indexes in [idxs]; [best_i = -1] is
    [None]. *)
Definition best_side_buffer (s : side_buffers)
    (index_within_archive dst_len offset_within_entry : Z)
    (idxs : list nat) : option nat * Z :=
  foldl (fun '(best_i, best_length) i =>
           let meta := meta_at s i in
           if (side_buffer_metadata.length meta >? best_length) &&
              side_buffer_metadata.contains meta index_within_archive
                offset_within_entry dst_len
           then (Some i, side_buffer_metadata.length meta)
           else (best_i, best_length))
        (None, -1) idxs.

(** Returns the [bool] result, the destination buffer and the side
    buffers. *)
Definition read_from_side_buffer (index_within_archive : Z)
    (dst_ptr : list Byte.byte) (dst_len : Z) (offset_within_entry : Z)
    (s : side_buffers) : bool * list Byte.byte * side_buffers :=
  match fst (best_side_buffer s index_within_archive dst_len
               offset_within_entry (seq 0 NUM_SIDE_BUFFERS)) with
  | Some best_i =>
      let meta := meta_at s best_i in
      let '(p, s1) := incr_next_lru_priority s in
      let s2 :=
        set_meta s1 best_i
          {| side_buffer_metadata.index_within_archive :=
               side_buffer_metadata.index_within_archive meta;
             side_buffer_metadata.offset_within_entry :=
               side_buffer_metadata.offset_within_entry meta;
             side_buffer_metadata.length := side_buffer_metadata.length meta;
             side_buffer_metadata.lru_priority := p |} in
      let o := offset_within_entry -
               side_buffer_metadata.offset_within_entry meta in
      (true,
       memcpy dst_ptr (drop (Z.to_nat o) (data_at s best_i)) (Z.to_nat dst_len),
       s2)
  | None => (false, dst_ptr, s)
  end.

(** ** Reader *)

Module Reader.
Section WithLibarchive.
Context `{Libarchive}.

Record t : Type := {
  archive : option struct_archive;
  archive_entry : option struct_archive_entry;
  index_within_archive : Z;
  offset_within_entry : Z;
}.

(** The constructor [Reader(struct archive* _archive)]. *)
Definition new (_archive : struct_archive) : t :=
  {| archive := Some _archive; archive_entry := None;
     index_within_archive := -1; offset_within_entry := 0 |}.

(** The [while] loop of [advance_index].  It runs at most
    [want - index_within_archive] times, which is the fuel that
    [advance_index] gives it. *)
Fixpoint advance_index_loop (fuel : nat) (this : t) (want : Z)
    : result (bool * t) :=
  if index_within_archive this <? want then
    match fuel with
    | O => OutOfFuel
    | S fuel' =>
        a ← deref (archive this);
        let '(status, e, a') := archive_read_next_header a in
        let this1 :=
          {| archive := Some a'; archive_entry := e;
             index_within_archive := index_within_archive this;
             offset_within_entry := offset_within_entry this |} in
        if status =? ARCHIVE_EOF then Ok (false, this1)
        else if negb (status =? ARCHIVE_OK) && negb (status =? ARCHIVE_WARN)
        then Ok (false, this1)
        else
          advance_index_loop fuel'
            {| archive := Some a'; archive_entry := e;
               index_within_archive := index_within_archive this + 1;
               offset_within_entry := 0 |} want
    end
  else Ok (true, this).

Definition advance_index (this : t) (want : Z) : result (bool * t) :=
  match archive this with
  | None => Ok (false, this)
  | Some _ =>
      advance_index_loop (Z.to_nat (want - index_within_archive this))
        this want
  end.

(** [read]: the [ssize_t] result, the Reader and the destination
    buffer.  [dst_len] is a [size_t]. *)
Definition read (this : t) (dst_ptr : list Byte.byte) (dst_len : Z)
    (pathname : string) : result (Z * t * list Byte.byte) :=
  a ← deref (archive this);
  let '(n, bytes, a') := archive_read_data a dst_len in
  let dst1 := store bytes dst_ptr in
  if n <? 0 then
    Ok (- EIO,
          {| archive := Some a'; archive_entry := archive_entry this;
             index_within_archive := index_within_archive this;
             offset_within_entry := offset_within_entry this |},
          dst1)
  else if to_uint64 n >? dst_len then Aborted
  else
    Ok (n,
          {| archive := Some a'; archive_entry := archive_entry this;
             index_within_archive := index_within_archive this;
             offset_within_entry := offset_within_entry this + n |},
          dst1).

(** The [while] loop of [advance_offset], decompressing into side
    buffer [sb]. *)
Fixpoint advance_offset_loop (fuel : nat) (this : t) (want : Z)
    (pathname : string) (sb : nat) (s : side_buffers)
    : result (bool * t * side_buffers) :=
  if want >? offset_within_entry this then
    match fuel with
    | O => OutOfFuel
    | S fuel' =>
        let original_owe := offset_within_entry this in
        let dst_len := want - original_owe in
        let dst_len :=
          if dst_len >? SIDE_BUFFER_SIZE then
            let dst_len := Z.rem dst_len SIDE_BUFFER_SIZE in
            if dst_len =? 0 then SIDE_BUFFER_SIZE else dst_len
          else dst_len in
        '(n, this1, data1) ← read this (data_at s sb) (to_uint64 dst_len)
                               pathname;
        let s1 := set_data s sb data1 in
        if n <? 0 then
          Ok (false, this1,
                set_meta s1 sb
                  {| side_buffer_metadata.index_within_archive := -1;
                     side_buffer_metadata.offset_within_entry := -1;
                     side_buffer_metadata.length := -1;
                     side_buffer_metadata.lru_priority := 0 |})
        else
          let '(p, s2) := incr_next_lru_priority s1 in
          advance_offset_loop fuel' this1 want pathname sb
            (set_meta s2 sb
               {| side_buffer_metadata.index_within_archive :=
                    index_within_archive this1;
                  side_buffer_metadata.offset_within_entry := original_owe;
                  side_buffer_metadata.length := n;
                  side_buffer_metadata.lru_priority := p |})
    end
  else Ok (true, this, s).

Definition advance_offset (fuel : nat) (this : t) (want : Z)
    (pathname : string) (s : side_buffers)
    : result (bool * t * side_buffers) :=
  if negb (bool_decide (is_Some (archive this))) ||
     negb (bool_decide (is_Some (archive_entry this)))
  then Ok (false, this, s)
  else if want <? offset_within_entry this then Ok (false, this, s)
  else if want =? offset_within_entry this then Ok (true, this, s)
  else
    let '(sb, s1) := acquire_side_buffer s in
    (* [sb < 0 || NUM_SIDE_BUFFERS <= sb] *)
    if (NUM_SIDE_BUFFERS <=? sb)%nat then Ok (false, this, s1)
    else advance_offset_loop fuel this want pathname sb s1.

(** [swap(Reader& a, Reader& b)]. *)
Definition swap (a b : t) : t * t :=
  ({| archive := archive b; archive_entry := archive_entry b;
      index_within_archive := index_within_archive b;
      offset_within_entry := offset_within_entry b |},
   {| archive := archive a; archive_entry := archive_entry a;
      index_within_archive := index_within_archive a;
      offset_within_entry := offset_within_entry a |}).

End WithLibarchive.
End Reader.

(** ** The reader cache *)

Section ReaderCache.
Context `{Libarchive}.

(** [g_saved_readers], an array of [NUM_SAVED_READERS] pairs, and the
    [next_lru_priority] static of [release_reader]. *)
Record reader_cache : Type := {
  g_saved_readers : list (option Reader.t * Z);
  release_next_lru_priority : Z;
}.

Definition saved_at (c : reader_cache) (i : nat) : option Reader.t * Z :=
  default (None, 0) (g_saved_readers c !! i).

(** [operator<] and [operator<=] of [std::pair<int64_t, int64_t>]. *)
Definition pair_lt (x y : Z * Z) : bool :=
  (x.1 <? y.1) || ((x.1 =? y.1) && (x.2 <? y.2)).
Definition pair_le (x y : Z * Z) : bool := negb (pair_lt y x).

(** The search loop of [acquire_reader]:
    [(best_i, best_index_within_archive, best_offset_within_entry)]
    after the iterations for the indexes in [idxs]. *)
Definition best_saved_reader (c : reader_cache)
    (want_index_within_archive : Z) (idxs : list nat)
    : option nat * Z * Z :=
  foldl (fun '(best_i, best_index_within_archive, best_offset_within_entry)
             i =>
           match (saved_at c i).1 with
           | Some sri =>
               if pair_lt (best_index_within_archive,
                           best_offset_within_entry)
                          (Reader.index_within_archive sri,
                           Reader.offset_within_entry sri) &&
                  pair_le (Reader.index_within_archive sri,
                           Reader.offset_within_entry sri)
                          (want_index_within_archive, 0)
               then (Some i, Reader.index_within_archive sri,
                     Reader.offset_within_entry sri)
               else (best_i, best_index_within_archive,
                     best_offset_within_entry)
           | None =>
               (best_i, best_index_within_archive, best_offset_within_entry)
           end)
        (None, -1, -1) idxs.

(** The [else] branch of [acquire_reader]: a fresh decompression stream
    over the archive, or [None] for [nullptr]. *)
Definition open_fresh_reader (password g_archive_realpath : string)
    : option Reader.t :=
  match archive_read_new with
  | None => None
  | Some a =>
      let a :=
        if negb (String.eqb password "")
        then archive_read_add_passphrase a password else a in
      let a := archive_read_support_filter_all a in
      let a := archive_read_support_format_all a in
      let a := archive_read_support_format_raw a in
      let '(status, a) :=
        archive_read_open_filename a g_archive_realpath BLOCK_SIZE in
      if negb (status =? ARCHIVE_OK) then None
      else Some (Reader.new a)
  end.

(** [acquire_reader]: the [unique_ptr] returned ([None] for [nullptr])
    and the cache. *)
Definition acquire_reader (password g_archive_realpath : string)
    (want_index_within_archive : Z) (c : reader_cache)
    : result (option Reader.t * reader_cache) :=
  if want_index_within_archive <? 0 then Ok (None, c)
  else
    let '(r, c1) :=
      match (best_saved_reader c want_index_within_archive
               (seq 0 NUM_SAVED_READERS)).1.1 with
      | Some best_i =>
          ((saved_at c best_i).1,
           {| g_saved_readers :=
                <[best_i := (None, 0)]> (g_saved_readers c);
              release_next_lru_priority := release_next_lru_priority c |})
      | None => (open_fresh_reader password g_archive_realpath, c)
      end in
    match r with
    | None => Ok (None, c1)
    | Some r =>
        '(ok, r') ← Reader.advance_index r want_index_within_archive;
        if (ok : bool) then Ok (Some r', c1) else Ok (None, c1)
    end.

Definition release_reader (r : option Reader.t) (c : reader_cache)
    : reader_cache :=
  if (NUM_SAVED_READERS <=? 0)%nat then c
  else
    let oldest_i :=
      oldest_index (fun i => (saved_at c i).2) NUM_SAVED_READERS in
    let p := to_uint64 (release_next_lru_priority c + 1) in
    {| g_saved_readers := <[oldest_i := (r, p)]> (g_saved_readers c);
       release_next_lru_priority := p |}.

End ReaderCache.

(** ** In-memory directory tree *)

(** A [Node*] is an index into the list of allocated nodes; [nullptr]
    is [None]. *)
Module Node.

Record t : Type := {
  rel_name : string;
  symlink : string;
  index_within_archive : Z;
  size : Z;
  mtime : Z;
  mode : Z;
  parent : option nat;
  last_child : option nat;
  first_child : option nat;
  next_sibling : option nat;
}.

(** The constructor. *)
Definition new (_rel_name _symlink : string)
    (_index_within_archive _size _mtime _mode : Z) : t :=
  {| rel_name := _rel_name; symlink := _symlink;
     index_within_archive := _index_within_archive;
     size := _size; mtime := _mtime; mode := _mode;
     parent := None; last_child := None; first_child := None;
     next_sibling := None |}.

Definition is_dir (n : t) : bool := S_ISDIR (mode n).

Definition get_block_count (n : t) : Z :=
  Z.quot (size n + (block_size - 1)) block_size.

(** Assignments to one field. *)
Definition set_size (v : Z) (n : t) : t :=
  {| rel_name := rel_name n; symlink := symlink n;
     index_within_archive := index_within_archive n;
     size := v; mtime := mtime n; mode := mode n;
     parent := parent n; last_child := last_child n;
     first_child := first_child n; next_sibling := next_sibling n |}.
Definition set_mtime (v : Z) (n : t) : t :=
  {| rel_name := rel_name n; symlink := symlink n;
     index_within_archive := index_within_archive n;
     size := size n; mtime := v; mode := mode n;
     parent := parent n; last_child := last_child n;
     first_child := first_child n; next_sibling := next_sibling n |}.
Definition set_mode (v : Z) (n : t) : t :=
  {| rel_name := rel_name n; symlink := symlink n;
     index_within_archive := index_within_archive n;
     size := size n; mtime := mtime n; mode := v;
     parent := parent n; last_child := last_child n;
     first_child := first_child n; next_sibling := next_sibling n |}.
Definition set_parent (v : option nat) (n : t) : t :=
  {| rel_name := rel_name n; symlink := symlink n;
     index_within_archive := index_within_archive n;
     size := size n; mtime := mtime n; mode := mode n;
     parent := v; last_child := last_child n;
     first_child := first_child n; next_sibling := next_sibling n |}.
Definition set_last_child (v : option nat) (n : t) : t :=
  {| rel_name := rel_name n; symlink := symlink n;
     index_within_archive := index_within_archive n;
     size := size n; mtime := mtime n; mode := mode n;
     parent := parent n; last_child := v;
     first_child := first_child n; next_sibling := next_sibling n |}.
Definition set_first_child (v : option nat) (n : t) : t :=
  {| rel_name := rel_name n; symlink := symlink n;
     index_within_archive := index_within_archive n;
     size := size n; mtime := mtime n; mode := mode n;
     parent := parent n; last_child := last_child n;
     first_child := v; next_sibling := next_sibling n |}.
Definition set_next_sibling (v : option nat) (n : t) : t :=
  {| rel_name := rel_name n; symlink := symlink n;
     index_within_archive := index_within_archive n;
     size := size n; mtime := mtime n; mode := mode n;
     parent := parent n; last_child := last_child n;
     first_child := first_child n; next_sibling := v |}.

(** A write through the pointer [p]. *)
Definition update (nodes : list t) (p : nat) (f : t -> t) : result (list t) :=
  x ← deref (nodes !! p);
  Ok (<[p := f x]> nodes).

(** [this->add_child(n)]. *)
Definition add_child (nodes : list t) (this n : nat) : result (list t) :=
  child ← deref (nodes !! n);                         (* assert(n) *)
  if bool_decide (is_Some (parent child)) then Aborted (* assert(!n->parent) *)
  else
    self ← deref (nodes !! this);
    if negb (is_dir self) then Aborted                (* assert(is_dir()) *)
    else
      nodes ← update nodes this (fun x => set_size (size x + block_size) x);
      nodes ← update nodes n (set_parent (Some this));
      self ← deref (nodes !! this);
      match last_child self with
      | None =>
          nodes ← update nodes this (set_last_child (Some n));
          update nodes this (set_first_child (Some n))
      | Some l =>
          nodes ← update nodes l (set_next_sibling (Some n));
          update nodes this (set_last_child (Some n))
      end.

End Node.

(** The allocated nodes with [g_nodes_by_name], [g_nodes_by_index],
    [g_root_node] and [g_block_count].  A value of [g_nodes_by_name] is
    never null. *)
Record tree : Type := {
  nodes : list Node.t;
  g_nodes_by_name : gmap string nat;
  g_nodes_by_index : list (option nat);
  g_root_node : option nat;
  g_block_count : Z;
}.

Definition set_nodes (v : list Node.t) (st : tree) : tree :=
  {| nodes := v; g_nodes_by_name := g_nodes_by_name st;
     g_nodes_by_index := g_nodes_by_index st;
     g_root_node := g_root_node st; g_block_count := g_block_count st |}.

(** ** Pathnames *)

(** [s[i]] for a C string: the terminating NUL is read at its end. *)
Definition char_at (s : string) (i : nat) : ascii :=
  default zero (String.get i s).

(** [s + k] for a C string. *)
Definition string_drop (k : nat) (s : string) : string :=
  String.substring k (String.length s - k) s.

(** [*s == 0] for a C string. *)
Definition at_end (s : string) : bool :=
  match s with
  | "" => true
  | String _ _ => false
  end.

(** The body of the [while (true)] loop of [valid_pathname] from the
    scan [while ( *r != 0 )] on: [len] is [r - q], and [next r'] is the
    next iteration of the outer loop, entered with [q = r + 1]. *)
Fixpoint valid_pathname_scan (allow_slashes : bool) (next : string -> bool)
    (q r : string) (len : nat) {struct r} : bool :=
  let check (continue : bool) : bool :=
    if (len =? 0)%nat then false
    else if (len =? 1)%nat && Ascii.eqb (char_at q 0) "." then false
    else if (len =? 2)%nat && Ascii.eqb (char_at q 0) "." &&
            Ascii.eqb (char_at q 1) "."
    then false
    else continue in
  match r with
  | "" => check true
  | String c r' =>
      if negb (Ascii.eqb c "/") then
        valid_pathname_scan allow_slashes next q r' (S len)
      else if negb allow_slashes then false
      else check (next r')
  end.

(** The [while (true)] loop of [valid_pathname], entered with [q]. *)
Fixpoint valid_pathname_loop (allow_slashes : bool) (q : string) {struct q}
    : bool :=
  valid_pathname_scan allow_slashes (valid_pathname_loop allow_slashes) q q 0.

Definition valid_pathname (p : option string) (allow_slashes : bool) : bool :=
  match p with
  | None => false
  | Some p =>
      let after_prefix (q : string) : bool :=
        if at_end q then false
        else valid_pathname_loop allow_slashes q in
      if Ascii.eqb (char_at p 0) "." && Ascii.eqb (char_at p 1) "/" then
        if negb allow_slashes then false
        else after_prefix (string_drop 2 p)
      else if Ascii.eqb (char_at p 0) "/" then
        if negb allow_slashes then false
        else after_prefix (string_drop 1 p)
      else after_prefix p
  end.

(** [normalize_pathname]; the globals [g_archive_is_raw] and
    [g_archive_innername] are arguments. *)
Definition normalize_pathname (g_archive_is_raw : bool)
    (g_archive_innername : option string) (e : struct_archive_entry)
    : string :=
  let s :=
    match archive_entry_pathname_utf8 e with
    | Some s => Some s
    | None => archive_entry_pathname e
    end in
  match s with
  | None => ""
  | Some s =>
      let s :=
        match g_archive_innername with
        | Some innername =>
            if g_archive_is_raw &&
               negb (at_end innername) &&
               String.eqb s "data"
            then innername else s
        | None => s
        end in
      if negb (valid_pathname (Some s) true) then ""
      else if Ascii.eqb (char_at s 0) "." && Ascii.eqb (char_at s 1) "/"
      then string_drop 1 s
      else if Ascii.eqb (char_at s 0) "/" then s
      else "/" +:+ s
  end.

(** ** Leaf insertion *)

(** The branch [if ( *r == 0 )] of the loop of [insert_leaf_node]: insert
    an explicit leaf node. *)
Definition insert_leaf_node_terminal (symlink : string)
    (index_within_archive size mtime leaf_mode : Z)
    (abs_pathname rel_pathname : string) (parent : nat) (st : tree)
    : result tree :=
  let n := length (nodes st) in
  let nodes1 :=
    nodes st ++ [Node.new rel_pathname symlink index_within_archive size
                   mtime leaf_mode] in
  match g_nodes_by_name st !! abs_pathname with
  | Some _ => Ok st                     (* [!ok]: [delete n] *)
  | None =>
      nodes2 ← Node.add_child nodes1 parent n;
      node ← deref (nodes2 !! n);
      if Z.of_nat (length (g_nodes_by_index st)) >? index_within_archive
      then Aborted                      (* the [assert] *)
      else
        Ok {| nodes := nodes2;
              g_nodes_by_name := <[abs_pathname := n]> (g_nodes_by_name st);
              g_nodes_by_index :=
                resize (Z.to_nat index_within_archive) None
                  (g_nodes_by_index st) ++ [Some n];
              g_root_node := g_root_node st;
              g_block_count :=
                g_block_count st + Node.get_block_count node + 1 |}
  end.

(** The rest of the loop body when [*r] is a slash: look up or insert
    an implicit branch node.  The result is the next [parent], or [None]
    at a name collision. *)
Definition insert_leaf_node_branch (mtime branch_mode : Z)
    (abs_pathname rel_pathname : string) (parent : nat) (st : tree)
    : result (option nat * tree) :=
  match g_nodes_by_name st !! abs_pathname with
  | Some n =>
      node ← deref (nodes st !! n);
      if negb (Node.is_dir node) then Ok (None, st) else Ok (Some n, st)
  | None =>
      let n := length (nodes st) in
      let nodes1 :=
        nodes st ++ [Node.new rel_pathname "" (-1) 0 mtime branch_mode] in
      nodes2 ← Node.add_child nodes1 parent n;
      Ok (Some n,
          {| nodes := nodes2;
             g_nodes_by_name := <[abs_pathname := n]> (g_nodes_by_name st);
             g_nodes_by_index := g_nodes_by_index st;
             g_root_node := g_root_node st;
             g_block_count := g_block_count st + 1 |})
  end.

(** The body of the [while (true)] loop of [insert_leaf_node] from the
    scan [while ( *r != 0 && *r != '/' )] on.  [prefix] is the text from
    [p] up to [q] and [rel_pathname] the text from [q] up to [r];
    [next prefix' r' n st'] is the next iteration of the outer loop,
    entered with [q = r + 1] and [parent = n]. *)
Fixpoint insert_leaf_node_scan
    (next : string -> string -> nat -> tree -> result (Z * tree))
    (symlink : string)
    (index_within_archive size mtime branch_mode leaf_mode : Z)
    (prefix r rel_pathname : string) (parent : nat) (st : tree) {struct r}
    : result (Z * tree) :=
  match r with
  | "" =>
      st' ← insert_leaf_node_terminal symlink index_within_archive size
              mtime leaf_mode (prefix +:+ rel_pathname) rel_pathname
              parent st;
      Ok (0, st')
  | String c r' =>
      if negb (Ascii.eqb c "/") then
        insert_leaf_node_scan next symlink index_within_archive size mtime
          branch_mode leaf_mode prefix r' (rel_pathname +:+ String c "")
          parent st
      else
        '(n, st') ← insert_leaf_node_branch mtime branch_mode
                      (prefix +:+ rel_pathname) rel_pathname parent st;
        match n with
        | None => Ok (0, st')
        | Some n => next (prefix +:+ rel_pathname +:+ "/") r' n st'
        end
  end.

(** The [while (true)] loop of [insert_leaf_node], entered with [q]:
    the update of [parent->mtime] and [parent->mode], then the scan. *)
Fixpoint insert_leaf_node_loop (symlink : string)
    (index_within_archive size mtime branch_mode leaf_mode : Z)
    (prefix q : string) (parent : nat) (st : tree) {struct q}
    : result (Z * tree) :=
  nodes1 ← Node.update (nodes st) parent
             (fun x =>
                Node.set_mode (Z.lor (Node.mode x) branch_mode)
                  (if Node.mtime x <? mtime then Node.set_mtime mtime x
                   else x));
  insert_leaf_node_scan
    (fun prefix' q' n st' =>
       insert_leaf_node_loop symlink index_within_archive size mtime
         branch_mode leaf_mode prefix' q' n st')
    symlink index_within_archive size mtime branch_mode leaf_mode
    prefix q "" parent (set_nodes nodes1 st).

Definition insert_leaf_node (pathname symlink : string)
    (index_within_archive size mtime mode : Z) (st : tree)
    : result (Z * tree) :=
  if index_within_archive <? 0 then Ok (- EIO, st)
  else
    let rx_bits := Z.land mode 365 (* 0555 *) in
    let r_bits := Z.land rx_bits 292 (* 0444 *) in
    let branch_mode := Z.lor (Z.lor rx_bits (Z.shiftr r_bits 2)) S_IFDIR in
    let leaf_mode :=
      Z.lor rx_bits (if String.eqb symlink "" then S_IFREG else S_IFLNK) in
    match pathname with
    | String c q =>
        if negb (Ascii.eqb c "/") then Ok (0, st)
        else
          parent ← deref (g_root_node st);
          insert_leaf_node_loop symlink index_within_archive size mtime
            branch_mode leaf_mode "/" q parent st
    | "" => Ok (0, st)
    end.

(** ** Building the tree *)

Definition insert_root_node (st : tree) : tree :=
  let n := length (nodes st) in
  {| nodes := nodes st ++ [Node.new "" "" (-1) 0 0 S_IFDIR];
     g_nodes_by_name := <["/" := n]> (g_nodes_by_name st);
     g_nodes_by_index := g_nodes_by_index st;
     g_root_node := Some n;
     g_block_count := g_block_count st |}.

Section Bootstrap.
Context `{Libarchive}.

(** [g_initialize_archive], [g_initialize_archive_entry] and
    [g_initialize_index_within_archive]. *)
Record initialize_globals : Type := {
  g_initialize_archive : option struct_archive;
  g_initialize_archive_entry : option struct_archive_entry;
  g_initialize_index_within_archive : Z;
}.

(** The loop of [insert_leaf] that decompresses an entry of unknown
    size.  The result is the size, or [None] for [return -EIO]. *)
Fixpoint insert_leaf_measure (fuel : nat) (a : option struct_archive)
    (s : side_buffers) (size : Z)
    : result (option Z * option struct_archive * side_buffers) :=
  match fuel with
  | O => OutOfFuel
  | S fuel' =>
      a0 ← deref a;
      let '(n, bytes, a') := archive_read_data a0 SIDE_BUFFER_SIZE in
      let s' :=
        set_data s SIDE_BUFFER_INDEX_DECOMPRESSED
          (store bytes (data_at s SIDE_BUFFER_INDEX_DECOMPRESSED)) in
      if n =? 0 then Ok (Some size, Some a', s')
      else if n <? 0 then Ok (None, Some a', s')
      else if n >? SIDE_BUFFER_SIZE then Aborted
      else insert_leaf_measure fuel' (Some a') s' (size + n)
  end.

Definition insert_leaf (fuel : nat) (g_archive_is_raw : bool)
    (g_archive_innername : option string) (a : option struct_archive)
    (e : struct_archive_entry) (index_within_archive : Z)
    (s : side_buffers) (st : tree)
    : result (Z * option struct_archive * side_buffers * tree) :=
  let pathname := normalize_pathname g_archive_is_raw g_archive_innername e in
  if String.eqb pathname "" then Ok (0, a, s, st)
  else
    let mode := archive_entry_mode e in
    if S_ISBLK mode || S_ISCHR mode || S_ISFIFO mode || S_ISSOCK mode
    then Ok (0, a, s, st)
    else
      let symlink :=
        if S_ISLNK mode then
          default ""
            (match archive_entry_symlink_utf8 e with
             | Some l => Some l
             | None => archive_entry_symlink e
             end)
        else "" in
      if S_ISLNK mode && String.eqb symlink "" then Ok (0, a, s, st)
      else
        '(size, a, s) ←
          (if negb (archive_entry_size_is_set e)
           then insert_leaf_measure fuel a s (archive_entry_size e)
           else Ok (Some (archive_entry_size e), a, s));
        match size with
        | None => Ok (- EIO, a, s, st)
        | Some size =>
            '(ret, st') ← insert_leaf_node pathname symlink
                            index_within_archive size
                            (archive_entry_mtime e) mode st;
            Ok (ret, a, s, st')
        end.

(** The [while (true)] loop of [build_tree]. *)
Fixpoint build_tree_loop (fuel : nat) (g_archive_is_raw : bool)
    (g_archive_innername : option string) (first : bool)
    (g : initialize_globals) (s : side_buffers) (st : tree)
    : result (Z * initialize_globals * side_buffers * tree) :=
  match fuel with
  | O => OutOfFuel
  | S fuel' =>
      (* [Some g] to go on with the entry, [None] at [break] or
         [return -EIO] *)
      '(ret, go, g) ←
        (if first then Ok (0, true, g)
         else
           a ← deref (g_initialize_archive g);
           let '(status, e, a') := archive_read_next_header a in
           let g1 :=
             {| g_initialize_archive := Some a';
                g_initialize_archive_entry := e;
                g_initialize_index_within_archive :=
                  g_initialize_index_within_archive g + 1 |} in
           if status =? ARCHIVE_EOF then Ok (0, false, g1)
           else if status =? ARCHIVE_WARN then Ok (0, true, g1)
           else if negb (status =? ARCHIVE_OK) then Ok (- EIO, false, g1)
           else Ok (0, true, g1));
      if negb (go : bool) then Ok (ret, g, s, st)
      else
        e ← deref (g_initialize_archive_entry g);
        if S_ISDIR (archive_entry_mode e) then
          build_tree_loop fuel' g_archive_is_raw g_archive_innername false
            g s st
        else
          '(ret, a, s, st) ←
            insert_leaf fuel g_archive_is_raw g_archive_innername
              (g_initialize_archive g) e
              (g_initialize_index_within_archive g) s st;
          let g :=
            {| g_initialize_archive := a;
               g_initialize_archive_entry := g_initialize_archive_entry g;
               g_initialize_index_within_archive :=
                 g_initialize_index_within_archive g |} in
          if negb (ret =? 0) then Ok (ret, g, s, st)     (* [TRY] *)
          else
            build_tree_loop fuel' g_archive_is_raw g_archive_innername
              false g s st
  end.

Definition build_tree (fuel : nat) (g_archive_is_raw : bool)
    (g_archive_innername : option string) (g : initialize_globals)
    (s : side_buffers) (st : tree)
    : result (Z * initialize_globals * side_buffers * tree) :=
  if g_initialize_index_within_archive g <? 0 then Ok (- EIO, g, s, st)
  else build_tree_loop fuel g_archive_is_raw g_archive_innername true g s st.

Definition post_initialize_sync (fuel : nat) (g_archive_is_raw : bool)
    (g_archive_innername : option string) (g : initialize_globals)
    (s : side_buffers) (st : tree)
    : result (Z * initialize_globals * side_buffers * tree) :=
  match g_root_node st with
  | Some _ => Ok (0, g, s, st)
  | None =>
      '(error, _, s, st) ←
        build_tree fuel g_archive_is_raw g_archive_innername g s
          (insert_root_node st);
      Ok (error,
          {| g_initialize_archive := None;
             g_initialize_archive_entry := None;
             g_initialize_index_within_archive := -1 |},
          s, st)
  end.

End Bootstrap.

(** ** FUSE callbacks *)

Section Callbacks.
Context `{Libarchive}.

(** [my_read].  [fh] is the [Reader*] held in [ffi->fh]; the result is
    the [int] returned, the destination buffer, the Reader behind
    [ffi->fh], the side buffers and the reader cache. *)
Definition my_read (fuel : nat) (password g_archive_realpath : string)
    (st : tree) (pathname : string) (dst_ptr : list Byte.byte)
    (dst_len offset : Z) (fh : option Reader.t)
    (s : side_buffers) (c : reader_cache)
    : result (Z * list Byte.byte * option Reader.t * side_buffers *
              reader_cache) :=
  if (offset <? 0) || (dst_len >? INT_MAX) then
    Ok (- EINVAL, dst_ptr, fh, s, c)
  else
    match fh with
    | None => Ok (- EIO, dst_ptr, fh, s, c)
    | Some r =>
        if negb (bool_decide (is_Some (Reader.archive r))) ||
           negb (bool_decide (is_Some (Reader.archive_entry r)))
        then Ok (- EIO, dst_ptr, fh, s, c)
        else
          let i := to_uint64 (Reader.index_within_archive r) in
          if i >=? Z.of_nat (length (g_nodes_by_index st)) then
            Ok (- EIO, dst_ptr, fh, s, c)
          else
            match default None (g_nodes_by_index st !! Z.to_nat i) with
            | None => Ok (- EIO, dst_ptr, fh, s, c)
            | Some n =>
                node ← deref (nodes st !! n);
                let size := Node.size node in
                if size <? 0 then Ok (- EIO, dst_ptr, fh, s, c)
                else if size <=? offset then Ok (0, dst_ptr, fh, s, c)
                else
                  let remaining := to_uint64 (size - offset) in
                  let dst_len :=
                    if dst_len >? remaining then remaining else dst_len in
                  if dst_len =? 0 then Ok (0, dst_ptr, fh, s, c)
                  else
                    let '(hit, dst1, s1) :=
                      read_from_side_buffer (Reader.index_within_archive r)
                        dst_ptr dst_len offset s in
                    if hit then Ok (dst_len, dst1, fh, s1, c)
                    else
                      '(r1, c1) ←
                        (if offset <? Reader.offset_within_entry r then
                           '(ur, c1) ←
                             acquire_reader password g_archive_realpath
                               (Reader.index_within_archive r) c;
                           match ur with
                           | None => Ok (None, c1)
                           | Some ur =>
                               if negb (bool_decide
                                          (is_Some (Reader.archive ur))) ||
                                  negb (bool_decide
                                          (is_Some (Reader.archive_entry ur)))
                               then Ok (None, c1)
                               else
                                 let '(r', ur') := Reader.swap r ur in
                                 Ok (Some r', release_reader (Some ur') c1)
                           end
                         else Ok (Some r, c));
                      match r1 with
                      | None => Ok (- EIO, dst1, fh, s1, c1)
                      | Some r1 =>
                          '(ok, r2, s2) ←
                            Reader.advance_offset fuel r1 offset pathname s1;
                          if negb (ok : bool) then
                            Ok (- EIO, dst1, Some r2, s2, c1)
                          else
                            '(n, r3, dst2) ←
                              Reader.read r2 dst1 dst_len pathname;
                            Ok (n, dst2, Some r3, s2, c1)
                      end
            end
    end.

(** [my_release]. *)
Definition my_release (pathname : string) (fh : option Reader.t)
    (c : reader_cache) : Z * reader_cache :=
  match fh with
  | None => (- EIO, c)
  | Some r => (0, release_reader (Some r) c)
  end.

End Callbacks.

(** ** A scripted libarchive, used in the examples *)

(** The state of a scripted handle: the headers still to come, each
    with its status, its entry and the decompressed length of the
    entry's data; the number of bytes left in the current entry; and
    whether decompression fails.  All data bytes are zero. *)
Record script : Type := {
  script_headers : list (Z * struct_archive_entry * Z);
  script_remaining : Z;
  script_data_error : bool;
}.

Definition script_next_header (a : script)
    : Z * option struct_archive_entry * script :=
  match script_headers a with
  | [] => (ARCHIVE_EOF, None, a)
  | (status, e, len) :: rest =>
      (status, Some e,
       {| script_headers := rest; script_remaining := len;
          script_data_error := script_data_error a |})
  end.

Definition script_read_data (a : script) (len : Z)
    : Z * list Byte.byte * script :=
  if script_data_error a then (ARCHIVE_FATAL, [], a)
  else
    let n := Z.min len (script_remaining a) in
    (n, repeat Byte.x00 (Z.to_nat n),
     {| script_headers := script_headers a;
        script_remaining := script_remaining a - n;
        script_data_error := false |}).

(** The library over an archive file whose contents are [file]; when
    [openable] is false, opening it fails. *)
Definition scripted (file : script) (openable : bool) : Libarchive :=
  {| struct_archive := script;
     archive_read_new :=
       Some {| script_headers := []; script_remaining := 0;
               script_data_error := false |};
     archive_read_add_passphrase a _ := a;
     archive_read_support_filter_all a := a;
     archive_read_support_format_all a := a;
     archive_read_support_format_raw a := a;
     archive_read_open_filename a _ _ :=
       if openable then (ARCHIVE_OK, file) else (ARCHIVE_FATAL, a);
     archive_read_next_header := script_next_header;
     archive_read_data := script_read_data |}.

(** A regular-file entry. *)
Definition file_entry (pathname : string) (mode size mtime : Z)
    : struct_archive_entry :=
  {| archive_entry_pathname_utf8 := Some pathname;
     archive_entry_pathname := Some pathname;
     archive_entry_mode := Z.lor S_IFREG mode;
     archive_entry_symlink_utf8 := None;
     archive_entry_symlink := None;
     archive_entry_size := size;
     archive_entry_size_is_set := true;
     archive_entry_mtime := mtime |}.

(** The state before [post_initialize_sync]: no node yet, zeroed side
    buffers. *)
Definition empty_tree : tree :=
  {| nodes := []; g_nodes_by_name := ∅; g_nodes_by_index := [];
     g_root_node := None; g_block_count := 1 |}.

Definition zeroed_side_buffers : side_buffers :=
  {| g_side_buffer_data := replicate NUM_SIDE_BUFFERS [];
     g_side_buffer_metadata :=
       replicate NUM_SIDE_BUFFERS side_buffer_metadata.zero;
     next_lru_priority := 0 |}.

(** The spec's condition for a side buffer to cover the request
    [(idx, off, len)]. *)
Definition covers (m : side_buffer_metadata.t) (idx off len : Z) : Prop :=
  side_buffer_metadata.index_within_archive m = idx /\
  side_buffer_metadata.offset_within_entry m <= off /\
  side_buffer_metadata.length m -
    (off - side_buffer_metadata.offset_within_entry m) >= len.

(** Side buffer [i] with its LRU priority set to [p], and the counter
    set to [p]. *)
Definition bump_lru_priority (s : side_buffers) (i : nat) (p : Z)
    : side_buffers :=
  {| g_side_buffer_data := g_side_buffer_data s;
     g_side_buffer_metadata :=
       <[i := {| side_buffer_metadata.index_within_archive :=
                   side_buffer_metadata.index_within_archive (meta_at s i);
                 side_buffer_metadata.offset_within_entry :=
                   side_buffer_metadata.offset_within_entry (meta_at s i);
                 side_buffer_metadata.length :=
                   side_buffer_metadata.length (meta_at s i);
                 side_buffer_metadata.lru_priority := p |}]>
         (g_side_buffer_metadata s);
     next_lru_priority := p |}.

Definition example_side_buffers : side_buffers :=
  {| g_side_buffer_data := replicate NUM_SIDE_BUFFERS (repeat Byte.x00 32);
     g_side_buffer_metadata :=
       <[5%nat := {| side_buffer_metadata.index_within_archive := 3;
                      side_buffer_metadata.offset_within_entry := 0;
                      side_buffer_metadata.length := 32;
                      side_buffer_metadata.lru_priority := 2 |}]>
       (<[2%nat := {| side_buffer_metadata.index_within_archive := 3;
                       side_buffer_metadata.offset_within_entry := 8;
                       side_buffer_metadata.length := 8;
                       side_buffer_metadata.lru_priority := 1 |}]>
          (replicate NUM_SIDE_BUFFERS side_buffer_metadata.zero));
     next_lru_priority := 2 |}.

Definition INT64_MAX : Z := 2 ^ 63 - 1.

(** A tree with a root and one regular file of 100 bytes, entry 3 of
    the archive. *)
Definition example_tree : tree :=
  {| nodes :=
       [ {| Node.rel_name := ""; Node.symlink := "";
            Node.index_within_archive := -1; Node.size := 512;
            Node.mtime := 7; Node.mode := Z.lor S_IFDIR 365;
            Node.parent := None; Node.last_child := Some 1%nat;
            Node.first_child := Some 1%nat; Node.next_sibling := None |};
         {| Node.rel_name := "f"; Node.symlink := "";
            Node.index_within_archive := 3; Node.size := 100;
            Node.mtime := 7; Node.mode := Z.lor S_IFREG 292;
            Node.parent := Some 0%nat; Node.last_child := None;
            Node.first_child := None; Node.next_sibling := None |} ];
     g_nodes_by_name := <["/f" := 1%nat]> (<["/" := 0%nat]> ∅);
     g_nodes_by_index := [None; None; None; Some 1%nat];
     g_root_node := Some 0%nat;
     g_block_count := 3 |}.

(** An archive with four entries; the last one is the 100-byte file. *)
Definition example_archive : script :=
  {| script_headers :=
       [ (ARCHIVE_OK, file_entry "d/" 365 0 7, 0);
         (ARCHIVE_OK, file_entry "../x" 292 5 7, 5);
         (ARCHIVE_WARN, file_entry "d/f" 292 300000 7, 300000);
         (ARCHIVE_OK, file_entry "f" 292 100 7, 100) ];
     script_remaining := 0;
     script_data_error := false |}.

(** A Reader of the scripted library at entry [index], [offset] bytes
    into an entry of [len] bytes, with no header left. *)
Definition example_reader (index offset len : Z)
    : @Reader.t (scripted example_archive true) :=
  @Reader.Build_t (scripted example_archive true)
    (Some {| script_headers := []; script_remaining := len - offset;
             script_data_error := false |})
    (Some (file_entry "f" 292 len 7))
    index offset.

Definition empty_reader_cache `{Libarchive} : reader_cache :=
  {| g_saved_readers := replicate NUM_SAVED_READERS (None, 0);
     release_next_lru_priority := 0 |}.

(** ** Runs of a Reader *)

Section ReaderRuns.
Context `{Libarchive}.

(** A call of one of the three methods of [Reader]. *)
Inductive reader_call : Type :=
| call_advance_index (want : Z)
| call_advance_offset (fuel : nat) (want : Z) (pathname : string)
| call_read (dst_ptr : list Byte.byte) (dst_len : Z) (pathname : string).

Definition run_call (k : reader_call) (r : Reader.t) (s : side_buffers)
    : result (Reader.t * side_buffers) :=
  match k with
  | call_advance_index want =>
      '(_, r') ← Reader.advance_index r want; Ok (r', s)
  | call_advance_offset fuel want pathname =>
      '(_, r', s') ← Reader.advance_offset fuel r want pathname s;
      Ok (r', s')
  | call_read dst_ptr dst_len pathname =>
      '(_, r', _) ← Reader.read r dst_ptr dst_len pathname; Ok (r', s)
  end.

(** The states of the Reader after each call of a sequence. *)
Fixpoint run_calls (ks : list reader_call) (r : Reader.t) (s : side_buffers)
    : result (list Reader.t) :=
  match ks with
  | [] => Ok []
  | k :: ks' =>
      '(r', s') ← run_call k r s;
      tr ← run_calls ks' r' s';
      Ok (r' :: tr)
  end.

(** One step of a Reader: the offset grows within the entry, or the
    index grows and the offset is 0. *)
Definition reader_step (r r' : Reader.t) : Prop :=
  (Reader.index_within_archive r' = Reader.index_within_archive r /\
   Reader.offset_within_entry r <= Reader.offset_within_entry r') \/
  (Reader.index_within_archive r < Reader.index_within_archive r' /\
   Reader.offset_within_entry r' = 0).

(** The lexicographic order on [(index, offset)]. *)
Definition reader_le (r r' : Reader.t) : Prop :=
  Reader.index_within_archive r < Reader.index_within_archive r' \/
  (Reader.index_within_archive r = Reader.index_within_archive r' /\
   Reader.offset_within_entry r <= Reader.offset_within_entry r').

End ReaderRuns.

Definition example_library : Libarchive := scripted example_archive true.

Definition example_fresh_reader : @Reader.t example_library :=
  @Reader.new example_library example_archive.

Section ReaderCacheSpec.
Context `{Libarchive}.

(** A cached Reader qualifies for [want] when its state is at or before
    [(want, 0)] in the lexicographic order. *)
Definition qualifies (want : Z) (r : Reader.t) : Prop :=
  Reader.index_within_archive r < want \/
  (Reader.index_within_archive r = want /\
   Reader.offset_within_entry r <= 0).

(** The cache with slot [i] emptied by [acquire_reader]. *)
Definition take_saved_reader (c : reader_cache) (i : nat) : reader_cache :=
  {| g_saved_readers := <[i := (None, 0)]> (g_saved_readers c);
     release_next_lru_priority := release_next_lru_priority c |}.

End ReaderCacheSpec.

(** A Reader of the scripted library at [(index, offset)] with fifty
    empty entries still ahead of it. *)
Definition example_reader_at (index offset : Z) : @Reader.t example_library :=
  @Reader.Build_t example_library
    (Some {| script_headers :=
               repeat (ARCHIVE_OK, file_entry "e" 292 0 0, 0) 50;
             script_remaining := 0; script_data_error := false |})
    (Some (file_entry "e" 292 0 0))
    index offset.

(** A cache holding Readers at [(30, 500)], [(50, 0)] and [(10, 7)]. *)
Definition example_reader_cache : @reader_cache example_library :=
  {| g_saved_readers :=
       <[1%nat := (Some (example_reader_at 30 500), 5)]>
         (<[4%nat := (Some (example_reader_at 50 0), 6)]>
            (<[6%nat := (Some (example_reader_at 10 7), 2)]>
               (replicate NUM_SAVED_READERS (None, 0))));
     release_next_lru_priority := 6 |}.

(** ** The chunks of [advance_offset] *)

(** The chunking policy in the spec's words, for a distance [d > 0]:
    one chunk when [d] is at most [SIDE_BUFFER_SIZE]; otherwise the
    remainder of [d] by [SIDE_BUFFER_SIZE] first (a full chunk when the
    remainder is 0), then full chunks. *)
Definition first_chunk (d : Z) : Z :=
  if d <=? SIDE_BUFFER_SIZE then d
  else if d mod SIDE_BUFFER_SIZE =? 0 then SIDE_BUFFER_SIZE
  else d mod SIDE_BUFFER_SIZE.

Definition chunk_plan (d : Z) : list Z :=
  first_chunk d ::
  repeat SIDE_BUFFER_SIZE (Z.to_nat ((d - first_chunk d) / SIDE_BUFFER_SIZE)).

(** The length of the last chunk of the plan. *)
Definition last_chunk (d : Z) : Z :=
  if d <=? SIDE_BUFFER_SIZE then d else SIDE_BUFFER_SIZE.

Definition empty_metadata (lru_priority : Z) : side_buffer_metadata.t :=
  {| side_buffer_metadata.index_within_archive := -1;
     side_buffer_metadata.offset_within_entry := -1;
     side_buffer_metadata.length := -1;
     side_buffer_metadata.lru_priority := lru_priority |}.

Section Serves.
Context `{Libarchive}.

(** Starting in state [a], libarchive serves the successive requests
    for [lens] bytes in full and is then in state [a']. *)
Fixpoint serves (a : struct_archive) (lens : list Z) (a' : struct_archive)
    : Prop :=
  match lens with
  | [] => a = a'
  | len :: lens' =>
      exists bytes a1,
        archive_read_data a len = (len, bytes, a1) /\ serves a1 lens' a'
  end.

(** The contents of a buffer that held [data] after libarchive, starting
    in state [a], has decompressed the successive requests for [lens]
    bytes, each to the start of the buffer. *)
Fixpoint stored (a : struct_archive) (lens : list Z)
    (data : list Byte.byte) : list Byte.byte :=
  match lens with
  | [] => data
  | len :: lens' =>
      let '(_, bytes, a1) := archive_read_data a len in
      stored a1 lens' (store bytes data)
  end.

End Serves.

(** ** Pathnames in the spec's words *)

(** The pathname of an entry: the UTF-8 one when libarchive has it,
    else the raw one. *)
Definition entry_pathname (e : struct_archive_entry) : option string :=
  match archive_entry_pathname_utf8 e with
  | Some s => Some s
  | None => archive_entry_pathname e
  end.

(** The components of a pathname: the texts between its slashes. *)
Fixpoint split_slash (s : string) : list string :=
  match s with
  | "" => [""]
  | String c s' =>
      if Ascii.eqb c "/" then "" :: split_slash s'
      else
        match split_slash s' with
        | f :: fs => String c f :: fs
        | [] => [String c ""]
        end
  end.

(** The pathname without a single leading "./" or "/". *)
Definition strip_leading (s : string) : string :=
  match s with
  | String c1 s1 =>
      if Ascii.eqb c1 "/" then s1
      else
        match s1 with
        | String c2 s2 =>
            if Ascii.eqb c1 "." && Ascii.eqb c2 "/" then s2 else s
        | "" => s
        end
  | "" => s
  end.

(** A component that is empty, "." or "..". *)
Definition bad_component (f : string) : bool :=
  String.eqb f "" || String.eqb f "." || String.eqb f "..".

(** An archive whose only entry is named "../evil". *)
Definition evil_archive : script :=
  {| script_headers := [];
     script_remaining := 0;
     script_data_error := false |}.

Definition evil_initialize_globals
    : @initialize_globals (scripted evil_archive true) :=
  @Build_initialize_globals (scripted evil_archive true)
    (Some evil_archive)
    (Some (file_entry "../evil" 420 4 1))
    0.

(** The name that [normalize_pathname] validates: the entry's pathname,
    or the archive's inner name for the entry "data" of a raw
    archive. *)
Definition entry_name (g_archive_is_raw : bool)
    (g_archive_innername : option string) (e : struct_archive_entry)
    : option string :=
  match entry_pathname e with
  | None => None
  | Some s =>
      Some match g_archive_innername with
           | Some innername =>
               if g_archive_is_raw && negb (at_end innername) &&
                  String.eqb s "data"
               then innername else s
           | None => s
           end
  end.

(** The state of the search loop of [read_from_side_buffer] after the
    indexes [seen]. *)
Definition best_inv (s : side_buffers) (idx len off : Z) (seen : list nat)
    (acc : option nat * Z) : Prop :=
  match acc.1 with
  | None =>
      acc.2 = -1 /\
      forall j, j ∈ seen ->
        side_buffer_metadata.contains (meta_at s j) idx off len = false
  | Some i =>
      i ∈ seen /\
      acc.2 = side_buffer_metadata.length (meta_at s i) /\
      side_buffer_metadata.contains (meta_at s i) idx off len = true /\
      forall j, j ∈ seen ->
        side_buffer_metadata.contains (meta_at s j) idx off len = true ->
        side_buffer_metadata.length (meta_at s j) <= acc.2
  end.

(** ** The walk of [insert_leaf_node], for the proofs *)

(** The fragment that the scan [while ( *r != 0 && *r != '/' )] stops
    after, with the text after the slash when it stops at a slash. *)
Fixpoint scan_fragment (r : string) : string * option string :=
  match r with
  | "" => ("", None)
  | String c r' =>
      if Ascii.eqb c "/" then ("", Some r')
      else let '(f, rest) := scan_fragment r' in (String c f, rest)
  end.

(** A text without a slash. *)
Fixpoint no_slash (s : string) : bool :=
  match s with
  | "" => true
  | String c s' => negb (Ascii.eqb c "/") && no_slash s'
  end.

(** The update of [parent->mtime] and [parent->mode] at the top of the
    loop of [insert_leaf_node]. *)
Definition touch (mtime branch_mode : Z) (x : Node.t) : Node.t :=
  Node.set_mode (Z.lor (Node.mode x) branch_mode)
    (if Node.mtime x <? mtime then Node.set_mtime mtime x else x).

(** [branch_mode] and [leaf_mode] as [insert_leaf_node] computes them
    from the mode of the entry. *)
Definition branch_mode_of (mode : Z) : Z :=
  Z.lor (Z.lor (Z.land mode 365) (Z.shiftr (Z.land (Z.land mode 365) 292) 2))
    S_IFDIR.

Definition leaf_mode_of (symlink : string) (mode : Z) : Z :=
  Z.lor (Z.land mode 365) (if String.eqb symlink "" then S_IFREG else S_IFLNK).

(** ** Invariants of the tree *)

(** Every bit of [a] is a bit of [b]. *)
Definition bits_sub (a b : Z) : Prop := Z.lor a b = b.

(** The read and execute bits of a mode, with each read bit mirrored
    into the execute position: [rx_bits | (r_bits >> 2)]. *)
Definition branch_bits (mode : Z) : Z :=
  Z.lor (Z.land mode 365) (Z.shiftr (Z.land (Z.land mode 365) 292) 2).

(** What a node hands up to its parent directory: for a leaf the branch
    bits of its mode, for a directory its permission bits. *)
Definition contrib (n : Node.t) : Z :=
  if Node.is_dir n then Z.land (Node.mode n) 365
  else branch_bits (Node.mode n).

(** The directory that the pathname [A] names, where the empty [A]
    stands for the root. *)
Definition dir_at (st : tree) (A : string) : option nat :=
  if String.eqb A "" then g_root_node st else g_nodes_by_name st !! A.

Record tree_inv (st : tree) : Prop := {
  inv_root :
    exists root rnode,
      g_root_node st = Some root /\ nodes st !! root = Some rnode /\
      Node.is_dir rnode = true /\ Node.parent rnode = None /\
      g_nodes_by_name st !! "/" = Some root;
  inv_names :
    forall K n, g_nodes_by_name st !! K = Some n ->
      is_Some (nodes st !! n);
  inv_parent :
    forall c cn p,
      nodes st !! c = Some cn -> Node.parent cn = Some p ->
      exists pn,
        nodes st !! p = Some pn /\ Node.is_dir pn = true /\
        Node.mtime cn <= Node.mtime pn /\
        bits_sub (contrib cn) (Node.mode pn);
  inv_last_child :
    forall d dn l,
      nodes st !! d = Some dn -> Node.last_child dn = Some l ->
      is_Some (nodes st !! l);
  inv_name_parent :
    forall A rel n,
      g_nodes_by_name st !! (A +:+ "/" +:+ rel) = Some n ->
      no_slash rel = true -> ~ (A = "" /\ rel = "") ->
      exists cn p,
        nodes st !! n = Some cn /\ Node.parent cn = Some p /\
        dir_at st A = Some p;
}.

(** [st'] extends [st]: names and nodes are kept, and a node keeps its
    parent, its index and its kind while its mtime and its mode bits
    only grow. *)
Record tree_le (st st' : tree) : Prop := {
  le_root : g_root_node st' = g_root_node st;
  le_names :
    forall K n, g_nodes_by_name st !! K = Some n ->
      g_nodes_by_name st' !! K = Some n;
  le_nodes :
    forall k x, nodes st !! k = Some x ->
      exists x',
        nodes st' !! k = Some x' /\
        Node.mtime x <= Node.mtime x' /\
        bits_sub (Node.mode x) (Node.mode x') /\
        Node.parent x' = Node.parent x /\
        Node.index_within_archive x' = Node.index_within_archive x /\
        Node.is_dir x' = Node.is_dir x;
}.

(** [x'] is [x] up to its size and its links to children and siblings. *)
Definition node_kept (x x' : Node.t) : Prop :=
  Node.mode x' = Node.mode x /\ Node.mtime x' = Node.mtime x /\
  Node.index_within_archive x' = Node.index_within_archive x /\
  Node.parent x' = Node.parent x.

(** The nodes of [h'] are those of [h], up to their sizes and their
    links to children and siblings, where a last child may have become
    [n]. *)
Definition heap_kept (n : nat) (h h' : list Node.t) : Prop :=
  length h' = length h /\
  forall k x, h !! k = Some x ->
    exists x', h' !! k = Some x' /\ node_kept x x' /\
      (Node.last_child x' = Node.last_child x \/
       Node.last_child x' = Some n).


(** What an iteration of the loop of [insert_leaf_node] for a leaf with
    [mtime] and [mode] relies on: [parent] is the directory that [A]
    names, and the directory above it has been updated already. *)
Definition walk_pre (mtime mode : Z) (st : tree) (A : string) (parent : nat)
    : Prop :=
  tree_inv st /\ dir_at st A = Some parent /\
  exists pn,
    nodes st !! parent = Some pn /\ Node.is_dir pn = true /\
    forall pp ppn, Node.parent pn = Some pp -> nodes st !! pp = Some ppn ->
      mtime <= Node.mtime ppn /\ bits_sub (branch_bits mode) (Node.mode ppn).


(** ** Directories and the leaves below them *)

(** Whether [d] is reached from [c] through at most [fuel] [parent]
    pointers, at least one. *)
Fixpoint is_descendant (fuel : nat) (st : tree) (d c : nat) : bool :=
  match fuel with
  | O => false
  | S fuel' =>
      match nodes st !! c with
      | Some C =>
          match Node.parent C with
          | Some p => (p =? d)%nat || is_descendant fuel' st d p
          | None => false
          end
      | None => false
      end
  end.

(** The leaves of the tree below the directory [d]. *)
Definition leaf_descendants (st : tree) (d : nat) : list Node.t :=
  omap (fun l =>
          match nodes st !! l with
          | Some L =>
              if negb (Node.is_dir L) &&
                 is_descendant (length (nodes st)) st d l
              then Some L else None
          | None => None
          end)
       (seq 0 (length (nodes st))).

(** The mode of a directory in the spec's words: the directory-type bit
    with the read and execute bits of the leaves below it, each read bit
    mirrored into the execute position. *)
Definition spec_directory_mode (st : tree) (d : nat) : Z :=
  foldr (fun L acc => Z.lor (branch_bits (Node.mode L)) acc) S_IFDIR
    (leaf_descendants st d).

(** An archive with two entries named "a/x": the first one read-only
    with mtime 5, the second one with mode 0555 and mtime 7. *)
Definition collision_archive : script :=
  {| script_headers := [(ARCHIVE_OK, file_entry "a/x" 365 (* 0555 *) 3 7, 3)];
     script_remaining := 3;
     script_data_error := false |}.

Definition collision_initialize_globals
    : @initialize_globals (scripted collision_archive true) :=
  @Build_initialize_globals (scripted collision_archive true)
    (Some collision_archive)
    (Some (file_entry "a/x" 256 (* 0400 *) 3 5))
    0.

(** The tree after start-up on [collision_archive]. *)
Definition collision_tree : tree :=
  match
    post_initialize_sync (H := scripted collision_archive true) 3 false None
      collision_initialize_globals zeroed_side_buffers empty_tree
  with
  | Ok (_, _, _, st) => st
  | _ => empty_tree
  end.


(** ** The directories that a walk visits *)

(** The directories on the way down the pathname [q] from the directory
    [A], where [cur] is [A] with a slash and the part of the current
    component read so far. *)
Fixpoint dir_paths (A cur q : string) : list string :=
  match q with
  | "" => [A]
  | String c q' =>
      if Ascii.eqb c "/" then A :: dir_paths cur (cur +:+ "/") q'
      else dir_paths A (cur +:+ String c "") q'
  end.

(** The proper ancestors of the absolute pathname [K], the root first,
    which is written as the empty pathname: those of "/a/b/c" are "",
    "/a" and "/a/b". *)
Definition ancestor_paths (K : string) : list string :=
  match K with
  | String c k => if Ascii.eqb c "/" then dir_paths "" "/" k else []
  | "" => []
  end.


(** ** The lists of children *)

(** The links of a heap of nodes are in order: a first child and a last
    child of a node have that node as their parent, and a next sibling
    has the parent of the node before it. *)
Definition links_inv (h : list Node.t) : Prop :=
  forall k x, h !! k = Some x ->
    (forall f, Node.first_child x = Some f ->
       exists F, h !! f = Some F /\ Node.parent F = Some k) /\
    (forall l, Node.last_child x = Some l ->
       exists L, h !! l = Some L /\ Node.parent L = Some k) /\
    (forall n, Node.next_sibling x = Some n ->
       exists N, h !! n = Some N /\ Node.parent N = Node.parent x).

(** The walk [for (p = c; p; p = p->next_sibling)] over siblings, at
    most [fuel] of them. *)
Fixpoint siblings (fuel : nat) (h : list Node.t) (c : option nat)
    : list nat :=
  match fuel, c with
  | S fuel', Some c =>
      c :: siblings fuel' h
             (match h !! c with
              | Some C => Node.next_sibling C
              | None => None
              end)
  | _, _ => []
  end.

(** The children of the node [d], from [first_child] on. *)
Definition children (fuel : nat) (st : tree) (d : nat) : list nat :=
  match nodes st !! d with
  | Some D => siblings fuel (nodes st) (Node.first_child D)
  | None => []
  end.


(** ** Where the mode bits of a directory come from *)

(** A node is allocated after its parent. *)
Definition parent_before (h : list Node.t) : Prop :=
  forall c C p, h !! c = Some C -> Node.parent C = Some p -> (p < c)%nat.

(** Every bit of the mode of a directory is a directory-type bit or a
    bit that one of its children hands up; the directories in [ex] may
    have bits of [bm] besides. *)
Definition mode_from_children (bm : Z) (ex : nat -> Prop) (h : list Node.t)
    : Prop :=
  forall d D i,
    h !! d = Some D -> Node.is_dir D = true ->
    0 <= i -> Z.testbit (Node.mode D) i = true ->
    Z.testbit S_IFDIR i = true \/
    (ex d /\ Z.testbit bm i = true) \/
    exists c C,
      h !! c = Some C /\ Node.parent C = Some d /\
      Z.testbit (contrib C) i = true.

(** [h2] is [h1] with the node [new] allocated and added as a child of
    [this]: modes and parents are kept. *)
Definition attached (h1 : list Node.t) (new : Node.t) (this : nat)
    (h2 : list Node.t) : Prop :=
  length h2 = S (length h1) /\
  (forall k x, h1 !! k = Some x ->
     exists x', h2 !! k = Some x' /\ Node.mode x' = Node.mode x /\
       Node.parent x' = Node.parent x) /\
  exists x', h2 !! length h1 = Some x' /\ Node.mode x' = Node.mode new /\
    Node.parent x' = Some this.

(** The trees that start-up builds when no leaf is skipped: each call
    of [insert_leaf_node] binds the pathname of its leaf, which was not
    bound before. *)
Inductive inserted_without_collision : tree -> Prop :=
| iwc_root : inserted_without_collision (insert_root_node empty_tree)
| iwc_leaf st pathname symlink idx size mtime mode ret st' :
    inserted_without_collision st ->
    insert_leaf_node pathname symlink idx size mtime mode st = Ok (ret, st') ->
    g_nodes_by_name st !! pathname = None ->
    is_Some (g_nodes_by_name st' !! pathname) ->
    inserted_without_collision st'.


(** An archive with the two entries "a/x" and "a/y". *)
Definition two_files_archive : script :=
  {| script_headers := [(ARCHIVE_OK, file_entry "a/y" 365 (* 0555 *) 4 6, 4)];
     script_remaining := 3;
     script_data_error := false |}.

Definition two_files_initialize_globals
    : @initialize_globals (scripted two_files_archive true) :=
  @Build_initialize_globals (scripted two_files_archive true)
    (Some two_files_archive)
    (Some (file_entry "a/x" 256 (* 0400 *) 3 5))
    0.

(** The tree with the root and the file "/a/x". *)
Definition one_file_tree : tree :=
  match
    insert_leaf_node "/a/x" "" 0 3 5 (Z.lor S_IFREG 256)
      (insert_root_node empty_tree)
  with
  | Ok (_, st) => st
  | _ => empty_tree
  end.

(** The tree after start-up on [two_files_archive]. *)
Definition two_files_tree : tree :=
  match
    post_initialize_sync (H := scripted two_files_archive true) 3 false None
      two_files_initialize_globals zeroed_side_buffers empty_tree
  with
  | Ok (_, _, _, st) => st
  | _ => empty_tree
  end.


(** ** The start of [main] *)

(** The loop of [main] that initializes the side buffers as invalid. *)
Definition main_initialize_side_buffers (s : side_buffers) : side_buffers :=
  foldl (fun s i =>
           set_meta s i
             {| side_buffer_metadata.index_within_archive := -1;
                side_buffer_metadata.offset_within_entry := -1;
                side_buffer_metadata.length := -1;
                side_buffer_metadata.lru_priority := 0 |})
        s (seq 0 NUM_SIDE_BUFFERS).

(** A library whose every entry is the regular file "f", and whose
    reads give one zero byte at a time. *)
Definition steady_library : Libarchive :=
  {| struct_archive := unit;
     archive_read_new := Some tt;
     archive_read_add_passphrase a _ := a;
     archive_read_support_filter_all a := a;
     archive_read_support_format_all a := a;
     archive_read_support_format_raw a := a;
     archive_read_open_filename a _ _ := (ARCHIVE_OK, a);
     archive_read_next_header a := (ARCHIVE_OK, Some (file_entry "f" 420 1 0), a);
     archive_read_data a len :=
       if len <=? 0 then (0, [], a) else (1, [Byte.x00], a) |}.

(** The results of [archive_read_data] are [ssize_t] values. *)
Definition reads_ssize_t `{Libarchive} : Prop :=
  forall a len, - 2 ^ 63 <= (archive_read_data a len).1.1 < 2 ^ 63.

(** What the side buffers keep between calls: there are
    [NUM_SIDE_BUFFERS] of them, and one that is not empty starts at a
    non-negative offset and has at most [SIDE_BUFFER_SIZE] bytes. *)
Definition side_buffers_wf (s : side_buffers) : Prop :=
  length (g_side_buffer_metadata s) = NUM_SIDE_BUFFERS /\
  forall i, (i < NUM_SIDE_BUFFERS)%nat ->
    0 <= side_buffer_metadata.index_within_archive (meta_at s i) ->
    0 <= side_buffer_metadata.offset_within_entry (meta_at s i) /\
    0 <= side_buffer_metadata.length (meta_at s i) <= SIDE_BUFFER_SIZE.


(** ** The other FUSE callbacks *)

(** More [<cerrno>] values on Linux, and [<fcntl.h>], [<limits.h>] and
    [<sys/statvfs.h>] constants. *)
Definition ENOENT : Z := 2.
Definition ENOMEM : Z := 12.
Definition EACCES : Z := 13.
Definition ENOTDIR : Z := 20.
Definition EISDIR : Z := 21.
Definition ENOLINK : Z := 67.
Definition O_ACCMODE : Z := 3.
Definition O_RDONLY : Z := 0.
Definition NAME_MAX : Z := 255.
Definition ST_RDONLY : Z := 1.

(** The fields of a [struct stat] that [get_stat] sets; it zeroes the
    others. *)
Record struct_stat : Type := {
  st_mode : Z;
  st_nlink : Z;
  st_uid : Z;
  st_gid : Z;
  st_size : Z;
  st_mtime : Z;
  st_blksize : Z;
  st_blocks : Z;
}.

(** [Node::get_stat], with the globals [g_uid] and [g_gid]. *)
Definition get_stat (g_uid g_gid : Z) (n : Node.t) : struct_stat :=
  {| st_mode := Node.mode n;
     st_nlink := 1;
     st_uid := g_uid;
     st_gid := g_gid;
     st_size := Node.size n;
     st_mtime := Node.mtime n;
     st_blksize := block_size;
     st_blocks := Node.get_block_count n |}.

(** [my_getattr]: the [int] returned and the [struct stat] behind [z]. *)
Definition my_getattr (g_uid g_gid : Z) (st : tree) (pathname : string)
    (z : struct_stat) : result (Z * struct_stat) :=
  match g_nodes_by_name st !! pathname with
  | None => Ok (- ENOENT, z)
  | Some n =>
      node ← deref (nodes st !! n);
      Ok (0, get_stat g_uid g_gid node)
  end.

(** The bytes of a C string, without the terminating NUL. *)
Definition string_bytes (s : string) : list Byte.byte :=
  list_byte_of_string s.

(** [snprintf(dst_ptr, dst_len, "%s", s)] on a buffer of at least
    [dst_len] bytes: as much of [s] as fits before a terminating NUL,
    nothing when [dst_len] is 0. *)
Definition snprintf_s (dst_ptr : list Byte.byte) (dst_len : Z) (s : string)
    : list Byte.byte :=
  if dst_len =? 0 then dst_ptr
  else
    store (take (Z.to_nat (dst_len - 1)) (string_bytes s) ++ [Byte.x00])
      dst_ptr.

(** [my_readlink]: the [int] returned and the destination buffer.
    [dst_len] is a [size_t]. *)
Definition my_readlink (st : tree) (pathname : string)
    (dst_ptr : list Byte.byte) (dst_len : Z)
    : result (Z * list Byte.byte) :=
  match g_nodes_by_name st !! pathname with
  | None => Ok (- ENOENT, dst_ptr)
  | Some n =>
      node ← deref (nodes st !! n);
      if String.eqb (Node.symlink node) "" || (dst_len =? 0)
      then Ok (- ENOLINK, dst_ptr)
      else Ok (0, snprintf_s dst_ptr dst_len (Node.symlink node))
  end.

Section MoreCallbacks.
Context `{Libarchive}.

(** The fields of a [struct fuse_file_info] that the program uses;
    [fh] holds a [Reader*]. *)
Record fuse_file_info : Type := {
  flags : Z;
  keep_cache : Z;
  fh : option Reader.t;
}.

(** [my_open]: the [int] returned, the [fuse_file_info] behind [ffi]
    and the reader cache. *)
Definition my_open (password g_archive_realpath : string) (st : tree)
    (pathname : string) (ffi : option fuse_file_info) (c : reader_cache)
    : result (Z * option fuse_file_info * reader_cache) :=
  match g_nodes_by_name st !! pathname with
  | None => Ok (- ENOENT, ffi, c)
  | Some n =>
      node ← deref (nodes st !! n);
      if S_ISDIR (Node.mode node) then Ok (- EISDIR, ffi, c)
      else if (Node.index_within_archive node <? 0) ||
              negb (bool_decide (is_Some ffi))
      then Ok (- EIO, ffi, c)
      else
        i ← deref ffi;
        if negb (Z.land (flags i) O_ACCMODE =? O_RDONLY)
        then Ok (- EACCES, ffi, c)
        else
          '(ur, c1) ← acquire_reader password g_archive_realpath
                        (Node.index_within_archive node) c;
          match ur with
          | None => Ok (- EIO, ffi, c1)
          | Some r =>
              Ok (0,
                  Some {| flags := flags i; keep_cache := 1; fh := Some r |},
                  c1)
          end
  end.

End MoreCallbacks.

Section Readdir.
Variable buf : Type.
(** A [fuse_fill_dir_t]: the [int] returned and the buffer. *)
Variable filler : buf -> string -> option struct_stat -> Z -> Z * buf.

(** The loop [for (p = n->first_child; p; p = p->next_sibling)] of
    [my_readdir]. *)
Fixpoint my_readdir_loop (fuel : nat) (g_uid g_gid : Z) (st : tree)
    (p : option nat) (b : buf) : result (Z * buf) :=
  match p with
  | None => Ok (0, b)
  | Some p =>
      match fuel with
      | O => OutOfFuel
      | S fuel' =>
          node ← deref (nodes st !! p);
          let '(full, b') :=
            filler b (Node.rel_name node)
              (Some (get_stat g_uid g_gid node)) 0 in
          if negb (full =? 0) then Ok (- ENOMEM, b')
          else
            my_readdir_loop fuel' g_uid g_gid st (Node.next_sibling node) b'
      end
  end.

(** [my_readdir]: the [int] returned and the buffer. *)
Definition my_readdir (fuel : nat) (g_uid g_gid : Z) (st : tree)
    (pathname : string) (b : buf) : result (Z * buf) :=
  match g_nodes_by_name st !! pathname with
  | None => Ok (- ENOENT, b)
  | Some n =>
      node ← deref (nodes st !! n);
      if negb (S_ISDIR (Node.mode node)) then Ok (- ENOTDIR, b)
      else
        let '(full, b) := filler b "." None 0 in
        if negb (full =? 0) then Ok (- ENOMEM, b)
        else
          let '(full, b) := filler b ".." None 0 in
          if negb (full =? 0) then Ok (- ENOMEM, b)
          else my_readdir_loop fuel g_uid g_gid st (Node.first_child node) b
  end.

End Readdir.

(** The fields of a [struct statvfs]. *)
Record struct_statvfs : Type := {
  f_bsize : Z;
  f_frsize : Z;
  f_blocks : Z;
  f_bfree : Z;
  f_bavail : Z;
  f_files : Z;
  f_ffree : Z;
  f_favail : Z;
  f_flag : Z;
  f_namemax : Z;
}.

(** [my_statfs]: the [int] returned and the [struct statvfs] behind
    [st]. *)
Definition my_statfs (t : tree) : Z * struct_statvfs :=
  (0,
   {| f_bsize := block_size;
      f_frsize := block_size;
      f_blocks := g_block_count t;
      f_bfree := 0;
      f_bavail := 0;
      f_files := Z.of_nat (size (g_nodes_by_name t));
      f_ffree := 0;
      f_favail := 0;
      f_flag := ST_RDONLY;
      f_namemax := NAME_MAX |}).


(** ** What serving keeps *)

Section ServingState.
Context `{Libarchive}.

(** A Reader as the constructor and the methods leave it: with a
    stream, at an index from -1 on and at a non-negative offset. *)
Definition reader_wf (r : Reader.t) : Prop :=
  is_Some (Reader.archive r) /\
  -1 <= Reader.index_within_archive r /\
  0 <= Reader.offset_within_entry r.

(** The reader cache has [NUM_SAVED_READERS] slots, and its Readers are
    as above. *)
Definition readers_wf (c : reader_cache) : Prop :=
  length (g_saved_readers c) = NUM_SAVED_READERS /\
  forall i r, (saved_at c i).1 = Some r -> reader_wf r.

End ServingState.


(** A Reader of [steady_library] at the start of entry 3. *)
Definition steady_reader : @Reader.t steady_library :=
  @Reader.Build_t steady_library (Some tt)
    (Some (file_entry "f" 420 1 0)) 3 0.


(** ** More invariants of the tree *)

(** [g_nodes_by_index] and the nodes agree: the node at position [i] has
    the archive index [i], and a node with an archive index is found at
    that position. *)
Definition index_inv (st : tree) : Prop :=
  (forall i n, g_nodes_by_index st !! i = Some (Some n) ->
     exists x, nodes st !! n = Some x /\
       Node.index_within_archive x = Z.of_nat i) /\
  (forall n x, nodes st !! n = Some x -> 0 <= Node.index_within_archive x ->
     g_nodes_by_index st !! Z.to_nat (Node.index_within_archive x)
     = Some (Some n)).

(** The three kinds of nodes: a directory, without a link target and
    without an archive index; a regular file; a symbolic link, with a
    link target.  Apart from the read and execute bits 0555, the mode is
    the type of the node. *)
Definition node_kind (x : Node.t) : Prop :=
  (Z.land (Node.mode x) (Z.lnot 365) = S_IFDIR /\
   Node.symlink x = "" /\ Node.index_within_archive x = -1) \/
  (Z.land (Node.mode x) (Z.lnot 365) = S_IFREG /\
   Node.symlink x = "" /\ 0 <= Node.index_within_archive x) \/
  (Z.land (Node.mode x) (Z.lnot 365) = S_IFLNK /\
   Node.symlink x <> "" /\ 0 <= Node.index_within_archive x).

Definition kinds_inv (st : tree) : Prop :=
  forall n x, nodes st !! n = Some x -> node_kind x.

(** The blocks of a node that is not a directory. *)
Definition leaf_blocks (x : Node.t) : Z :=
  if Node.is_dir x then 0 else Node.get_block_count x.

(** Every node has one name, and [g_block_count] counts one block for
    every node and the blocks of the nodes that are not directories. *)
Definition count_inv (st : tree) : Prop :=
  size (g_nodes_by_name st) = length (nodes st) /\
  g_block_count st =
    Z.of_nat (length (nodes st)) +
    foldr Z.add 0 (leaf_blocks <$> nodes st).

(** [x'] is [x] up to its links to children and siblings and, for a
    directory, its size, its mtime and its mode. *)
Definition file_kept (x x' : Node.t) : Prop :=
  Node.rel_name x' = Node.rel_name x /\
  Node.symlink x' = Node.symlink x /\
  Node.index_within_archive x' = Node.index_within_archive x /\
  Node.parent x' = Node.parent x /\
  Node.is_dir x' = Node.is_dir x /\
  (Node.is_dir x = false ->
   Node.size x' = Node.size x /\ Node.mtime x' = Node.mtime x /\
   Node.mode x' = Node.mode x).

(** The names and the nodes of [st] are in [st'], the nodes up to
    [file_kept]. *)
Definition files_kept (st st' : tree) : Prop :=
  (forall K n, g_nodes_by_name st !! K = Some n ->
     g_nodes_by_name st' !! K = Some n) /\
  forall k x, nodes st !! k = Some x ->
    exists x', nodes st' !! k = Some x' /\ file_kept x x'.


(** A library over an archive file with one entry, the regular file "f"
    of one byte; a stream counts the headers that are left, and its
    reads give one zero byte at a time. *)
Definition one_file_library : Libarchive :=
  {| struct_archive := nat;
     archive_read_new := Some 0%nat;
     archive_read_add_passphrase a _ := a;
     archive_read_support_filter_all a := a;
     archive_read_support_format_all a := a;
     archive_read_support_format_raw a := a;
     archive_read_open_filename a _ _ := (ARCHIVE_OK, 1%nat);
     archive_read_next_header a :=
       match a with
       | O => (ARCHIVE_EOF, None, O)
       | S a' => (ARCHIVE_OK, Some (file_entry "f" 420 1 0), a')
       end;
     archive_read_data a len :=
       if len <=? 0 then (0, [], a) else (1, [Byte.x00], a) |}.

(** The globals as [pre_initialize] leaves them on that archive: the
    first header has been read. *)
Definition one_file_initialize_globals
    : @initialize_globals one_file_library :=
  @Build_initialize_globals one_file_library (Some 0%nat)
    (Some (file_entry "f" 420 1 0)) 0.

(** The tree after start-up on that archive: the root and "/f". *)
Definition one_file_library_tree : tree :=
  match
    post_initialize_sync (H := one_file_library) 2 false None
      one_file_initialize_globals zeroed_side_buffers empty_tree
  with
  | Ok (_, _, _, st) => st
  | _ => empty_tree
  end.


(** ** What start-up relies on *)

Section LibraryContract.
Context `{Libarchive}.

(** [archive_read_next_header] sets the entry when it returns
    [ARCHIVE_OK] or [ARCHIVE_WARN]. *)
Definition headers_set_entry : Prop :=
  forall a,
    (archive_read_next_header a).1.1 = ARCHIVE_OK \/
    (archive_read_next_header a).1.1 = ARCHIVE_WARN ->
    is_Some (archive_read_next_header a).1.2.

(** [archive_read_data] returns no more than the length asked for. *)
Definition reads_within_length : Prop :=
  forall a len, 0 <= len -> (archive_read_data a len).1.1 <= len.

(** [archive_read_data] asked for a positive length does not return 0:
    the data of the entry does not end. *)
Definition reads_make_progress : Prop :=
  forall a len, 0 < len -> (archive_read_data a len).1.1 <> 0.

(** The archive has finitely many entries: [left] bounds the headers
    that [archive_read_next_header] still returns. *)
Definition headers_run_out (left : struct_archive -> nat) : Prop :=
  forall a,
    (archive_read_next_header a).1.1 = ARCHIVE_OK \/
    (archive_read_next_header a).1.1 = ARCHIVE_WARN ->
    (left (archive_read_next_header a).2 < left a)%nat.

(** The archive is finite: [left] bounds what is left of it, headers
    and data.  A header that [archive_read_next_header] returns and a
    read that returns bytes take from it, and no read adds to it. *)
Definition archive_runs_out (left : struct_archive -> nat) : Prop :=
  headers_run_out left /\
  forall a len, 0 <= len ->
    (left (archive_read_data a len).2 <= left a)%nat /\
    (0 < (archive_read_data a len).1.1 ->
     (left (archive_read_data a len).2 < left a)%nat).

End LibraryContract.


(** ** The children of a directory *)

(** The nodes whose parent is [d], in the order of their allocation. *)
Definition children_of (h : list Node.t) (d : nat) : list nat :=
  filter (fun c => h !! c ≫= Node.parent = Some d) (seq 0 (length h)).

(** The [next_sibling] pointers lead from [c] through the nodes [l], in
    this order, and end there. *)
Fixpoint is_chain (h : list Node.t) (c : option nat) (l : list nat) : Prop :=
  match l with
  | [] => c = None
  | x :: l' =>
      c = Some x /\
      exists X, h !! x = Some X /\ is_chain h (Node.next_sibling X) l'
  end.

(** The list of children of every node is made of the nodes whose
    parent it is, and its last child is the last one of them. *)
Definition chain_inv (h : list Node.t) : Prop :=
  forall d D, h !! d = Some D ->
    is_chain h (Node.first_child D) (children_of h d) /\
    Node.last_child D = last (children_of h d).

Section ReaddirSpec.
Variable buf : Type.
Variable filler : buf -> string -> option struct_stat -> Z -> Z * buf.

(** Handing entries to the filler one after the other, until it reports
    that the buffer is full. *)
Fixpoint fill_entries (entries : list (string * option struct_stat))
    (b : buf) : Z * buf :=
  match entries with
  | [] => (0, b)
  | (name, z) :: rest =>
      let '(full, b') := filler b name z 0 in
      if negb (full =? 0) then (- ENOMEM, b') else fill_entries rest b'
  end.

End ReaddirSpec.

(** A filler that appends the names to a list, and reports a full
    buffer once it holds [cap] names. *)
Definition list_filler (cap : nat) (b : list string) (name : string)
    (z : option struct_stat) (off : Z) : Z * list string :=
  if (cap <=? length b)%nat then (1, b) else (0, b ++ [name]).


(** ** The inner name of the archive *)

(** [strrchr(s, c)] for a character [c] other than NUL: the position of
    the last [c] in [s], or [None] for a null pointer. *)
Fixpoint strrchr (s : string) (c : ascii) : option nat :=
  match s with
  | "" => None
  | String a s' =>
      match strrchr s' c with
      | Some i => Some (S i)
      | None => if Ascii.eqb a c then Some 0%nat else None
      end
  end.

(** [innername]: the "bar.ext0" of "/foo/bar.ext0.ext1".  The copies
    that [strndup] and [strdup] allocate are the texts themselves. *)
Definition innername (filename : option string) : option string :=
  match filename with
  | None => None
  | Some filename =>
      let filename :=
        match strrchr filename "/" with
        | Some last_slash => string_drop (S last_slash) filename
        | None => filename
        end in
      match strrchr filename "." with
      | Some last_dot => Some (String.substring 0 last_dot filename)
      | None => Some filename
      end
  end.

(** A text without the character [c]. *)
Fixpoint lacks (c : ascii) (s : string) : bool :=
  match s with
  | "" => true
  | String a s' => negb (Ascii.eqb a c) && lacks c s'
  end.

(** An entry named "data", as libarchive names the one entry of a raw
    archive. *)
Definition data_entry : struct_archive_entry := file_entry "data" 420 5 0.


(** ** The first part of start-up *)

(** [<archive.h>] constants. *)
Definition ARCHIVE_FORMAT_RAW : Z := 589824 (* 0x90000 *).
Definition ARCHIVE_FILTER_NONE : Z := 0.

(** The calls of [pre_initialize] into the operating system and into
    libarchive, besides those of [Libarchive].  [realpath] returns
    [None] for a null pointer, [open_rdonly path] is
    [open(path, O_RDONLY)], and [fstat fd] returns the result with the
    [st_size] it stores.  The setters of libarchive return a status,
    and [archive_error_string] returns [None] for a null pointer. *)
Class StartUpCalls `{Libarchive} : Type := {
  realpath : string -> option string;
  open_rdonly : string -> Z;
  fstat : Z -> Z * Z;
  archive_read_set_passphrase_callback : struct_archive -> struct_archive;
  archive_read_set_callback_data : struct_archive -> Z * struct_archive;
  archive_read_set_close_callback : struct_archive -> Z * struct_archive;
  archive_read_set_open_callback : struct_archive -> Z * struct_archive;
  archive_read_set_read_callback : struct_archive -> Z * struct_archive;
  archive_read_set_seek_callback : struct_archive -> Z * struct_archive;
  archive_read_set_skip_callback : struct_archive -> Z * struct_archive;
  archive_read_set_switch_callback : struct_archive -> Z * struct_archive;
  archive_read_open1 : struct_archive -> Z * struct_archive;
  archive_format : struct_archive -> Z;
  archive_filter_count : struct_archive -> Z;
  archive_filter_code : struct_archive -> Z -> Z;
  archive_error_string : struct_archive -> option string;
}.

Section PreInitialize.
Context `{StartUpCalls}.

(** [TRY(operation)] on a call that returns a status and the state of
    the handle: the rest runs when the status is zero. *)
Definition TRY (operation : Z * struct_archive)
    (rest : struct_archive -> Z * struct_archive) : Z * struct_archive :=
  if negb (operation.1 =? 0) then operation else rest operation.2.

(** [my_archive_read_open]. *)
Definition my_archive_read_open (a : struct_archive) : Z * struct_archive :=
  TRY (archive_read_set_callback_data a) (fun a =>
  TRY (archive_read_set_close_callback a) (fun a =>
  TRY (archive_read_set_open_callback a) (fun a =>
  TRY (archive_read_set_read_callback a) (fun a =>
  TRY (archive_read_set_seek_callback a) (fun a =>
  TRY (archive_read_set_skip_callback a) (fun a =>
  TRY (archive_read_set_switch_callback a) (fun a =>
  archive_read_open1 a))))))).

(** The globals that [pre_initialize] sets, with
    [g_initialize_archive], [g_initialize_archive_entry] and
    [g_initialize_index_within_archive] in [g_initialize]. *)
Record start_up_globals : Type := {
  g_archive_realpath : option string;
  g_archive_fd : Z;
  g_archive_file_size : Z;
  g_archive_is_raw : bool;
  g_initialize : initialize_globals;
}.

(** The globals as the program starts with them. *)
Definition initial_start_up_globals : start_up_globals :=
  {| g_archive_realpath := None;
     g_archive_fd := -1;
     g_archive_file_size := 0;
     g_archive_is_raw := false;
     g_initialize :=
       {| g_initialize_archive := None;
          g_initialize_archive_entry := None;
          g_initialize_index_within_archive := -1 |} |}.

(** [archive_read_free(g_initialize_archive)] and the three assignments
    that follow it. *)
Definition free_initialize_archive : initialize_globals :=
  {| g_initialize_archive := None;
     g_initialize_archive_entry := None;
     g_initialize_index_within_archive := -1 |}.

Definition set_g_initialize (g : initialize_globals) (G : start_up_globals)
    : start_up_globals :=
  {| g_archive_realpath := g_archive_realpath G;
     g_archive_fd := g_archive_fd G;
     g_archive_file_size := g_archive_file_size G;
     g_archive_is_raw := g_archive_is_raw G;
     g_initialize := g |}.

(** The [while (true)] loop of [pre_initialize] over the headers.  The
    result is [Some code] when the function returns [code] from inside
    the loop, and [None] at its [break]. *)
Fixpoint pre_initialize_loop (fuel : nat) (g : initialize_globals)
    (st : tree) : result (option Z * initialize_globals * tree) :=
  match fuel with
  | O => OutOfFuel
  | S fuel' =>
      a ← deref (g_initialize_archive g);
      let '(status, e, a') := archive_read_next_header a in
      let g1 :=
        {| g_initialize_archive := Some a';
           g_initialize_archive_entry := e;
           g_initialize_index_within_archive :=
             g_initialize_index_within_archive g + 1 |} in
      if negb (status =? ARCHIVE_WARN) && negb (status =? ARCHIVE_OK) then
        if negb (status =? ARCHIVE_EOF) then
          Ok (Some EXIT_CODE_INVALID_ARCHIVE_HEADER,
              free_initialize_archive, st)
        else
          (* building the tree for an empty archive is trivial *)
          Ok (Some 0, free_initialize_archive, insert_root_node st)
      else
        e ← deref (g_initialize_archive_entry g1);
        if S_ISDIR (archive_entry_mode e) then
          pre_initialize_loop fuel' g1 st
        else Ok (None, g1, st)
  end.

(** The loop [for (int i = 0; true; i++)] of [pre_initialize] over the
    filters of a raw archive: whether a filter other than
    [ARCHIVE_FILTER_NONE] is found before [i] reaches [n]. *)
Fixpoint pre_initialize_filters (fuel : nat) (a : struct_archive) (n i : Z)
    : result bool :=
  match fuel with
  | O => OutOfFuel
  | S fuel' =>
      if i =? n then Ok false
      else if negb (archive_filter_code a i =? ARCHIVE_FILTER_NONE)
      then Ok true
      else pre_initialize_filters fuel' a n (i + 1)
  end.

(** [pre_initialize]: the [int] returned, the globals, the side buffers
    and the tree. *)
Definition pre_initialize (fuel : nat) (g_archive_filename : option string)
    (G : start_up_globals) (s : side_buffers) (st : tree)
    : result (Z * start_up_globals * side_buffers * tree) :=
  match g_archive_filename with
  | None => Ok (EXIT_CODE_GENERIC_FAILURE, G, s, st)
  | Some filename =>
      let G :=
        {| g_archive_realpath := realpath filename;
           g_archive_fd := g_archive_fd G;
           g_archive_file_size := g_archive_file_size G;
           g_archive_is_raw := g_archive_is_raw G;
           g_initialize := g_initialize G |} in
      match g_archive_realpath G with
      | None => Ok (EXIT_CODE_CANNOT_OPEN_ARCHIVE, G, s, st)
      | Some path =>
          let G :=
            {| g_archive_realpath := g_archive_realpath G;
               g_archive_fd := open_rdonly path;
               g_archive_file_size := g_archive_file_size G;
               g_archive_is_raw := g_archive_is_raw G;
               g_initialize := g_initialize G |} in
          if g_archive_fd G <? 0 then
            Ok (EXIT_CODE_CANNOT_OPEN_ARCHIVE, G, s, st)
          else
            let '(r, st_size) := fstat (g_archive_fd G) in
            if negb (r =? 0) then Ok (EXIT_CODE_GENERIC_FAILURE, G, s, st)
            else
              let G :=
                {| g_archive_realpath := g_archive_realpath G;
                   g_archive_fd := g_archive_fd G;
                   g_archive_file_size := st_size;
                   g_archive_is_raw := g_archive_is_raw G;
                   g_initialize :=
                     {| g_initialize_archive := archive_read_new;
                        g_initialize_archive_entry :=
                          g_initialize_archive_entry (g_initialize G);
                        g_initialize_index_within_archive :=
                          g_initialize_index_within_archive
                            (g_initialize G) |} |} in
              match g_initialize_archive (g_initialize G) with
              | None => Ok (EXIT_CODE_GENERIC_FAILURE, G, s, st)
              | Some a =>
                  let a := archive_read_set_passphrase_callback a in
                  let a := archive_read_support_filter_all a in
                  let a := archive_read_support_format_all a in
                  let a := archive_read_support_format_raw a in
                  let '(r, a) := my_archive_read_open a in
                  if negb (r =? ARCHIVE_OK) then
                    Ok (EXIT_CODE_GENERIC_FAILURE,
                        set_g_initialize free_initialize_archive G, s, st)
                  else
                    '(code, g, st) ←
                      pre_initialize_loop fuel
                        {| g_initialize_archive := Some a;
                           g_initialize_archive_entry :=
                             g_initialize_archive_entry (g_initialize G);
                           g_initialize_index_within_archive :=
                             g_initialize_index_within_archive
                               (g_initialize G) |} st;
                    let G := set_g_initialize g G in
                    match code with
                    | Some code => Ok (code, G, s, st)
                    | None =>
                        a ← deref (g_initialize_archive g);
                        if archive_format a =? ARCHIVE_FORMAT_RAW then
                          let G :=
                            {| g_archive_realpath := g_archive_realpath G;
                               g_archive_fd := g_archive_fd G;
                               g_archive_file_size := g_archive_file_size G;
                               g_archive_is_raw := true;
                               g_initialize := g_initialize G |} in
                          found ← pre_initialize_filters fuel a
                                    (archive_filter_count a) 0;
                          if (found : bool) then Ok (0, G, s, st)
                          else
                            Ok (EXIT_CODE_INVALID_RAW_ARCHIVE,
                                set_g_initialize free_initialize_archive G,
                                s, st)
                        else
                          let '(n, bytes, a') := archive_read_data a 1 in
                          let s' :=
                            set_data s SIDE_BUFFER_INDEX_DECOMPRESSED
                              (store bytes
                                 (data_at s SIDE_BUFFER_INDEX_DECOMPRESSED)) in
                          let G :=
                            set_g_initialize
                              {| g_initialize_archive := Some a';
                                 g_initialize_archive_entry :=
                                   g_initialize_archive_entry g;
                                 g_initialize_index_within_archive :=
                                   g_initialize_index_within_archive g |}
                              G in
                          if n <? 0 then
                            e ← deref (archive_error_string a');
                            Ok (determine_passphrase_exit_code e,
                                set_g_initialize free_initialize_archive G,
                                s', st)
                          else Ok (0, G, s', st)
                    end
              end
      end
  end.

End PreInitialize.


(** The calls of [pre_initialize] on the archive of
    [one_file_library], which is not a raw archive. *)
Definition one_file_calls : @StartUpCalls one_file_library :=
  @Build_StartUpCalls one_file_library
    (fun f => Some f)                       (* realpath *)
    (fun _ => 3)                            (* open_rdonly *)
    (fun _ => (0, 100))                     (* fstat *)
    (fun a : nat => a)
    (fun a : nat => (ARCHIVE_OK, a))
    (fun a : nat => (ARCHIVE_OK, a))
    (fun a : nat => (ARCHIVE_OK, a))
    (fun a : nat => (ARCHIVE_OK, a))
    (fun a : nat => (ARCHIVE_OK, a))
    (fun a : nat => (ARCHIVE_OK, a))
    (fun a : nat => (ARCHIVE_OK, a))
    (fun _ : nat => (ARCHIVE_OK, 1%nat))    (* archive_read_open1 *)
    (fun _ : nat => 0)                      (* archive_format *)
    (fun _ : nat => 0)                      (* archive_filter_count *)
    (fun (_ : nat) (_ : Z) => ARCHIVE_FILTER_NONE)
    (fun _ : nat => Some "error").

Section StartUpContract.
Context `{StartUpCalls}.

(** After a read that failed, [archive_error_string] is not null. *)
Definition failed_reads_set_error : Prop :=
  forall a len,
    (archive_read_data a len).1.1 < 0 ->
    is_Some (archive_error_string (archive_read_data a len).2).

(** [archive_filter_count] is not negative. *)
Definition filter_counts_not_negative : Prop :=
  forall a, 0 <= archive_filter_count a.

End StartUpContract.

(** What is left of a scripted archive: the bytes of the current entry,
    and the headers with the bytes of their entries. *)
Definition script_left (a : script) : nat :=
  (Z.to_nat (script_remaining a) +
   list_sum (map (fun h => S (Z.to_nat h.2)) (script_headers a)))%nat.

(** The calls of [pre_initialize] on the scripted archive [file], which
    is not a raw archive. *)
Definition scripted_calls (file : script) : @StartUpCalls (scripted file true) :=
  @Build_StartUpCalls (scripted file true)
    (fun f => Some f)                         (* realpath *)
    (fun _ => 3)                              (* open_rdonly *)
    (fun _ => (0, 100))                       (* fstat *)
    (fun a : script => a)
    (fun a : script => (ARCHIVE_OK, a))
    (fun a : script => (ARCHIVE_OK, a))
    (fun a : script => (ARCHIVE_OK, a))
    (fun a : script => (ARCHIVE_OK, a))
    (fun a : script => (ARCHIVE_OK, a))
    (fun a : script => (ARCHIVE_OK, a))
    (fun a : script => (ARCHIVE_OK, a))
    (fun _ : script => (ARCHIVE_OK, file))    (* archive_read_open1 *)
    (fun _ : script => 0)                     (* archive_format *)
    (fun _ : script => 0)                     (* archive_filter_count *)
    (fun (_ : script) (_ : Z) => ARCHIVE_FILTER_NONE)
    (fun _ : script => Some "error").

(** An archive file with the regular files "a/x" of 3 bytes and "a/y"
    of 4 bytes. *)
Definition two_files_file : script :=
  {| script_headers :=
       [ (ARCHIVE_OK, file_entry "a/x" 256 (* 0400 *) 3 5, 3);
         (ARCHIVE_OK, file_entry "a/y" 365 (* 0555 *) 4 6, 4) ];
     script_remaining := 0;
     script_data_error := false |}.

(** The globals as [pre_initialize] leaves them on that archive: the
    first header and one byte of the first entry have been read. *)
Definition two_files_file_initialize_globals
    : @initialize_globals (scripted two_files_file true) :=
  @Build_initialize_globals (scripted two_files_file true)
    (Some {| script_headers := [(ARCHIVE_OK, file_entry "a/y" 365 4 6, 4)];
             script_remaining := 2;
             script_data_error := false |})
    (Some (file_entry "a/x" 256 3 5))
    0.


(** The size of a directory is [block_size] for each of its children. *)
Definition dir_size_inv (st : tree) : Prop :=
  forall d D, nodes st !! d = Some D -> Node.is_dir D = true ->
    Node.size D = block_size * Z.of_nat (length (children_of (nodes st) d)).


(** ** Names and nodes *)

(** No node has two names. *)
Definition names_unique (st : tree) : Prop :=
  forall K1 K2 n,
    g_nodes_by_name st !! K1 = Some n -> g_nodes_by_name st !! K2 = Some n ->
    K1 = K2.

(** A node with a parent is bound to the pathname of its parent
    directory followed by a slash and its own name, which has no slash;
    the node without a parent is the root. *)
Definition path_inv (st : tree) : Prop :=
  forall n x, nodes st !! n = Some x ->
    match Node.parent x with
    | Some p =>
        exists A,
          dir_at st A = Some p /\
          g_nodes_by_name st !! (A +:+ "/" +:+ Node.rel_name x) = Some n /\
          no_slash (Node.rel_name x) = true
    | None => g_root_node st = Some n
    end.

Definition names_inv (st : tree) : Prop := names_unique st /\ path_inv st.

(** A pathname that is "/" or a slash followed by components none of
    which is empty, "." or "..". *)
Definition clean_pathname (K : string) : Prop :=
  K = "/" \/
  exists rest,
    K = "/" +:+ rest /\ existsb bad_component (split_slash rest) = false.

(** Every name is a clean pathname. *)
Definition names_wf (st : tree) : Prop :=
  forall K n, g_nodes_by_name st !! K = Some n -> clean_pathname K.


(** ** Measuring an entry *)

Section Measured.
Context `{Libarchive}.

(** Starting in state [a], the successive reads of up to
    [SIDE_BUFFER_SIZE] bytes return the counts [ns] and then 0, which
    leaves libarchive in state [a']. *)
Fixpoint measured (a : struct_archive) (ns : list Z) (a' : struct_archive)
    : Prop :=
  match ns with
  | [] => exists bytes, archive_read_data a SIDE_BUFFER_SIZE = (0, bytes, a')
  | n :: ns' =>
      exists bytes a1,
        archive_read_data a SIDE_BUFFER_SIZE = (n, bytes, a1) /\
        measured a1 ns' a'
  end.

End Measured.

(** The entry "data" of a raw archive, whose size libarchive does not
    know before it has decompressed it. *)
Definition unsized_entry : struct_archive_entry :=
  {| archive_entry_pathname_utf8 := Some "data";
     archive_entry_pathname := Some "data";
     archive_entry_mode := Z.lor S_IFREG 420;
     archive_entry_symlink_utf8 := None;
     archive_entry_symlink := None;
     archive_entry_size := 0;
     archive_entry_size_is_set := false;
     archive_entry_mtime := 9 |}.

(** A stream of the scripted library with 300000 bytes left in its
    entry. *)
Definition unsized_stream : script :=
  {| script_headers := []; script_remaining := 300000;
     script_data_error := false |}.


(** ** The passphrase callback *)

(** [s.ends_with(c)] and [s.pop_back()] of [std::string]. *)
Fixpoint ends_with (s : string) (c : ascii) : bool :=
  match s with
  | "" => false
  | String a s' =>
      match s' with
      | "" => Ascii.eqb a c
      | String _ _ => ends_with s' c
      end
  end.

Fixpoint pop_back (s : string) : string :=
  match s with
  | "" => ""
  | String a s' =>
      match s' with
      | "" => ""
      | String _ _ => String a (pop_back s')
      end
  end.

(** The character '\n'. *)
Definition newline : ascii := "010"%char.

(** The globals [password] and [password_count]. *)
Record password_globals : Type := {
  password : string;
  password_count : Z;
}.

(** The loop [while (password.ends_with('\n')) password.pop_back()]. *)
Fixpoint read_password_strip (fuel : nat) (password : string)
    : result string :=
  match fuel with
  | O => OutOfFuel
  | S fuel' =>
      if ends_with password newline
      then read_password_strip fuel' (pop_back password)
      else Ok password
  end.

(** [read_password_from_stdin]: the pointer returned, [None] for
    [nullptr], and the globals.  [getline] is the line that
    [std::getline] reads from standard input, [None] when it fails.
    The prompt and the echo of the terminal are left out. *)
Definition read_password_from_stdin (fuel : nat) (getline : option string)
    (G : password_globals) : result (option string * password_globals) :=
  let count := password_count G in
  let G := {| password := password G; password_count := count + 1 |} in
  if negb (count =? 0) then Ok (None, G)
  else
    let line :=
      match getline with
      | Some line => line
      | None => ""              (* [password.clear()] *)
      end in
    stripped ← read_password_strip fuel line;
    let G := {| password := stripped; password_count := password_count G |} in
    if String.eqb stripped "" then Ok (None, G)
    else Ok (Some stripped, G).

(** A text of [k] newlines. *)
Fixpoint newlines (k : nat) : string :=
  match k with
  | O => ""
  | S k' => String newline (newlines k')
  end.

(* ================================================================== *)
(** * Theorems *)

(** Membership in the lists built by the loops. *)
Ltac elem_solver :=
  rewrite ?elem_of_app, ?elem_of_cons, ?list_elem_of_singleton;
  intuition (auto; congruence).

(** ** Passphrase error classification *)

Lemma starts_with_head e p c :
  starts_with e (String c p) = true -> exists e', e = String c e'.
Proof.
  unfold starts_with. destruct e as [|b e']; simpl; [discriminate|].
  destruct (ascii_dec c b) as [->|]; [eauto|discriminate].
Qed.

(** C6. The classification of a libarchive error message is decided by
    its prefix: "Incorrect passphrase" gives exit code 21, "Passphrase
    required" gives 20, each of the eight unsupported-encryption
    messages gives 22, and every other message gives 32. *)
Theorem determine_passphrase_exit_code_by_prefix (e : string) :
  (starts_with e "Incorrect passphrase" = true ->
     determine_passphrase_exit_code e = 21) /\
  (starts_with e "Passphrase required" = true ->
     determine_passphrase_exit_code e = 20) /\
  ((exists p, In p not_supported_prefixes /\ starts_with e p = true) ->
     determine_passphrase_exit_code e = 22) /\
  (starts_with e "Incorrect passphrase" = false ->
   starts_with e "Passphrase required" = false ->
   (forall p, In p not_supported_prefixes -> starts_with e p = false) ->
     determine_passphrase_exit_code e = 32).
Proof.
  unfold determine_passphrase_exit_code.
  repeat split.
  - intros ->. reflexivity.
  - intros H.
    destruct (starts_with e "Incorrect passphrase") eqn:E1.
    + apply starts_with_head in E1 as [? ->]. discriminate H.
    + rewrite H. reflexivity.
  - intros (p & Hin & Hp).
    destruct (starts_with e "Incorrect passphrase") eqn:E1.
    { apply starts_with_head in E1 as [? ->].
      simpl in Hin. intuition (subst; discriminate Hp). }
    destruct (starts_with e "Passphrase required") eqn:E2.
    { apply starts_with_head in E2 as [? ->].
      simpl in Hin. intuition (subst; discriminate Hp). }
    assert (existsb (starts_with e) not_supported_prefixes = true) as ->.
    { apply existsb_exists. eauto. }
    reflexivity.
  - intros -> -> Hn.
    destruct (existsb (starts_with e) not_supported_prefixes) eqn:E3.
    + apply existsb_exists in E3 as (p & Hin & Hp).
      rewrite (Hn p Hin) in Hp. discriminate.
    + reflexivity.
Qed.

(** ** Side buffers *)

Lemma to_uint64_small z : 0 <= z < 2 ^ 64 -> to_uint64 z = z.
Proof. intros Hz. unfold to_uint64. apply Z.mod_small. exact Hz. Qed.

Lemma contains_true_iff (m : side_buffer_metadata.t) (idx off len : Z) :
  side_buffer_metadata.contains m idx off len = true <->
  0 <= side_buffer_metadata.index_within_archive m /\
  side_buffer_metadata.index_within_archive m = idx /\
  side_buffer_metadata.offset_within_entry m <= off /\
  off - side_buffer_metadata.offset_within_entry m
    <= side_buffer_metadata.length m /\
  len <= to_uint64 (side_buffer_metadata.length m -
                    (off - side_buffer_metadata.offset_within_entry m)).
Proof.
  unfold side_buffer_metadata.contains.
  destruct (0 <=? _) eqn:E1; simpl.
  2:{ split; [discriminate|]. intros (? & _). apply Z.leb_gt in E1. lia. }
  destruct (_ =? idx) eqn:E2; simpl.
  2:{ split; [discriminate|]. intros (_ & ? & _). apply Z.eqb_neq in E2. lia. }
  destruct (_ <=? off) eqn:E3; simpl.
  2:{ split; [discriminate|]. intros (_ & _ & ? & _). apply Z.leb_gt in E3. lia. }
  apply Z.leb_le in E1, E3. apply Z.eqb_eq in E2.
  rewrite andb_true_iff, !Z.leb_le. tauto.
Qed.

Lemma contains_length_nonneg (m : side_buffer_metadata.t) idx off len :
  side_buffer_metadata.contains m idx off len = true ->
  0 <= side_buffer_metadata.length m.
Proof. rewrite contains_true_iff. lia. Qed.

Lemma best_side_buffer_inv s idx len off idxs :
  best_inv s idx len off idxs (best_side_buffer s idx len off idxs).
Proof.
  unfold best_side_buffer.
  set (f := fun '(best_i, best_length) i => _).
  assert (Hgen : forall l seen acc,
            best_inv s idx len off seen acc ->
            best_inv s idx len off (seen ++ l) (foldl f acc l)).
  { induction l as [|i l IH]; intros seen acc Hacc; simpl.
    - rewrite app_nil_r. exact Hacc.
    - replace (seen ++ i :: l) with ((seen ++ [i]) ++ l)
        by (rewrite <- app_assoc; reflexivity).
      apply IH. destruct acc as [b bl]. unfold f, best_inv in *; simpl in *.
      destruct (side_buffer_metadata.contains (meta_at s i) idx off len) eqn:Ec.
      + destruct (side_buffer_metadata.length (meta_at s i) >? bl) eqn:Eg;
          simpl.
        * apply Z.gtb_lt in Eg. repeat split; [elem_solver|exact Ec|].
          intros j Hj Hcj. apply elem_of_app in Hj as [Hj|Hj].
          -- destruct b as [i0|].
             ++ destruct Hacc as (_ & _ & _ & Hmax). specialize (Hmax j Hj Hcj). lia.
             ++ destruct Hacc as (_ & Hno). rewrite (Hno j Hj) in Hcj. discriminate.
          -- apply list_elem_of_singleton in Hj as ->. lia.
        * assert (side_buffer_metadata.length (meta_at s i) <= bl) as Hle.
          { destruct (Z.gtb_spec (side_buffer_metadata.length (meta_at s i)) bl);
              [discriminate|lia]. }
          destruct b as [i0|].
          -- destruct Hacc as (Hin & Hbl & Hc & Hmax).
             repeat split; [elem_solver|exact Hbl|exact Hc|].
             intros j Hj Hcj. apply elem_of_app in Hj as [Hj|Hj]; [eauto|].
             apply list_elem_of_singleton in Hj as ->. exact Hle.
          -- destruct Hacc as (Hbl & Hno).
             apply contains_length_nonneg in Ec. lia.
      + rewrite andb_false_r.
        destruct b as [i0|].
        * destruct Hacc as (Hin & Hbl & Hc & Hmax).
          repeat split; [elem_solver|exact Hbl|exact Hc|].
          intros j Hj Hcj. apply elem_of_app in Hj as [Hj|Hj]; [eauto|].
          apply list_elem_of_singleton in Hj as ->. congruence.
        * destruct Hacc as (Hbl & Hno). split; [exact Hbl|].
          intros j Hj. apply elem_of_app in Hj as [Hj|Hj]; [eauto|].
          apply list_elem_of_singleton in Hj as ->. exact Ec. }
  apply (Hgen idxs [] (None, -1)).
  unfold best_inv; simpl. split; [reflexivity|]. intros j Hj. inversion Hj.
Qed.
Lemma contains_covers (m : side_buffer_metadata.t) (idx off len : Z) :
  0 <= idx -> 0 <= len -> side_buffer_metadata.length m < 2 ^ 64 ->
  side_buffer_metadata.contains m idx off len = true <-> covers m idx off len.
Proof.
  intros Hidx Hlen Hm. rewrite contains_true_iff. unfold covers.
  split.
  - intros (H0 & H1 & H2 & H3 & H4).
    rewrite to_uint64_small in H4 by lia. lia.
  - intros (H1 & H2 & H3).
    rewrite to_uint64_small by lia. lia.
Qed.

Lemma elem_of_seq_0 (n j : nat) : j ∈ seq 0 n <-> (j < n)%nat.
Proof. rewrite list_elem_of_In, in_seq. lia. Qed.

(** C3. A side buffer covers a request [(idx, off, len)] with
    [idx >= 0] exactly when its metadata has that index, an offset at or
    before [off], and at least [len] bytes from [off] on; an empty
    buffer (index -1) covers nothing.  [read_from_side_buffer] returns
    false and changes nothing when no buffer covers the request;
    otherwise it picks a covering buffer of greatest length, gives it
    the incremented counter as LRU priority (greater than every other
    priority handed out by the counter), copies [len] bytes from
    [data + (off - meta.offset)] to the destination and returns true. *)
Theorem read_from_side_buffer_lookup
    (s : side_buffers) (idx off len : Z) (dst : list Byte.byte) :
  0 <= idx -> 0 <= len ->
  length (g_side_buffer_metadata s) = NUM_SIDE_BUFFERS ->
  (forall i, (i < NUM_SIDE_BUFFERS)%nat ->
     side_buffer_metadata.length (meta_at s i) < 2 ^ 64) ->
  (forall m, side_buffer_metadata.length m < 2 ^ 64 ->
     (side_buffer_metadata.contains m idx off len = true <->
      covers m idx off len)) /\
  (forall m i o l, side_buffer_metadata.index_within_archive m = -1 ->
     side_buffer_metadata.contains m i o l = false) /\
  ((forall i, (i < NUM_SIDE_BUFFERS)%nat ->
      ~ covers (meta_at s i) idx off len) ->
   read_from_side_buffer idx dst len off s = (false, dst, s)) /\
  ((exists i, (i < NUM_SIDE_BUFFERS)%nat /\ covers (meta_at s i) idx off len) ->
   exists best,
     (best < NUM_SIDE_BUFFERS)%nat /\
     covers (meta_at s best) idx off len /\
     (forall j, (j < NUM_SIDE_BUFFERS)%nat ->
        covers (meta_at s j) idx off len ->
        side_buffer_metadata.length (meta_at s j) <=
        side_buffer_metadata.length (meta_at s best)) /\
     read_from_side_buffer idx dst len off s =
       (true,
        memcpy dst
          (drop (Z.to_nat
                   (off - side_buffer_metadata.offset_within_entry
                            (meta_at s best)))
                (data_at s best))
          (Z.to_nat len),
        bump_lru_priority s best (to_uint64 (next_lru_priority s + 1))) /\
     ((forall j, (j < NUM_SIDE_BUFFERS)%nat ->
         side_buffer_metadata.lru_priority (meta_at s j) <=
         next_lru_priority s) ->
      0 <= next_lru_priority s < UINT64_MAX ->
      forall j, (j < NUM_SIDE_BUFFERS)%nat -> j <> best ->
        side_buffer_metadata.lru_priority
          (meta_at (bump_lru_priority s best
                      (to_uint64 (next_lru_priority s + 1))) j) <
        side_buffer_metadata.lru_priority
          (meta_at (bump_lru_priority s best
                      (to_uint64 (next_lru_priority s + 1))) best))).
Proof.
  intros Hidx Hlen Hsz Hrange.
  split; [intros m Hm; apply contains_covers; assumption|].
  split.
  { intros m i o l Hm. unfold side_buffer_metadata.contains.
    rewrite Hm. reflexivity. }
  pose proof (best_side_buffer_inv s idx len off (seq 0 NUM_SIDE_BUFFERS))
    as Hinv.
  unfold read_from_side_buffer.
  destruct (best_side_buffer s idx len off (seq 0 NUM_SIDE_BUFFERS))
    as [b bl] eqn:Eb.
  unfold best_inv in Hinv; cbn [fst snd] in Hinv |- *.
  split.
  - intros Hnone. destruct b as [i|]; [|reflexivity].
    destruct Hinv as (Hin & _ & Hc & _).
    apply elem_of_seq_0 in Hin.
    apply contains_covers in Hc; [|assumption..|apply Hrange; exact Hin].
    destruct (Hnone i Hin Hc).
  - intros (i & Hi & Hcov).
    destruct b as [best|].
    2:{ destruct Hinv as (_ & Hno).
        apply contains_covers in Hcov; [|assumption..|apply Hrange; exact Hi].
        rewrite Hno in Hcov by (apply elem_of_seq_0; exact Hi).
        discriminate. }
    destruct Hinv as (Hin & Hbl & Hc & Hmax).
    apply elem_of_seq_0 in Hin.
    exists best. split; [exact Hin|].
    split; [apply contains_covers in Hc; [exact Hc|assumption..|apply Hrange; exact Hin]|].
    split.
    { intros j Hj Hcj. rewrite <- Hbl. apply Hmax; [apply elem_of_seq_0; exact Hj|].
      apply contains_covers; [assumption..|apply Hrange; exact Hj|exact Hcj]. }
    split; [reflexivity|].
    intros Hprio Hnext j Hjn Hj.
    unfold bump_lru_priority.
    unfold meta_at at 1 5; cbn [g_side_buffer_metadata].
    rewrite list_lookup_insert_eq by (rewrite Hsz; exact Hin).
    rewrite list_lookup_insert_ne by congruence. cbn [default].
    fold (meta_at s j). specialize (Hprio j Hjn). cbn.
    unfold UINT64_MAX in Hnext. rewrite to_uint64_small by lia. lia.
Qed.

(** An example pool: buffer 2 holds bytes [8, 16) of entry 3 and buffer
    5 holds bytes [0, 32) of the same entry. *)
Lemma read_from_side_buffer_lookup_witness :
  exists best : nat,
    (best < NUM_SIDE_BUFFERS)%nat /\
    read_from_side_buffer 3 [] 4 10 example_side_buffers =
      (true,
       memcpy []
         (drop (Z.to_nat
                  (10 - side_buffer_metadata.offset_within_entry
                          (meta_at example_side_buffers best)))
               (data_at example_side_buffers best))
         (Z.to_nat 4),
       bump_lru_priority example_side_buffers best
         (to_uint64 (next_lru_priority example_side_buffers + 1))).
Proof.
  destruct (read_from_side_buffer_lookup example_side_buffers 3 10 4 [])
    as (_ & _ & _ & H).
  - lia.
  - lia.
  - reflexivity.
  - intros i Hi. unfold NUM_SIDE_BUFFERS in Hi.
    do 8 (destruct i as [|i]; [vm_compute; reflexivity|]). lia.
  - destruct H as (best & Hb & _ & _ & Hr & _).
    + exists 2%nat. split; [unfold NUM_SIDE_BUFFERS; lia|].
      vm_compute. intuition discriminate.
    + exists best. split; [exact Hb|exact Hr].
Defined.

Lemma read_from_side_buffer_covered
    (s : side_buffers) (idx off len : Z) (dst : list Byte.byte) :
  0 <= idx -> 0 <= len ->
  (forall i, (i < NUM_SIDE_BUFFERS)%nat ->
     side_buffer_metadata.length (meta_at s i) < 2 ^ 64) ->
  (exists i, (i < NUM_SIDE_BUFFERS)%nat /\ covers (meta_at s i) idx off len) ->
  exists dst' s',
    read_from_side_buffer idx dst len off s = (true, dst', s').
Proof.
  intros Hidx Hlen Hrange (i & Hi & Hcov).
  pose proof (best_side_buffer_inv s idx len off (seq 0 NUM_SIDE_BUFFERS))
    as Hinv.
  unfold read_from_side_buffer.
  destruct (best_side_buffer s idx len off (seq 0 NUM_SIDE_BUFFERS))
    as [[best|] bl]; unfold best_inv in Hinv; cbn [fst snd] in Hinv |- *.
  - eauto.
  - destruct Hinv as (_ & Hno).
    apply contains_covers in Hcov; [|assumption..|apply Hrange; exact Hi].
    rewrite Hno in Hcov by (apply elem_of_seq_0; exact Hi). discriminate.
Qed.

(** ** The read callback *)

Lemma clamp_min (a b : Z) : (if a >? b then b else a) = Z.min a b.
Proof. destruct (Z.gtb_spec a b); lia. Qed.

Section MyRead.
Context `{Libarchive}.

Lemma my_read_invalid_argument fuel password realpath st pathname dst
    dst_len offset fh s c :
  offset < 0 \/ dst_len > INT_MAX ->
  my_read fuel password realpath st pathname dst dst_len offset fh s c =
    Ok (- EINVAL, dst, fh, s, c).
Proof.
  intros Hbad. unfold my_read.
  assert (((offset <? 0) || (dst_len >? INT_MAX)) = true) as ->.
  { apply orb_true_iff. rewrite Z.ltb_lt, Z.gtb_lt. lia. }
  reflexivity.
Qed.

(** [my_read] once its arguments, the Reader and the node have passed
    the checks: the request is clamped and looked up in the side
    buffers. *)
Lemma my_read_checked fuel password realpath st pathname dst dst_len
    offset (r : Reader.t) s c n node :
  0 <= offset -> 0 <= dst_len <= INT_MAX ->
  is_Some (Reader.archive r) -> is_Some (Reader.archive_entry r) ->
  0 <= Reader.index_within_archive r <= INT64_MAX ->
  g_nodes_by_index st !! Z.to_nat (Reader.index_within_archive r)
    = Some (Some n) ->
  nodes st !! n = Some node ->
  0 <= Node.size node <= INT64_MAX ->
  (Z.min dst_len (Node.size node - offset) <= 0 ->
   my_read fuel password realpath st pathname dst dst_len offset (Some r) s c
     = Ok (0, dst, Some r, s, c)) /\
  (0 < Z.min dst_len (Node.size node - offset) ->
   forall dst' s',
     read_from_side_buffer (Reader.index_within_archive r) dst
       (Z.min dst_len (Node.size node - offset)) offset s = (true, dst', s') ->
     my_read fuel password realpath st pathname dst dst_len offset (Some r) s c
       = Ok (Z.min dst_len (Node.size node - offset), dst', Some r, s', c)).
Proof.
  intros Hoff Hlen Ha He Hidx Hslot Hnode Hsize.
  unfold my_read.
  assert (((offset <? 0) || (dst_len >? INT_MAX)) = false) as ->.
  { apply orb_false_iff. split; [apply Z.ltb_ge; lia|].
    destruct (Z.gtb_spec dst_len INT_MAX); [lia|reflexivity]. }
  rewrite !bool_decide_eq_true_2 by assumption. cbn [negb orb].
  rewrite (to_uint64_small (Reader.index_within_archive r))
    by (unfold INT64_MAX in Hidx; lia).
  assert ((Reader.index_within_archive r >=?
           Z.of_nat (length (g_nodes_by_index st))) = false) as ->.
  { apply lookup_lt_Some in Hslot.
    destruct (Z.geb_spec (Reader.index_within_archive r)
                (Z.of_nat (length (g_nodes_by_index st)))); [lia|reflexivity]. }
  rewrite Hslot. cbn [default from_option id]. rewrite Hnode. cbn [deref mbind result_bind].
  assert ((Node.size node <? 0) = false) as -> by (apply Z.ltb_ge; lia).
  destruct (Node.size node <=? offset) eqn:Eso.
  { apply Z.leb_le in Eso. split; [reflexivity|lia]. }
  apply Z.leb_gt in Eso.
  rewrite (to_uint64_small (Node.size node - offset))
    by (unfold INT64_MAX in Hsize; lia).
  assert ((if dst_len >? Node.size node - offset
           then Node.size node - offset else dst_len)
          = Z.min dst_len (Node.size node - offset)) as ->.
  { apply clamp_min. }
  split.
  - intros Hle. assert ((Z.min dst_len (Node.size node - offset) =? 0) = true)
      as -> by (apply Z.eqb_eq; lia). reflexivity.
  - intros Hpos dst' s' Hhit.
    assert ((Z.min dst_len (Node.size node - offset) =? 0) = false)
      as -> by (apply Z.eqb_neq; lia).
    rewrite Hhit. reflexivity.
Qed.

(** C4. A read with a negative offset, or a length beyond [INT_MAX],
    returns [-EINVAL].  Otherwise, on a handle whose Reader is live and
    whose entry has a node of size [size >= 0], the length is clamped to
    [size - offset]; a request clamped to nothing returns 0; and when a
    side buffer covers the clamped request, the read returns the clamped
    length with the bytes of the side buffer, leaving the Reader, its
    libarchive handle and the reader cache as they were. *)
Theorem my_read_side_buffer_hit fuel password realpath st pathname dst
    dst_len offset fh s c :
  0 <= dst_len ->
  (offset < 0 \/ dst_len > INT_MAX ->
   my_read fuel password realpath st pathname dst dst_len offset fh s c
     = Ok (- EINVAL, dst, fh, s, c)) /\
  (forall (r : Reader.t) n node,
     fh = Some r ->
     0 <= offset -> dst_len <= INT_MAX ->
     is_Some (Reader.archive r) -> is_Some (Reader.archive_entry r) ->
     0 <= Reader.index_within_archive r <= INT64_MAX ->
     g_nodes_by_index st !! Z.to_nat (Reader.index_within_archive r)
       = Some (Some n) ->
     nodes st !! n = Some node ->
     0 <= Node.size node <= INT64_MAX ->
     let clamped := Z.min dst_len (Node.size node - offset) in
     (clamped <= 0 ->
      my_read fuel password realpath st pathname dst dst_len offset fh s c
        = Ok (0, dst, fh, s, c)) /\
     (0 < clamped ->
      (forall i, (i < NUM_SIDE_BUFFERS)%nat ->
         side_buffer_metadata.length (meta_at s i) < 2 ^ 64) ->
      (exists i, (i < NUM_SIDE_BUFFERS)%nat /\
         covers (meta_at s i) (Reader.index_within_archive r) offset
           clamped) ->
      exists dst' s',
        read_from_side_buffer (Reader.index_within_archive r) dst clamped
          offset s = (true, dst', s') /\
        my_read fuel password realpath st pathname dst dst_len offset fh s c
          = Ok (clamped, dst', fh, s', c))).
Proof.
  intros Hlen0. split; [apply my_read_invalid_argument|].
  intros r n node -> Hoff Hlen Ha He Hidx Hslot Hnode Hsize clamped.
  destruct (my_read_checked fuel password realpath st pathname dst dst_len
              offset r s c n node) as [Hzero Hhit]; try assumption; [lia|].
  split; [exact Hzero|].
  intros Hpos Hrange Hcov.
  destruct (read_from_side_buffer_covered s (Reader.index_within_archive r)
              offset clamped dst) as (dst' & s' & Hr);
    [lia|lia|assumption..|].
  exists dst', s'. split; [exact Hr|]. apply Hhit; assumption.
Qed.

End MyRead.

(** A read of 50 bytes at offset 80 of the 100-byte file, with bytes
    [0, 32) and [8, 16) of the entry in the side buffers: clamped to 20
    bytes, not covered; the same at offset 4 of a request of 8 bytes is
    covered. *)
Lemma my_read_side_buffer_hit_witness :
  exists dst' s',
    my_read (H := scripted example_archive true) 0 "" "/archive.tar"
      example_tree "/f" [] 8 4 (Some (example_reader 3 50 100))
      example_side_buffers empty_reader_cache
    = Ok (8, dst', Some (example_reader 3 50 100), s', empty_reader_cache).
Proof.
  destruct (my_read_side_buffer_hit (H := scripted example_archive true)
              0%nat "" "/archive.tar" example_tree "/f" [] 8 4
              (Some (example_reader 3 50 100)) example_side_buffers
              empty_reader_cache) as [_ Hr]; [lia|].
  destruct (Hr (example_reader 3 50 100) 1%nat
              {| Node.rel_name := "f"; Node.symlink := "";
                 Node.index_within_archive := 3; Node.size := 100;
                 Node.mtime := 7; Node.mode := Z.lor S_IFREG 292;
                 Node.parent := Some 0%nat; Node.last_child := None;
                 Node.first_child := None; Node.next_sibling := None |})
    as [_ Hhit].
  - reflexivity.
  - lia.
  - vm_compute. discriminate.
  - eexists; reflexivity.
  - eexists; reflexivity.
  - vm_compute. split; discriminate.
  - reflexivity.
  - reflexivity.
  - vm_compute. split; discriminate.
  - destruct Hhit as (dst' & s' & _ & Hm).
    + vm_compute. reflexivity.
    + intros i Hi. unfold NUM_SIDE_BUFFERS in Hi.
      do 8 (destruct i as [|i]; [vm_compute; reflexivity|]). lia.
    + exists 5%nat. split; [unfold NUM_SIDE_BUFFERS; lia|].
      vm_compute. intuition discriminate.
    + exists dst', s'. exact Hm.
Defined.

(** ** Reader *)

Section ReaderFacts.
Context `{Libarchive}.

Lemma reader_step_refl (r : Reader.t) : reader_step r r.
Proof. left. lia. Qed.

Lemma reader_step_le (r r' : Reader.t) : reader_step r r' -> reader_le r r'.
Proof. unfold reader_step, reader_le. lia. Qed.

Lemma reader_le_trans (r1 r2 r3 : Reader.t) :
  reader_le r1 r2 -> reader_le r2 r3 -> reader_le r1 r3.
Proof. unfold reader_le. lia. Qed.

(** [advance_index_loop] with enough fuel returns; it moves the index
    forward to [want] when every header is read, and the offset is 0 as
    soon as the index has moved. *)
Lemma advance_index_loop_spec fuel (r : Reader.t) want :
  is_Some (Reader.archive r) ->
  (Z.to_nat (want - Reader.index_within_archive r) <= fuel)%nat ->
  exists b r',
    Reader.advance_index_loop fuel r want = Ok (b, r') /\
    is_Some (Reader.archive r') /\
    reader_step r r' /\
    Reader.index_within_archive r' <=
      Z.max (Reader.index_within_archive r) want /\
    (b = true ->
     Reader.index_within_archive r' =
       Z.max (Reader.index_within_archive r) want) /\
    (Reader.index_within_archive r' = Reader.index_within_archive r ->
     Reader.offset_within_entry r' = Reader.offset_within_entry r).
Proof.
  revert r. induction fuel as [|fuel IH]; intros r Ha Hfuel.
  - simpl. assert ((Reader.index_within_archive r <? want) = false) as ->
      by (apply Z.ltb_ge; lia).
    exists true, r. repeat split; try assumption; try lia.
    apply reader_step_refl.
  - simpl. destruct (Reader.index_within_archive r <? want) eqn:Elt.
    2:{ apply Z.ltb_ge in Elt. exists true, r.
        repeat split; try assumption; try lia. apply reader_step_refl. }
    apply Z.ltb_lt in Elt. destruct Ha as [a Ha]. rewrite Ha.
    cbn [deref mbind result_bind].
    destruct (archive_read_next_header a) as [[status e] a'].
    destruct (status =? ARCHIVE_EOF).
    { eexists false, _. split; [reflexivity|]. cbn.
      repeat split; eauto; try lia; try discriminate. left; cbn; lia. }
    destruct (negb (status =? ARCHIVE_OK) && negb (status =? ARCHIVE_WARN)).
    { eexists false, _. split; [reflexivity|]. cbn.
      repeat split; eauto; try lia; try discriminate. left; cbn; lia. }
    edestruct (IH {| Reader.archive := Some a'; Reader.archive_entry := e;
                     Reader.index_within_archive :=
                       Reader.index_within_archive r + 1;
                     Reader.offset_within_entry := 0 |})
      as (b & r' & Hr & Ha' & Hstep & Hmax & Hb & Hsame);
      [cbn; eauto|cbn; lia|].
    cbn in Hstep, Hmax, Hb, Hsame.
    exists b, r'. split; [exact Hr|]. split; [exact Ha'|].
    unfold reader_step in *. cbn in Hstep.
    split; [|split; [lia|split; [|lia]]].
    + right. destruct Hstep as [[Hi Ho]|[Hi Ho]]; [|lia].
      split; [lia|]. rewrite Hsame by exact Hi. reflexivity.
    + intros Hbt. specialize (Hb Hbt). lia.
Qed.

Lemma advance_index_spec (r : Reader.t) want :
  exists b r',
    Reader.advance_index r want = Ok (b, r') /\
    reader_step r r' /\
    Reader.index_within_archive r' <=
      Z.max (Reader.index_within_archive r) want /\
    (b = true ->
     is_Some (Reader.archive r') /\
     Reader.index_within_archive r' =
       Z.max (Reader.index_within_archive r) want) /\
    (Reader.index_within_archive r' = Reader.index_within_archive r ->
     Reader.offset_within_entry r' = Reader.offset_within_entry r).
Proof.
  unfold Reader.advance_index.
  destruct (Reader.archive r) as [a|] eqn:Ha.
  - destruct (advance_index_loop_spec
                (Z.to_nat (want - Reader.index_within_archive r)) r want)
      as (b & r' & Hr & Ha' & Hstep & Hmax & Hb & Hsame);
      [rewrite Ha; eauto|lia|].
    exists b, r'. repeat split; auto.
  - exists false, r. repeat split; try lia; try discriminate.
    apply reader_step_refl.
Qed.

Lemma read_spec (r : Reader.t) dst dst_len pathname n r' dst' :
  Reader.read r dst dst_len pathname = Ok (n, r', dst') ->
  Reader.index_within_archive r' = Reader.index_within_archive r /\
  Reader.archive_entry r' = Reader.archive_entry r /\
  is_Some (Reader.archive r') /\
  ((n = - EIO /\
    Reader.offset_within_entry r' = Reader.offset_within_entry r) \/
   (0 <= n /\
    Reader.offset_within_entry r' = Reader.offset_within_entry r + n)).
Proof.
  unfold Reader.read. destruct (Reader.archive r) as [a|]; [|discriminate].
  cbn [deref mbind result_bind].
  destruct (archive_read_data a dst_len) as [[n0 bytes] a'].
  destruct (n0 <? 0) eqn:En.
  - intros [= <- <- <-]. cbn. eauto 10.
  - apply Z.ltb_ge in En.
    destruct (to_uint64 n0 >? dst_len); [discriminate|].
    intros [= <- <- <-]. cbn. eauto 10.
Qed.

Lemma read_step (r : Reader.t) dst dst_len pathname n r' dst' :
  Reader.read r dst dst_len pathname = Ok (n, r', dst') -> reader_step r r'.
Proof.
  intros Hr. apply read_spec in Hr as (Hi & _ & _ & Ho).
  left. lia.
Qed.

Lemma advance_offset_loop_step fuel (r : Reader.t) want pathname sb s b r' s' :
  Reader.advance_offset_loop fuel r want pathname sb s = Ok (b, r', s') ->
  Reader.index_within_archive r' = Reader.index_within_archive r /\
  Reader.offset_within_entry r <= Reader.offset_within_entry r'.
Proof.
  revert r s. induction fuel as [|fuel IH]; intros r s; simpl.
  - destruct (want >? Reader.offset_within_entry r); [discriminate|].
    intros [= <- <- <-]. lia.
  - destruct (want >? Reader.offset_within_entry r).
    2:{ intros [= <- <- <-]. lia. }
    destruct (Reader.read r _ _ _) as [[[n r1] d1]| |] eqn:Er;
      try discriminate.
    cbn [mbind result_bind].
    apply read_spec in Er as (Hi & _ & _ & Ho).
    destruct (n <? 0).
    + intros [= <- <- <-]. lia.
    + intros Hl. apply IH in Hl. lia.
Qed.

Lemma advance_offset_step fuel (r : Reader.t) want pathname s b r' s' :
  Reader.advance_offset fuel r want pathname s = Ok (b, r', s') ->
  reader_step r r'.
Proof.
  unfold Reader.advance_offset.
  destruct (_ || _); [intros [= <- <- <-]; apply reader_step_refl|].
  destruct (want <? _); [intros [= <- <- <-]; apply reader_step_refl|].
  destruct (want =? _); [intros [= <- <- <-]; apply reader_step_refl|].
  destruct (acquire_side_buffer s) as [sb s1].
  destruct (NUM_SIDE_BUFFERS <=? sb)%nat;
    [intros [= <- <- <-]; apply reader_step_refl|].
  intros Hl. apply advance_offset_loop_step in Hl. left. lia.
Qed.

Lemma run_call_step k (r : Reader.t) s r' s' :
  run_call k r s = Ok (r', s') -> reader_step r r'.
Proof.
  destruct k as [want|fuel want pathname|dst dst_len pathname]; simpl.
  - destruct (advance_index_spec r want) as (b & r1 & -> & Hstep & _).
    cbn. intros [= <- <-]. exact Hstep.
  - destruct (Reader.advance_offset _ _ _ _ _) as [[[b r1] s1]| |] eqn:E;
      try discriminate.
    cbn. intros [= <- <-]. eapply advance_offset_step; eauto.
  - destruct (Reader.read _ _ _ _) as [[[n r1] d1]| |] eqn:E;
      try discriminate.
    cbn. intros [= <- <-]. eapply read_step; eauto.
Qed.

(** C8. Along any sequence of [advance_index], [advance_offset] and
    [read] calls on a Reader, each call either keeps the index and does
    not decrease the offset, or increases the index and leaves the
    offset at 0; so the state [(index, offset)] never moves backward in
    the lexicographic order.  [swap] is what replaces a Reader's state
    by another Reader's. *)
Theorem reader_state_only_advances
    (ks : list reader_call) (r : Reader.t) (s : side_buffers)
    (tr : list Reader.t) :
  run_calls ks r s = Ok tr ->
  (forall i r1 r2,
     (r :: tr) !! i = Some r1 -> (r :: tr) !! S i = Some r2 ->
     reader_step r1 r2) /\
  (forall i j r1 r2,
     (i <= j)%nat ->
     (r :: tr) !! i = Some r1 -> (r :: tr) !! j = Some r2 ->
     reader_le r1 r2) /\
  (forall a b : Reader.t,
     Reader.index_within_archive (Reader.swap a b).1 =
       Reader.index_within_archive b /\
     Reader.offset_within_entry (Reader.swap a b).1 =
       Reader.offset_within_entry b /\
     Reader.index_within_archive (Reader.swap a b).2 =
       Reader.index_within_archive a /\
     Reader.offset_within_entry (Reader.swap a b).2 =
       Reader.offset_within_entry a).
Proof.
  intros Hrun.
  assert (Hsteps : forall i r1 r2,
            (r :: tr) !! i = Some r1 -> (r :: tr) !! S i = Some r2 ->
            reader_step r1 r2).
  { revert r s tr Hrun. induction ks as [|k ks IH]; intros r s tr; simpl.
    - intros [= <-] i r1 r2 H1 H2. destruct i; discriminate.
    - destruct (run_call k r s) as [[r' s']| |] eqn:Ek; try discriminate.
      cbn [mbind result_bind].
      destruct (run_calls ks r' s') as [tr'| |] eqn:Eks; try discriminate.
      cbn. intros [= <-] i r1 r2 H1 H2.
      destruct i as [|i].
      + cbn in H1, H2. injection H1 as <-. injection H2 as <-.
        eapply run_call_step; eauto.
      + eapply (IH r' s' tr' Eks i); eauto. }
  split; [exact Hsteps|]. split; [|intros a b; cbn; auto].
  intros i j r1 r2 Hij H1 H2.
  induction Hij as [|j Hij IHj] in r2, H2 |- *.
  - rewrite H1 in H2. injection H2 as <-. right. lia.
  - destruct ((r :: tr) !! j) as [rj|] eqn:Ej.
    + eapply reader_le_trans; [apply (IHj rj eq_refl)|].
      apply reader_step_le. eapply Hsteps; eauto.
    + apply lookup_ge_None in Ej. apply lookup_lt_Some in H2. lia.
Qed.

End ReaderFacts.

(** A Reader freshly opened on the example archive is moved to entry 3,
    then to offset 40, and then reads 10 bytes. *)
Lemma reader_state_only_advances_witness :
  exists tr,
    run_calls (H := example_library)
      [call_advance_index 3; call_advance_offset 5 40 "/f";
       call_read [] 10 "/f"]
      example_fresh_reader zeroed_side_buffers = Ok tr /\
    forall i j r1 r2,
      (i <= j)%nat ->
      (example_fresh_reader :: tr) !! i = Some r1 ->
      (example_fresh_reader :: tr) !! j = Some r2 ->
      reader_le r1 r2.
Proof.
  eexists. split.
  - vm_compute. reflexivity.
  - apply (reader_state_only_advances (H := example_library)
             [call_advance_index 3; call_advance_offset 5 40 "/f";
              call_read [] 10 "/f"]
             example_fresh_reader zeroed_side_buffers).
    vm_compute. reflexivity.
Defined.

Section MyReadIndex.
Context `{Libarchive}.

Lemma read_pathname (r : Reader.t) dst dst_len p p' :
  Reader.read r dst dst_len p = Reader.read r dst dst_len p'.
Proof. reflexivity. Qed.

Lemma advance_offset_loop_pathname fuel (r : Reader.t) want p p' sb s :
  Reader.advance_offset_loop fuel r want p sb s =
  Reader.advance_offset_loop fuel r want p' sb s.
Proof.
  revert r s. induction fuel as [|fuel IH]; intros r s; simpl; [reflexivity|].
  destruct (want >? Reader.offset_within_entry r); [|reflexivity].
  rewrite (read_pathname r _ _ p p').
  destruct (Reader.read r _ _ p') as [[[n r1] d1]| |];
    cbn [mbind result_bind]; try reflexivity.
  destruct (n <? 0); [reflexivity|]. apply IH.
Qed.

Lemma advance_offset_pathname fuel (r : Reader.t) want p p' s :
  Reader.advance_offset fuel r want p s =
  Reader.advance_offset fuel r want p' s.
Proof.
  unfold Reader.advance_offset.
  destruct (_ || _); [reflexivity|].
  destruct (want <? _); [reflexivity|].
  destruct (want =? _); [reflexivity|].
  destruct (acquire_side_buffer s) as [sb s1].
  destruct (NUM_SIDE_BUFFERS <=? sb)%nat; [reflexivity|].
  apply advance_offset_loop_pathname.
Qed.

Lemma my_read_pathname fuel password realpath st p p' dst dst_len offset
    fh s c :
  my_read fuel password realpath st p dst dst_len offset fh s c =
  my_read fuel password realpath st p' dst dst_len offset fh s c.
Proof.
  unfold my_read.
  repeat match goal with
         | |- context [Reader.advance_offset fuel ?r offset p ?s] =>
             rewrite (advance_offset_pathname fuel r offset p p' s)
         | |- (if ?b then _ else _) = _ => destruct b; try reflexivity
         | |- match ?x with _ => _ end = _ => destruct x; try reflexivity
         | |- (let '(_, _) := ?x in _) = _ => destruct x; try reflexivity
         | |- mbind _ ?x = _ =>
             destruct x; cbn [mbind result_bind]; try reflexivity
         end.
Qed.

(** The checks of [my_read] on the Reader and on the node. *)
Lemma my_read_io_error fuel password realpath st pathname dst dst_len offset
    fh s c :
  0 <= offset -> dst_len <= INT_MAX ->
  fh = None \/
  (exists r : Reader.t,
     fh = Some r /\
     (Reader.archive r = None \/
      Reader.archive_entry r = None \/
      to_uint64 (Reader.index_within_archive r) >=
        Z.of_nat (length (g_nodes_by_index st)) \/
      g_nodes_by_index st !!
        Z.to_nat (to_uint64 (Reader.index_within_archive r)) = Some None \/
      (exists n node,
         g_nodes_by_index st !!
           Z.to_nat (to_uint64 (Reader.index_within_archive r))
           = Some (Some n) /\
         nodes st !! n = Some node /\ Node.size node < 0))) ->
  my_read fuel password realpath st pathname dst dst_len offset fh s c
    = Ok (- EIO, dst, fh, s, c).
Proof.
  intros Hoff Hlen Hcase. unfold my_read.
  assert (((offset <? 0) || (dst_len >? INT_MAX)) = false) as ->.
  { apply orb_false_iff. split; [apply Z.ltb_ge; lia|].
    destruct (Z.gtb_spec dst_len INT_MAX); [lia|reflexivity]. }
  destruct Hcase as [->|(r & -> & Hcase)]; [reflexivity|].
  destruct (negb (bool_decide (is_Some (Reader.archive r))) ||
            negb (bool_decide (is_Some (Reader.archive_entry r)))) eqn:Elive;
    [reflexivity|].
  apply orb_false_iff in Elive as [Ha He].
  apply negb_false_iff, bool_decide_eq_true in Ha, He.
  destruct Hcase as [Hn|[Hn|Hcase]];
    [rewrite Hn in Ha; destruct Ha; discriminate
    |rewrite Hn in He; destruct He; discriminate|].
  cbn zeta.
  destruct (to_uint64 (Reader.index_within_archive r) >=?
            Z.of_nat (length (g_nodes_by_index st))) eqn:Ege; [reflexivity|].
  destruct Hcase as [Hge|[Hslot|(n & node & Hslot & Hnode & Hsize)]].
  - destruct (Z.geb_spec (to_uint64 (Reader.index_within_archive r))
                (Z.of_nat (length (g_nodes_by_index st))));
      [discriminate|lia].
  - rewrite Hslot. reflexivity.
  - rewrite Hslot. cbn [default from_option id]. rewrite Hnode.
    cbn [deref mbind result_bind].
    assert ((Node.size node <? 0) = true) as -> by (apply Z.ltb_lt; lia).
    reflexivity.
Qed.

(** C9. [my_read] does not depend on its pathname argument, nor on
    [g_nodes_by_name]: the file served is the node that
    [g_nodes_by_index] holds at the index of the handle's Reader.  Once
    the arguments are valid, it returns [-EIO] when the Reader is null,
    when it has no archive or no entry, when its index is at or beyond
    the length of [g_nodes_by_index], when the slot at its index is
    empty, and when the size of the node is negative. *)
Theorem my_read_serves_reader_index fuel password realpath st pathname dst
    dst_len offset fh s c :
  (forall pathname',
     my_read fuel password realpath st pathname' dst dst_len offset fh s c =
     my_read fuel password realpath st pathname dst dst_len offset fh s c) /\
  (forall st',
     nodes st' = nodes st -> g_nodes_by_index st' = g_nodes_by_index st ->
     my_read fuel password realpath st' pathname dst dst_len offset fh s c =
     my_read fuel password realpath st pathname dst dst_len offset fh s c) /\
  (0 <= offset -> dst_len <= INT_MAX ->
   fh = None \/
   (exists r : Reader.t,
      fh = Some r /\
      (Reader.archive r = None \/
       Reader.archive_entry r = None \/
       to_uint64 (Reader.index_within_archive r) >=
         Z.of_nat (length (g_nodes_by_index st)) \/
       g_nodes_by_index st !!
         Z.to_nat (to_uint64 (Reader.index_within_archive r)) = Some None \/
       (exists n node,
          g_nodes_by_index st !!
            Z.to_nat (to_uint64 (Reader.index_within_archive r))
            = Some (Some n) /\
          nodes st !! n = Some node /\ Node.size node < 0))) ->
   my_read fuel password realpath st pathname dst dst_len offset fh s c
     = Ok (- EIO, dst, fh, s, c)).
Proof.
  split; [intros p'; apply my_read_pathname|].
  split; [|apply my_read_io_error].
  intros st' Hn Hi. unfold my_read. rewrite Hn, Hi. reflexivity.
Qed.

End MyReadIndex.

(** The Reader of the handle is at entry 1 of the archive, whose slot in
    [g_nodes_by_index] is empty: the entry was skipped at start-up. *)
Lemma my_read_serves_reader_index_witness :
  my_read (H := example_library) 0 "" "/archive.tar" example_tree "/f" []
    8 4 (Some (example_reader 1 0 5)) example_side_buffers
    empty_reader_cache
  = Ok (- EIO, [], Some (example_reader 1 0 5), example_side_buffers,
        empty_reader_cache).
Proof.
  apply (my_read_serves_reader_index (H := example_library));
    [lia|unfold INT_MAX; lia|].
  right. exists (example_reader 1 0 5). split; [reflexivity|].
  right. right. right. left. reflexivity.
Defined.

(** ** The reader cache *)

Section ReaderCacheFacts.
Context `{Libarchive}.

Lemma pair_lt_spec (x y : Z * Z) :
  pair_lt x y = true <-> x.1 < y.1 \/ (x.1 = y.1 /\ x.2 < y.2).
Proof.
  unfold pair_lt.
  rewrite orb_true_iff, andb_true_iff, !Z.ltb_lt, Z.eqb_eq. tauto.
Qed.

Lemma pair_le_spec (x y : Z * Z) :
  pair_le x y = true <-> x.1 < y.1 \/ (x.1 = y.1 /\ x.2 <= y.2).
Proof.
  unfold pair_le. rewrite negb_true_iff.
  destruct (pair_lt y x) eqn:E.
  - apply pair_lt_spec in E. split; [discriminate|lia].
  - split; [intros _|reflexivity].
    assert (~ (y.1 < x.1 \/ (y.1 = x.1 /\ y.2 < x.2))) as Hn.
    { intros Hc. apply pair_lt_spec in Hc. congruence. }
    lia.
Qed.

(** The state of the search loop of [acquire_reader] after the indexes
    [seen]. *)
Lemma best_saved_reader_inv (c : reader_cache) (want : Z) (idxs : list nat) :
  (forall i r, i ∈ idxs -> (saved_at c i).1 = Some r ->
     -1 <= Reader.index_within_archive r /\
     0 <= Reader.offset_within_entry r) ->
  match best_saved_reader c want idxs with
  | (None, _, _) =>
      forall j rj, j ∈ idxs -> (saved_at c j).1 = Some rj ->
        ~ qualifies want rj
  | (Some i, _, _) =>
      i ∈ idxs /\
      exists ri,
        (saved_at c i).1 = Some ri /\ qualifies want ri /\
        forall j rj, j ∈ idxs -> (saved_at c j).1 = Some rj ->
          qualifies want rj -> reader_le rj ri
  end.
Proof.
  intros Hwf. unfold best_saved_reader.
  set (f := fun '(best_i, bi, bo) i => _).
  set (inv := fun (seen : list nat) (acc : option nat * Z * Z) =>
         match acc with
         | (None, bi, bo) =>
             bi = -1 /\ bo = -1 /\
             forall j rj, j ∈ seen -> (saved_at c j).1 = Some rj ->
               ~ qualifies want rj
         | (Some i, bi, bo) =>
             i ∈ seen /\
             exists ri,
               (saved_at c i).1 = Some ri /\
               bi = Reader.index_within_archive ri /\
               bo = Reader.offset_within_entry ri /\
               qualifies want ri /\
               forall j rj, j ∈ seen -> (saved_at c j).1 = Some rj ->
                 qualifies want rj -> reader_le rj ri
         end).
  assert (Hgen : forall l seen acc,
            (forall i, i ∈ l -> i ∈ idxs) ->
            inv seen acc -> inv (seen ++ l) (foldl f acc l)).
  { induction l as [|i l IH]; intros seen acc Hsub Hacc; simpl.
    - rewrite app_nil_r. exact Hacc.
    - replace (seen ++ i :: l) with ((seen ++ [i]) ++ l)
        by (rewrite <- app_assoc; reflexivity).
      apply IH; [intros k Hk; apply Hsub; elem_solver|].
      destruct acc as [[b bi] bo]. unfold f, inv in *.
      destruct ((saved_at c i).1) as [sri|] eqn:Es.
      2:{ destruct b as [i0|].
          - destruct Hacc as (Hin & ri & Hri & Hbi & Hbo & Hq & Hmax).
            split; [elem_solver|]. exists ri. repeat split; try assumption.
            intros j rj Hj Hrj Hqj. apply elem_of_app in Hj as [Hj|Hj]; [eauto|].
            apply list_elem_of_singleton in Hj as ->. congruence.
          - destruct Hacc as (Hbi & Hbo & Hno). repeat split; try assumption.
            intros j rj Hj Hrj. apply elem_of_app in Hj as [Hj|Hj]; [eauto|].
            apply list_elem_of_singleton in Hj as ->. congruence. }
      destruct (Hwf i sri) as [Hi1 Ho1]; [apply Hsub; elem_solver|exact Es|].
      destruct (pair_lt (bi, bo) _ && pair_le _ (want, 0)) eqn:Ec.
      + apply andb_true_iff in Ec as [Elt Ele].
        apply pair_lt_spec in Elt. apply pair_le_spec in Ele.
        cbn [fst snd] in Elt, Ele.
        split; [elem_solver|]. exists sri.
        repeat split; try assumption.
        intros j rj Hj Hrj Hqj. apply elem_of_app in Hj as [Hj|Hj].
        * destruct b as [i0|].
          -- destruct Hacc as (_ & ri & Hri & Hbi & Hbo & Hq & Hmax).
             specialize (Hmax j rj Hj Hrj Hqj). unfold reader_le in *. lia.
          -- destruct Hacc as (_ & _ & Hno). destruct (Hno j rj Hj Hrj Hqj).
        * apply list_elem_of_singleton in Hj as ->.
          assert (rj = sri) as -> by congruence. unfold reader_le. lia.
      + apply andb_false_iff in Ec.
        assert (Hcase : ~ (bi < Reader.index_within_archive sri \/
                           (bi = Reader.index_within_archive sri /\
                            bo < Reader.offset_within_entry sri)) \/
                        ~ qualifies want sri).
        { destruct Ec as [Ec|Ec]; [left|right]; intros Hc.
          - assert (pair_lt (bi, bo)
                      (Reader.index_within_archive sri,
                       Reader.offset_within_entry sri) = true)
              by (apply pair_lt_spec; exact Hc).
            congruence.
          - assert (pair_le (Reader.index_within_archive sri,
                             Reader.offset_within_entry sri) (want, 0) = true)
              by (apply pair_le_spec; exact Hc).
            congruence. }
        destruct b as [i0|].
        * destruct Hacc as (Hin & ri & Hri & Hbi & Hbo & Hq & Hmax).
          split; [elem_solver|]. exists ri. repeat split; try assumption.
          intros j rj Hj Hrj Hqj. apply elem_of_app in Hj as [Hj|Hj]; [eauto|].
          apply list_elem_of_singleton in Hj as ->.
          assert (rj = sri) as -> by congruence.
          destruct Hcase as [Hcase|Hcase]; [|contradiction].
          unfold reader_le. lia.
        * destruct Hacc as (Hbi & Hbo & Hno). repeat split; try assumption.
          intros j rj Hj Hrj. apply elem_of_app in Hj as [Hj|Hj]; [eauto|].
          apply list_elem_of_singleton in Hj as ->.
          assert (rj = sri) as -> by congruence.
          destruct Hcase as [Hcase|Hcase]; [|exact Hcase].
          lia. }
  specialize (Hgen idxs [] (None, -1, -1) (fun i Hi => Hi)).
  cbn [app] in Hgen.
  destruct (foldl f (None, -1, -1) idxs) as [[[i|] bi] bo].
  - destruct Hgen as (Hin & ri & Hri & _ & _ & Hq & Hmax).
    + unfold inv. repeat split. intros j rj Hj. inversion Hj.
    + split; [exact Hin|]. exists ri. auto.
  - destruct Hgen as (_ & _ & Hno); [|exact Hno].
    unfold inv. repeat split. intros j rj Hj. inversion Hj.
Qed.

Lemma open_fresh_reader_new password realpath (r : Reader.t) :
  open_fresh_reader password realpath = Some r ->
  is_Some (Reader.archive r) /\
  Reader.archive_entry r = None /\
  Reader.index_within_archive r = -1 /\
  Reader.offset_within_entry r = 0.
Proof.
  unfold open_fresh_reader.
  destruct archive_read_new as [a|]; [|discriminate].
  destruct (archive_read_open_filename _ _ _) as [status a'].
  destruct (negb (status =? ARCHIVE_OK)); [discriminate|].
  intros [= <-]. cbn. eauto.
Qed.

(** [advance_index] on a Reader that qualifies for [want]: when it
    succeeds the Reader is at the start of entry [want]. *)
Lemma advance_index_qualified (r : Reader.t) want :
  qualifies want r -> 0 <= Reader.offset_within_entry r ->
  exists ok r',
    Reader.advance_index r want = Ok (ok, r') /\
    (ok = true ->
     is_Some (Reader.archive r') /\
     Reader.index_within_archive r' = want /\
     Reader.offset_within_entry r' = 0).
Proof.
  intros Hq Ho.
  destruct (advance_index_spec r want) as (b & r' & Hr & Hstep & _ & Hb & Hsame).
  exists b, r'. split; [exact Hr|]. intros Hbt.
  destruct (Hb Hbt) as [Ha Hi]. split; [exact Ha|].
  unfold qualifies, reader_step in *. split; [lia|].
  destruct Hstep as [[Hi' Ho']|[Hi' Ho']]; [|exact Ho'].
  rewrite Hsame by exact Hi'. lia.
Qed.

(** C1. [acquire_reader] returns no Reader for a negative index.  For
    [want >= 0]: when some cached Reader has a state at or before
    [(want, 0)], the cached Reader with the greatest such state is taken
    out of the cache and advanced with [advance_index]; when none has,
    a fresh decompression stream is made with [archive_read_new], given
    the passphrase when there is one, all filters and formats and the
    raw format, and opened over the archive with
    [archive_read_open_filename], and a new Reader over that stream is
    advanced with [advance_index]; when [archive_read_new] gives no
    stream, when opening does not return [ARCHIVE_OK] or when advancing
    fails, no Reader is returned, and a Reader that is returned is at
    the start of entry [want]. *)
Theorem acquire_reader_closest_predecessor
    (password realpath : string) (want : Z) (c : reader_cache) :
  length (g_saved_readers c) = NUM_SAVED_READERS ->
  (forall i r, (i < NUM_SAVED_READERS)%nat -> (saved_at c i).1 = Some r ->
     -1 <= Reader.index_within_archive r /\
     0 <= Reader.offset_within_entry r) ->
  (want < 0 -> acquire_reader password realpath want c = Ok (None, c)) /\
  (0 <= want ->
   (exists i r, (i < NUM_SAVED_READERS)%nat /\
      (saved_at c i).1 = Some r /\ qualifies want r) ->
   exists best rb ok r',
     (best < NUM_SAVED_READERS)%nat /\
     (saved_at c best).1 = Some rb /\
     qualifies want rb /\
     (forall j rj, (j < NUM_SAVED_READERS)%nat ->
        (saved_at c j).1 = Some rj -> qualifies want rj -> reader_le rj rb) /\
     (saved_at (take_saved_reader c best) best).1 = None /\
     Reader.advance_index rb want = Ok (ok, r') /\
     acquire_reader password realpath want c =
       Ok (if ok then Some r' else None, take_saved_reader c best) /\
     (ok = true ->
      Reader.index_within_archive r' = want /\
      Reader.offset_within_entry r' = 0)) /\
  (0 <= want ->
   (forall i r, (i < NUM_SAVED_READERS)%nat ->
      (saved_at c i).1 = Some r -> ~ qualifies want r) ->
   (archive_read_new = None ->
    acquire_reader password realpath want c = Ok (None, c)) /\
   (forall a0 status a,
      archive_read_new = Some a0 ->
      archive_read_open_filename
        (archive_read_support_format_raw
           (archive_read_support_format_all
              (archive_read_support_filter_all
                 (if String.eqb password "" then a0
                  else archive_read_add_passphrase a0 password))))
        realpath BLOCK_SIZE = (status, a) ->
      (status <> ARCHIVE_OK ->
       acquire_reader password realpath want c = Ok (None, c)) /\
      (status = ARCHIVE_OK ->
       exists ok r',
         Reader.advance_index
           {| Reader.archive := Some a; Reader.archive_entry := None;
              Reader.index_within_archive := -1;
              Reader.offset_within_entry := 0 |} want = Ok (ok, r') /\
         acquire_reader password realpath want c =
           Ok (if ok then Some r' else None, c) /\
         (ok = true ->
          Reader.index_within_archive r' = want /\
          Reader.offset_within_entry r' = 0)))).
Proof.
  intros Hlen Hwf.
  assert (Hwf' : forall i r, i ∈ seq 0 NUM_SAVED_READERS ->
            (saved_at c i).1 = Some r ->
            -1 <= Reader.index_within_archive r /\
            0 <= Reader.offset_within_entry r).
  { intros i r Hi. apply Hwf. apply elem_of_seq_0. exact Hi. }
  pose proof (best_saved_reader_inv c want (seq 0 NUM_SAVED_READERS) Hwf')
    as Hinv.
  unfold acquire_reader.
  split.
  { intros Hneg. assert ((want <? 0) = true) as -> by (apply Z.ltb_lt; lia).
    reflexivity. }
  split.
  - intros Hwant (i & r & Hi & Hr & Hq).
    assert ((want <? 0) = false) as -> by (apply Z.ltb_ge; lia).
    destruct (best_saved_reader c want (seq 0 NUM_SAVED_READERS))
      as [[[best|] bi] bo]; cbn [fst snd].
    2:{ destruct (Hinv i r); [apply elem_of_seq_0|..]; assumption. }
    destruct Hinv as (Hin & rb & Hrb & Hqb & Hmax).
    apply elem_of_seq_0 in Hin.
    destruct (advance_index_qualified rb want Hqb) as (ok & r' & Hadv & Hok).
    { destruct (Hwf best rb Hin Hrb). assumption. }
    exists best, rb, ok, r'.
    split; [exact Hin|]. split; [exact Hrb|]. split; [exact Hqb|].
    split.
    { intros j rj Hj. apply Hmax. apply elem_of_seq_0. exact Hj. }
    split.
    { unfold saved_at, take_saved_reader; cbn [g_saved_readers].
      rewrite list_lookup_insert_eq by (rewrite Hlen; exact Hin).
      reflexivity. }
    split; [exact Hadv|].
    split.
    + rewrite Hrb. fold (take_saved_reader c best). rewrite Hadv.
      cbn [mbind result_bind]. destruct ok; reflexivity.
    + intros Hokt. apply Hok in Hokt. tauto.
  - intros Hwant Hnone.
    assert ((want <? 0) = false) as -> by (apply Z.ltb_ge; lia).
    destruct (best_saved_reader c want (seq 0 NUM_SAVED_READERS))
      as [[[best|] bi] bo]; cbn [fst snd].
    { destruct Hinv as (Hin & rb & Hrb & Hqb & _).
      apply elem_of_seq_0 in Hin. destruct (Hnone best rb Hin Hrb Hqb). }
    unfold open_fresh_reader.
    split.
    { intros ->. reflexivity. }
    intros a0 status a -> Hopen.
    destruct (String.eqb password ""); cbn [negb]; rewrite Hopen.
    all: split;
      [ intros Hst;
        assert ((status =? ARCHIVE_OK) = false) as ->
          by (apply Z.eqb_neq; exact Hst);
        reflexivity
      | intros Hst;
        assert ((status =? ARCHIVE_OK) = true) as ->
          by (apply Z.eqb_eq; exact Hst);
        cbn [negb];
        destruct (advance_index_qualified (Reader.new a) want)
          as (ok & r' & Hadv & Hok);
        [ unfold qualifies; cbn; lia | cbn; lia | ];
        exists ok, r'; split; [exact Hadv|];
        rewrite Hadv; cbn [mbind result_bind];
        split; [destruct ok; reflexivity|];
        intros Hokt; apply Hok in Hokt; tauto ].
Qed.

End ReaderCacheFacts.

(** With Readers cached at [(30, 500)], [(50, 0)] and [(10, 7)], a
    request for entry 40 is served by the cached Reader at [(30, 500)].
    With an empty cache, a request for entry 2 opens a fresh stream
    over the archive and advances it; when the archive cannot be
    opened, no Reader is returned. *)
Lemma acquire_reader_closest_predecessor_witness :
  (exists (best : nat) (rb : Reader.t) (ok : bool) (r' : Reader.t),
     (best < NUM_SAVED_READERS)%nat /\
     (saved_at example_reader_cache best).1 = Some rb /\
     qualifies 40 rb /\
     (forall j rj, (j < NUM_SAVED_READERS)%nat ->
        (saved_at example_reader_cache j).1 = Some rj ->
        qualifies 40 rj -> reader_le rj rb) /\
     (saved_at (take_saved_reader example_reader_cache best) best).1 = None /\
     Reader.advance_index rb 40 = Ok (ok, r') /\
     acquire_reader (H := example_library) "" "/archive.tar" 40
       example_reader_cache =
       Ok (if ok then Some r' else None,
           take_saved_reader example_reader_cache best) /\
     (ok = true ->
      Reader.index_within_archive r' = 40 /\
      Reader.offset_within_entry r' = 0)) /\
  (exists (ok : bool) (r' : Reader.t),
     Reader.advance_index example_fresh_reader 2 = Ok (ok, r') /\
     acquire_reader (H := example_library) "" "/archive.tar" 2
       empty_reader_cache =
       Ok (if ok then Some r' else None, empty_reader_cache) /\
     (ok = true ->
      Reader.index_within_archive r' = 2 /\
      Reader.offset_within_entry r' = 0)) /\
  acquire_reader (H := scripted example_archive false) "" "/archive.tar" 2
    empty_reader_cache = Ok (None, empty_reader_cache).
Proof.
  assert (Hempty : forall (L : Libarchive) i (r : @Reader.t L) (P : Prop),
            (i < NUM_SAVED_READERS)%nat ->
            (saved_at (@empty_reader_cache L) i).1 = Some r -> P).
  { intros L i r P Hi. unfold NUM_SAVED_READERS in Hi.
    do 8 (destruct i as [|i]; [vm_compute; discriminate|]).
    lia. }
  split; [|split].
  - apply (acquire_reader_closest_predecessor (H := example_library)
             "" "/archive.tar" 40 example_reader_cache).
    + reflexivity.
    + intros i r Hi. unfold NUM_SAVED_READERS in Hi.
      do 8 (destruct i as [|i];
            [vm_compute; intros [= <-]; vm_compute; split; discriminate|]).
      lia.
    + lia.
    + exists 1%nat, (example_reader_at 30 500).
      split; [unfold NUM_SAVED_READERS; lia|]. split; [reflexivity|].
      left. vm_compute. reflexivity.
  - destruct (acquire_reader_closest_predecessor (H := example_library)
                "" "/archive.tar" 2 empty_reader_cache eq_refl)
      as (_ & _ & Hfresh).
    { intros i r. apply Hempty. }
    destruct Hfresh as [_ Hfresh].
    { lia. }
    { intros i r. apply Hempty. }
    destruct (Hfresh {| script_headers := []; script_remaining := 0;
                        script_data_error := false |}
                ARCHIVE_OK example_archive eq_refl eq_refl) as [_ Hok].
    exact (Hok eq_refl).
  - destruct (acquire_reader_closest_predecessor
                (H := scripted example_archive false)
                "" "/archive.tar" 2 empty_reader_cache eq_refl)
      as (_ & _ & Hfresh).
    { intros i r. apply Hempty. }
    destruct Hfresh as [_ Hfresh].
    { lia. }
    { intros i r. apply Hempty. }
    destruct (Hfresh {| script_headers := []; script_remaining := 0;
                        script_data_error := false |}
                ARCHIVE_FATAL
                {| script_headers := []; script_remaining := 0;
                   script_data_error := false |} eq_refl eq_refl)
      as [Hfail _].
    apply Hfail. discriminate.
Defined.

(** ** Advancing the offset *)

Lemma meta_at_set_meta (s : side_buffers) (i : nat) m :
  (i < length (g_side_buffer_metadata s))%nat ->
  meta_at (set_meta s i m) i = m.
Proof.
  intros Hi. unfold meta_at, set_meta; cbn [g_side_buffer_metadata].
  rewrite list_lookup_insert_eq by exact Hi. reflexivity.
Qed.

Lemma oldest_index_lt (lru : nat -> Z) (n : nat) :
  (0 < n)%nat -> (oldest_index lru n < n)%nat.
Proof.
  intros Hn. unfold oldest_index.
  set (f := fun '(oldest_i, oldest_lru_priority) i => _).
  assert (Hgen : forall l acc,
            (acc.1 < n)%nat -> (forall i, i ∈ l -> (i < n)%nat) ->
            ((foldl f acc l).1 < n)%nat).
  { induction l as [|i l IH]; intros [oi ol] Hacc Hl; simpl; [exact Hacc|].
    apply IH; [|intros k Hk; apply Hl; elem_solver].
    destruct (ol >? lru i); cbn [fst]; [apply Hl; elem_solver|exact Hacc]. }
  apply Hgen; [exact Hn|].
  intros i Hi. apply list_elem_of_In, in_seq in Hi. lia.
Qed.

Lemma first_chunk_bounds d :
  0 < d -> 0 < first_chunk d <= SIDE_BUFFER_SIZE /\ first_chunk d <= d.
Proof.
  intros Hd. unfold first_chunk, SIDE_BUFFER_SIZE.
  destruct (Z.leb_spec d 131072); [lia|].
  pose proof (Z.mod_pos_bound d 131072 ltac:(lia)).
  destruct (Z.eqb_spec (d mod 131072) 0); lia.
Qed.

Lemma first_chunk_rest d :
  SIDE_BUFFER_SIZE < d ->
  exists k, 0 < k /\ d - first_chunk d = k * SIDE_BUFFER_SIZE.
Proof.
  intros Hd. unfold first_chunk, SIDE_BUFFER_SIZE in *.
  destruct (Z.leb_spec d 131072); [lia|].
  pose proof (Z.mod_pos_bound d 131072 ltac:(lia)).
  pose proof (Z.div_mod d 131072 ltac:(lia)).
  destruct (Z.eqb_spec (d mod 131072) 0).
  - exists (d / 131072 - 1). lia.
  - exists (d / 131072). lia.
Qed.

Lemma first_chunk_small d : d <= SIDE_BUFFER_SIZE -> first_chunk d = d.
Proof.
  intros Hd. unfold first_chunk.
  assert ((d <=? SIDE_BUFFER_SIZE) = true) as -> by (apply Z.leb_le; lia).
  reflexivity.
Qed.

Lemma last_chunk_small d : d <= SIDE_BUFFER_SIZE -> last_chunk d = d.
Proof.
  intros Hd. unfold last_chunk.
  assert ((d <=? SIDE_BUFFER_SIZE) = true) as -> by (apply Z.leb_le; lia).
  reflexivity.
Qed.

Lemma last_chunk_large d :
  SIDE_BUFFER_SIZE < d -> last_chunk d = SIDE_BUFFER_SIZE.
Proof.
  intros Hd. unfold last_chunk.
  assert ((d <=? SIDE_BUFFER_SIZE) = false) as -> by (apply Z.leb_gt; lia).
  reflexivity.
Qed.

Lemma last_chunk_multiple j :
  0 < j -> last_chunk (j * SIDE_BUFFER_SIZE) = SIDE_BUFFER_SIZE.
Proof.
  intros Hj. unfold last_chunk, SIDE_BUFFER_SIZE.
  destruct (Z.leb_spec (j * 131072) 131072); lia.
Qed.

Lemma chunk_plan_small d : d <= SIDE_BUFFER_SIZE -> chunk_plan d = [d].
Proof.
  intros Hd. unfold chunk_plan. rewrite first_chunk_small by exact Hd.
  rewrite Z.sub_diag, Zdiv_0_l. reflexivity.
Qed.

Lemma chunk_plan_length_pos d : (0 < length (chunk_plan d))%nat.
Proof. unfold chunk_plan. cbn. lia. Qed.

(** Beyond [SIDE_BUFFER_SIZE], the plan is the first chunk followed by
    the plan for the rest. *)
Lemma chunk_plan_large d :
  SIDE_BUFFER_SIZE < d ->
  chunk_plan d = first_chunk d :: chunk_plan (d - first_chunk d).
Proof.
  intros Hd. destruct (first_chunk_rest d Hd) as (j & Hj & Hdj).
  unfold chunk_plan at 1. f_equal. rewrite Hdj.
  rewrite Z.div_mul by (unfold SIDE_BUFFER_SIZE; lia).
  unfold chunk_plan.
  assert (first_chunk (j * SIDE_BUFFER_SIZE) = SIDE_BUFFER_SIZE) as ->.
  { unfold first_chunk.
    destruct (Z.leb_spec (j * SIDE_BUFFER_SIZE) SIDE_BUFFER_SIZE).
    - unfold SIDE_BUFFER_SIZE in *. lia.
    - rewrite Z.mod_mul by (unfold SIDE_BUFFER_SIZE; lia). reflexivity. }
  replace (j * SIDE_BUFFER_SIZE - SIDE_BUFFER_SIZE)
    with ((j - 1) * SIDE_BUFFER_SIZE) by lia.
  rewrite Z.div_mul by (unfold SIDE_BUFFER_SIZE; lia).
  replace (Z.to_nat j) with (S (Z.to_nat (j - 1))) by lia.
  reflexivity.
Qed.

Section AdvanceOffset.
Context `{Libarchive}.

(** The length that one iteration of the loop asks for. *)
Lemma loop_chunk_first (d : Z) :
  0 < d ->
  (if d >? SIDE_BUFFER_SIZE
   then if Z.rem d SIDE_BUFFER_SIZE =? 0 then SIDE_BUFFER_SIZE
        else Z.rem d SIDE_BUFFER_SIZE
   else d) = first_chunk d.
Proof.
  intros Hd. unfold first_chunk.
  rewrite Z.rem_mod_nonneg by (unfold SIDE_BUFFER_SIZE; lia).
  destruct (Z.gtb_spec d SIDE_BUFFER_SIZE), (Z.leb_spec d SIDE_BUFFER_SIZE);
    try lia; reflexivity.
Qed.

Lemma data_at_set_data (s : side_buffers) (i : nat) d :
  (i < length (g_side_buffer_data s))%nat ->
  data_at (set_data s i d) i = d.
Proof.
  intros Hi. unfold data_at, set_data; cbn [g_side_buffer_data].
  rewrite list_lookup_insert_eq by exact Hi. reflexivity.
Qed.

(** One iteration of the loop whose read returns a count: the bytes are
    stored at the start of the side buffer, whose metadata records the
    fill, and the loop goes on from the new offset. *)
Lemma advance_offset_loop_count fuel (r : Reader.t) want p sb s a n bytes a1 :
  Reader.archive r = Some a ->
  Reader.offset_within_entry r < want ->
  archive_read_data a (first_chunk (want - Reader.offset_within_entry r))
    = (n, bytes, a1) ->
  0 <= n <= first_chunk (want - Reader.offset_within_entry r) ->
  Reader.advance_offset_loop (S fuel) r want p sb s =
  Reader.advance_offset_loop fuel
    {| Reader.archive := Some a1;
       Reader.archive_entry := Reader.archive_entry r;
       Reader.index_within_archive := Reader.index_within_archive r;
       Reader.offset_within_entry := Reader.offset_within_entry r + n |}
    want p sb
    (set_meta
       (incr_next_lru_priority
          (set_data s sb (store bytes (data_at s sb)))).2 sb
       {| side_buffer_metadata.index_within_archive :=
            Reader.index_within_archive r;
          side_buffer_metadata.offset_within_entry :=
            Reader.offset_within_entry r;
          side_buffer_metadata.length := n;
          side_buffer_metadata.lru_priority :=
            to_uint64 (next_lru_priority s + 1) |}).
Proof.
  intros Ha Hlt Hread Hn.
  pose proof (first_chunk_bounds (want - Reader.offset_within_entry r)
                ltac:(lia)) as [Hb _].
  unfold SIDE_BUFFER_SIZE in Hb.
  cbn [Reader.advance_offset_loop].
  assert ((want >? Reader.offset_within_entry r) = true) as ->
    by (apply Z.gtb_lt; lia).
  cbn zeta. rewrite loop_chunk_first by lia.
  unfold Reader.read. rewrite Ha. cbn [deref mbind result_bind].
  rewrite (to_uint64_small (first_chunk _)) by lia.
  rewrite Hread.
  assert ((n <? 0) = false) as -> by (apply Z.ltb_ge; lia).
  rewrite (to_uint64_small n) by lia.
  assert ((n >? first_chunk (want - Reader.offset_within_entry r)) = false)
    as ->.
  { destruct (Z.gtb_spec n
                (first_chunk (want - Reader.offset_within_entry r)));
      [lia|reflexivity]. }
  cbn [mbind result_bind].
  assert ((n <? 0) = false) as -> by (apply Z.ltb_ge; lia).
  reflexivity.
Qed.

(** What the loop keeps: the side buffers other than [sb]. *)
Lemma advance_offset_loop_others fuel (r : Reader.t) want p sb s b r' s' :
  Reader.advance_offset_loop fuel r want p sb s = Ok (b, r', s') ->
  forall i, i <> sb ->
    data_at s' i = data_at s i /\ meta_at s' i = meta_at s i.
Proof.
  revert r s. induction fuel as [|fuel IH]; intros r s; simpl.
  - destruct (want >? Reader.offset_within_entry r); [discriminate|].
    intros [= <- <- <-]. auto.
  - destruct (want >? Reader.offset_within_entry r);
      [|intros [= <- <- <-]; auto].
    destruct (Reader.read r _ _ _) as [[[n r1] d1]| |]; try discriminate.
    cbn [mbind result_bind].
    assert (Hkeep : forall m i, i <> sb ->
              data_at (set_meta (set_data s sb d1) sb m) i = data_at s i /\
              meta_at (set_meta (set_data s sb d1) sb m) i = meta_at s i).
    { intros m i Hi. unfold data_at, meta_at, set_meta, set_data; cbn.
      rewrite !list_lookup_insert_ne by congruence. auto. }
    destruct (n <? 0).
    + intros [= <- <- <-]. apply Hkeep.
    + intros Hloop i Hi. destruct (IH _ _ Hloop i Hi) as [Hd Hm].
      rewrite Hd, Hm.
      unfold data_at, meta_at, set_meta, set_data; cbn.
      rewrite !list_lookup_insert_ne by congruence. auto.
Qed.

(** The result of the loop when libarchive serves in full the chunks of
    the plan: the side buffer holds what the reads have stored, and its
    metadata describes the last chunk. *)
Lemma advance_offset_loop_plan (k : nat) :
  forall fuel (r : Reader.t) want p sb s a a',
    Reader.archive r = Some a ->
    Reader.offset_within_entry r < want ->
    length (chunk_plan (want - Reader.offset_within_entry r)) = S k ->
    serves a (chunk_plan (want - Reader.offset_within_entry r)) a' ->
    (S k <= fuel)%nat ->
    (sb < length (g_side_buffer_metadata s))%nat ->
    (sb < length (g_side_buffer_data s))%nat ->
    exists s',
      Reader.advance_offset_loop fuel r want p sb s =
        Ok (true,
            {| Reader.archive := Some a';
               Reader.archive_entry := Reader.archive_entry r;
               Reader.index_within_archive := Reader.index_within_archive r;
               Reader.offset_within_entry := want |},
            s') /\
      meta_at s' sb =
        {| side_buffer_metadata.index_within_archive :=
             Reader.index_within_archive r;
           side_buffer_metadata.offset_within_entry :=
             want - last_chunk (want - Reader.offset_within_entry r);
           side_buffer_metadata.length :=
             last_chunk (want - Reader.offset_within_entry r);
           side_buffer_metadata.lru_priority := next_lru_priority s' |} /\
      data_at s' sb =
        stored a (chunk_plan (want - Reader.offset_within_entry r))
          (data_at s sb).
Proof.
  induction k as [|k IH];
    intros fuel r want p sb s a a' Ha Hlt Hplan Hserves Hfuel Hsb Hsd;
    (destruct fuel as [|fuel]; [lia|]);
    remember (want - Reader.offset_within_entry r) as d eqn:Hd;
    (destruct (Z.leb_spec d SIDE_BUFFER_SIZE) as [Hsmall|Hbig]).
  - rewrite (chunk_plan_small d) in * by lia.
    rewrite (last_chunk_small d) by lia.
    destruct Hserves as (bytes & a1 & Hread & <-).
    rewrite (advance_offset_loop_count fuel r want p sb s a d bytes a1 Ha Hlt);
      [|rewrite <- Hd, first_chunk_small by lia; exact Hread
       |rewrite <- Hd, first_chunk_small by lia; lia].
    eexists. split; [|split].
    + destruct fuel;
        cbn [Reader.advance_offset_loop Reader.offset_within_entry];
        (assert ((want >? Reader.offset_within_entry r + d) = false) as ->
           by (destruct (Z.gtb_spec want (Reader.offset_within_entry r + d));
               [lia|reflexivity]));
        replace (Reader.offset_within_entry r + d) with want by lia;
        reflexivity.
    + rewrite meta_at_set_meta by exact Hsb.
      replace (want - d) with (Reader.offset_within_entry r) by lia.
      reflexivity.
    + cbn [stored]. rewrite Hread.
      unfold data_at at 1, set_meta, incr_next_lru_priority;
        cbn [snd g_side_buffer_data].
      apply data_at_set_data. exact Hsd.
  - rewrite (chunk_plan_large d) in Hplan by lia. cbn [length] in Hplan.
    pose proof (chunk_plan_length_pos (d - first_chunk d)). lia.
  - rewrite (chunk_plan_small d) in Hplan by lia. discriminate.
  - destruct (first_chunk_rest d Hbig) as (j & Hj & Hdj).
    pose proof (first_chunk_bounds d ltac:(unfold SIDE_BUFFER_SIZE in *; lia))
      as [Hfc1 Hfc2].
    rewrite (chunk_plan_large d) in * by lia.
    rewrite (last_chunk_large d) by lia.
    cbn [length] in Hplan.
    destruct Hserves as (bytes & a1 & Hread & Hrest).
    rewrite (advance_offset_loop_count fuel r want p sb s a (first_chunk d)
               bytes a1 Ha Hlt);
      [|rewrite <- Hd; exact Hread|rewrite <- Hd; lia].
    match goal with
    | |- exists s', Reader.advance_offset_loop ?f ?R ?w ?q ?b ?S = _ /\ _ =>
        destruct (IH f R w q b S a1 a') as (s' & Hloop & Hmeta & Hdata)
    end.
    + reflexivity.
    + cbn [Reader.offset_within_entry]. unfold SIDE_BUFFER_SIZE in *. lia.
    + cbn [Reader.offset_within_entry].
      replace (want - (Reader.offset_within_entry r + first_chunk d))
        with (d - first_chunk d) by lia.
      lia.
    + cbn [Reader.offset_within_entry].
      replace (want - (Reader.offset_within_entry r + first_chunk d))
        with (d - first_chunk d) by lia.
      exact Hrest.
    + lia.
    + cbn. rewrite length_insert. exact Hsb.
    + cbn. rewrite length_insert. exact Hsd.
    + cbn [Reader.offset_within_entry Reader.index_within_archive
             Reader.archive_entry] in *.
      replace (want - (Reader.offset_within_entry r + first_chunk d))
        with (d - first_chunk d) in * by lia.
      rewrite Hdj in Hmeta. rewrite (last_chunk_multiple j) in Hmeta by lia.
      exists s'. split; [exact Hloop|]. split; [exact Hmeta|].
      rewrite Hdata. cbn [stored]. rewrite Hread.
      f_equal.
      unfold data_at at 1, set_meta, incr_next_lru_priority;
        cbn [snd g_side_buffer_data].
      apply data_at_set_data. exact Hsd.
Qed.

(** A read that fails ends the loop: the side buffer is marked empty. *)
Lemma advance_offset_loop_error fuel (r : Reader.t) want p sb s a n bytes a1 :
  Reader.archive r = Some a ->
  Reader.offset_within_entry r < want ->
  archive_read_data a (first_chunk (want - Reader.offset_within_entry r))
    = (n, bytes, a1) ->
  n < 0 ->
  Reader.advance_offset_loop (S fuel) r want p sb s =
    Ok (false,
        {| Reader.archive := Some a1;
           Reader.archive_entry := Reader.archive_entry r;
           Reader.index_within_archive := Reader.index_within_archive r;
           Reader.offset_within_entry := Reader.offset_within_entry r |},
        set_meta (set_data s sb (store bytes (data_at s sb))) sb
          (empty_metadata 0)).
Proof.
  intros Ha Hlt Hread Hn.
  pose proof (first_chunk_bounds (want - Reader.offset_within_entry r)
                ltac:(lia)) as [Hb _].
  unfold SIDE_BUFFER_SIZE in Hb.
  cbn [Reader.advance_offset_loop].
  assert ((want >? Reader.offset_within_entry r) = true) as ->
    by (apply Z.gtb_lt; lia).
  cbn zeta. rewrite loop_chunk_first by lia.
  unfold Reader.read. rewrite Ha. cbn [deref mbind result_bind].
  rewrite (to_uint64_small (first_chunk _)) by lia.
  rewrite Hread.
  assert ((n <? 0) = true) as -> by (apply Z.ltb_lt; lia).
  cbn [mbind result_bind].
  assert ((- EIO <? 0) = true) as -> by reflexivity.
  reflexivity.
Qed.

(** Whenever the loop returns false, the side buffer is marked empty. *)
Lemma advance_offset_loop_false fuel (r : Reader.t) want p sb s r' s' :
  (sb < length (g_side_buffer_metadata s))%nat ->
  Reader.advance_offset_loop fuel r want p sb s = Ok (false, r', s') ->
  meta_at s' sb = empty_metadata 0.
Proof.
  revert r s. induction fuel as [|fuel IH]; intros r s Hsb; simpl.
  - destruct (want >? Reader.offset_within_entry r); discriminate.
  - destruct (want >? Reader.offset_within_entry r); [|discriminate].
    destruct (Reader.read r _ _ _) as [[[n r1] d1]| |]; try discriminate.
    cbn [mbind result_bind].
    destruct (n <? 0).
    + intros [= <- <-]. apply meta_at_set_meta. cbn. exact Hsb.
    + apply IH. cbn. rewrite length_insert. exact Hsb.
Qed.

(** More fuel does not change a result. *)
Lemma advance_offset_loop_fuel_mono fuel fuel' (r : Reader.t) want p sb s x :
  (fuel <= fuel')%nat ->
  Reader.advance_offset_loop fuel r want p sb s = Ok x ->
  Reader.advance_offset_loop fuel' r want p sb s = Ok x.
Proof.
  revert fuel' r s. induction fuel as [|fuel IH]; intros fuel' r s Hle.
  - cbn. destruct (want >? Reader.offset_within_entry r) eqn:E; [discriminate|].
    intros Hx. destruct fuel'; cbn; rewrite E; exact Hx.
  - destruct fuel' as [|fuel']; [lia|]. cbn.
    destruct (want >? Reader.offset_within_entry r); [|auto].
    destruct (Reader.read r _ _ _) as [[[n r1] d1]| |]; try discriminate.
    cbn [mbind result_bind].
    destruct (n <? 0); [auto|]. apply IH. lia.
Qed.

(** A read that returns 0 and leaves the stream as it is, while [want]
    is ahead, is repeated for ever: the loop gives no result, whatever
    the fuel. *)
Lemma advance_offset_loop_stuck (r : Reader.t) want p sb a bytes :
  Reader.archive r = Some a ->
  Reader.offset_within_entry r < want ->
  archive_read_data a (first_chunk (want - Reader.offset_within_entry r))
    = (0, bytes, a) ->
  forall fuel s, Reader.advance_offset_loop fuel r want p sb s = OutOfFuel.
Proof.
  intros Ha Hlt Hread.
  pose proof (first_chunk_bounds (want - Reader.offset_within_entry r)
                ltac:(lia)) as [Hb _].
  induction fuel as [|fuel IH]; intros s.
  - cbn. assert ((want >? Reader.offset_within_entry r) = true) as ->
      by (apply Z.gtb_lt; lia). reflexivity.
  - rewrite (advance_offset_loop_count fuel r want p sb s a 0 bytes a Ha Hlt
               Hread) by lia.
    rewrite Z.add_0_r, <- Ha. destruct r. apply IH.
Qed.


End AdvanceOffset.




(** ** Pathnames *)

Lemma string_app_cons (c : ascii) (a b : string) :
  String c a +:+ b = String c (a +:+ b).
Proof. reflexivity. Qed.

Lemma string_app_nil_l (s : string) : "" +:+ s = s.
Proof. reflexivity. Qed.

Lemma string_app_nil_r (s : string) : s +:+ "" = s.
Proof.
  induction s as [|c s IH]; [reflexivity|].
  rewrite string_app_cons, IH. reflexivity.
Qed.

Lemma string_app_assoc (a b c : string) : (a +:+ b) +:+ c = a +:+ (b +:+ c).
Proof.
  induction a as [|x a IH]; [reflexivity|].
  rewrite !string_app_cons, IH. reflexivity.
Qed.

Lemma string_length_app (a b : string) :
  String.length (a +:+ b) = (String.length a + String.length b)%nat.
Proof.
  induction a as [|x a IH]; [reflexivity|].
  rewrite string_app_cons. cbn [String.length]. rewrite IH. reflexivity.
Qed.

Lemma string_drop_0 (s : string) : string_drop 0 s = s.
Proof.
  unfold string_drop. rewrite Nat.sub_0_r.
  induction s as [|c s IH]; simpl; [reflexivity|]. f_equal. exact IH.
Qed.

Lemma string_drop_S (k : nat) (c : ascii) (s : string) :
  string_drop (S k) (String c s) = string_drop k s.
Proof. reflexivity. Qed.

Lemma split_slash_not_nil (s : string) : split_slash s <> [].
Proof.
  induction s as [|c s IH]; cbn; [discriminate|].
  destruct (Ascii.eqb c "/"); [discriminate|].
  destruct (split_slash s); discriminate.
Qed.

(** The three tests on a fragment in [valid_pathname]: [frag] is the
    text from [q] up to [r]. *)
Lemma fragment_check (frag rest : string) (b : bool) :
  (if (String.length frag =? 0)%nat then false
   else if (String.length frag =? 1)%nat &&
           Ascii.eqb (char_at (frag +:+ rest) 0) "."
   then false
   else if (String.length frag =? 2)%nat &&
           Ascii.eqb (char_at (frag +:+ rest) 0) "." &&
           Ascii.eqb (char_at (frag +:+ rest) 1) "."
   then false
   else b) = negb (bad_component frag) && b.
Proof.
  unfold bad_component, char_at.
  destruct frag as [|c1 [|c2 [|c3 frag]]];
    rewrite ?string_app_cons, ?string_app_nil_l; cbn;
    try reflexivity;
    destruct (Ascii.eqb c1 "."); try reflexivity;
    destruct (Ascii.eqb c2 "."); reflexivity.
Qed.

Lemma valid_pathname_scan_components (next : string -> bool) :
  forall r frag,
    (forall r', (String.length r' < String.length r)%nat ->
       next r' = negb (existsb bad_component (split_slash r'))) ->
    valid_pathname_scan true next (frag +:+ r) r (String.length frag) =
    match split_slash r with
    | f :: fs =>
        negb (bad_component (frag +:+ f)) && negb (existsb bad_component fs)
    | [] => true
    end.
Proof.
  induction r as [|c r IH]; intros frag Hnext.
  - cbn [valid_pathname_scan split_slash existsb negb].
    rewrite fragment_check, string_app_nil_r. reflexivity.
  - cbn [valid_pathname_scan split_slash].
    destruct (Ascii.eqb c "/") eqn:Ec; cbn [negb].
    + rewrite fragment_check, string_app_nil_r.
      rewrite Hnext by (cbn; lia). cbn [existsb]. reflexivity.
    + replace (frag +:+ String c r) with ((frag +:+ String c "") +:+ r)
        by (rewrite string_app_assoc; reflexivity).
      replace (S (String.length frag))
        with (String.length (frag +:+ String c ""))
        by (rewrite string_length_app; cbn; lia).
      rewrite IH by (intros r' Hr'; apply Hnext; cbn; lia).
      pose proof (split_slash_not_nil r).
      destruct (split_slash r) as [|f fs]; [contradiction|].
      rewrite string_app_assoc. reflexivity.
Qed.

Lemma valid_pathname_loop_unfold (allow : bool) (q : string) :
  valid_pathname_loop allow q =
  valid_pathname_scan allow (valid_pathname_loop allow) q q 0.
Proof. destruct q; reflexivity. Qed.

Lemma valid_pathname_loop_components (q : string) :
  valid_pathname_loop true q = negb (existsb bad_component (split_slash q)).
Proof.
  remember (String.length q) as n eqn:Hn.
  revert q Hn. induction n as [n IH] using lt_wf_ind. intros q ->.
  rewrite valid_pathname_loop_unfold.
  change (valid_pathname_scan true (valid_pathname_loop true) q q 0)
    with (valid_pathname_scan true (valid_pathname_loop true)
            ("" +:+ q) q (String.length "")).
  rewrite (valid_pathname_scan_components (valid_pathname_loop true) q "").
  - pose proof (split_slash_not_nil q).
    destruct (split_slash q) as [|f fs]; [contradiction|].
    cbn [existsb String.append]. rewrite negb_orb. reflexivity.
  - intros r' Hr'. eapply IH; [exact Hr'|reflexivity].
Qed.

Lemma at_end_components (q : string) :
  at_end q = true -> existsb bad_component (split_slash q) = true.
Proof. destruct q; [reflexivity|discriminate]. Qed.

(** [valid_pathname] skips a single leading "./" or "/". *)
Lemma valid_pathname_strip (s : string) :
  valid_pathname (Some s) true =
  if at_end (strip_leading s) then false
  else valid_pathname_loop true (strip_leading s).
Proof.
  unfold valid_pathname.
  destruct s as [|c1 [|c2 s2]]; unfold char_at, strip_leading;
    cbn [String.get default from_option id negb]; try reflexivity.
  - destruct (Ascii.eqb c1 "."); cbn [andb];
      destruct (Ascii.eqb c1 "/");
      rewrite ?string_drop_S, ?string_drop_0; reflexivity.
  - destruct (Ascii.eqb c1 ".") eqn:E1, (Ascii.eqb c1 "/") eqn:E3,
      (Ascii.eqb c2 "/") eqn:E2; cbn [andb];
      rewrite ?string_drop_S, ?string_drop_0; try reflexivity;
      apply Ascii.eqb_eq in E1, E3; congruence.
Qed.

(** [valid_pathname] accepts exactly the pathnames whose components,
    after a single leading "./" or "/", are all other than "", "." and
    "..". *)
Lemma valid_pathname_components (s : string) :
  valid_pathname (Some s) true =
  negb (existsb bad_component (split_slash (strip_leading s))).
Proof.
  rewrite valid_pathname_strip.
  destruct (at_end (strip_leading s)) eqn:E.
  - rewrite at_end_components by exact E. reflexivity.
  - apply valid_pathname_loop_components.
Qed.

Lemma normalize_pathname_entry_name is_raw innername e :
  normalize_pathname is_raw innername e =
  match entry_name is_raw innername e with
  | None => ""
  | Some s =>
      if valid_pathname (Some s) true then "/" +:+ strip_leading s else ""
  end.
Proof.
  unfold normalize_pathname, entry_name, entry_pathname.
  destruct (match archive_entry_pathname_utf8 e with
            | Some s => Some s
            | None => archive_entry_pathname e
            end) as [s0|]; [|reflexivity].
  set (s := match innername with
            | Some i =>
                if is_raw && negb (at_end i) && String.eqb s0 "data"
                then i else s0
            | None => s0
            end).
  destruct (valid_pathname (Some s) true); cbn [negb]; [|reflexivity].
  destruct s as [|c1 [|c2 s2]]; unfold char_at, strip_leading;
    cbn [String.get default from_option id]; try reflexivity.
  - destruct (Ascii.eqb c1 "."); cbn [andb];
      destruct (Ascii.eqb c1 "/") eqn:E3; try reflexivity;
      apply Ascii.eqb_eq in E3 as ->; reflexivity.
  - destruct (Ascii.eqb c1 ".") eqn:E1, (Ascii.eqb c1 "/") eqn:E3,
      (Ascii.eqb c2 "/") eqn:E2; cbn [andb];
      rewrite ?string_drop_S, ?string_drop_0; try reflexivity;
      apply Ascii.eqb_eq in E1 || idtac; apply Ascii.eqb_eq in E3 || idtac;
      apply Ascii.eqb_eq in E2 || idtac; subst; try congruence; reflexivity.
Qed.

Lemma normalize_pathname_rejects is_raw innername e :
  entry_pathname e = None \/
  (exists p, entry_pathname e = Some p /\
     (p = "" \/
      existsb bad_component (split_slash (strip_leading p)) = true)) ->
  normalize_pathname is_raw innername e = "".
Proof.
  intros Hrej. rewrite normalize_pathname_entry_name. unfold entry_name.
  destruct Hrej as [->|(p & -> & Hbad)]; [reflexivity|].
  assert (Hbad' : existsb bad_component (split_slash (strip_leading p)) = true).
  { destruct Hbad as [->|Hbad]; [reflexivity|exact Hbad]. }
  assert (Hdata : String.eqb p "data" = false).
  { destruct (String.eqb p "data") eqn:E; [|reflexivity].
    apply String.eqb_eq in E. subst p. discriminate Hbad'. }
  rewrite Hdata.
  destruct innername as [i|]; rewrite ?andb_false_r;
    rewrite valid_pathname_components, Hbad'; reflexivity.
Qed.

Lemma normalize_pathname_accepts is_raw innername e :
  normalize_pathname is_raw innername e <> "" ->
  exists rest,
    normalize_pathname is_raw innername e = "/" +:+ rest /\
    rest <> "" /\ char_at rest 0 <> "/"%char /\
    existsb bad_component (split_slash rest) = false.
Proof.
  rewrite normalize_pathname_entry_name.
  destruct (entry_name is_raw innername e) as [s|]; [|congruence].
  rewrite valid_pathname_components.
  destruct (existsb bad_component (split_slash (strip_leading s))) eqn:Eb;
    cbn [negb]; [congruence|].
  intros _. exists (strip_leading s). split; [reflexivity|].
  destruct (strip_leading s) as [|c r]; [discriminate Eb|].
  split; [discriminate|]. split; [|exact Eb].
  unfold char_at; cbn. intros ->. discriminate Eb.
Qed.

Section InsertLeaf.
Context `{Libarchive}.

Lemma insert_leaf_rejected fuel is_raw innername a e idx s st :
  normalize_pathname is_raw innername e = "" ->
  insert_leaf fuel is_raw innername a e idx s st = Ok (0, a, s, st).
Proof. intros Hn. unfold insert_leaf. rewrite Hn. reflexivity. Qed.

End InsertLeaf.


(** ** The directory tree *)

Lemma scan_fragment_none (r rel : string) :
  scan_fragment r = (rel, None) -> r = rel /\ no_slash rel = true.
Proof.
  revert rel. induction r as [|c r IH]; intros rel; cbn.
  - intros [= <-]. split; reflexivity.
  - destruct (Ascii.eqb c "/") eqn:Ec; [discriminate|].
    destruct (scan_fragment r) as [f rest]. intros [= <- ->].
    destruct (IH f eq_refl) as [-> Hns]. split; [reflexivity|].
    cbn. rewrite Ec, Hns. reflexivity.
Qed.

Lemma scan_fragment_some (r rel r' : string) :
  scan_fragment r = (rel, Some r') ->
  r = rel +:+ "/" +:+ r' /\ no_slash rel = true /\
  (String.length r' < String.length r)%nat.
Proof.
  revert rel. induction r as [|c r IH]; intros rel; cbn.
  - discriminate.
  - destruct (Ascii.eqb c "/") eqn:Ec.
    + intros [= <- <-]. apply Ascii.eqb_eq in Ec as ->.
      split; [reflexivity|]. split; [reflexivity|lia].
    + destruct (scan_fragment r) as [f rest]. intros [= <- ->].
      destruct (IH f eq_refl) as (-> & Hns & Hlen).
      split; [reflexivity|]. split; [cbn; rewrite Ec, Hns; reflexivity|].
      rewrite string_app_cons in *. cbn [String.length]. lia.
Qed.

Lemma no_slash_app_slash (a r : string) :
  no_slash (a +:+ String "/" r) = false.
Proof.
  induction a as [|x a IH]; [reflexivity|].
  rewrite string_app_cons. cbn. rewrite IH. apply andb_false_r.
Qed.

(** A text is split in one way only at its last slash. *)
Lemma last_slash_unique (a b r1 r2 : string) :
  no_slash r1 = true -> no_slash r2 = true ->
  a +:+ "/" +:+ r1 = b +:+ "/" +:+ r2 -> a = b /\ r1 = r2.
Proof.
  intros H1 H2 Heq.
  change (a +:+ String "/" r1 = b +:+ String "/" r2) in Heq.
  revert b Heq.
  induction a as [|x a IH]; intros [|y b] Heq.
  - injection Heq as <-. split; reflexivity.
  - rewrite string_app_nil_l, string_app_cons in Heq.
    injection Heq as <- Hr. rewrite Hr, no_slash_app_slash in H1.
    discriminate.
  - rewrite string_app_nil_l, string_app_cons in Heq.
    injection Heq as -> Hr. rewrite <- Hr, no_slash_app_slash in H2.
    discriminate.
  - rewrite !string_app_cons in Heq. injection Heq as <- Heq.
    destruct (IH b Heq) as [-> ->]. split; reflexivity.
Qed.

Lemma insert_leaf_node_scan_fragment next symlink idx size mtime bm lm
    prefix parent st :
  forall r rel,
    insert_leaf_node_scan next symlink idx size mtime bm lm prefix r rel
      parent st =
    match scan_fragment r with
    | (f, None) =>
        st' ← insert_leaf_node_terminal symlink idx size mtime lm
                (prefix +:+ rel +:+ f) (rel +:+ f) parent st;
        Ok (0, st')
    | (f, Some r') =>
        '(n, st') ← insert_leaf_node_branch mtime bm
                      (prefix +:+ rel +:+ f) (rel +:+ f) parent st;
        match n with
        | None => Ok (0, st')
        | Some n => next (prefix +:+ (rel +:+ f) +:+ "/") r' n st'
        end
    end.
Proof.
  induction r as [|c r IH]; intros rel.
  - cbn [insert_leaf_node_scan scan_fragment].
    rewrite string_app_nil_r. reflexivity.
  - cbn [insert_leaf_node_scan scan_fragment].
    destruct (Ascii.eqb c "/") eqn:Ec; cbn [negb].
    + rewrite string_app_nil_r. reflexivity.
    + rewrite IH. destruct (scan_fragment r) as [f [r'|]];
        rewrite !string_app_assoc; reflexivity.
Qed.

Lemma insert_leaf_node_loop_unfold symlink idx size mtime bm lm prefix q
    parent st :
  insert_leaf_node_loop symlink idx size mtime bm lm prefix q parent st =
  nodes1 ← Node.update (nodes st) parent (touch mtime bm);
  match scan_fragment q with
  | (rel, None) =>
      st' ← insert_leaf_node_terminal symlink idx size mtime lm
              (prefix +:+ rel) rel parent (set_nodes nodes1 st);
      Ok (0, st')
  | (rel, Some q') =>
      '(n, st') ← insert_leaf_node_branch mtime bm (prefix +:+ rel) rel
                    parent (set_nodes nodes1 st);
      match n with
      | None => Ok (0, st')
      | Some n =>
          insert_leaf_node_loop symlink idx size mtime bm lm
            (prefix +:+ rel +:+ "/") q' n st'
      end
  end.
Proof.
  assert (Hunf :
    insert_leaf_node_loop symlink idx size mtime bm lm prefix q parent st =
    nodes1 ← Node.update (nodes st) parent (touch mtime bm);
    insert_leaf_node_scan
      (fun prefix' q' n st' =>
         insert_leaf_node_loop symlink idx size mtime bm lm prefix' q' n st')
      symlink idx size mtime bm lm prefix q "" parent (set_nodes nodes1 st)).
  { destruct q; reflexivity. }
  rewrite Hunf.
  destruct (Node.update (nodes st) parent (touch mtime bm)) as [nodes1| |];
    cbn [mbind result_bind]; try reflexivity.
  rewrite insert_leaf_node_scan_fragment.
  destruct (scan_fragment q) as [f [r'|]]; reflexivity.
Qed.

(** Mode bits. *)

Lemma bits_sub_iff a b :
  bits_sub a b <->
  forall i, 0 <= i -> Z.testbit a i = true -> Z.testbit b i = true.
Proof.
  unfold bits_sub. split.
  - intros H i Hi Ha. rewrite <- H, Z.lor_spec, Ha. reflexivity.
  - intros H. apply Z.bits_inj'. intros i Hi. rewrite Z.lor_spec.
    destruct (Z.testbit a i) eqn:Ea; [|reflexivity].
    rewrite (H i Hi Ea). reflexivity.
Qed.

Lemma bits_sub_refl a : bits_sub a a.
Proof. apply Z.lor_diag. Qed.

Lemma bits_sub_trans a b c : bits_sub a b -> bits_sub b c -> bits_sub a c.
Proof. rewrite !bits_sub_iff. auto. Qed.

Lemma bits_sub_lor_l a b : bits_sub a (Z.lor a b).
Proof.
  apply bits_sub_iff. intros i _ Ha. rewrite Z.lor_spec, Ha. reflexivity.
Qed.

Lemma bits_sub_lor_r a b : bits_sub b (Z.lor a b).
Proof.
  apply bits_sub_iff. intros i _ Hb. rewrite Z.lor_spec, Hb.
  apply orb_true_r.
Qed.

Lemma bits_sub_lor a b c : bits_sub a c -> bits_sub b c -> bits_sub (Z.lor a b) c.
Proof.
  rewrite !bits_sub_iff. intros Ha Hb i Hi. rewrite Z.lor_spec.
  intros [H|H]%orb_true_iff; auto.
Qed.

Lemma bits_sub_land a b k : bits_sub a b -> bits_sub (Z.land a k) (Z.land b k).
Proof.
  rewrite !bits_sub_iff. intros Hab i Hi. rewrite !Z.land_spec.
  intros [Ha Hk]%andb_true_iff. rewrite (Hab i Hi Ha), Hk. reflexivity.
Qed.

Lemma bits_sub_land_l a k : bits_sub (Z.land a k) a.
Proof.
  apply bits_sub_iff. intros i _. rewrite Z.land_spec.
  intros [Ha _]%andb_true_iff. exact Ha.
Qed.

Lemma branch_bits_eq m :
  branch_bits m = Z.lor (Z.land m 365) (Z.land (Z.shiftr m 2) 73).
Proof.
  unfold branch_bits. rewrite <- Z.land_assoc.
  change (Z.land 365 292) with 292.
  rewrite Z.shiftr_land. reflexivity.
Qed.

Lemma branch_bits_perm m : Z.land (branch_bits m) 365 = branch_bits m.
Proof.
  rewrite branch_bits_eq, Z.land_lor_distr_l, <- !Z.land_assoc. reflexivity.
Qed.

Lemma branch_bits_type m : Z.land (branch_bits m) S_IFMT = 0.
Proof.
  rewrite branch_bits_eq, Z.land_lor_distr_l, <- !Z.land_assoc.
  change (Z.land 365 S_IFMT) with 0. change (Z.land 73 S_IFMT) with 0.
  rewrite !Z.land_0_r. reflexivity.
Qed.

Lemma branch_bits_land_perm m : branch_bits (Z.land m 365) = branch_bits m.
Proof.
  unfold branch_bits. rewrite <- (Z.land_assoc m 365 365). reflexivity.
Qed.

Lemma branch_mode_of_eq m : branch_mode_of m = Z.lor (branch_bits m) S_IFDIR.
Proof. reflexivity. Qed.

Lemma is_dir_branch_mode m :
  S_ISDIR (branch_mode_of m) = true.
Proof.
  unfold S_ISDIR. rewrite branch_mode_of_eq, Z.land_lor_distr_l.
  rewrite branch_bits_type. reflexivity.
Qed.

Lemma is_dir_lor_branch_mode M m :
  S_ISDIR M = true -> S_ISDIR (Z.lor M (branch_mode_of m)) = true.
Proof.
  unfold S_ISDIR. intros HM%Z.eqb_eq.
  rewrite Z.land_lor_distr_l, HM, branch_mode_of_eq, Z.land_lor_distr_l.
  rewrite branch_bits_type. reflexivity.
Qed.

Lemma is_dir_leaf_mode symlink m : S_ISDIR (leaf_mode_of symlink m) = false.
Proof.
  unfold S_ISDIR, leaf_mode_of.
  rewrite Z.land_lor_distr_l, <- Z.land_assoc.
  change (Z.land 365 S_IFMT) with 0. rewrite Z.land_0_r.
  destruct (String.eqb symlink ""); reflexivity.
Qed.

Lemma branch_bits_leaf_mode symlink m :
  branch_bits (leaf_mode_of symlink m) = branch_bits m.
Proof.
  rewrite <- (branch_bits_land_perm (leaf_mode_of _ _)).
  rewrite <- (branch_bits_land_perm m). f_equal.
  unfold leaf_mode_of. rewrite Z.land_lor_distr_l, <- Z.land_assoc.
  change (Z.land 365 365) with 365.
  destruct (String.eqb symlink "");
    [change (Z.land S_IFREG 365) with 0|change (Z.land S_IFLNK 365) with 0];
    rewrite Z.lor_0_r; reflexivity.
Qed.

Lemma land_branch_mode_perm m : Z.land (branch_mode_of m) 365 = branch_bits m.
Proof.
  rewrite branch_mode_of_eq, Z.land_lor_distr_l, branch_bits_perm.
  change (Z.land S_IFDIR 365) with 0. apply Z.lor_0_r.
Qed.

(** Writes through pointers. *)

Lemma update_ok (h : list Node.t) p f x :
  h !! p = Some x -> Node.update h p f = Ok (<[p := f x]> h).
Proof. intros Hp. unfold Node.update. rewrite Hp. reflexivity. Qed.

Lemma node_kept_refl x : node_kept x x.
Proof. repeat split. Qed.

Lemma node_kept_trans x y z : node_kept x y -> node_kept y z -> node_kept x z.
Proof. unfold node_kept. intuition congruence. Qed.

Lemma heap_kept_refl n h : heap_kept n h h.
Proof.
  split; [reflexivity|]. intros k x Hk. exists x.
  split; [exact Hk|]. split; [apply node_kept_refl|left; reflexivity].
Qed.

Lemma heap_kept_trans n h1 h2 h3 :
  heap_kept n h1 h2 -> heap_kept n h2 h3 -> heap_kept n h1 h3.
Proof.
  intros [Hl1 H1] [Hl2 H2]. split; [congruence|].
  intros k x Hk. destruct (H1 k x Hk) as (y & Hy & Hxy & Hly).
  destruct (H2 k y Hy) as (z & Hz & Hyz & Hlz).
  exists z. split; [exact Hz|]. split; [eapply node_kept_trans; eauto|].
  destruct Hlz as [Hlz|Hlz]; [|right; exact Hlz].
  rewrite Hlz. exact Hly.
Qed.

Lemma heap_kept_update n (h : list Node.t) p f x :
  h !! p = Some x -> node_kept x (f x) ->
  (Node.last_child (f x) = Node.last_child x \/
   Node.last_child (f x) = Some n) ->
  heap_kept n h (<[p := f x]> h).
Proof.
  intros Hp Hk Hl. split; [apply length_insert|].
  intros k y Hy. destruct (decide (k = p)) as [->|Hne].
  - rewrite list_lookup_insert_eq by (eapply lookup_lt_Some; eauto).
    assert (y = x) as -> by congruence. eauto.
  - rewrite list_lookup_insert_ne by congruence.
    exists y. split; [exact Hy|].
    split; [apply node_kept_refl|left; reflexivity].
Qed.

(** [add_child] on a directory [this] and a fresh node [n]: it returns,
    the node [n] gets [this] as its parent, and every node keeps its
    mode, its mtime and its index. *)
Lemma add_child_spec (h : list Node.t) (this n : nat) child self :
  h !! n = Some child -> Node.parent child = None ->
  h !! this = Some self -> Node.is_dir self = true -> this <> n ->
  (forall l, Node.last_child self = Some l -> is_Some (h !! l)) ->
  exists h',
    Node.add_child h this n = Ok h' /\
    length h' = length h /\
    forall k x, h !! k = Some x ->
      exists x',
        h' !! k = Some x' /\
        Node.mode x' = Node.mode x /\ Node.mtime x' = Node.mtime x /\
        Node.index_within_archive x' = Node.index_within_archive x /\
        Node.parent x' = (if decide (k = n) then Some this
                          else Node.parent x) /\
        (Node.last_child x' = Node.last_child x \/
         Node.last_child x' = Some n).
Proof.
  intros Hn Hpar Hthis Hdir Hne Hlast.
  unfold Node.add_child. rewrite Hn. cbn [deref mbind result_bind].
  rewrite Hpar. rewrite bool_decide_eq_false_2 by (intros [? ?]; discriminate).
  rewrite Hthis. cbn [deref mbind result_bind]. rewrite Hdir. cbn [negb].
  rewrite (update_ok h this _ self Hthis). cbn [mbind result_bind].
  set (h1 := <[this := Node.set_size (Node.size self + block_size) self]> h).
  assert (Hn1 : h1 !! n = Some child).
  { unfold h1. rewrite list_lookup_insert_ne by exact Hne. exact Hn. }
  rewrite (update_ok h1 n _ child Hn1). cbn [mbind result_bind].
  set (h2 := <[n := Node.set_parent (Some this) child]> h1).
  assert (Hlen2 : length h2 = length h).
  { unfold h2, h1. rewrite !length_insert. reflexivity. }
  assert (H2 : forall k x, h !! k = Some x ->
            exists x', h2 !! k = Some x' /\
              Node.mode x' = Node.mode x /\ Node.mtime x' = Node.mtime x /\
              Node.index_within_archive x' = Node.index_within_archive x /\
              Node.parent x' = (if decide (k = n) then Some this
                                else Node.parent x) /\
              Node.last_child x' = Node.last_child x).
  { intros k x Hk. unfold h2, h1.
    destruct (decide (k = n)) as [->|Hkn].
    - rewrite list_lookup_insert_eq
        by (rewrite length_insert; eapply lookup_lt_Some; eauto).
      assert (x = child) as -> by congruence.
      eexists. split; [reflexivity|]. cbn. repeat split; reflexivity.
    - rewrite list_lookup_insert_ne by congruence.
      destruct (decide (k = this)) as [->|Hkt].
      + rewrite list_lookup_insert_eq by (eapply lookup_lt_Some; eauto).
        assert (x = self) as -> by congruence.
        eexists. split; [reflexivity|]. cbn. repeat split; reflexivity.
      + rewrite list_lookup_insert_ne by congruence.
        exists x. repeat split; try reflexivity. exact Hk. }
  assert (Hthis2 : h2 !! this =
                   Some (Node.set_size (Node.size self + block_size) self)).
  { unfold h2, h1. rewrite list_lookup_insert_ne by congruence.
    apply list_lookup_insert_eq. eapply lookup_lt_Some; eauto. }
  rewrite Hthis2. cbn [deref mbind result_bind Node.last_child Node.set_size].
  assert (Hfin : forall h',
            heap_kept n h2 h' ->
            length h' = length h /\
            forall k x, h !! k = Some x ->
              exists x',
                h' !! k = Some x' /\
                Node.mode x' = Node.mode x /\ Node.mtime x' = Node.mtime x /\
                Node.index_within_archive x' = Node.index_within_archive x /\
                Node.parent x' = (if decide (k = n) then Some this
                                  else Node.parent x) /\
                (Node.last_child x' = Node.last_child x \/
                 Node.last_child x' = Some n)).
  { intros h' [Hlen' Hk']. split; [congruence|].
    intros k x Hk. destruct (H2 k x Hk) as (y & Hy & Hm & Ht & Hi & Hp & Hl).
    destruct (Hk' k y Hy) as (z & Hz & (Hm' & Ht' & Hi' & Hp') & Hl').
    exists z. split; [exact Hz|]. rewrite Hl in Hl'.
    repeat split; first [congruence|exact Hl']. }
  destruct (Node.last_child self) as [l|] eqn:El.
  - destruct (Hlast l eq_refl) as [ln0 Hl0].
    destruct (H2 l ln0 Hl0) as (ln & Hln & _).
    rewrite (update_ok h2 l _ ln Hln). cbn [mbind result_bind].
    set (h3 := <[l := Node.set_next_sibling (Some n) ln]> h2).
    assert (Hk3 : heap_kept n h2 h3).
    { apply heap_kept_update; [exact Hln|repeat split|left; reflexivity]. }
    destruct (proj2 Hk3 this _ Hthis2) as (self3 & Hs3 & _ & _).
    rewrite (update_ok h3 this _ self3 Hs3).
    eexists. split; [reflexivity|].
    apply Hfin. eapply heap_kept_trans; [exact Hk3|].
    apply heap_kept_update; [exact Hs3|repeat split|right; reflexivity].
  - rewrite (update_ok h2 this _ _ Hthis2). cbn [mbind result_bind].
    set (self3 := Node.set_last_child (Some n)
                    (Node.set_size (Node.size self + block_size) self)).
    assert (Hs3 : <[this := self3]> h2 !! this = Some self3).
    { apply list_lookup_insert_eq. eapply lookup_lt_Some; eauto. }
    rewrite (update_ok _ this _ self3 Hs3).
    eexists. split; [reflexivity|].
    apply Hfin. eapply heap_kept_trans.
    + apply (heap_kept_update n h2 this (Node.set_last_child (Some n)) _
               Hthis2); [repeat split|right; reflexivity].
    + apply (heap_kept_update n _ this (Node.set_first_child (Some n)) self3
               Hs3); [repeat split|left; reflexivity].
Qed.

(** The update at the top of the loop. *)

Lemma touch_mode m bm x : Node.mode (touch m bm x) = Z.lor (Node.mode x) bm.
Proof. unfold touch. destruct (Node.mtime x <? m); reflexivity. Qed.

Lemma touch_mtime m bm x : Node.mtime (touch m bm x) = Z.max (Node.mtime x) m.
Proof.
  unfold touch. destruct (Z.ltb_spec (Node.mtime x) m); cbn; lia.
Qed.

Lemma touch_parent m bm x : Node.parent (touch m bm x) = Node.parent x.
Proof. unfold touch. destruct (Node.mtime x <? m); reflexivity. Qed.

Lemma touch_index m bm x :
  Node.index_within_archive (touch m bm x) = Node.index_within_archive x.
Proof. unfold touch. destruct (Node.mtime x <? m); reflexivity. Qed.

Lemma touch_last_child m bm x :
  Node.last_child (touch m bm x) = Node.last_child x.
Proof. unfold touch. destruct (Node.mtime x <? m); reflexivity. Qed.

Lemma touch_is_dir m mode x :
  Node.is_dir x = true ->
  Node.is_dir (touch m (branch_mode_of mode) x) = true.
Proof.
  unfold Node.is_dir. rewrite touch_mode. apply is_dir_lor_branch_mode.
Qed.

Lemma touch_contrib m mode x :
  Node.is_dir x = true ->
  contrib (touch m (branch_mode_of mode) x) =
  Z.lor (contrib x) (branch_bits mode).
Proof.
  intros Hd. unfold contrib. rewrite touch_is_dir, Hd by exact Hd.
  rewrite touch_mode, Z.land_lor_distr_l, land_branch_mode_perm. reflexivity.
Qed.

Lemma contrib_mode x y :
  Node.mode x = Node.mode y -> contrib x = contrib y.
Proof. unfold contrib, Node.is_dir. intros ->. reflexivity. Qed.

Lemma is_dir_mode x y :
  Node.mode x = Node.mode y -> Node.is_dir x = Node.is_dir y.
Proof. unfold Node.is_dir. intros ->. reflexivity. Qed.

Lemma tree_le_refl st : tree_le st st.
Proof.
  split; [reflexivity|auto|].
  intros k x Hk. exists x. split; [exact Hk|].
  split; [lia|]. split; [apply bits_sub_refl|]. auto.
Qed.

Lemma tree_le_trans st1 st2 st3 :
  tree_le st1 st2 -> tree_le st2 st3 -> tree_le st1 st3.
Proof.
  intros [Hr1 Hn1 Hk1] [Hr2 Hn2 Hk2]. split.
  - congruence.
  - auto.
  - intros k x Hk.
    destruct (Hk1 k x Hk) as (y & Hy & Ht & Hm & Hp & Hi & Hd).
    destruct (Hk2 k y Hy) as (z & Hz & Ht' & Hm' & Hp' & Hi' & Hd').
    exists z. split; [exact Hz|]. split; [lia|].
    split; [eapply bits_sub_trans; eauto|].
    repeat split; congruence.
Qed.

(** The invariants do not read the index table or the block count. *)
Lemma tree_inv_irrel (st : tree) (by_index : list (option nat)) (bc : Z) :
  tree_inv st ->
  tree_inv {| nodes := nodes st; g_nodes_by_name := g_nodes_by_name st;
              g_nodes_by_index := by_index; g_root_node := g_root_node st;
              g_block_count := bc |}.
Proof. intros [H1 H2 H3 H4 H5]. constructor; assumption. Qed.

Lemma tree_le_irrel (st st2 : tree) (by_index : list (option nat)) (bc : Z) :
  tree_le st st2 ->
  tree_le st {| nodes := nodes st2; g_nodes_by_name := g_nodes_by_name st2;
                g_nodes_by_index := by_index; g_root_node := g_root_node st2;
                g_block_count := bc |}.
Proof. intros [H1 H2 H3]. constructor; assumption. Qed.

Section Walk.
Variables (symlink : string) (idx size mtime mode : Z).

(** The top of an iteration: [parent] is a directory whose own parent,
    if it has one, has already been updated for this leaf. *)
Lemma touch_parent_inv (st : tree) (parent : nat) (pn : Node.t) :
  tree_inv st ->
  nodes st !! parent = Some pn -> Node.is_dir pn = true ->
  (forall pp ppn, Node.parent pn = Some pp -> nodes st !! pp = Some ppn ->
     mtime <= Node.mtime ppn /\ bits_sub (branch_bits mode) (Node.mode ppn)) ->
  let st1 :=
    set_nodes (<[parent := touch mtime (branch_mode_of mode) pn]> (nodes st))
      st in
  tree_inv st1 /\ tree_le st st1 /\
  nodes st1 !! parent = Some (touch mtime (branch_mode_of mode) pn).
Proof.
  intros Hinv Hp Hd Hpp st1.
  assert (Hlt : (parent < length (nodes st))%nat)
    by (eapply lookup_lt_Some; eauto).
  assert (Hlook : forall k,
            nodes st1 !! k =
            if decide (k = parent)
            then Some (touch mtime (branch_mode_of mode) pn)
            else nodes st !! k).
  { intros k. unfold st1; cbn [nodes set_nodes].
    destruct (decide (k = parent)) as [->|Hne].
    - apply list_lookup_insert_eq. exact Hlt.
    - apply list_lookup_insert_ne. congruence. }
  assert (Hback : forall k x', nodes st1 !! k = Some x' ->
            exists x, nodes st !! k = Some x /\
              Node.parent x' = Node.parent x /\
              Node.last_child x' = Node.last_child x /\
              Node.is_dir x' = Node.is_dir x /\
              Node.index_within_archive x' = Node.index_within_archive x /\
              Node.mtime x <= Node.mtime x' /\
              bits_sub (Node.mode x) (Node.mode x') /\
              (k <> parent -> x' = x) /\
              (k = parent -> x' = touch mtime (branch_mode_of mode) pn)).
  { intros k x'. rewrite Hlook. destruct (decide (k = parent)) as [->|Hne].
    - intros [= <-]. exists pn. split; [exact Hp|].
      rewrite touch_parent, touch_last_child, touch_index, touch_mtime,
        touch_mode, touch_is_dir, Hd by exact Hd.
      repeat split; try lia; try congruence. apply bits_sub_lor_l.
    - intros Hk. exists x'. split; [exact Hk|].
      repeat split; try lia; try congruence. apply bits_sub_refl. }
  split; [|split].
  - destruct Hinv as [Hroot Hnames Hparent Hlast Hnp]. split.
    + destruct Hroot as (root & rnode & Hr & Hrn & Hrd & Hrp & Hrk).
      destruct (decide (root = parent)) as [->|Hne].
      * exists parent, (touch mtime (branch_mode_of mode) pn).
        assert (rnode = pn) as -> by congruence.
        rewrite Hlook, decide_True by reflexivity.
        rewrite touch_parent, touch_is_dir by exact Hd. auto.
      * exists root, rnode. rewrite Hlook, decide_False by exact Hne. auto.
    + intros K n HK. destruct (Hnames K n HK) as [x Hx].
      rewrite Hlook. destruct (decide (n = parent)); eauto.
    + intros c cn' p Hc Hcp.
      destruct (Hback c cn' Hc) as (cn & Hcn & Hpar & _ & Hdir & _ & _ & _ & Hne & Heq).
      rewrite Hpar in Hcp.
      destruct (Hparent c cn p Hcn Hcp) as (pn0 & Hpn0 & Hd0 & Ht0 & Hb0).
      destruct (decide (p = parent)) as [->|Hpne].
      * exists (touch mtime (branch_mode_of mode) pn).
        assert (pn0 = pn) as -> by congruence.
        rewrite Hlook, decide_True by reflexivity.
        split; [reflexivity|]. split; [apply touch_is_dir; exact Hd|].
        rewrite touch_mtime, touch_mode.
        destruct (decide (c = parent)) as [->|Hcne].
        -- rewrite (Heq eq_refl). assert (cn = pn) as -> by congruence.
           rewrite touch_mtime, touch_contrib by exact Hd.
           split; [lia|]. apply bits_sub_lor.
           ++ eapply bits_sub_trans; [exact Hb0|apply bits_sub_lor_l].
           ++ eapply bits_sub_trans; [|apply bits_sub_lor_r].
              rewrite branch_mode_of_eq. apply bits_sub_lor_l.
        -- rewrite (Hne Hcne). split; [lia|].
           eapply bits_sub_trans; [exact Hb0|apply bits_sub_lor_l].
      * exists pn0. rewrite Hlook, decide_False by exact Hpne.
        split; [exact Hpn0|]. split; [exact Hd0|].
        destruct (decide (c = parent)) as [->|Hcne].
        -- rewrite (Heq eq_refl). assert (cn = pn) as -> by congruence.
           destruct (Hpp p pn0 Hcp Hpn0) as [Hm1 Hm2].
           rewrite touch_mtime, touch_contrib by exact Hd.
           split; [lia|]. apply bits_sub_lor; assumption.
        -- rewrite (Hne Hcne). auto.
    + intros d dn' l Hdn Hl.
      destruct (Hback d dn' Hdn) as (dn & Hdn0 & _ & Hlc & _).
      rewrite Hlc in Hl. destruct (Hlast d dn l Hdn0 Hl) as [x Hx].
      rewrite Hlook. destruct (decide (l = parent)); eauto.
    + intros A rel n HK Hns Hne.
      destruct (Hnp A rel n HK Hns Hne) as (cn & p & Hcn & Hcp & Hda).
      rewrite Hlook. destruct (decide (n = parent)) as [->|Hnp'].
      * exists (touch mtime (branch_mode_of mode) pn), p.
        assert (cn = pn) as -> by congruence.
        rewrite touch_parent. auto.
      * exists cn, p. auto.
  - split; [reflexivity|auto|].
    intros k x Hk. rewrite Hlook.
    destruct (decide (k = parent)) as [->|Hne].
    + assert (x = pn) as -> by congruence. eexists. split; [reflexivity|].
      rewrite touch_parent, touch_index, touch_mtime, touch_mode,
        touch_is_dir, Hd by exact Hd.
      repeat split; try lia. apply bits_sub_lor_l.
    + exists x. split; [exact Hk|]. repeat split; try lia.
      apply bits_sub_refl.
  - rewrite Hlook, decide_True by reflexivity. reflexivity.
Qed.

(** A new node is allocated, registered under [abs] and attached to the
    directory [parent]. *)
Lemma attach_inv (st : tree) (A rel : string) (parent : nat)
    (pn new : Node.t) (by_index : list (option nat)) (block_count : Z) :
  tree_inv st ->
  g_nodes_by_name st !! (A +:+ "/" +:+ rel) = None ->
  no_slash rel = true ->
  dir_at st A = Some parent ->
  nodes st !! parent = Some pn -> Node.is_dir pn = true ->
  Node.parent new = None -> Node.last_child new = None ->
  Node.mtime new <= Node.mtime pn ->
  bits_sub (contrib new) (Node.mode pn) ->
  exists nodes2 new',
    Node.add_child (nodes st ++ [new]) parent (length (nodes st)) = Ok nodes2 /\
    nodes2 !! length (nodes st) = Some new' /\
    Node.mode new' = Node.mode new /\
    Node.mtime new' = Node.mtime new /\
    Node.index_within_archive new' = Node.index_within_archive new /\
    Node.parent new' = Some parent /\
    length nodes2 = S (length (nodes st)) /\
    let st2 :=
      {| nodes := nodes2;
         g_nodes_by_name :=
           <[A +:+ "/" +:+ rel := length (nodes st)]> (g_nodes_by_name st);
         g_nodes_by_index := by_index;
         g_root_node := g_root_node st;
         g_block_count := block_count |} in
    tree_inv st2 /\ tree_le st st2.
Proof.
  intros Hinv Hfresh Hns Hda Hp Hd Hnp Hnl Hmt Hbits.
  set (n := length (nodes st)).
  set (abs := A +:+ "/" +:+ rel) in *.
  assert (Hlt : (parent < n)%nat) by (eapply lookup_lt_Some; eauto).
  destruct (add_child_spec (nodes st ++ [new]) parent n new pn)
    as (nodes2 & Hadd & Hlen & Hkept).
  { rewrite lookup_app_r by (unfold n; lia).
    replace (n - length (nodes st))%nat with 0%nat by (unfold n; lia).
    reflexivity. }
  { exact Hnp. }
  { rewrite lookup_app_l by exact Hlt. exact Hp. }
  { exact Hd. }
  { lia. }
  { intros l Hl. destruct (inv_last_child st Hinv parent pn l Hp Hl) as [x Hx].
    exists x. rewrite lookup_app_l by (eapply lookup_lt_Some; eauto).
    exact Hx. }
  rewrite length_app in Hlen. cbn [length] in Hlen.
  assert (Hold : forall k x, nodes st !! k = Some x ->
            exists x', nodes2 !! k = Some x' /\
              Node.mode x' = Node.mode x /\ Node.mtime x' = Node.mtime x /\
              Node.index_within_archive x' = Node.index_within_archive x /\
              Node.parent x' = Node.parent x /\
              (Node.last_child x' = Node.last_child x \/
               Node.last_child x' = Some n)).
  { intros k x Hk.
    assert (Hkn : (k < n)%nat) by (eapply lookup_lt_Some; eauto).
    destruct (Hkept k x) as (x' & Hx' & Hm & Ht & Hi & Hpar & Hl).
    { rewrite lookup_app_l by exact Hkn. exact Hk. }
    rewrite decide_False in Hpar by lia. eauto 10. }
  destruct (Hkept n new) as (new' & Hnew' & Hm & Ht & Hi & Hpar & Hl0).
  { rewrite lookup_app_r by (unfold n; lia).
    replace (n - length (nodes st))%nat with 0%nat by (unfold n; lia).
    reflexivity. }
  rewrite Hnl in Hl0.
  rewrite decide_True in Hpar by reflexivity.
  assert (Hback : forall k x', nodes2 !! k = Some x' ->
            (k = n /\ x' = new') \/
            (k <> n /\ exists x, nodes st !! k = Some x /\
               Node.mode x' = Node.mode x /\ Node.mtime x' = Node.mtime x /\
               Node.index_within_archive x' = Node.index_within_archive x /\
               Node.parent x' = Node.parent x /\
               (Node.last_child x' = Node.last_child x \/
                Node.last_child x' = Some n))).
  { intros k x' Hk. destruct (decide (k = n)) as [->|Hne].
    - left. split; [reflexivity|congruence].
    - right. split; [exact Hne|].
      assert (Hkl : (k < length nodes2)%nat) by (eapply lookup_lt_Some; eauto).
      destruct (lookup_lt_is_Some_2 (nodes st) k) as [x Hx]; [unfold n in *; lia|].
      destruct (Hold k x Hx) as (x'' & Hx'' & Hrest).
      exists x. split; [exact Hx|]. assert (x' = x'') as -> by congruence.
      exact Hrest. }
  exists nodes2, new'.
  split; [exact Hadd|]. split; [exact Hnew'|].
  repeat (split; [assumption|]). split; [unfold n in *; lia|].
  intros st2.
  assert (Habs_root : abs <> "/").
  { intros Heq. destruct (inv_root st Hinv) as (root & rnode & _ & _ & _ & _ & Hk).
    rewrite <- Heq in Hk. congruence. }
  assert (Hda2 : forall A2 p, dir_at st A2 = Some p -> dir_at st2 A2 = Some p).
  { intros A2 p. unfold dir_at. cbn [g_root_node g_nodes_by_name st2].
    destruct (String.eqb A2 ""); [auto|].
    intros HA2. rewrite lookup_insert_ne; [exact HA2|congruence]. }
  split.
  - split.
    + destruct (inv_root st Hinv) as (root & rnode & Hr & Hrn & Hrd & Hrp & Hrk).
      destruct (Hold root rnode Hrn) as (r' & Hr' & Hm' & _ & _ & Hp' & _).
      exists root, r'. cbn [g_root_node nodes g_nodes_by_name st2].
      split; [exact Hr|]. split; [exact Hr'|].
      split; [rewrite (is_dir_mode r' rnode Hm'); exact Hrd|].
      split; [congruence|].
      rewrite lookup_insert_ne by exact Habs_root. exact Hrk.
    + intros K k. cbn [g_nodes_by_name nodes st2].
      destruct (decide (abs = K)) as [<-|Hne].
      * rewrite lookup_insert_eq. intros [= <-]. eauto.
      * rewrite lookup_insert_ne by exact Hne. intros HK.
        destruct (inv_names st Hinv K k HK) as [x Hx].
        destruct (Hold k x Hx) as (x' & Hx' & _). eauto.
    + intros c cn' p Hc Hcp. cbn [nodes st2] in *.
      destruct (Hback c cn' Hc) as [[-> ->]|(Hcn & cn & Hcn0 & Hm' & Ht' & _ & Hp' & _)].
      * assert (p = parent) as -> by congruence.
        destruct (Hold parent pn Hp) as (pn' & Hpn' & Hpm & Hpt & _).
        exists pn'. split; [exact Hpn'|].
        split; [rewrite (is_dir_mode pn' pn Hpm); exact Hd|].
        rewrite Ht, Hpt, Hpm, (contrib_mode new' new Hm). auto.
      * rewrite Hp' in Hcp.
        destruct (inv_parent st Hinv c cn p Hcn0 Hcp)
          as (pn0 & Hpn0 & Hd0 & Ht0 & Hb0).
        destruct (Hold p pn0 Hpn0) as (pn' & Hpn' & Hpm & Hpt & _).
        exists pn'. split; [exact Hpn'|].
        split; [rewrite (is_dir_mode pn' pn0 Hpm); exact Hd0|].
        rewrite Ht', Hpt, Hpm, (contrib_mode cn' cn Hm'). auto.
    + intros d dn' l Hdn Hl. cbn [nodes st2] in *.
      assert (Hn_some : is_Some (nodes2 !! n)) by eauto.
      destruct (Hback d dn' Hdn) as [[-> ->]|(Hdne & dn & Hdn0 & _ & _ & _ & _ & Hlc)].
      * destruct Hl0 as [Hl0|Hl0]; rewrite Hl0 in Hl.
        -- discriminate.
        -- injection Hl as <-. exact Hn_some.
      * destruct Hlc as [Hlc|Hlc]; rewrite Hlc in Hl.
        -- destruct (inv_last_child st Hinv d dn l Hdn0 Hl) as [x Hx].
           destruct (Hold l x Hx) as (x' & Hx' & _). eauto.
        -- injection Hl as <-. exact Hn_some.
    + intros A2 rel2 k. cbn [g_nodes_by_name nodes st2].
      destruct (decide (abs = A2 +:+ "/" +:+ rel2)) as [Heq|Hne].
      * rewrite <- Heq, lookup_insert_eq. intros [= <-] Hns2 _.
        destruct (last_slash_unique A A2 rel rel2 Hns Hns2 Heq) as [<- <-].
        exists new', parent. split; [exact Hnew'|]. split; [exact Hpar|].
        apply Hda2. exact Hda.
      * rewrite lookup_insert_ne by exact Hne. intros HK Hns2 Hnr.
        destruct (inv_name_parent st Hinv A2 rel2 k HK Hns2 Hnr)
          as (cn & p & Hcn & Hcp & Hdap).
        destruct (Hold k cn Hcn) as (cn' & Hcn' & _ & _ & _ & Hp' & _).
        exists cn', p. split; [exact Hcn'|]. split; [congruence|].
        apply Hda2. exact Hdap.
  - split.
    + reflexivity.
    + intros K k HK. cbn [g_nodes_by_name st2].
      rewrite lookup_insert_ne; [exact HK|]. fold abs. congruence.
    + intros k x Hk. destruct (Hold k x Hk) as (x' & Hx' & Hm' & Ht' & Hi' & Hp' & _).
      exists x'. cbn [nodes st2]. split; [exact Hx'|].
      split; [lia|]. split; [rewrite Hm'; apply bits_sub_refl|].
      split; [exact Hp'|]. split; [exact Hi'|]. apply is_dir_mode. exact Hm'.
Qed.

Lemma string_app_slash_not_empty (a b : string) : a +:+ "/" +:+ b <> "".
Proof. destruct a; discriminate. Qed.

Lemma dir_at_named (st : tree) (a b : string) :
  dir_at st (a +:+ "/" +:+ b) = g_nodes_by_name st !! (a +:+ "/" +:+ b).
Proof.
  unfold dir_at.
  destruct (String.eqb_spec (a +:+ "/" +:+ b) "") as [He|_]; [|reflexivity].
  destruct (string_app_slash_not_empty a b He).
Qed.

(** A directory that the walk finds under its name is a fit next
    [parent]. *)
Lemma walk_pre_found (st : tree) (A rel : string) (parent n : nat)
    (pn node : Node.t) :
  tree_inv st -> dir_at st A = Some parent ->
  nodes st !! parent = Some pn ->
  mtime <= Node.mtime pn -> bits_sub (branch_bits mode) (Node.mode pn) ->
  no_slash rel = true ->
  g_nodes_by_name st !! (A +:+ "/" +:+ rel) = Some n ->
  nodes st !! n = Some node -> Node.is_dir node = true ->
  walk_pre mtime mode st (A +:+ "/" +:+ rel) n.
Proof.
  intros Hinv Hda Hp Hmt Hbb Hns En Hnode Hnd.
  split; [exact Hinv|]. split; [rewrite dir_at_named; exact En|].
  exists node. split; [exact Hnode|]. split; [exact Hnd|].
  intros pp ppn Hnpar Hppn.
  assert (Hroot : A = "" /\ rel = "" -> False).
  { intros [-> ->].
    destruct (inv_root st Hinv) as (root & rnode & _ & Hrn & _ & Hrp & Hrk).
    change ("" +:+ "/" +:+ "") with "/" in En.
    assert (n = root) as -> by congruence.
    assert (node = rnode) as -> by congruence. congruence. }
  destruct (inv_name_parent st Hinv A rel n En Hns Hroot)
    as (cn & p & Hcn & Hcp & Hdap).
  assert (cn = node) as -> by congruence.
  assert (p = parent) as -> by congruence.
  assert (pp = parent) as -> by congruence.
  assert (ppn = pn) as -> by congruence.
  auto.
Qed.

(** The loop of [insert_leaf_node] keeps the invariants of the tree. *)
Lemma insert_leaf_node_loop_inv :
  forall q A parent st ret st',
    walk_pre mtime mode st A parent ->
    insert_leaf_node_loop symlink idx size mtime (branch_mode_of mode)
      (leaf_mode_of symlink mode) (A +:+ "/") q parent st = Ok (ret, st') ->
    ret = 0 /\ tree_inv st' /\ tree_le st st'.
Proof.
  intros q. remember (String.length q) as len eqn:Hlen.
  revert q Hlen. induction len as [len IH] using lt_wf_ind.
  intros q -> A parent st ret st' (Hinv & Hda & pn & Hp & Hd & Hpp).
  rewrite insert_leaf_node_loop_unfold.
  rewrite (update_ok (nodes st) parent _ pn Hp). cbn [mbind result_bind].
  destruct (touch_parent_inv st parent pn Hinv Hp Hd Hpp)
    as (Hinv1 & Hle1 & Hp1).
  set (st1 := set_nodes (<[parent := touch mtime (branch_mode_of mode) pn]>
                           (nodes st)) st) in *.
  assert (Hda1 : dir_at st1 A = Some parent) by exact Hda.
  assert (Hd1 : Node.is_dir (touch mtime (branch_mode_of mode) pn) = true)
    by (apply touch_is_dir; exact Hd).
  assert (Hmt1 : mtime <= Node.mtime (touch mtime (branch_mode_of mode) pn))
    by (rewrite touch_mtime; lia).
  assert (Hbb1 : bits_sub (branch_bits mode)
                   (Node.mode (touch mtime (branch_mode_of mode) pn))).
  { rewrite touch_mode, branch_mode_of_eq.
    eapply bits_sub_trans; [apply bits_sub_lor_l|apply bits_sub_lor_r]. }
  destruct (scan_fragment q) as [rel [q'|]] eqn:Es.
  - (* a slash: an implicit directory *)
    apply scan_fragment_some in Es as (-> & Hns & Hlt).
    assert (Hpre : (A +:+ "/") +:+ rel +:+ "/" = (A +:+ "/" +:+ rel) +:+ "/")
      by (rewrite !string_app_assoc; reflexivity).
    rewrite Hpre, (string_app_assoc A "/" rel). clear Hpre.
    unfold insert_leaf_node_branch.
    destruct (g_nodes_by_name st1 !! (A +:+ "/" +:+ rel)) as [n|] eqn:En.
    + destruct (inv_names st1 Hinv1 _ n En) as [node Hnode].
      rewrite Hnode. cbn [deref mbind result_bind].
      destruct (Node.is_dir node) eqn:Hnd; cbn [negb mbind result_bind].
      2:{ intros [= <- <-]. auto. }
      intros Hloop.
      destruct (IH (String.length q') Hlt q' eq_refl
                  (A +:+ "/" +:+ rel) n st1 ret st') as (Hret & Hinv' & Hle').
      * eapply walk_pre_found; eauto.
      * exact Hloop.
      * split; [exact Hret|]. split; [exact Hinv'|].
        eapply tree_le_trans; eauto.
    + destruct (attach_inv st1 A rel parent
                  (touch mtime (branch_mode_of mode) pn)
                  (Node.new rel "" (-1) 0 mtime (branch_mode_of mode))
                  (g_nodes_by_index st1) (g_block_count st1 + 1))
        as (nodes2 & new' & Hadd & Hnew' & Hm & Ht & Hi & Hpar & Hlen2
            & Hinv2 & Hle2); try assumption; try reflexivity.
      { unfold contrib, Node.is_dir. cbn [Node.mode Node.new].
        rewrite is_dir_branch_mode, land_branch_mode_perm. exact Hbb1. }
      rewrite Hadd. cbn [mbind result_bind].
      intros Hloop.
      match type of Hloop with
      | insert_leaf_node_loop _ _ _ _ _ _ _ _ _ ?s = _ => set (st2 := s) in *
      end.
      destruct (IH (String.length q') Hlt q' eq_refl
                  (A +:+ "/" +:+ rel) (length (nodes st1)) st2 ret st')
        as (Hret & Hinv' & Hle').
      * split; [exact Hinv2|].
        split; [rewrite dir_at_named; apply lookup_insert_eq|].
        exists new'. split; [exact Hnew'|].
        split.
        { unfold Node.is_dir. rewrite Hm. apply is_dir_branch_mode. }
        intros pp ppn Hnpar Hppn.
        assert (pp = parent) as -> by congruence.
        destruct (le_nodes st1 st2 Hle2 parent _ Hp1)
          as (x' & Hx' & Hxt & Hxm & _).
        assert (ppn = x') as ->.
        { rewrite Hppn in Hx'. injection Hx' as Hx'. exact Hx'. }
        split; [lia|]. eapply bits_sub_trans; eauto.
      * exact Hloop.
      * split; [exact Hret|]. split; [exact Hinv'|].
        eapply tree_le_trans; [exact Hle1|].
        eapply tree_le_trans; eauto.
  - (* the end of the pathname: the leaf *)
    apply scan_fragment_none in Es as (-> & Hns).
    rewrite (string_app_assoc A "/" rel).
    unfold insert_leaf_node_terminal.
    destruct (g_nodes_by_name st1 !! (A +:+ "/" +:+ rel)) as [n|] eqn:En.
    + cbn [mbind result_bind]. intros [= <- <-]. auto.
    + destruct (attach_inv st1 A rel parent
                  (touch mtime (branch_mode_of mode) pn)
                  (Node.new rel symlink idx size mtime
                     (leaf_mode_of symlink mode))
                  (resize (Z.to_nat idx) None (g_nodes_by_index st1) ++
                   [Some (length (nodes st1))])
                  (g_block_count st1 +
                   Node.get_block_count
                     (Node.new rel symlink idx size mtime
                        (leaf_mode_of symlink mode)) + 1))
        as (nodes2 & new' & Hadd & Hnew' & Hm & Ht & Hi & Hpar & Hlen2
            & Hinv2 & Hle2); try assumption; try reflexivity.
      { unfold contrib, Node.is_dir. cbn [Node.mode Node.new].
        rewrite is_dir_leaf_mode, branch_bits_leaf_mode. exact Hbb1. }
      rewrite Hadd. cbn [mbind result_bind]. rewrite Hnew'.
      cbn [deref mbind result_bind].
      destruct (Z.of_nat (length (g_nodes_by_index st1)) >? idx);
        [discriminate|].
      cbn [mbind result_bind]. intros [= <- <-].
      split; [reflexivity|].
      split; [exact (tree_inv_irrel _ _ _ Hinv2)|].
      eapply tree_le_trans; [exact Hle1|exact (tree_le_irrel _ _ _ _ Hle2)].
Qed.

End Walk.


(** ** The invariants through start-up *)

Lemma insert_root_node_inv : tree_inv (insert_root_node empty_tree).
Proof.
  constructor.
  - exists 0%nat, (Node.new "" "" (-1) 0 0 S_IFDIR).
    repeat split; reflexivity.
  - intros K n HK. cbn in HK.
    apply lookup_insert_Some in HK as [[_ <-]|[_ HK]]; [|discriminate].
    eexists. reflexivity.
  - intros c cn p Hc Hpar. cbn in Hc.
    destruct c as [|c]; [|discriminate].
    injection Hc as <-. discriminate.
  - intros d dn l Hd Hl. cbn in Hd.
    destruct d as [|d]; [|discriminate].
    injection Hd as <-. discriminate.
  - intros A rel n HK Hns Hne. cbn in HK.
    apply lookup_insert_Some in HK as [[HK _]|[_ HK]]; [|discriminate].
    destruct (last_slash_unique "" A "" rel eq_refl Hns HK) as [<- <-].
    tauto.
Qed.

Lemma insert_leaf_node_inv (pathname symlink : string)
    (idx size mtime mode : Z) (st st' : tree) (ret : Z) :
  tree_inv st ->
  insert_leaf_node pathname symlink idx size mtime mode st = Ok (ret, st') ->
  tree_inv st' /\ tree_le st st'.
Proof.
  intros Hinv. unfold insert_leaf_node.
  destruct (idx <? 0).
  { intros [= <- <-]. split; [exact Hinv|apply tree_le_refl]. }
  destruct pathname as [|c q].
  { intros [= <- <-]. split; [exact Hinv|apply tree_le_refl]. }
  destruct (negb (Ascii.eqb c "/")).
  { intros [= <- <-]. split; [exact Hinv|apply tree_le_refl]. }
  destruct (inv_root st Hinv) as (root & rnode & Hr & Hrn & Hrd & Hrp & _).
  rewrite Hr. cbn [deref mbind result_bind].
  intros Hloop.
  eapply (insert_leaf_node_loop_inv symlink idx size mtime mode q ""
            root st ret st'); [|exact Hloop].
  split; [exact Hinv|]. split; [exact Hr|].
  exists rnode. split; [exact Hrn|]. split; [exact Hrd|].
  intros pp ppn Hpp. congruence.
Qed.

Section BootstrapFacts.
Context `{Libarchive}.

Lemma insert_leaf_inv fuel is_raw innername a e idx s st ret a' s' st' :
  tree_inv st ->
  insert_leaf fuel is_raw innername a e idx s st = Ok (ret, a', s', st') ->
  tree_inv st' /\ tree_le st st'.
Proof.
  intros Hinv. unfold insert_leaf.
  destruct (String.eqb _ "").
  { intros [= <- <- <- <-]. split; [exact Hinv|apply tree_le_refl]. }
  destruct (_ || _).
  { intros [= <- <- <- <-]. split; [exact Hinv|apply tree_le_refl]. }
  destruct (_ && _).
  { intros [= <- <- <- <-]. split; [exact Hinv|apply tree_le_refl]. }
  match goal with
  | |- context [mbind _ ?m] => destruct m as [[[[sz|] a1] s1]| |]
  end; cbn [mbind result_bind]; try discriminate.
  2:{ intros [= <- <- <- <-]. split; [exact Hinv|apply tree_le_refl]. }
  destruct (insert_leaf_node _ _ _ _ _ _ st) as [[r st1]| |] eqn:Hn;
    cbn [mbind result_bind]; try discriminate.
  intros [= <- <- <- <-].
  eapply insert_leaf_node_inv; eauto.
Qed.

Lemma build_tree_loop_inv fuel is_raw innername :
  forall first g s st ret g' s' st',
    tree_inv st ->
    build_tree_loop fuel is_raw innername first g s st
    = Ok (ret, g', s', st') ->
    tree_inv st' /\ tree_le st st'.
Proof.
  induction fuel as [|fuel IH]; intros first g s st ret g' s' st' Hinv;
    [discriminate|].
  cbn [build_tree_loop].
  match goal with
  | |- context [mbind _ ?m] => destruct m as [[[r go] g1]| |]
  end; cbn [mbind result_bind]; try discriminate.
  destruct go; cbn [negb].
  2:{ intros [= <- <- <- <-]. split; [exact Hinv|apply tree_le_refl]. }
  destruct (g_initialize_archive_entry g1) as [e|];
    cbn [deref mbind result_bind]; try discriminate.
  destruct (S_ISDIR (archive_entry_mode e)).
  { apply IH. exact Hinv. }
  destruct (insert_leaf _ _ _ _ _ _ _ st) as [[[[r1 a1] s1] st1]| |] eqn:Hl;
    cbn [mbind result_bind]; try discriminate.
  destruct (insert_leaf_inv _ _ _ _ _ _ _ _ _ _ _ _ Hinv Hl) as [Hinv1 Hle1].
  destruct (negb (r1 =? 0)).
  { intros [= <- <- <- <-]. auto. }
  intros Hrest. destruct (IH _ _ _ _ _ _ _ _ Hinv1 Hrest) as [Hinv2 Hle2].
  split; [exact Hinv2|]. eapply tree_le_trans; eauto.
Qed.

Lemma build_tree_inv fuel is_raw innername g s st ret g' s' st' :
  tree_inv st ->
  build_tree fuel is_raw innername g s st = Ok (ret, g', s', st') ->
  tree_inv st' /\ tree_le st st'.
Proof.
  intros Hinv. unfold build_tree.
  destruct (_ <? 0).
  { intros [= <- <- <- <-]. split; [exact Hinv|apply tree_le_refl]. }
  apply build_tree_loop_inv. exact Hinv.
Qed.

(** After start-up the tree satisfies its invariants. *)
Lemma post_initialize_sync_inv fuel is_raw innername g s error g' s' st :
  post_initialize_sync fuel is_raw innername g s empty_tree
  = Ok (error, g', s', st) ->
  tree_inv st.
Proof.
  unfold post_initialize_sync. cbn [g_root_node empty_tree].
  destruct (build_tree _ _ _ _ _ _) as [[[[r g1] s1] st1]| |] eqn:Hb;
    cbn [mbind result_bind]; try discriminate.
  intros [= <- <- <- <-].
  eapply build_tree_inv; [|exact Hb]. apply insert_root_node_inv.
Qed.

End BootstrapFacts.


(** ** Directories after start-up *)

Lemma contrib_perm (x : Node.t) : Z.land (contrib x) 365 = contrib x.
Proof.
  unfold contrib. destruct (Node.is_dir x).
  - rewrite <- Z.land_assoc. reflexivity.
  - apply branch_bits_perm.
Qed.

Lemma bits_sub_is_dir (x : Node.t) :
  Node.is_dir x = true -> bits_sub S_IFDIR (Node.mode x).
Proof.
  unfold Node.is_dir, S_ISDIR, bits_sub. intros Hd.
  apply Z.eqb_eq in Hd.
  apply Z.bits_inj'. intros i Hi.
  rewrite Z.lor_spec.
  destruct (Z.testbit S_IFDIR i) eqn:Hb; [|reflexivity].
  apply (f_equal (fun z => Z.testbit z i)) in Hd.
  rewrite Z.land_spec, Hb in Hd.
  destruct (Z.testbit (Node.mode x) i); [reflexivity|discriminate].
Qed.

(** A directory is at least as recent as every node below it and has
    the bits that the node hands up. *)
Lemma descendant_bounds (st : tree) (d : nat) :
  tree_inv st ->
  forall fuel c C,
    nodes st !! c = Some C -> is_descendant fuel st d c = true ->
    exists D,
      nodes st !! d = Some D /\ Node.is_dir D = true /\
      Node.mtime C <= Node.mtime D /\ bits_sub (contrib C) (Node.mode D).
Proof.
  intros Hinv. induction fuel as [|fuel IH]; intros c C Hc; cbn;
    [discriminate|].
  rewrite Hc. destruct (Node.parent C) as [p|] eqn:Hp; [|discriminate].
  destruct (inv_parent st Hinv c C p Hc Hp) as (pn & Hpn & Hpd & Hpt & Hpm).
  intros Hor. apply orb_true_iff in Hor as [Heq|Hrec].
  - apply Nat.eqb_eq in Heq as ->. exists pn. auto.
  - destruct (IH p pn Hpn Hrec) as (D & HD & HDd & HDt & HDm).
    exists D. split; [exact HD|]. split; [exact HDd|]. split; [lia|].
    eapply bits_sub_trans; [|exact HDm].
    unfold contrib at 2. rewrite Hpd.
    rewrite <- (contrib_perm C). apply bits_sub_land. exact Hpm.
Qed.

Lemma bits_sub_foldr {A : Type} (f : A -> Z) (base b : Z) (l : list A) :
  bits_sub base b -> (forall x, x ∈ l -> bits_sub (f x) b) ->
  bits_sub (foldr (fun x acc => Z.lor (f x) acc) base l) b.
Proof.
  intros Hbase. induction l as [|x l IH]; intros Hl; cbn; [exact Hbase|].
  apply bits_sub_lor.
  - apply Hl. left.
  - apply IH. intros y Hy. apply Hl. right. exact Hy.
Qed.

Lemma elem_of_leaf_descendants (st : tree) (d : nat) (L : Node.t) :
  L ∈ leaf_descendants st d ->
  exists l,
    nodes st !! l = Some L /\ Node.is_dir L = false /\
    is_descendant (length (nodes st)) st d l = true.
Proof.
  unfold leaf_descendants. intros HL.
  apply list_elem_of_omap in HL as (l & _ & Hl).
  exists l. destruct (nodes st !! l) as [L0|]; [|discriminate].
  destruct (Node.is_dir L0) eqn:Hd; cbn [negb andb] in Hl; [discriminate|].
  destruct (is_descendant _ st d l) eqn:Hdesc; [|discriminate].
  injection Hl as <-. auto.
Qed.

Lemma tree_inv_directory (st : tree) (d : nat) (D : Node.t) :
  tree_inv st -> nodes st !! d = Some D -> Node.is_dir D = true ->
  (forall c C,
     nodes st !! c = Some C -> Node.parent C = Some d ->
     Node.mtime C <= Node.mtime D) /\
  bits_sub (spec_directory_mode st d) (Node.mode D).
Proof.
  intros Hinv HD HDd. split.
  - intros c C Hc Hp.
    destruct (inv_parent st Hinv c C d Hc Hp) as (pn & Hpn & _ & Ht & _).
    assert (pn = D) as -> by congruence. exact Ht.
  - apply bits_sub_foldr; [apply bits_sub_is_dir; exact HDd|].
    intros L HL.
    apply elem_of_leaf_descendants in HL as (l & Hl & HLd & Hdesc).
    destruct (descendant_bounds st d Hinv _ l L Hl Hdesc)
      as (D0 & HD0 & _ & _ & Hm).
    assert (D0 = D) as -> by congruence.
    unfold contrib in Hm. rewrite HLd in Hm. exact Hm.
Qed.


(** ** The lists of children *)

(** What [add_child] does to the links of the nodes. *)
Lemma add_child_links_spec (h : list Node.t) (this n : nat) (h' : list Node.t)
    (self : Node.t) :
  h !! this = Some self -> this <> n ->
  (forall l, Node.last_child self = Some l -> l <> n) ->
  Node.add_child h this n = Ok h' ->
  length h' = length h /\
  forall k x, h !! k = Some x ->
    exists x',
      h' !! k = Some x' /\
      Node.parent x' = (if decide (k = n) then Some this else Node.parent x) /\
      (Node.first_child x' = Node.first_child x \/
       k = this /\ Node.first_child x' = Some n) /\
      (Node.last_child x' = Node.last_child x \/
       k = this /\ Node.last_child x' = Some n) /\
      (Node.next_sibling x' = Node.next_sibling x \/
       Node.last_child self = Some k /\ Node.next_sibling x' = Some n).
Proof.
  intros Hthis Hne Hlast. unfold Node.add_child.
  destruct (h !! n) as [child|] eqn:Hn; cbn [deref mbind result_bind];
    [|discriminate].
  destruct (bool_decide (is_Some (Node.parent child))); [discriminate|].
  rewrite Hthis. cbn [deref mbind result_bind].
  destruct (negb (Node.is_dir self)); [discriminate|].
  rewrite (update_ok h this _ self Hthis). cbn [mbind result_bind].
  set (h1 := <[this := Node.set_size (Node.size self + block_size) self]> h).
  assert (Hn1 : h1 !! n = Some child).
  { unfold h1. rewrite list_lookup_insert_ne by exact Hne. exact Hn. }
  rewrite (update_ok h1 n _ child Hn1). cbn [mbind result_bind].
  set (h2 := <[n := Node.set_parent (Some this) child]> h1).
  assert (Hlt : (this < length h)%nat) by (eapply lookup_lt_Some; eauto).
  assert (Hltn : (n < length h)%nat) by (eapply lookup_lt_Some; eauto).
  assert (Hlen2 : length h2 = length h).
  { unfold h2, h1. rewrite !length_insert. reflexivity. }
  assert (H2 : forall k x, h !! k = Some x ->
            exists x', h2 !! k = Some x' /\
              Node.parent x' = (if decide (k = n) then Some this
                                else Node.parent x) /\
              Node.first_child x' = Node.first_child x /\
              Node.last_child x' = Node.last_child x /\
              Node.next_sibling x' = Node.next_sibling x).
  { intros k x Hk. unfold h2, h1.
    destruct (decide (k = n)) as [->|Hkn].
    - rewrite list_lookup_insert_eq by (rewrite length_insert; exact Hltn).
      assert (x = child) as -> by congruence.
      eexists. split; [reflexivity|]. cbn. repeat split; reflexivity.
    - rewrite list_lookup_insert_ne by congruence.
      destruct (decide (k = this)) as [->|Hkt].
      + rewrite list_lookup_insert_eq by exact Hlt.
        assert (x = self) as -> by congruence.
        eexists. split; [reflexivity|]. cbn. repeat split; reflexivity.
      + rewrite list_lookup_insert_ne by congruence.
        exists x. repeat split; try reflexivity. exact Hk. }
  destruct (H2 this self Hthis) as (self2 & Hself2 & _ & _ & Hlc2 & _).
  rewrite Hself2. cbn [deref mbind result_bind]. rewrite Hlc2.
  destruct (Node.last_child self) as [l|] eqn:El.
  - unfold Node.update.
    destruct (h2 !! l) as [ln|] eqn:Hln; cbn [deref mbind result_bind];
      [|discriminate].
    set (h3 := <[l := Node.set_next_sibling (Some n) ln]> h2).
    assert (Hltl : (l < length h2)%nat) by (eapply lookup_lt_Some; eauto).
    destruct (h3 !! this) as [self3|] eqn:Hself3;
      cbn [deref mbind result_bind]; [|discriminate].
    intros [= <-]. split; [unfold h3; rewrite !length_insert; exact Hlen2|].
    intros k x Hk. destruct (H2 k x Hk) as (x2 & Hx2 & Hp & Hf & Hl & Hs).
    assert (H3 : exists x3, h3 !! k = Some x3 /\
              Node.parent x3 = Node.parent x2 /\
              Node.first_child x3 = Node.first_child x2 /\
              Node.last_child x3 = Node.last_child x2 /\
              (Node.next_sibling x3 = Node.next_sibling x2 \/
               k = l /\ Node.next_sibling x3 = Some n)).
    { unfold h3. destruct (decide (k = l)) as [->|Hkl].
      - rewrite list_lookup_insert_eq by exact Hltl.
        assert (x2 = ln) as -> by congruence.
        eexists. split; [reflexivity|]. cbn.
        split; [reflexivity|]. split; [reflexivity|]. split; [reflexivity|].
        right. split; reflexivity.
      - rewrite list_lookup_insert_ne by congruence.
        exists x2. split; [exact Hx2|]. repeat split; try reflexivity.
        left. reflexivity. }
    destruct H3 as (x3 & Hx3 & Hp3 & Hf3 & Hl3 & Hs3).
    destruct (decide (k = this)) as [->|Hkt].
    + rewrite list_lookup_insert_eq
        by (unfold h3; rewrite length_insert, Hlen2; exact Hlt).
      assert (x3 = self3) as -> by congruence.
      eexists. split; [reflexivity|]. cbn.
      split; [congruence|]. split; [left; congruence|].
      split; [right; auto|].
      destruct Hs3 as [Hs3|[-> Hs3]]; [left; congruence|right; auto].
    + rewrite list_lookup_insert_ne by congruence.
      exists x3. split; [exact Hx3|]. split; [congruence|].
      split; [left; congruence|]. split; [left; congruence|].
      destruct Hs3 as [Hs3|[-> Hs3]]; [left; congruence|right; auto].
  - unfold Node.update. rewrite Hself2. cbn [deref mbind result_bind].
    set (h3 := <[this := Node.set_last_child (Some n) self2]> h2).
    assert (Hself3 : h3 !! this = Some (Node.set_last_child (Some n) self2)).
    { unfold h3. apply list_lookup_insert_eq. rewrite Hlen2. exact Hlt. }
    rewrite Hself3. cbn [deref mbind result_bind].
    intros [= <-]. split; [unfold h3; rewrite !length_insert; exact Hlen2|].
    intros k x Hk. destruct (H2 k x Hk) as (x2 & Hx2 & Hp & Hf & Hl & Hs).
    destruct (decide (k = this)) as [->|Hkt].
    + rewrite list_lookup_insert_eq
        by (unfold h3; rewrite length_insert, Hlen2; exact Hlt).
      assert (x2 = self2) as -> by congruence.
      eexists. split; [reflexivity|]. cbn.
      split; [exact Hp|]. split; [right; auto|]. split; [right; auto|].
      left. exact Hs.
    + rewrite list_lookup_insert_ne by congruence.
      unfold h3. rewrite list_lookup_insert_ne by congruence.
      exists x2. split; [exact Hx2|]. split; [exact Hp|]. auto.
Qed.

Lemma touch_first_child m bm x :
  Node.first_child (touch m bm x) = Node.first_child x.
Proof. unfold touch. destruct (Node.mtime x <? m); reflexivity. Qed.

Lemma touch_next_sibling m bm x :
  Node.next_sibling (touch m bm x) = Node.next_sibling x.
Proof. unfold touch. destruct (Node.mtime x <? m); reflexivity. Qed.

(** A write that keeps the links of a node keeps the links in order. *)
Lemma links_inv_update (h : list Node.t) (p : nat) (x x' : Node.t) :
  h !! p = Some x ->
  Node.parent x' = Node.parent x ->
  Node.first_child x' = Node.first_child x ->
  Node.last_child x' = Node.last_child x ->
  Node.next_sibling x' = Node.next_sibling x ->
  links_inv h -> links_inv (<[p := x']> h).
Proof.
  intros Hp Hpar Hf Hl Hs Hinv.
  assert (Hlt : (p < length h)%nat) by (eapply lookup_lt_Some; eauto).
  assert (Hget : forall k y, h !! k = Some y ->
            exists y', <[p := x']> h !! k = Some y' /\
              Node.parent y' = Node.parent y).
  { intros k y Hk. destruct (decide (k = p)) as [->|Hne].
    - rewrite list_lookup_insert_eq by exact Hlt.
      exists x'. split; [reflexivity|]. congruence.
    - rewrite list_lookup_insert_ne by congruence. eauto. }
  intros k y' Hk.
  assert (Hold : exists y, h !! k = Some y /\
            Node.parent y' = Node.parent y /\
            Node.first_child y' = Node.first_child y /\
            Node.last_child y' = Node.last_child y /\
            Node.next_sibling y' = Node.next_sibling y).
  { destruct (decide (k = p)) as [->|Hne].
    - rewrite list_lookup_insert_eq in Hk by exact Hlt.
      injection Hk as <-. exists x. auto.
    - rewrite list_lookup_insert_ne in Hk by congruence.
      exists y'. auto. }
  destruct Hold as (y & Hy & Hyp & Hyf & Hyl & Hys).
  destruct (Hinv k y Hy) as (H1 & H2 & H3).
  rewrite Hyp, Hyf, Hyl, Hys.
  split; [|split].
  - intros f Hff. destruct (H1 f Hff) as (F & HF & HFp).
    destruct (Hget f F HF) as (F' & HF' & HFp'). exists F'.
    split; [exact HF'|congruence].
  - intros l Hll. destruct (H2 l Hll) as (L & HL & HLp).
    destruct (Hget l L HL) as (L' & HL' & HLp'). exists L'.
    split; [exact HL'|congruence].
  - intros n Hn. destruct (H3 n Hn) as (N & HN & HNp).
    destruct (Hget n N HN) as (N' & HN' & HNp'). exists N'.
    split; [exact HN'|congruence].
Qed.

(** Allocating a node and adding it as a child keeps the links in
    order. *)
Lemma links_inv_add_child (h0 : list Node.t) (new : Node.t) (this : nat)
    (h' : list Node.t) :
  links_inv h0 -> (this < length h0)%nat ->
  Node.parent new = None -> Node.first_child new = None ->
  Node.last_child new = None -> Node.next_sibling new = None ->
  Node.add_child (h0 ++ [new]) this (length h0) = Ok h' ->
  links_inv h'.
Proof.
  intros Hinv Hlt Hnp Hnf Hnl Hns Hadd.
  remember (length h0) as n eqn:Hnlen.
  assert (Hlt0 : (this < length h0)%nat) by lia.
  destruct (lookup_lt_is_Some_2 h0 this Hlt0) as [self Hself].
  assert (Hself' : (h0 ++ [new]) !! this = Some self)
    by (rewrite lookup_app_l by exact Hlt0; exact Hself).
  assert (Hlast : forall l, Node.last_child self = Some l -> l <> n).
  { intros l Hl. destruct (Hinv this self Hself) as (_ & H2 & _).
    destruct (H2 l Hl) as (L & HL & _).
    apply lookup_lt_Some in HL. lia. }
  assert (Hne : this <> n) by lia.
  destruct (add_child_links_spec (h0 ++ [new]) this n h' self Hself'
              Hne Hlast Hadd) as [Hlen Hrel].
  assert (Hnew : (h0 ++ [new]) !! n = Some new).
  { rewrite lookup_app_r by lia.
    replace (n - length h0)%nat with 0%nat by lia. reflexivity. }
  assert (Hold : forall k x, h0 !! k = Some x ->
            exists x', h' !! k = Some x' /\ Node.parent x' = Node.parent x).
  { intros k x Hk.
    assert (Hkn : (k < length h0)%nat) by (eapply lookup_lt_Some; eauto).
    destruct (Hrel k x) as (x' & Hx' & Hp & _).
    { rewrite lookup_app_l by lia. exact Hk. }
    exists x'. split; [exact Hx'|].
    rewrite Hp. destruct (decide (k = n)); [lia|reflexivity]. }
  assert (Hn' : exists N, h' !! n = Some N /\ Node.parent N = Some this).
  { destruct (Hrel n new Hnew) as (N & HN & Hp & _).
    exists N. split; [exact HN|].
    rewrite Hp. destruct (decide (n = n)); [reflexivity|contradiction]. }
  intros k x' Hk.
  assert (Hk0 : is_Some ((h0 ++ [new]) !! k)).
  { apply lookup_lt_is_Some. rewrite <- Hlen. eapply lookup_lt_Some; eauto. }
  destruct Hk0 as [x Hx].
  destruct (Hrel k x Hx) as (x'' & Hx'' & Hp & Hf & Hl & Hs).
  assert (x'' = x') as -> by congruence.
  destruct (decide (k = n)) as [->|Hkn].
  - (* the new node *)
    assert (x = new) as -> by congruence.
    split; [|split].
    + intros f Hff. destruct Hf as [Hf|[-> _]]; [congruence|].
      lia.
    + intros l Hll. destruct Hl as [Hl|[-> _]]; [congruence|].
      lia.
    + intros m Hm. destruct Hs as [Hs|[Hs _]]; [congruence|].
      destruct (Hlast n Hs eq_refl).
  - assert (Hx0 : h0 !! k = Some x).
    { rewrite lookup_app_l in Hx; [exact Hx|].
      apply lookup_lt_Some in Hx. rewrite length_app in Hx. cbn in Hx.
      lia. }
    destruct (Hinv k x Hx0) as (H1 & H2 & H3).
    split; [|split].
    + intros f Hff. destruct Hf as [Hf|[-> Hf]].
      * rewrite Hf in Hff. destruct (H1 f Hff) as (F & HF & HFp).
        destruct (Hold f F HF) as (F' & HF' & HFp'). exists F'.
        split; [exact HF'|congruence].
      * assert (f = n) as -> by congruence. exact Hn'.
    + intros l Hll. destruct Hl as [Hl|[-> Hl]].
      * rewrite Hl in Hll. destruct (H2 l Hll) as (L & HL & HLp).
        destruct (Hold l L HL) as (L' & HL' & HLp'). exists L'.
        split; [exact HL'|congruence].
      * assert (l = n) as -> by congruence. exact Hn'.
    + intros m Hm. destruct Hs as [Hs|[Hlk Hs]].
      * rewrite Hs in Hm. destruct (H3 m Hm) as (N & HN & HNp).
        destruct (Hold m N HN) as (N' & HN' & HNp'). exists N'.
        split; [exact HN'|]. rewrite Hp.
        destruct (decide (k = n)); [contradiction|congruence].
      * assert (m = n) as -> by congruence.
        destruct Hn' as (N & HN & HNp). exists N. split; [exact HN|].
        rewrite HNp, Hp. destruct (decide (k = n)); [contradiction|].
        destruct (Hinv this self Hself) as (_ & H2' & _).
        destruct (H2' k Hlk) as (L & HL & HLp). congruence.
Qed.

(** The loop of [insert_leaf_node] keeps the links in order. *)
Lemma insert_leaf_node_loop_links symlink idx size mtime bm lm :
  forall q prefix parent st ret st',
    links_inv (nodes st) ->
    insert_leaf_node_loop symlink idx size mtime bm lm prefix q parent st
    = Ok (ret, st') ->
    links_inv (nodes st').
Proof.
  intros q. remember (String.length q) as len eqn:Hlen.
  revert q Hlen. induction len as [len IH] using lt_wf_ind.
  intros q -> prefix parent st ret st' Hinv.
  rewrite insert_leaf_node_loop_unfold. unfold Node.update.
  destruct (nodes st !! parent) as [pn|] eqn:Hp;
    cbn [deref mbind result_bind]; [|discriminate].
  set (nodes1 := <[parent := touch mtime bm pn]> (nodes st)).
  assert (Hinv1 : links_inv nodes1).
  { apply (links_inv_update _ _ pn); auto using touch_parent,
      touch_first_child, touch_last_child, touch_next_sibling. }
  assert (Hlt : (parent < length nodes1)%nat).
  { unfold nodes1. rewrite length_insert. eapply lookup_lt_Some; eauto. }
  destruct (scan_fragment q) as [rel [q'|]] eqn:Es.
  - apply scan_fragment_some in Es as (-> & _ & Hlt').
    unfold insert_leaf_node_branch. cbn [nodes g_nodes_by_name set_nodes].
    destruct (g_nodes_by_name st !! (prefix +:+ rel)) as [n|].
    + destruct (nodes1 !! n) as [node|]; cbn [deref mbind result_bind];
        [|discriminate].
      destruct (negb (Node.is_dir node)); cbn [mbind result_bind].
      * intros [= <- <-]. exact Hinv1.
      * apply (IH _ Hlt' q' eq_refl). exact Hinv1.
    + destruct (Node.add_child _ parent (length nodes1)) as [nodes2| |]
        eqn:Hadd; cbn [mbind result_bind]; try discriminate.
      apply (IH _ Hlt' q' eq_refl). cbn [nodes].
      eapply links_inv_add_child; [exact Hinv1|exact Hlt|..|exact Hadd];
        reflexivity.
  - unfold insert_leaf_node_terminal. cbn [nodes g_nodes_by_name set_nodes].
    destruct (g_nodes_by_name st !! (prefix +:+ rel)) as [n|];
      cbn [mbind result_bind].
    + intros [= <- <-]. exact Hinv1.
    + destruct (Node.add_child _ parent (length nodes1)) as [nodes2| |]
        eqn:Hadd; cbn [mbind result_bind]; try discriminate.
      destruct (nodes2 !! length nodes1); cbn [deref mbind result_bind];
        [|discriminate].
      destruct (_ >? idx); cbn [mbind result_bind]; [discriminate|].
      intros [= <- <-]. cbn [nodes].
      eapply links_inv_add_child; [exact Hinv1|exact Hlt|..|exact Hadd];
        reflexivity.
Qed.

Lemma insert_leaf_node_links (pathname symlink : string)
    (idx size mtime mode : Z) (st st' : tree) (ret : Z) :
  links_inv (nodes st) ->
  insert_leaf_node pathname symlink idx size mtime mode st = Ok (ret, st') ->
  links_inv (nodes st').
Proof.
  intros Hinv. unfold insert_leaf_node.
  destruct (idx <? 0); [intros [= <- <-]; exact Hinv|].
  destruct pathname as [|c q]; [intros [= <- <-]; exact Hinv|].
  destruct (negb (Ascii.eqb c "/")); [intros [= <- <-]; exact Hinv|].
  destruct (g_root_node st); cbn [deref mbind result_bind]; [|discriminate].
  apply insert_leaf_node_loop_links. exact Hinv.
Qed.

Section BootstrapLinks.
Context `{Libarchive}.

Lemma insert_leaf_links fuel is_raw innername a e idx s st ret a' s' st' :
  links_inv (nodes st) ->
  insert_leaf fuel is_raw innername a e idx s st = Ok (ret, a', s', st') ->
  links_inv (nodes st').
Proof.
  intros Hinv. unfold insert_leaf.
  destruct (String.eqb _ ""); [intros [= <- <- <- <-]; exact Hinv|].
  destruct (_ || _); [intros [= <- <- <- <-]; exact Hinv|].
  destruct (_ && _); [intros [= <- <- <- <-]; exact Hinv|].
  match goal with
  | |- context [mbind _ ?m] => destruct m as [[[[sz|] a1] s1]| |]
  end; cbn [mbind result_bind]; try discriminate.
  2:{ intros [= <- <- <- <-]. exact Hinv. }
  destruct (insert_leaf_node _ _ _ _ _ _ st) as [[r st1]| |] eqn:Hn;
    cbn [mbind result_bind]; try discriminate.
  intros [= <- <- <- <-].
  eapply insert_leaf_node_links; eauto.
Qed.

Lemma build_tree_loop_links fuel is_raw innername :
  forall first g s st ret g' s' st',
    links_inv (nodes st) ->
    build_tree_loop fuel is_raw innername first g s st
    = Ok (ret, g', s', st') ->
    links_inv (nodes st').
Proof.
  induction fuel as [|fuel IH]; intros first g s st ret g' s' st' Hinv;
    [discriminate|].
  cbn [build_tree_loop].
  match goal with
  | |- context [mbind _ ?m] => destruct m as [[[r go] g1]| |]
  end; cbn [mbind result_bind]; try discriminate.
  destruct go; cbn [negb]; [|intros [= <- <- <- <-]; exact Hinv].
  destruct (g_initialize_archive_entry g1) as [e|];
    cbn [deref mbind result_bind]; try discriminate.
  destruct (S_ISDIR (archive_entry_mode e)); [apply IH; exact Hinv|].
  destruct (insert_leaf _ _ _ _ _ _ _ st) as [[[[r1 a1] s1] st1]| |] eqn:Hl;
    cbn [mbind result_bind]; try discriminate.
  pose proof (insert_leaf_links _ _ _ _ _ _ _ _ _ _ _ _ Hinv Hl) as Hinv1.
  destruct (negb (r1 =? 0)); [intros [= <- <- <- <-]; exact Hinv1|].
  apply IH. exact Hinv1.
Qed.

(** After start-up the links of the tree are in order. *)
Lemma post_initialize_sync_links fuel is_raw innername g s error g' s' st :
  post_initialize_sync fuel is_raw innername g s empty_tree
  = Ok (error, g', s', st) ->
  links_inv (nodes st).
Proof.
  unfold post_initialize_sync. cbn [g_root_node empty_tree].
  destruct (build_tree _ _ _ _ _ _) as [[[[r g1] s1] st1]| |] eqn:Hb;
    cbn [mbind result_bind]; try discriminate.
  intros [= <- <- <- <-]. revert Hb. unfold build_tree.
  assert (Hroot : links_inv (nodes (insert_root_node empty_tree))).
  { intros k x Hk. destruct k as [|k]; [|discriminate].
    injection Hk as <-. repeat split; discriminate. }
  destruct (_ <? 0); [intros [= <- <- <- <-]; exact Hroot|].
  apply build_tree_loop_links. exact Hroot.
Qed.

End BootstrapLinks.

(** The nodes of a list of children have the same parent. *)
Lemma siblings_parent (h : list Node.t) (d : nat) :
  links_inv h ->
  forall fuel c C,
    h !! c = Some C -> Node.parent C = Some d ->
    forall x, x ∈ siblings fuel h (Some c) ->
      exists X, h !! x = Some X /\ Node.parent X = Some d.
Proof.
  intros Hinv. induction fuel as [|fuel IH]; intros c C Hc Hp x Hx;
    cbn in Hx; [inversion Hx|].
  apply elem_of_cons in Hx as [->|Hx]; [eauto|].
  rewrite Hc in Hx.
  destruct (Node.next_sibling C) as [n|] eqn:Hn.
  - destruct (Hinv c C Hc) as (_ & _ & H3).
    destruct (H3 n Hn) as (N & HN & HNp).
    apply (IH n N HN); [congruence|exact Hx].
  - destruct fuel; inversion Hx.
Qed.

Lemma children_parent (st : tree) (fuel d c : nat) :
  links_inv (nodes st) -> c ∈ children fuel st d ->
  exists C, nodes st !! c = Some C /\ Node.parent C = Some d.
Proof.
  intros Hinv. unfold children.
  destruct (nodes st !! d) as [D|] eqn:HD; [|intros Hc; inversion Hc].
  destruct (Node.first_child D) as [f|] eqn:Hf.
  - destruct (Hinv d D HD) as (H1 & _).
    destruct (H1 f Hf) as (F & HF & HFp).
    apply (siblings_parent _ d Hinv fuel f F HF HFp).
  - destruct fuel; intros Hc; inversion Hc.
Qed.

(** ** Where the mode bits of a directory come from *)

Lemma parent_before_update (h : list Node.t) (p : nat) (x x' : Node.t) :
  h !! p = Some x -> Node.parent x' = Node.parent x ->
  parent_before h -> parent_before (<[p := x']> h).
Proof.
  intros Hp Hpar Hord c C q Hc HC.
  assert (Hlt : (p < length h)%nat) by (eapply lookup_lt_Some; eauto).
  destruct (decide (c = p)) as [->|Hne].
  - rewrite list_lookup_insert_eq in Hc by exact Hlt. injection Hc as <-.
    apply (Hord p x q Hp). congruence.
  - rewrite list_lookup_insert_ne in Hc by congruence. eauto.
Qed.

Lemma parent_before_attached (h1 h2 : list Node.t) (new : Node.t)
    (this : nat) :
  (this < length h1)%nat -> attached h1 new this h2 ->
  parent_before h1 -> parent_before h2.
Proof.
  intros Hlt (Hlen & Hold & x' & Hx' & _ & Hxp) Hord c C q Hc HC.
  destruct (decide (c = length h1)) as [->|Hne].
  - assert (C = x') as -> by congruence.
    assert (q = this) as -> by congruence. exact Hlt.
  - assert (Hc1 : (c < length h1)%nat).
    { apply lookup_lt_Some in Hc. lia. }
    destruct (lookup_lt_is_Some_2 h1 c Hc1) as [C1 HC1].
    destruct (Hold c C1 HC1) as (C2 & HC2 & _ & Hp2).
    assert (C2 = C) as -> by congruence.
    apply (Hord c C1 q HC1). congruence.
Qed.

(** The update at the top of the loop of [insert_leaf_node]. *)
Lemma mode_from_children_touch (mtime mode : Z) (ex : nat -> Prop)
    (h : list Node.t) (parent : nat) (pn : Node.t) :
  h !! parent = Some pn -> Node.is_dir pn = true ->
  (forall d, ex d -> d = parent \/ Node.parent pn = Some d) ->
  mode_from_children (branch_bits mode) ex h ->
  mode_from_children (branch_bits mode) (fun d => d = parent)
    (<[parent := touch mtime (branch_mode_of mode) pn]> h).
Proof.
  intros Hp Hd Hex Hup.
  assert (Hlt : (parent < length h)%nat) by (eapply lookup_lt_Some; eauto).
  set (h1 := <[parent := touch mtime (branch_mode_of mode) pn]> h).
  assert (Hp1 : h1 !! parent = Some (touch mtime (branch_mode_of mode) pn))
    by (apply list_lookup_insert_eq; exact Hlt).
  (* a child in [h] is a child in [h1] that hands up at least as much *)
  assert (Hchild : forall c C d i,
            h !! c = Some C -> Node.parent C = Some d ->
            Z.testbit (contrib C) i = true ->
            exists c1 C1,
              h1 !! c1 = Some C1 /\ Node.parent C1 = Some d /\
              Z.testbit (contrib C1) i = true).
  { intros c C d i Hc HCp Hi. destruct (decide (c = parent)) as [->|Hne].
    - assert (C = pn) as -> by congruence.
      exists parent, (touch mtime (branch_mode_of mode) pn).
      split; [exact Hp1|]. split; [rewrite touch_parent; exact HCp|].
      rewrite touch_contrib by exact Hd. rewrite Z.lor_spec, Hi. reflexivity.
    - exists c, C. split; [|auto].
      unfold h1. rewrite list_lookup_insert_ne by congruence. exact Hc. }
  intros d D i HD HDd Hi Hbit.
  destruct (decide (d = parent)) as [->|Hne].
  - assert (D = touch mtime (branch_mode_of mode) pn) as -> by congruence.
    rewrite touch_mode, Z.lor_spec in Hbit.
    apply orb_true_iff in Hbit as [Hbit|Hbit].
    + destruct (Hup parent pn i Hp Hd Hi Hbit) as [H1|[[_ H2]|H3]].
      * left. exact H1.
      * right. left. auto.
      * right. right. destruct H3 as (c & C & Hc & HCp & HCi).
        exact (Hchild c C parent i Hc HCp HCi).
    + rewrite branch_mode_of_eq, Z.lor_spec in Hbit.
      apply orb_true_iff in Hbit as [Hbit|Hbit]; [right; left; auto|left; auto].
  - assert (HD0 : h !! d = Some D).
    { unfold h1 in HD. rewrite list_lookup_insert_ne in HD by congruence.
      exact HD. }
    destruct (Hup d D i HD0 HDd Hi Hbit) as [H1|[[Hexd H2]|H3]].
    + left. exact H1.
    + right. right. destruct (Hex d Hexd) as [->|Hpp]; [contradiction|].
      exists parent, (touch mtime (branch_mode_of mode) pn).
      split; [exact Hp1|]. split; [rewrite touch_parent; exact Hpp|].
      rewrite touch_contrib by exact Hd. rewrite Z.lor_spec, H2.
      apply orb_true_r.
    + right. right. destruct H3 as (c & C & Hc & HCp & HCi).
      exact (Hchild c C d i Hc HCp HCi).
Qed.

(** Adding a child that hands up [bm] settles its parent; a new
    directory has the bits of [bm] itself. *)
Lemma mode_from_children_attached (bm : Z) (h1 h2 : list Node.t)
    (new : Node.t) (this : nat) :
  attached h1 new this h2 ->
  contrib new = bm ->
  (Node.is_dir new = true ->
   forall i, Z.testbit (Node.mode new) i = true ->
     Z.testbit S_IFDIR i = true \/ Z.testbit bm i = true) ->
  mode_from_children bm (fun d => d = this) h1 ->
  mode_from_children bm
    (fun d => d = length h1 /\ Node.is_dir new = true) h2.
Proof.
  intros (Hlen & Hold & x' & Hx' & Hxm & Hxp) Hcontrib Hnew Hup.
  intros d D i HD HDd Hi Hbit.
  destruct (decide (d = length h1)) as [->|Hne].
  - assert (D = x') as -> by congruence.
    assert (Hnd : Node.is_dir new = true)
      by (rewrite <- (is_dir_mode _ _ Hxm); exact HDd).
    rewrite Hxm in Hbit.
    destruct (Hnew Hnd i Hbit) as [H1|H2]; [left; exact H1|].
    right. left. auto.
  - assert (Hd1 : (d < length h1)%nat).
    { apply lookup_lt_Some in HD. lia. }
    destruct (lookup_lt_is_Some_2 h1 d Hd1) as [D1 HD1].
    destruct (Hold d D1 HD1) as (D2 & HD2 & HDm & _).
    assert (D2 = D) as -> by congruence.
    rewrite HDm in Hbit. rewrite (is_dir_mode _ _ HDm) in HDd.
    destruct (Hup d D1 i HD1 HDd Hi Hbit) as [H1|[[-> H2]|H3]].
    + left. exact H1.
    + right. right. exists (length h1), x'.
      split; [exact Hx'|]. split; [exact Hxp|].
      rewrite (contrib_mode _ _ Hxm), Hcontrib. exact H2.
    + right. right. destruct H3 as (c & C & Hc & HCp & HCi).
      destruct (Hold c C Hc) as (C2 & HC2 & HCm & HCp2).
      exists c, C2. split; [exact HC2|]. split; [congruence|].
      rewrite (contrib_mode _ _ HCm). exact HCi.
Qed.

(** [add_child] on a freshly allocated node. *)
Lemma add_child_attached (st : tree) (parent : nat) (pn new : Node.t) :
  tree_inv st -> nodes st !! parent = Some pn -> Node.is_dir pn = true ->
  Node.parent new = None ->
  exists nodes2,
    Node.add_child (nodes st ++ [new]) parent (length (nodes st)) = Ok nodes2 /\
    attached (nodes st) new parent nodes2.
Proof.
  intros Hinv Hp Hd Hnp.
  set (n := length (nodes st)).
  assert (Hlt : (parent < n)%nat) by (eapply lookup_lt_Some; eauto).
  assert (Hnew : (nodes st ++ [new]) !! n = Some new).
  { rewrite lookup_app_r by (unfold n; lia).
    replace (n - length (nodes st))%nat with 0%nat by (unfold n; lia).
    reflexivity. }
  destruct (add_child_spec (nodes st ++ [new]) parent n new pn)
    as (nodes2 & Hadd & Hlen & Hkept).
  { exact Hnew. }
  { exact Hnp. }
  { rewrite lookup_app_l by exact Hlt. exact Hp. }
  { exact Hd. }
  { lia. }
  { intros l Hl. destruct (inv_last_child st Hinv parent pn l Hp Hl) as [x Hx].
    exists x. rewrite lookup_app_l by (eapply lookup_lt_Some; eauto).
    exact Hx. }
  exists nodes2. split; [exact Hadd|].
  split; [rewrite Hlen, length_app; cbn; lia|].
  split.
  - intros k x Hk.
    assert (Hkn : (k < n)%nat) by (eapply lookup_lt_Some; eauto).
    destruct (Hkept k x) as (x' & Hx' & Hm & _ & _ & Hpar & _).
    { rewrite lookup_app_l by exact Hkn. exact Hk. }
    exists x'. split; [exact Hx'|]. split; [exact Hm|].
    rewrite Hpar. destruct (decide (k = n)); [lia|reflexivity].
  - destruct (Hkept n new Hnew) as (x' & Hx' & Hm & _ & _ & Hpar & _).
    exists x'. split; [exact Hx'|]. split; [exact Hm|].
    rewrite Hpar. destruct (decide (n = n)); [reflexivity|contradiction].
Qed.

Lemma mode_from_children_weaken (bm : Z) (ex ex' : nat -> Prop)
    (h : list Node.t) :
  (forall d, ex d -> ex' d) ->
  mode_from_children bm ex h -> mode_from_children bm ex' h.
Proof.
  intros Hsub Hup d D i HD HDd Hi Hbit.
  destruct (Hup d D i HD HDd Hi Hbit) as [H1|[[H2 H2']|H3]]; auto.
Qed.

(** A name that the walk finds belongs to a child of the directory that
    the walk is in, or to the root. *)
Lemma found_parent (st : tree) (A rel : string) (parent n : nat)
    (node : Node.t) :
  tree_inv st -> dir_at st A = Some parent -> no_slash rel = true ->
  g_nodes_by_name st !! (A +:+ "/" +:+ rel) = Some n ->
  nodes st !! n = Some node ->
  n = parent \/ Node.parent node = Some parent.
Proof.
  intros Hinv Hda Hns En Hnode.
  destruct (String.eqb_spec A "") as [->|HA].
  - destruct (String.eqb_spec rel "") as [->|Hrel].
    + left. destruct (inv_root st Hinv) as (root & rnode & Hr & _ & _ & _ & Hk).
      change ("" +:+ "/" +:+ "") with "/" in En.
      unfold dir_at in Hda. cbn in Hda. congruence.
    + right. destruct (inv_name_parent st Hinv "" rel n En Hns)
        as (cn & p & Hcn & Hcp & Hdap); [tauto|]. congruence.
  - right. destruct (inv_name_parent st Hinv A rel n En Hns)
      as (cn & p & Hcn & Hcp & Hdap); [tauto|]. congruence.
Qed.

Lemma string_app_slash_longer (a b : string) : a +:+ "/" +:+ b <> a.
Proof.
  intros He. apply (f_equal String.length) in He.
  rewrite !string_length_app in He. cbn in He. lia.
Qed.

Section Exact.
Variables (symlink : string) (idx size mtime mode : Z).

(** When the loop of [insert_leaf_node] binds the name of its leaf,
    every bit of the mode of a directory comes from a child again. *)
Lemma insert_leaf_node_loop_exact :
  forall q A parent st ret st' (ex : nat -> Prop),
    walk_pre mtime mode st A parent ->
    parent_before (nodes st) ->
    mode_from_children (branch_bits mode) ex (nodes st) ->
    (forall d pn, ex d -> nodes st !! parent = Some pn ->
       d = parent \/ Node.parent pn = Some d) ->
    insert_leaf_node_loop symlink idx size mtime (branch_mode_of mode)
      (leaf_mode_of symlink mode) (A +:+ "/") q parent st = Ok (ret, st') ->
    parent_before (nodes st') /\
    (g_nodes_by_name st !! (A +:+ "/" +:+ q) = None ->
     is_Some (g_nodes_by_name st' !! (A +:+ "/" +:+ q)) ->
     mode_from_children (branch_bits mode) (fun _ => False) (nodes st')).
Proof.
  intros q. remember (String.length q) as len eqn:Hlen.
  revert q Hlen. induction len as [len IH] using lt_wf_ind.
  intros q -> A parent st ret st' ex (Hinv & Hda & pn & Hp & Hd & Hpp)
    Hord Hup Hex.
  rewrite insert_leaf_node_loop_unfold.
  rewrite (update_ok (nodes st) parent _ pn Hp). cbn [mbind result_bind].
  destruct (touch_parent_inv mtime mode st parent pn Hinv Hp Hd Hpp)
    as (Hinv1 & Hle1 & Hp1).
  pose proof (mode_from_children_touch mtime mode ex (nodes st) parent pn
                Hp Hd (fun d Hd' => Hex d pn Hd' Hp) Hup) as Hup1.
  pose proof (parent_before_update (nodes st) parent pn
                (touch mtime (branch_mode_of mode) pn) Hp
                (touch_parent _ _ _) Hord) as Hord1.
  set (st1 := set_nodes (<[parent := touch mtime (branch_mode_of mode) pn]>
                           (nodes st)) st) in *.
  change (<[parent := touch mtime (branch_mode_of mode) pn]> (nodes st))
    with (nodes st1) in Hup1, Hord1.
  assert (Hda1 : dir_at st1 A = Some parent) by exact Hda.
  assert (Hd1 : Node.is_dir (touch mtime (branch_mode_of mode) pn) = true)
    by (apply touch_is_dir; exact Hd).
  assert (Hmt1 : mtime <= Node.mtime (touch mtime (branch_mode_of mode) pn))
    by (rewrite touch_mtime; lia).
  assert (Hbb1 : bits_sub (branch_bits mode)
                   (Node.mode (touch mtime (branch_mode_of mode) pn))).
  { rewrite touch_mode, branch_mode_of_eq.
    eapply bits_sub_trans; [apply bits_sub_lor_l|apply bits_sub_lor_r]. }
  assert (Hlt1 : (parent < length (nodes st1))%nat)
    by (eapply lookup_lt_Some; eauto).
  destruct (scan_fragment q) as [rel [q'|]] eqn:Es.
  - (* a slash: an implicit directory *)
    apply scan_fragment_some in Es as (-> & Hns & Hlt).
    assert (Hpre : (A +:+ "/") +:+ rel +:+ "/" = (A +:+ "/" +:+ rel) +:+ "/")
      by (rewrite !string_app_assoc; reflexivity).
    assert (Hkey : A +:+ "/" +:+ rel +:+ "/" +:+ q' =
                   (A +:+ "/" +:+ rel) +:+ "/" +:+ q')
      by (rewrite !string_app_assoc; reflexivity).
    rewrite Hpre, (string_app_assoc A "/" rel), Hkey. clear Hpre.
    unfold insert_leaf_node_branch.
    destruct (g_nodes_by_name st1 !! (A +:+ "/" +:+ rel)) as [n|] eqn:En.
    + destruct (inv_names st1 Hinv1 _ n En) as [node Hnode].
      rewrite Hnode. cbn [deref mbind result_bind].
      destruct (Node.is_dir node) eqn:Hnd; cbn [negb mbind result_bind].
      2:{ intros [= <- <-]. split; [exact Hord1|].
          intros Hnone [x Hx]. change (g_nodes_by_name st1)
            with (g_nodes_by_name st) in Hx. congruence. }
      intros Hloop.
      apply (IH (String.length q') Hlt q' eq_refl
               (A +:+ "/" +:+ rel) n st1 ret st' (fun d => d = parent));
        [eapply walk_pre_found; eauto|exact Hord1|exact Hup1| |exact Hloop].
      intros d pn' -> Hn'.
      assert (pn' = node) as -> by congruence.
      destruct (found_parent st1 A rel parent n node Hinv1 Hda1 Hns En Hnode)
        as [->|Hfp]; auto.
    + set (new := Node.new rel "" (-1) 0 mtime (branch_mode_of mode)).
      destruct (attach_inv st1 A rel parent
                  (touch mtime (branch_mode_of mode) pn) new
                  (g_nodes_by_index st1) (g_block_count st1 + 1))
        as (nodes2 & new' & Hadd & Hnew' & Hm & Ht & Hi & Hpar & Hlen2
            & Hinv2 & Hle2); try assumption; try reflexivity.
      { unfold contrib, Node.is_dir. cbn [Node.mode Node.new new].
        rewrite is_dir_branch_mode, land_branch_mode_perm. exact Hbb1. }
      destruct (add_child_attached st1 parent _ new Hinv1 Hp1 Hd1 eq_refl)
        as (nodes2' & Hadd' & Hatt).
      assert (nodes2' = nodes2) as -> by congruence.
      rewrite Hadd. cbn [mbind result_bind].
      intros Hloop.
      match type of Hloop with
      | insert_leaf_node_loop _ _ _ _ _ _ _ _ _ ?s = _ => set (st2 := s) in *
      end.
      assert (Hup2 : mode_from_children (branch_bits mode)
                (fun d => d = length (nodes st1) /\ Node.is_dir new = true)
                nodes2).
      { apply (mode_from_children_attached _ (nodes st1) nodes2 new parent);
          [exact Hatt| | |exact Hup1].
        - unfold contrib, Node.is_dir. cbn [Node.mode Node.new new].
          rewrite is_dir_branch_mode. apply land_branch_mode_perm.
        - intros _ i. cbn [Node.mode Node.new new].
          rewrite branch_mode_of_eq, Z.lor_spec.
          intros [H1|H1]%orb_true_iff; auto. }
      destruct (IH (String.length q') Hlt q' eq_refl
                  (A +:+ "/" +:+ rel) (length (nodes st1)) st2 ret st'
                  (fun d => d = length (nodes st1) /\
                            Node.is_dir new = true))
        as (Hord' & Hup').
      * split; [exact Hinv2|].
        split; [rewrite dir_at_named; apply lookup_insert_eq|].
        exists new'. split; [exact Hnew'|].
        split.
        { unfold Node.is_dir. rewrite Hm. apply is_dir_branch_mode. }
        intros pp ppn Hnpar Hppn.
        assert (pp = parent) as -> by congruence.
        destruct (le_nodes st1 st2 Hle2 parent _ Hp1)
          as (x' & Hx' & Hxt & Hxm & _).
        assert (ppn = x') as ->.
        { rewrite Hppn in Hx'. injection Hx' as Hx'. exact Hx'. }
        split; [lia|]. eapply bits_sub_trans; eauto.
      * exact (parent_before_attached _ _ new parent Hlt1 Hatt Hord1).
      * exact Hup2.
      * intros d pn' [-> _] _. left. reflexivity.
      * exact Hloop.
      * split; [exact Hord'|]. intros Hnone Hsome. apply Hup'; [|exact Hsome].
        unfold st2. cbn [g_nodes_by_name].
        rewrite lookup_insert_ne by (intros He; symmetry in He;
          exact (string_app_slash_longer _ _ He)).
        exact Hnone.
  - (* the end of the pathname: the leaf *)
    apply scan_fragment_none in Es as (-> & Hns).
    rewrite (string_app_assoc A "/" rel).
    unfold insert_leaf_node_terminal.
    destruct (g_nodes_by_name st1 !! (A +:+ "/" +:+ rel)) as [n|] eqn:En.
    + cbn [mbind result_bind]. intros [= <- <-]. split; [exact Hord1|].
      intros Hnone. change (g_nodes_by_name st1)
        with (g_nodes_by_name st) in En. congruence.
    + set (new := Node.new rel symlink idx size mtime
                    (leaf_mode_of symlink mode)).
      destruct (add_child_attached st1 parent _ new Hinv1 Hp1 Hd1 eq_refl)
        as (nodes2 & Hadd & Hatt).
      rewrite Hadd. cbn [mbind result_bind].
      destruct Hatt as (Hlen2 & Hold & new' & Hnew' & Hm & Hpar).
      rewrite Hnew'. cbn [deref mbind result_bind].
      destruct (Z.of_nat (length (g_nodes_by_index st1)) >? idx);
        [discriminate|].
      cbn [mbind result_bind]. intros [= <- <-]. cbn [nodes].
      assert (Hatt : attached (nodes st1) new parent nodes2).
      { split; [exact Hlen2|]. split; [exact Hold|]. eauto. }
      split; [exact (parent_before_attached _ _ new parent Hlt1 Hatt Hord1)|].
      intros _ _.
      apply (mode_from_children_weaken _
               (fun d => d = length (nodes st1) /\ Node.is_dir new = true)).
      { intros d [_ Hnd]. unfold Node.is_dir in Hnd.
        cbn [Node.mode Node.new new] in Hnd.
        rewrite is_dir_leaf_mode in Hnd. discriminate. }
      apply (mode_from_children_attached _ (nodes st1) nodes2 new parent);
        [exact Hatt| | |exact Hup1].
      * unfold contrib, Node.is_dir. cbn [Node.mode Node.new new].
        rewrite is_dir_leaf_mode. apply branch_bits_leaf_mode.
      * unfold Node.is_dir. cbn [Node.mode Node.new new].
        rewrite is_dir_leaf_mode. discriminate.
Qed.

End Exact.

Lemma mode_from_children_none (bm bm' : Z) (h : list Node.t) :
  mode_from_children bm (fun _ => False) h ->
  mode_from_children bm' (fun _ => False) h.
Proof.
  intros Hup d D i HD HDd Hi Hbit.
  destruct (Hup d D i HD HDd Hi Hbit) as [H1|[[[] _]|H3]]; auto.
Qed.

Lemma insert_leaf_node_exact (pathname symlink : string)
    (idx size mtime mode : Z) (st st' : tree) (ret : Z) :
  tree_inv st -> parent_before (nodes st) ->
  mode_from_children 0 (fun _ => False) (nodes st) ->
  insert_leaf_node pathname symlink idx size mtime mode st = Ok (ret, st') ->
  g_nodes_by_name st !! pathname = None ->
  is_Some (g_nodes_by_name st' !! pathname) ->
  parent_before (nodes st') /\
  mode_from_children 0 (fun _ => False) (nodes st').
Proof.
  intros Hinv Hord Hup Hrun Hnone Hsome. revert Hrun.
  unfold insert_leaf_node.
  assert (Hsame : Ok (0, st) = Ok (ret, st') \/
                  Ok (- EIO, st) = Ok (ret, st') -> False).
  { intros [[= _ <-]|[= _ <-]]; destruct Hsome; congruence. }
  destruct (idx <? 0); [tauto|].
  destruct pathname as [|c q]; [tauto|].
  destruct (Ascii.eqb_spec c "/") as [->|Hc]; cbn [negb]; [|tauto].
  destruct (inv_root st Hinv) as (root & rnode & Hr & Hrn & Hrd & Hrp & _).
  rewrite Hr. cbn [deref mbind result_bind].
  intros Hloop.
  destruct (insert_leaf_node_loop_exact symlink idx size mtime mode q ""
              root st ret st' (fun _ => False)) as [Hord' Hup'].
  - split; [exact Hinv|]. split; [exact Hr|].
    exists rnode. split; [exact Hrn|]. split; [exact Hrd|].
    intros pp ppn Hpp. congruence.
  - exact Hord.
  - exact (mode_from_children_none _ _ _ Hup).
  - tauto.
  - exact Hloop.
  - split; [exact Hord'|].
    exact (mode_from_children_none _ _ _ (Hup' Hnone Hsome)).
Qed.

(** A tree built without collisions satisfies the invariants, and every
    bit of the mode of a directory comes from one of its children. *)
Lemma inserted_without_collision_inv (st : tree) :
  inserted_without_collision st ->
  tree_inv st /\ parent_before (nodes st) /\
  mode_from_children 0 (fun _ => False) (nodes st).
Proof.
  induction 1 as [|st pathname symlink idx size mtime mode ret st' _ IH
                     Hrun Hnone Hsome].
  - split; [apply insert_root_node_inv|]. split.
    + intros c C p Hc Hp. destruct c as [|c]; [|discriminate].
      injection Hc as <-. discriminate.
    + intros d D i HD HDd Hi Hbit. destruct d as [|d]; [|discriminate].
      injection HD as <-. left. exact Hbit.
  - destruct IH as (Hinv & Hord & Hup).
    split; [exact (proj1 (insert_leaf_node_inv _ _ _ _ _ _ _ _ _ Hinv Hrun))|].
    eapply insert_leaf_node_exact; eauto.
Qed.

Lemma is_descendant_mono (st : tree) (d : nat) :
  forall fuel fuel' c,
    (fuel <= fuel')%nat -> is_descendant fuel st d c = true ->
    is_descendant fuel' st d c = true.
Proof.
  induction fuel as [|fuel IH]; intros fuel' c Hle; cbn; [discriminate|].
  destruct fuel' as [|fuel']; [lia|]. cbn.
  destruct (nodes st !! c) as [C|]; [|discriminate].
  destruct (Node.parent C) as [p|]; [|discriminate].
  intros [H1|H1]%orb_true_iff; apply orb_true_iff; [left; exact H1|].
  right. apply (IH fuel' p); [lia|exact H1].
Qed.

Lemma is_descendant_up (st : tree) (d c : nat) (C : Node.t) :
  nodes st !! c = Some C -> Node.parent C = Some d ->
  forall fuel l,
    is_descendant fuel st c l = true ->
    is_descendant (S fuel) st d l = true.
Proof.
  intros Hc Hp. induction fuel as [|fuel IH]; intros l; [discriminate|].
  cbn [is_descendant].
  destruct (nodes st !! l) as [L|]; [|discriminate].
  destruct (Node.parent L) as [p|]; [|discriminate].
  intros [H1|H1]%orb_true_iff; apply orb_true_iff; right.
  - apply Nat.eqb_eq in H1 as ->.
    destruct fuel; cbn [is_descendant]; rewrite Hc, Hp, Nat.eqb_refl;
      reflexivity.
  - exact (IH p H1).
Qed.

(** Every bit of the mode of a directory is a directory-type bit or a
    branch bit of a leaf below it. *)
Lemma bits_from_leaves (st : tree) :
  parent_before (nodes st) ->
  mode_from_children 0 (fun _ => False) (nodes st) ->
  forall n d D i,
    (length (nodes st) - d <= n)%nat ->
    nodes st !! d = Some D -> Node.is_dir D = true ->
    0 <= i -> Z.testbit (Node.mode D) i = true ->
    Z.testbit S_IFDIR i = true \/
    exists l L,
      nodes st !! l = Some L /\ Node.is_dir L = false /\
      Z.testbit (branch_bits (Node.mode L)) i = true /\
      (d < l)%nat /\ is_descendant (l - d) st d l = true.
Proof.
  intros Hord Hup. induction n as [|n IH]; intros d D i Hn HD HDd Hi Hbit.
  { apply lookup_lt_Some in HD. lia. }
  destruct (Hup d D i HD HDd Hi Hbit) as [H1|[[[] _]|(c & C & Hc & Hp & Hci)]];
    [left; exact H1|].
  pose proof (Hord c C d Hc Hp) as Hdc.
  assert (Hdirect : is_descendant (c - d) st d c = true).
  { destruct (c - d)%nat as [|k] eqn:Hk; [lia|].
    cbn [is_descendant]. rewrite Hc, Hp, Nat.eqb_refl. reflexivity. }
  unfold contrib in Hci. destruct (Node.is_dir C) eqn:HCd.
  - rewrite Z.land_spec in Hci. apply andb_true_iff in Hci as [Hci _].
    assert (Hlen : (c < length (nodes st))%nat)
      by (eapply lookup_lt_Some; eauto).
    destruct (IH c C i ltac:(lia) Hc HCd Hi Hci)
      as [H1|(l & L & Hl & HLd & HLi & Hcl & Hdesc)]; [left; exact H1|].
    right. exists l, L. split; [exact Hl|]. split; [exact HLd|].
    split; [exact HLi|]. split; [lia|].
    apply (is_descendant_mono st d (S (l - c))); [lia|].
    exact (is_descendant_up st d c C Hc Hp _ l Hdesc).
  - right. exists c, C. auto.
Qed.

Lemma bits_sub_foldr_elem {A : Type} (f : A -> Z) (base : Z) (l : list A)
    (x : A) :
  x ∈ l -> bits_sub (f x) (foldr (fun y acc => Z.lor (f y) acc) base l).
Proof.
  induction l as [|y l IH]; intros Hx; [inversion Hx|].
  cbn. apply elem_of_cons in Hx as [->|Hx].
  - apply bits_sub_lor_l.
  - eapply bits_sub_trans; [exact (IH Hx)|apply bits_sub_lor_r].
Qed.

Lemma bits_sub_foldr_base {A : Type} (f : A -> Z) (base : Z) (l : list A) :
  bits_sub base (foldr (fun y acc => Z.lor (f y) acc) base l).
Proof.
  induction l as [|y l IH]; cbn; [apply bits_sub_refl|].
  eapply bits_sub_trans; [exact IH|apply bits_sub_lor_r].
Qed.

Lemma bits_sub_antisym (a b : Z) : bits_sub a b -> bits_sub b a -> a = b.
Proof.
  unfold bits_sub. intros Hab Hba. rewrite <- Hba at 1.
  rewrite Z.lor_comm. exact Hab.
Qed.

(** In a tree built without collisions the mode of a directory is the
    mode that the spec gives it. *)
Lemma inserted_without_collision_mode (st : tree) (d : nat) (D : Node.t) :
  inserted_without_collision st ->
  nodes st !! d = Some D -> Node.is_dir D = true ->
  Node.mode D = spec_directory_mode st d.
Proof.
  intros Hb HD HDd.
  destruct (inserted_without_collision_inv st Hb) as (Hinv & Hord & Hup).
  apply bits_sub_antisym; [|exact (proj2 (tree_inv_directory st d D Hinv HD HDd))].
  apply bits_sub_iff. intros i Hi Hbit.
  destruct (bits_from_leaves st Hord Hup _ d D i (Nat.le_refl _) HD HDd Hi Hbit)
    as [H1|(l & L & Hl & HLd & HLi & Hdl & Hdesc)].
  - exact (proj1 (bits_sub_iff _ _)
             (bits_sub_foldr_base _ _ _) i Hi H1).
  - assert (HL : L ∈ leaf_descendants st d).
    { unfold leaf_descendants. apply list_elem_of_omap. exists l.
      assert (Hlen : (l < length (nodes st))%nat)
        by (eapply lookup_lt_Some; eauto).
      split; [apply elem_of_seq; lia|].
      rewrite Hl, HLd. cbn [negb andb].
      rewrite (is_descendant_mono st d (l - d) (length (nodes st)) l
                 ltac:(lia) Hdesc).
      reflexivity. }
    exact (proj1 (bits_sub_iff _ _)
             (bits_sub_foldr_elem (fun L => branch_bits (Node.mode L))
                S_IFDIR _ L HL) i Hi HLi).
Qed.

(** Start-up on [two_files_archive] skips no entry: its tree is the
    root with "/a/x" and "/a/y" inserted, and the two directories have
    the bits of both files. *)
Example two_files_tree_without_collision :
  post_initialize_sync (H := scripted two_files_archive true) 3 false None
    two_files_initialize_globals zeroed_side_buffers empty_tree
  = Ok (0, @Build_initialize_globals (scripted two_files_archive true)
             None None (-1), zeroed_side_buffers, two_files_tree) /\
  inserted_without_collision two_files_tree /\
  Node.mode <$> nodes two_files_tree = [16749; 16749; 33024; 33133] /\
  spec_directory_mode two_files_tree 0 = 16749 /\
  spec_directory_mode two_files_tree 1 = 16749.
Proof.
  split; [vm_compute; reflexivity|].
  split; [|split; [|split]; vm_compute; reflexivity].
  apply (iwc_leaf one_file_tree "/a/y" "" 1 4 6 (Z.lor S_IFREG 365) 0).
  - apply (iwc_leaf (insert_root_node empty_tree) "/a/x" "" 0 3 5
             (Z.lor S_IFREG 256) 0).
    + apply iwc_root.
    + vm_compute. reflexivity.
    + reflexivity.
    + eexists. vm_compute. reflexivity.
  - vm_compute. reflexivity.
  - vm_compute. reflexivity.
  - eexists. vm_compute. reflexivity.
Qed.

(** The children of "/a" once a second file has been inserted below
    it. *)
Example children_after_insert :
  children 5 collision_tree 1 = [2%nat] /\
  match insert_leaf_node "/a/y" "" 1 4 6 (Z.lor S_IFREG 420) collision_tree
  with
  | Ok (_, st) => children 5 st 1
  | _ => []
  end = [2%nat; 3%nat].
Proof. split; vm_compute; reflexivity. Qed.

(** C7, as amended.  After start-up, every directory [D] of the tree is
    at least as recent as each of its children, which are the nodes
    whose parent it is, those of its list of children among them, and
    its mode has the
    directory-type bit and, for every leaf below it, the leaf's read and
    execute bits with each read bit mirrored into the execute position.
    The mode may have more bits than those: a leaf that is skipped at a
    name collision has widened the directories above it already.  When
    no leaf was skipped, the mode is the directory-type bit with those
    bits of the leaves below, and nothing else. *)
Theorem directory_mtime_and_mode `{Libarchive} (fuel : nat) (is_raw : bool)
    (innername : option string) (g g' : initialize_globals)
    (s s' : side_buffers) (error : Z) (st : tree) (d : nat) (D : Node.t) :
  post_initialize_sync fuel is_raw innername g s empty_tree
  = Ok (error, g', s', st) ->
  nodes st !! d = Some D -> Node.is_dir D = true ->
  (forall c C,
     nodes st !! c = Some C -> Node.parent C = Some d ->
     Node.mtime C <= Node.mtime D) /\
  (forall n c, c ∈ children n st d ->
     exists C,
       nodes st !! c = Some C /\ Node.parent C = Some d /\
       Node.mtime C <= Node.mtime D) /\
  bits_sub S_IFDIR (Node.mode D) /\
  (forall L, L ∈ leaf_descendants st d ->
     bits_sub (branch_bits (Node.mode L)) (Node.mode D)) /\
  bits_sub (spec_directory_mode st d) (Node.mode D) /\
  (inserted_without_collision st ->
   Node.mode D = spec_directory_mode st d).
Proof.
  intros Hrun HD HDd.
  pose proof (post_initialize_sync_inv _ _ _ _ _ _ _ _ _ Hrun) as Hinv.
  pose proof (post_initialize_sync_links _ _ _ _ _ _ _ _ _ Hrun) as Hlinks.
  destruct (tree_inv_directory st d D Hinv HD HDd) as [Ht Hm].
  split; [exact Ht|].
  split.
  { intros n c Hc.
    destruct (children_parent st n d c Hlinks Hc) as (C & HC & HCp).
    exists C. split; [exact HC|]. split; [exact HCp|].
    exact (Ht c C HC HCp). }
  split; [apply bits_sub_is_dir; exact HDd|].
  split; [|split; [exact Hm|]].
  2:{ intros Hb. exact (inserted_without_collision_mode st d D Hb HD HDd). }
  intros L HL.
  apply elem_of_leaf_descendants in HL as (l & Hl & HLd & Hdesc).
  destruct (descendant_bounds st d Hinv _ l L Hl Hdesc)
    as (D0 & HD0 & _ & _ & Hb).
  assert (D0 = D) as -> by congruence.
  unfold contrib in Hb. rewrite HLd in Hb. exact Hb.
Qed.

Lemma directory_mtime_and_mode_witness :
  exists D,
    nodes collision_tree !! 1%nat = Some D /\
    (forall c C,
       nodes collision_tree !! c = Some C -> Node.parent C = Some 1%nat ->
       Node.mtime C <= Node.mtime D) /\
    (forall n c, c ∈ children n collision_tree 1 ->
       exists C,
         nodes collision_tree !! c = Some C /\
         Node.parent C = Some 1%nat /\ Node.mtime C <= Node.mtime D) /\
    bits_sub S_IFDIR (Node.mode D) /\
    (forall L, L ∈ leaf_descendants collision_tree 1 ->
       bits_sub (branch_bits (Node.mode L)) (Node.mode D)) /\
    bits_sub (spec_directory_mode collision_tree 1) (Node.mode D) /\
    (inserted_without_collision collision_tree ->
     Node.mode D = spec_directory_mode collision_tree 1).
Proof.
  exists (Node.set_first_child (Some 2%nat)
            (Node.set_last_child (Some 2%nat)
               (Node.set_parent (Some 0%nat)
                  (Node.set_size 512
                     (Node.new "a" "" (-1) 0 7 16749))))).
  split; [reflexivity|].
  apply (directory_mtime_and_mode (H := scripted collision_archive true)
           3 false None collision_initialize_globals
           (@Build_initialize_globals (scripted collision_archive true)
              None None (-1))
           zeroed_side_buffers zeroed_side_buffers 0 collision_tree 1%nat).
  - vm_compute. reflexivity.
  - reflexivity.
  - reflexivity.
Defined.

(** C7, as stated, fails: after start-up on [collision_archive] the
    directory "/a" has the one leaf "/a/x", with mode 0400, and its own
    mode is 0555 with the directory-type bit, because the second entry
    named "a/x" widened it before the collision was found. *)
Lemma directory_mode_collision_counterexample :
  post_initialize_sync (H := scripted collision_archive true) 3 false None
    collision_initialize_globals zeroed_side_buffers empty_tree
  = Ok (0, @Build_initialize_globals (scripted collision_archive true)
             None None (-1), zeroed_side_buffers, collision_tree) /\
  ~ (forall d D,
       nodes collision_tree !! d = Some D -> Node.is_dir D = true ->
       (forall c C,
          nodes collision_tree !! c = Some C -> Node.parent C = Some d ->
          Node.mtime C <= Node.mtime D) /\
       Node.mode D = spec_directory_mode collision_tree d).
Proof.
  split; [vm_compute; reflexivity|].
  intros Hclaim.
  destruct (Hclaim 1%nat _ eq_refl eq_refl) as [_ Hmode].
  vm_compute in Hmode. discriminate.
Qed.


(** ** Name collisions in [insert_leaf_node] *)

Lemma touch_idem (m bm : Z) (x : Node.t) :
  touch m bm (touch m bm x) = touch m bm x.
Proof.
  unfold touch at 1. rewrite touch_mtime, touch_mode.
  assert ((Z.max (Node.mtime x) m <? m) = false) as -> by lia.
  rewrite <- Z.lor_assoc, Z.lor_diag.
  unfold touch, Node.set_mode, Node.set_mtime.
  destruct (Node.mtime x <? m); reflexivity.
Qed.

Lemma scan_fragment_app_none (k rel rest : string) :
  scan_fragment k = (rel, None) ->
  scan_fragment (k +:+ "/" +:+ rest) = (rel, Some rest).
Proof.
  revert rel. induction k as [|c k IH]; intros rel; cbn.
  - intros [= <-]. reflexivity.
  - rewrite string_app_cons. cbn.
    destruct (Ascii.eqb c "/"); [discriminate|].
    destruct (scan_fragment k) as [f [r|]]; [discriminate|].
    intros [= <-]. rewrite (IH f eq_refl). reflexivity.
Qed.

Lemma scan_fragment_app_some (k rel k' rest : string) :
  scan_fragment k = (rel, Some k') ->
  scan_fragment (k +:+ "/" +:+ rest) = (rel, Some (k' +:+ "/" +:+ rest)).
Proof.
  revert rel. induction k as [|c k IH]; intros rel; cbn.
  - discriminate.
  - rewrite string_app_cons. cbn.
    destruct (Ascii.eqb c "/").
    + intros [= <- <-]. reflexivity.
    + destruct (scan_fragment k) as [f [r|]]; [|discriminate].
      intros [= <- <-]. rewrite (IH f eq_refl). reflexivity.
Qed.

Lemma dir_paths_scan (q : string) :
  forall A cur,
    dir_paths A cur q =
    match scan_fragment q with
    | (rel, None) => [A]
    | (rel, Some q') =>
        A :: dir_paths (cur +:+ rel) ((cur +:+ rel) +:+ "/") q'
    end.
Proof.
  induction q as [|c q IH]; intros A cur; cbn; [reflexivity|].
  destruct (Ascii.eqb c "/").
  - rewrite string_app_nil_r. reflexivity.
  - rewrite IH. destruct (scan_fragment q) as [f [r|]]; [|reflexivity].
    rewrite string_app_assoc. reflexivity.
Qed.

(** A text has no slash, or it splits at its last slash. *)
Lemma split_last_slash (k : string) :
  no_slash k = true \/
  exists init last,
    k = init +:+ "/" +:+ last /\ no_slash last = true /\
    (String.length init < String.length k)%nat.
Proof.
  induction k as [|c k IH]; [left; reflexivity|].
  destruct IH as [Hns|(init & last & -> & Hns & Hlen)].
  - destruct (Ascii.eqb c "/") eqn:Hc.
    + right. exists "", k. apply Ascii.eqb_eq in Hc as ->.
      split; [reflexivity|]. split; [exact Hns|]. cbn. lia.
    + left. cbn. rewrite Hc, Hns. reflexivity.
  - right. exists (String c init), last.
    split; [reflexivity|]. split; [exact Hns|]. cbn in *. lia.
Qed.

(** The pathnames above a bound name are bound to directories. *)
Lemma bound_prefix_dir (st : tree) :
  tree_inv st ->
  forall k B m,
    B <> "" ->
    g_nodes_by_name st !! (B +:+ "/" +:+ k) = Some m ->
    exists p P,
      g_nodes_by_name st !! B = Some p /\ nodes st !! p = Some P /\
      Node.is_dir P = true.
Proof.
  intros Hinv k. remember (String.length k) as len eqn:Hlen.
  revert k Hlen. induction len as [len IH] using lt_wf_ind.
  intros k -> B m HB Hm.
  destruct (split_last_slash k) as [Hns|(init & last & -> & Hns & Hlt)].
  - destruct (inv_name_parent st Hinv B k m Hm Hns)
      as (cn & p & Hcn & Hcp & Hda); [tauto|].
    destruct (inv_parent st Hinv m cn p Hcn Hcp) as (pn & Hpn & Hpd & _).
    exists p, pn. split; [|auto].
    unfold dir_at in Hda.
    destruct (String.eqb_spec B ""); [contradiction|exact Hda].
  - assert (Hkey : B +:+ "/" +:+ init +:+ "/" +:+ last =
                   (B +:+ "/" +:+ init) +:+ "/" +:+ last)
      by (rewrite !string_app_assoc; reflexivity).
    rewrite Hkey in Hm.
    destruct (inv_name_parent st Hinv _ last m Hm Hns)
      as (cn & p & Hcn & Hcp & Hda).
    { intros [He _]. exact (string_app_slash_not_empty _ _ He). }
    rewrite dir_at_named in Hda.
    exact (IH _ Hlt init eq_refl B p HB Hda).
Qed.


Section Collision.
Variables (symlink : string) (idx size mtime mode : Z).

(** The loop of [insert_leaf_node] on its way to a name that is bound
    already: to the name of the leaf itself, or to the name of a file
    where the walk needs a directory. *)
Lemma insert_leaf_node_loop_collision :
  forall k A parent st q m,
    walk_pre mtime mode st A parent ->
    g_nodes_by_name st !! (A +:+ "/" +:+ k) = Some m ->
    (q = k \/
     exists rest M,
       q = k +:+ "/" +:+ rest /\ nodes st !! m = Some M /\
       Node.is_dir M = false) ->
    exists nodes',
      insert_leaf_node_loop symlink idx size mtime (branch_mode_of mode)
        (leaf_mode_of symlink mode) (A +:+ "/") q parent st
      = Ok (0, set_nodes nodes' st) /\
      length nodes' = length (nodes st) /\
      (forall j X, nodes st !! j = Some X ->
         nodes' !! j = Some X \/
         nodes' !! j = Some (touch mtime (branch_mode_of mode) X)) /\
      (forall A', A' ∈ dir_paths A (A +:+ "/") k ->
         exists d D,
           dir_at st A' = Some d /\ nodes st !! d = Some D /\
           Node.is_dir D = true /\
           nodes' !! d = Some (touch mtime (branch_mode_of mode) D)).
Proof.
  intros k. remember (String.length k) as len eqn:Hlen.
  revert k Hlen. induction len as [len IH] using lt_wf_ind.
  intros k -> A parent st q m (Hinv & Hda & pn & Hp & Hd & Hpp) Hm Hq.
  rewrite insert_leaf_node_loop_unfold.
  rewrite (update_ok (nodes st) parent _ pn Hp). cbn [mbind result_bind].
  destruct (touch_parent_inv mtime mode st parent pn Hinv Hp Hd Hpp)
    as (Hinv1 & Hle1 & Hp1).
  set (nodes1 := <[parent := touch mtime (branch_mode_of mode) pn]>
                   (nodes st)) in *.
  set (st1 := set_nodes nodes1 st) in *.
  assert (Hlt : (parent < length (nodes st))%nat)
    by (eapply lookup_lt_Some; eauto).
  assert (Hlook : forall j, j <> parent -> nodes1 !! j = nodes st !! j).
  { intros j Hj. unfold nodes1. apply list_lookup_insert_ne. congruence. }
  assert (Hlen1 : length nodes1 = length (nodes st))
    by apply length_insert.
  assert (Hstep : forall j X, nodes st !! j = Some X ->
            nodes1 !! j = Some X \/
            nodes1 !! j = Some (touch mtime (branch_mode_of mode) X)).
  { intros j X HX. destruct (decide (j = parent)) as [->|Hj].
    - right. assert (X = pn) as -> by congruence. exact Hp1.
    - left. rewrite Hlook by exact Hj. exact HX. }
  assert (Hd1 : Node.is_dir (touch mtime (branch_mode_of mode) pn) = true)
    by (apply touch_is_dir; exact Hd).
  assert (Hmt1 : mtime <= Node.mtime (touch mtime (branch_mode_of mode) pn))
    by (rewrite touch_mtime; lia).
  assert (Hbb1 : bits_sub (branch_bits mode)
                   (Node.mode (touch mtime (branch_mode_of mode) pn))).
  { rewrite touch_mode, branch_mode_of_eq.
    eapply bits_sub_trans; [apply bits_sub_lor_l|apply bits_sub_lor_r]. }
  assert (Hfile : forall M, nodes st !! m = Some M ->
            Node.is_dir M = false -> nodes1 !! m = Some M).
  { intros M HM HMd. rewrite Hlook; [exact HM|].
    intros ->. congruence. }
  rewrite (dir_paths_scan k).
  destruct (scan_fragment k) as [rel [k'|]] eqn:Ek.
  - (* the bound name is further down *)
    pose proof Ek as Ek0.
    apply scan_fragment_some in Ek as (-> & Hns & Hlt').
    assert (Hkey : A +:+ "/" +:+ rel +:+ "/" +:+ k' =
                   (A +:+ "/" +:+ rel) +:+ "/" +:+ k')
      by (rewrite !string_app_assoc; reflexivity).
    rewrite Hkey in Hm.
    destruct (bound_prefix_dir st Hinv k' _ m
                (string_app_slash_not_empty _ _) Hm)
      as (p & P & Hnp & HP & HPd).
    assert (HP1 : exists P1, nodes1 !! p = Some P1 /\ Node.is_dir P1 = true).
    { destruct (Hstep p P HP) as [HP1|HP1]; eexists; split; eauto.
      apply touch_is_dir. exact HPd. }
    destruct HP1 as (P1 & HP1 & HP1d).
    assert (Hscan : exists q',
              scan_fragment q = (rel, Some q') /\
              (q' = k' \/
               exists rest M,
                 q' = k' +:+ "/" +:+ rest /\ nodes st1 !! m = Some M /\
                 Node.is_dir M = false)).
    { destruct Hq as [->|(rest & M & -> & HM & HMd)].
      - exists k'. split; [exact Ek0|]. left. reflexivity.
      - exists (k' +:+ "/" +:+ rest).
        split; [apply scan_fragment_app_some; exact Ek0|].
        right. exists rest, M. split; [reflexivity|].
        split; [apply Hfile; assumption|exact HMd]. }
    destruct Hscan as (q' & -> & Hq').
    assert (Hpre : (A +:+ "/") +:+ rel +:+ "/" = (A +:+ "/" +:+ rel) +:+ "/")
      by (rewrite !string_app_assoc; reflexivity).
    rewrite Hpre, !(string_app_assoc A "/" rel). clear Hpre.
    unfold insert_leaf_node_branch.
    change (g_nodes_by_name st1) with (g_nodes_by_name st).
    rewrite Hnp. change (nodes st1) with nodes1.
    rewrite HP1. cbn [deref mbind result_bind]. rewrite HP1d.
    cbn [negb mbind result_bind].
    destruct (IH (String.length k') Hlt' k' eq_refl (A +:+ "/" +:+ rel) p
                st1 q' m) as (nodes' & Hrun & Hlen' & Hkeep & Hvis).
    { eapply walk_pre_found; eauto. }
    { exact Hm. }
    { exact Hq'. }
    exists nodes'. split; [exact Hrun|].
    split; [rewrite Hlen'; exact Hlen1|].
    assert (Hkeep0 : forall j X, nodes st !! j = Some X ->
              nodes' !! j = Some X \/
              nodes' !! j = Some (touch mtime (branch_mode_of mode) X)).
    { intros j X HX. destruct (Hstep j X HX) as [H1|H1];
        destruct (Hkeep j _ H1) as [H2|H2]; auto.
      rewrite touch_idem in H2. auto. }
    split; [exact Hkeep0|].
    intros A' HA'. apply elem_of_cons in HA' as [->|HA'].
    + exists parent, pn. split; [exact Hda|]. split; [exact Hp|].
      split; [exact Hd|].
      destruct (Hkeep parent _ Hp1) as [H2|H2]; [exact H2|].
      rewrite touch_idem in H2. exact H2.
    + destruct (Hvis A' HA') as (d & D1 & Hdd & HD1 & HD1d & HD').
      destruct (decide (d = parent)) as [->|Hne].
      * exists parent, pn. split; [exact Hdd|]. split; [exact Hp|].
        split; [exact Hd|].
        assert (D1 = touch mtime (branch_mode_of mode) pn) as ->
          by congruence.
        rewrite touch_idem in HD'. exact HD'.
      * exists d, D1. split; [exact Hdd|].
        change (nodes st1) with nodes1 in HD1.
        rewrite Hlook in HD1 by exact Hne. auto.
  - (* the bound name is here *)
    pose proof Ek as Ek0.
    apply scan_fragment_none in Ek as (-> & Hns).
    assert (Hhere : forall A', A' ∈ [A] ->
              exists d D,
                dir_at st A' = Some d /\ nodes st !! d = Some D /\
                Node.is_dir D = true /\
                nodes1 !! d = Some (touch mtime (branch_mode_of mode) D)).
    { intros A' HA'. apply list_elem_of_singleton in HA' as ->.
      exists parent, pn. auto. }
    exists nodes1.
    split; [|split; [exact Hlen1|split; [exact Hstep|exact Hhere]]].
    destruct Hq as [->|(rest & M & -> & HM & HMd)].
    + rewrite Ek0, !(string_app_assoc A "/" rel).
      unfold insert_leaf_node_terminal.
      change (g_nodes_by_name st1) with (g_nodes_by_name st).
      rewrite Hm. reflexivity.
    + rewrite (scan_fragment_app_none _ _ rest Ek0).
      rewrite !(string_app_assoc A "/" rel).
      unfold insert_leaf_node_branch.
      change (g_nodes_by_name st1) with (g_nodes_by_name st).
      rewrite Hm. change (nodes st1) with nodes1.
      rewrite (Hfile M HM HMd). cbn [deref mbind result_bind].
      rewrite HMd. reflexivity.
Qed.

End Collision.


Lemma collision_tree_inv : tree_inv collision_tree.
Proof.
  apply (post_initialize_sync_inv (H := scripted collision_archive true)
           3 false None collision_initialize_globals zeroed_side_buffers 0
           (@Build_initialize_globals (scripted collision_archive true)
              None None (-1))
           zeroed_side_buffers).
  vm_compute. reflexivity.
Qed.

(** C10.  Take a tree that satisfies its invariants and a leaf whose
    pathname is bound already, or one of whose proper prefixes is bound
    to a node that is not a directory; call the bound name "/k".  Then
    [insert_leaf_node] returns 0 and skips the leaf: the names, the
    index table, the block count and the number of nodes are as before.
    Yet every directory above "/k", from the root on, has been updated:
    its mode has the leaf's branch mode or-ed in and its mtime is the
    maximum of its old mtime and the leaf's.  These directories are
    bound to directories afterwards, every other node is as it was, and
    names and nodes of the old tree remain. *)
Theorem insert_leaf_node_collision_not_atomic (st : tree)
    (k pathname symlink : string) (idx size mtime mode : Z) (m : nat) :
  tree_inv st -> 0 <= idx ->
  g_nodes_by_name st !! ("/" +:+ k) = Some m ->
  (pathname = "/" +:+ k \/
   exists rest M,
     pathname = "/" +:+ k +:+ "/" +:+ rest /\ nodes st !! m = Some M /\
     Node.is_dir M = false) ->
  exists st',
    insert_leaf_node pathname symlink idx size mtime mode st = Ok (0, st') /\
    g_nodes_by_name st' = g_nodes_by_name st /\
    g_nodes_by_index st' = g_nodes_by_index st /\
    g_block_count st' = g_block_count st /\
    length (nodes st') = length (nodes st) /\
    (forall A, A ∈ ancestor_paths ("/" +:+ k) ->
       exists d D D',
         dir_at st A = Some d /\ dir_at st' A = Some d /\
         nodes st !! d = Some D /\ nodes st' !! d = Some D' /\
         Node.is_dir D' = true /\
         Node.mode D' = Z.lor (Node.mode D) (branch_mode_of mode) /\
         Node.mtime D' = Z.max (Node.mtime D) mtime) /\
    (forall j X, nodes st !! j = Some X ->
       nodes st' !! j = Some X \/
       nodes st' !! j = Some (touch mtime (branch_mode_of mode) X)) /\
    tree_inv st' /\ tree_le st st'.
Proof.
  intros Hinv Hidx Hm Hq.
  destruct (inv_root st Hinv) as (root & rnode & Hr & Hrn & Hrd & Hrp & _).
  assert (Hpre : walk_pre mtime mode st "" root).
  { split; [exact Hinv|]. split; [exact Hr|].
    exists rnode. split; [exact Hrn|]. split; [exact Hrd|].
    intros pp ppn Hpp. congruence. }
  assert (Hq' : exists q,
            pathname = String "/" q /\
            (q = k \/
             exists rest M,
               q = k +:+ "/" +:+ rest /\ nodes st !! m = Some M /\
               Node.is_dir M = false)).
  { destruct Hq as [->|(rest & M & -> & HM)].
    - exists k. split; [reflexivity|]. left. reflexivity.
    - exists (k +:+ "/" +:+ rest). split; [reflexivity|].
      right. exists rest, M. split; [reflexivity|exact HM]. }
  destruct Hq' as (q & -> & Hq').
  destruct (insert_leaf_node_loop_collision symlink idx size mtime mode
              k "" root st q m Hpre Hm Hq')
    as (nodes' & Hrun & Hlen & Hkeep & Hvis).
  assert (Hcall : insert_leaf_node (String "/" q) symlink idx size mtime mode
                    st = Ok (0, set_nodes nodes' st)).
  { unfold insert_leaf_node.
    assert ((idx <? 0) = false) as -> by lia.
    cbn [Ascii.eqb Bool.eqb negb]. rewrite Hr. cbn [deref mbind result_bind].
    exact Hrun. }
  exists (set_nodes nodes' st).
  split; [exact Hcall|].
  split; [reflexivity|]. split; [reflexivity|]. split; [reflexivity|].
  split; [exact Hlen|].
  split.
  { intros A HA. destruct (Hvis A HA) as (d & D & Hd & HD & HDd & HD').
    exists d, D, (touch mtime (branch_mode_of mode) D).
    split; [exact Hd|]. split; [exact Hd|]. split; [exact HD|].
    split; [exact HD'|].
    split; [apply touch_is_dir; exact HDd|].
    split; [apply touch_mode|apply touch_mtime]. }
  split; [exact Hkeep|].
  exact (insert_leaf_node_inv _ _ _ _ _ _ _ _ _ Hinv Hcall).
Qed.

Lemma insert_leaf_node_collision_not_atomic_witness :
  exists st',
    insert_leaf_node "/a/x" "" 1 3 7 (Z.lor S_IFREG 365) collision_tree
    = Ok (0, st') /\
    g_nodes_by_name st' = g_nodes_by_name collision_tree /\
    g_nodes_by_index st' = g_nodes_by_index collision_tree /\
    g_block_count st' = g_block_count collision_tree /\
    length (nodes st') = length (nodes collision_tree) /\
    (forall A, A ∈ ancestor_paths "/a/x" ->
       exists d D D',
         dir_at collision_tree A = Some d /\ dir_at st' A = Some d /\
         nodes collision_tree !! d = Some D /\ nodes st' !! d = Some D' /\
         Node.is_dir D' = true /\
         Node.mode D' =
           Z.lor (Node.mode D) (branch_mode_of (Z.lor S_IFREG 365)) /\
         Node.mtime D' = Z.max (Node.mtime D) 7) /\
    (forall j X, nodes collision_tree !! j = Some X ->
       nodes st' !! j = Some X \/
       nodes st' !! j =
         Some (touch 7 (branch_mode_of (Z.lor S_IFREG 365)) X)) /\
    tree_inv st' /\ tree_le collision_tree st'.
Proof.
  apply (insert_leaf_node_collision_not_atomic collision_tree "a/x" "/a/x"
           "" 1 3 7 (Z.lor S_IFREG 365) 2%nat).
  - exact collision_tree_inv.
  - lia.
  - vm_compute. reflexivity.
  - left. reflexivity.
Defined.


(** A leaf below a file: "/a/x" is a file of [collision_tree], so the
    leaf "/a/x/y" is skipped, after the root and "/a" have taken its
    mtime 9. *)
Example insert_leaf_node_below_a_file :
  exists st',
    insert_leaf_node "/a/x/y" "" 1 3 9 (Z.lor S_IFREG 292) collision_tree
    = Ok (0, st') /\
    g_nodes_by_name st' = g_nodes_by_name collision_tree /\
    Node.mtime <$> nodes st' = [9; 9; 5] /\
    Node.mtime <$> nodes collision_tree = [7; 7; 5].
Proof.
  eexists. split; [vm_compute; reflexivity|].
  split; [reflexivity|]. split; reflexivity.
Qed.

(* ================================================================== *)
(** * Further properties of the code *)


(** ** Least recently used slots *)

(** [oldest_index] finds the first index of least priority. *)
Lemma oldest_index_min (lru : nat -> Z) (n : nat) :
  (0 < n)%nat ->
  (forall j, (j < n)%nat -> lru (oldest_index lru n) <= lru j) /\
  (forall j, (j < oldest_index lru n)%nat -> lru (oldest_index lru n) < lru j).
Proof.
  intros Hn. unfold oldest_index.
  set (f := fun '(oldest_i, oldest_lru_priority) i => _).
  assert (Hgen : forall l k acc,
            acc.2 = lru acc.1 -> (acc.1 < k)%nat ->
            (forall j, (j < k)%nat -> acc.2 <= lru j) ->
            (forall j, (j < acc.1)%nat -> acc.2 < lru j) ->
            let r := foldl f acc (seq k l) in
            r.2 = lru r.1 /\
            (forall j, (j < k + l)%nat -> r.2 <= lru j) /\
            (forall j, (j < r.1)%nat -> r.2 < lru j)).
  { induction l as [|l IH]; intros k [oi ol] Hv Hk Hmin Hfirst;
      cbn [seq foldl fst snd] in *.
    - split; [exact Hv|]. split; [|exact Hfirst].
      intros j Hj. apply Hmin. lia.
    - destruct (IH (S k) (f (oi, ol) k)) as (H1 & H2 & H3).
      + unfold f. destruct (ol >? lru k); cbn; [reflexivity|exact Hv].
      + unfold f. destruct (ol >? lru k); cbn; lia.
      + intros j Hj. unfold f.
        destruct (Z.gtb_spec ol (lru k)); cbn [snd].
        * destruct (decide (j = k)) as [->|Hne]; [lia|].
          specialize (Hmin j ltac:(lia)). lia.
        * destruct (decide (j = k)) as [->|Hne]; [lia|].
          apply Hmin. lia.
      + intros j. unfold f.
        destruct (Z.gtb_spec ol (lru k)); cbn [fst snd]; intros Hj.
        * specialize (Hmin j ltac:(lia)). lia.
        * apply Hfirst. exact Hj.
      + split; [exact H1|]. split; [|exact H3].
        intros j Hj. apply H2. lia. }
  destruct n as [|n]; [lia|]. cbn [Nat.sub]. rewrite Nat.sub_0_r.
  destruct (Hgen n 1%nat (0%nat, lru 0%nat)) as (H1 & H2 & H3); cbn [fst snd].
  - reflexivity.
  - lia.
  - intros j Hj. assert (j = 0%nat) as -> by lia. lia.
  - intros j Hj. lia.
  - rewrite <- H1. split; [|exact H3].
    intros j Hj. apply H2. lia.
Qed.


Lemma meta_at_set_meta_ne (s : side_buffers) (i j : nat) m :
  i <> j -> meta_at (set_meta s i m) j = meta_at s j.
Proof.
  intros Hne. unfold meta_at, set_meta; cbn [g_side_buffer_metadata].
  rewrite list_lookup_insert_ne by exact Hne. reflexivity.
Qed.

(** X1. [acquire_side_buffer] hands out the least recently used side
    buffer, the first one among those of least priority: it marks that
    buffer empty, so that no request is served from it, and it leaves
    the other buffers, the data and the counter alone. *)
Theorem acquire_side_buffer_least_recently_used (s : side_buffers) :
  length (g_side_buffer_metadata s) = NUM_SIDE_BUFFERS ->
  let sb := (acquire_side_buffer s).1 in
  let s' := (acquire_side_buffer s).2 in
  (sb < NUM_SIDE_BUFFERS)%nat /\
  (forall j, (j < NUM_SIDE_BUFFERS)%nat ->
     side_buffer_metadata.lru_priority (meta_at s sb) <=
     side_buffer_metadata.lru_priority (meta_at s j)) /\
  (forall j, (j < sb)%nat ->
     side_buffer_metadata.lru_priority (meta_at s sb) <
     side_buffer_metadata.lru_priority (meta_at s j)) /\
  (forall idx off len,
     side_buffer_metadata.contains (meta_at s' sb) idx off len = false) /\
  side_buffer_metadata.lru_priority (meta_at s' sb) = UINT64_MAX /\
  (forall j, j <> sb -> meta_at s' j = meta_at s j) /\
  g_side_buffer_data s' = g_side_buffer_data s /\
  next_lru_priority s' = next_lru_priority s.
Proof.
  intros Hlen sb s'. subst sb s'. unfold acquire_side_buffer. cbn [fst snd].
  set (lru := fun i => side_buffer_metadata.lru_priority (meta_at s i)).
  set (sb := oldest_index lru NUM_SIDE_BUFFERS).
  assert (Hn : (0 < NUM_SIDE_BUFFERS)%nat) by (unfold NUM_SIDE_BUFFERS; lia).
  pose proof (oldest_index_lt lru NUM_SIDE_BUFFERS Hn) as Hsb.
  destruct (oldest_index_min lru NUM_SIDE_BUFFERS Hn) as [Hmin Hfirst].
  fold sb in Hsb, Hmin, Hfirst.
  split; [exact Hsb|]. split; [exact Hmin|]. split; [exact Hfirst|].
  rewrite meta_at_set_meta by (rewrite Hlen; exact Hsb).
  split; [reflexivity|]. split; [reflexivity|].
  split; [|split; reflexivity].
  intros j Hj. apply meta_at_set_meta_ne. congruence.
Qed.

Lemma acquire_side_buffer_least_recently_used_witness :
  ((acquire_side_buffer example_side_buffers).1 < NUM_SIDE_BUFFERS)%nat.
Proof.
  exact (proj1 (acquire_side_buffer_least_recently_used example_side_buffers
                  eq_refl)).
Defined.

Section ReleaseReader.
Context `{Libarchive}.

(** X2. With [NUM_SAVED_READERS] slots, [release_reader] puts the
    Reader into the slot of least priority, the first one among those,
    whatever that slot held, and gives it the incremented counter as
    its priority; the other slots are as before.  While the counter has
    not wrapped around, the new priority is greater than every other
    one, so the Reader released last is evicted last. *)
Theorem release_reader_least_recently_used (r : option Reader.t)
    (c : reader_cache) :
  length (g_saved_readers c) = NUM_SAVED_READERS ->
  exists i,
    (i < NUM_SAVED_READERS)%nat /\
    (forall j, (j < NUM_SAVED_READERS)%nat ->
       (saved_at c i).2 <= (saved_at c j).2) /\
    (forall j, (j < i)%nat -> (saved_at c i).2 < (saved_at c j).2) /\
    saved_at (release_reader r c) i =
      (r, to_uint64 (release_next_lru_priority c + 1)) /\
    (forall j, j <> i -> saved_at (release_reader r c) j = saved_at c j) /\
    release_next_lru_priority (release_reader r c) =
      to_uint64 (release_next_lru_priority c + 1) /\
    length (g_saved_readers (release_reader r c)) = NUM_SAVED_READERS /\
    ((forall j, (j < NUM_SAVED_READERS)%nat ->
        (saved_at c j).2 <= release_next_lru_priority c) ->
     0 <= release_next_lru_priority c < UINT64_MAX ->
     forall j, (j < NUM_SAVED_READERS)%nat -> j <> i ->
       (saved_at (release_reader r c) j).2 <
       (saved_at (release_reader r c) i).2).
Proof.
  intros Hlen. unfold release_reader. cbn [Nat.leb NUM_SAVED_READERS].
  set (lru := fun i => (saved_at c i).2).
  set (i := oldest_index lru 8).
  assert (Hn : (0 < 8)%nat) by lia.
  pose proof (oldest_index_lt lru 8 Hn) as Hi.
  destruct (oldest_index_min lru 8 Hn) as [Hmin Hfirst].
  fold i in Hi, Hmin, Hfirst.
  assert (Hat : forall x, saved_at
            {| g_saved_readers := <[i := x]> (g_saved_readers c);
               release_next_lru_priority :=
                 to_uint64 (release_next_lru_priority c + 1) |} i = x).
  { intros x. unfold saved_at; cbn [g_saved_readers].
    rewrite list_lookup_insert_eq by (rewrite Hlen; exact Hi). reflexivity. }
  assert (Hne : forall x j, j <> i -> saved_at
            {| g_saved_readers := <[i := x]> (g_saved_readers c);
               release_next_lru_priority :=
                 to_uint64 (release_next_lru_priority c + 1) |} j
            = saved_at c j).
  { intros x j Hj. unfold saved_at; cbn [g_saved_readers].
    rewrite list_lookup_insert_ne by congruence. reflexivity. }
  exists i. split; [exact Hi|]. split; [exact Hmin|]. split; [exact Hfirst|].
  split; [apply Hat|]. split; [intros j Hj; apply Hne; exact Hj|].
  split; [reflexivity|].
  split; [cbn [g_saved_readers]; rewrite length_insert; exact Hlen|].
  intros Hle Hc j Hj Hji. rewrite Hat, (Hne _ j Hji). cbn [snd].
  rewrite to_uint64_small by (unfold UINT64_MAX in Hc; lia).
  specialize (Hle j Hj). lia.
Qed.

End ReleaseReader.

Lemma release_reader_least_recently_used_witness :
  exists i,
    (i < NUM_SAVED_READERS)%nat /\
    saved_at (release_reader (H := example_library)
                (Some (example_reader_at 3 0)) example_reader_cache) i =
      (Some (example_reader_at 3 0),
       to_uint64 (release_next_lru_priority example_reader_cache + 1)).
Proof.
  destruct (release_reader_least_recently_used (H := example_library)
              (Some (example_reader_at 3 0)) example_reader_cache eq_refl)
    as (i & Hi & _ & _ & Hat & _).
  exists i. split; [exact Hi|exact Hat].
Defined.


(** ** What serving keeps *)

Lemma main_initialize_side_buffers_meta (s : side_buffers) :
  length (g_side_buffer_metadata s) = NUM_SIDE_BUFFERS ->
  length (g_side_buffer_metadata (main_initialize_side_buffers s))
    = NUM_SIDE_BUFFERS /\
  forall i, (i < NUM_SIDE_BUFFERS)%nat ->
    meta_at (main_initialize_side_buffers s) i = empty_metadata 0.
Proof.
  intros Hlen. unfold main_initialize_side_buffers.
  set (f := fun s i => set_meta s i _).
  assert (Hgen : forall l s0,
            length (g_side_buffer_metadata s0) = NUM_SIDE_BUFFERS ->
            (forall i, i ∈ l -> (i < NUM_SIDE_BUFFERS)%nat) ->
            length (g_side_buffer_metadata (foldl f s0 l)) = NUM_SIDE_BUFFERS /\
            forall i, (i ∈ l \/ meta_at s0 i = empty_metadata 0) ->
              meta_at (foldl f s0 l) i = empty_metadata 0).
  { induction l as [|k l IH]; intros s0 Hl0 Hl; cbn [foldl].
    - split; [exact Hl0|]. intros i [Hi|Hi]; [inversion Hi|exact Hi].
    - destruct (IH (f s0 k)) as [H1 H2].
      + unfold f, set_meta; cbn. rewrite length_insert. exact Hl0.
      + intros i Hi. apply Hl. right. exact Hi.
      + split; [exact H1|]. intros i Hi. apply H2.
        destruct (decide (i = k)) as [->|Hne].
        * right. unfold f. apply meta_at_set_meta. rewrite Hl0. apply Hl. left.
        * destruct Hi as [Hi|Hi].
          -- apply elem_of_cons in Hi as [Hi|Hi]; [contradiction|]. left. exact Hi.
          -- right. unfold f. rewrite meta_at_set_meta_ne by congruence. exact Hi. }
  destruct (Hgen (seq 0 NUM_SIDE_BUFFERS) s Hlen) as [H1 H2].
  { intros i Hi. apply elem_of_seq in Hi. lia. }
  split; [exact H1|]. intros i Hi. apply H2. left. apply elem_of_seq. lia.
Qed.

Lemma read_from_side_buffer_none (s : side_buffers) idx dst len off :
  (forall i, (i < NUM_SIDE_BUFFERS)%nat ->
     side_buffer_metadata.contains (meta_at s i) idx off len = false) ->
  read_from_side_buffer idx dst len off s = (false, dst, s).
Proof.
  intros Hno. unfold read_from_side_buffer.
  pose proof (best_side_buffer_inv s idx len off (seq 0 NUM_SIDE_BUFFERS))
    as Hinv.
  destruct (best_side_buffer s idx len off (seq 0 NUM_SIDE_BUFFERS))
    as [[b|] bl]; [|reflexivity].
  unfold best_inv in Hinv; cbn [fst snd] in Hinv.
  destruct Hinv as (Hin & _ & Hc & _).
  apply elem_of_seq_0 in Hin. rewrite (Hno b Hin) in Hc. discriminate.
Qed.

(** X3. After the initialization loop of [main] every side buffer is
    empty: no request at all is served from a side buffer, whatever the
    buffers held before.  The zero-initialized metadata that the loop
    overwrites would serve a request of length 0 at the start of entry
    0. *)
Theorem main_initialize_side_buffers_empty (s : side_buffers) :
  length (g_side_buffer_metadata s) = NUM_SIDE_BUFFERS ->
  (forall idx dst len off,
     read_from_side_buffer idx dst len off (main_initialize_side_buffers s)
     = (false, dst, main_initialize_side_buffers s)) /\
  side_buffers_wf (main_initialize_side_buffers s) /\
  g_side_buffer_data (main_initialize_side_buffers s) = g_side_buffer_data s /\
  (read_from_side_buffer 0 [] 0 0 zeroed_side_buffers).1.1 = true.
Proof.
  intros Hlen.
  destruct (main_initialize_side_buffers_meta s Hlen) as [Hl Hm].
  split.
  { intros idx dst len off. apply read_from_side_buffer_none.
    intros i Hi. rewrite (Hm i Hi). reflexivity. }
  split.
  { split; [exact Hl|]. intros i Hi. rewrite (Hm i Hi). cbn. lia. }
  split; [|reflexivity].
  unfold main_initialize_side_buffers.
  generalize (seq 0 NUM_SIDE_BUFFERS). clear. intros l. revert s.
  induction l as [|k l IH]; intros s; cbn [foldl]; [reflexivity|].
  rewrite IH. reflexivity.
Qed.

Lemma main_initialize_side_buffers_empty_witness :
  read_from_side_buffer 3 [] 10 4
    (main_initialize_side_buffers example_side_buffers)
  = (false, [], main_initialize_side_buffers example_side_buffers).
Proof.
  exact (proj1 (main_initialize_side_buffers_empty example_side_buffers
                  eq_refl) 3 [] 10 4).
Defined.


Section ServingFacts.
Context `{Libarchive}.
Hypothesis Hssize : reads_ssize_t.

Lemma read_range (r : Reader.t) dst dst_len pathname n r' dst' :
  0 <= dst_len ->
  Reader.read r dst dst_len pathname = Ok (n, r', dst') ->
  n = - EIO \/ 0 <= n <= dst_len.
Proof.
  intros Hlen. unfold Reader.read.
  destruct (Reader.archive r) as [a|]; [|discriminate].
  cbn [deref mbind result_bind].
  pose proof (Hssize a dst_len) as Hr.
  destruct (archive_read_data a dst_len) as [[n0 bytes] a'].
  cbn [fst] in Hr.
  destruct (n0 <? 0) eqn:En; [intros [= <- <- <-]; left; reflexivity|].
  apply Z.ltb_ge in En.
  rewrite to_uint64_small by lia.
  destruct (Z.gtb_spec n0 dst_len); [discriminate|].
  intros [= <- <- <-]. right. lia.
Qed.

Lemma read_wf (r : Reader.t) dst dst_len pathname n r' dst' :
  reader_wf r ->
  Reader.read r dst dst_len pathname = Ok (n, r', dst') ->
  reader_wf r'.
Proof.
  intros (Ha & Hi & Ho) Hr.
  apply read_spec in Hr as (Hi' & _ & Ha' & Hn).
  split; [exact Ha'|]. split; [lia|]. destruct Hn as [[_ ->]|[Hn ->]]; lia.
Qed.

Lemma set_data_wf (s : side_buffers) (i : nat) d :
  side_buffers_wf s -> side_buffers_wf (set_data s i d).
Proof. intros Hwf. exact Hwf. Qed.

Lemma set_meta_wf (s : side_buffers) (i : nat) m :
  side_buffers_wf s ->
  (0 <= side_buffer_metadata.index_within_archive m ->
   0 <= side_buffer_metadata.offset_within_entry m /\
   0 <= side_buffer_metadata.length m <= SIDE_BUFFER_SIZE) ->
  side_buffers_wf (set_meta s i m).
Proof.
  intros [Hlen Hwf] Hm.
  split; [unfold set_meta; cbn; rewrite length_insert; exact Hlen|].
  intros j Hj. destruct (decide (i = j)) as [->|Hne].
  - rewrite meta_at_set_meta by (rewrite Hlen; exact Hj). exact Hm.
  - rewrite meta_at_set_meta_ne by exact Hne. apply Hwf. exact Hj.
Qed.

Lemma incr_next_lru_priority_wf (s : side_buffers) :
  side_buffers_wf s -> side_buffers_wf (incr_next_lru_priority s).2.
Proof. intros Hwf. exact Hwf. Qed.

Lemma advance_offset_loop_wf fuel :
  forall (r : Reader.t) want pathname sb s b r' s',
    side_buffers_wf s -> reader_wf r ->
    Reader.advance_offset_loop fuel r want pathname sb s = Ok (b, r', s') ->
    side_buffers_wf s' /\ reader_wf r'.
Proof.
  induction fuel as [|fuel IH]; intros r want pathname sb s b r' s' Hs Hr;
    cbn [Reader.advance_offset_loop].
  - destruct (want >? Reader.offset_within_entry r); [discriminate|].
    intros [= <- <- <-]. auto.
  - destruct (Z.gtb_spec want (Reader.offset_within_entry r)) as [Hgt|_].
    2:{ intros [= <- <- <-]. auto. }
    set (d := want - Reader.offset_within_entry r).
    set (len := if d >? SIDE_BUFFER_SIZE then _ else d).
    assert (Hlen : 0 < len <= SIDE_BUFFER_SIZE).
    { subst len. unfold SIDE_BUFFER_SIZE.
      destruct (Z.gtb_spec d 131072); [|unfold d; lia].
      pose proof (Z.rem_bound_pos d 131072 ltac:(lia) ltac:(lia)).
      destruct (Z.eqb_spec (Z.rem d 131072) 0); lia. }
    assert (Hu : to_uint64 len = len).
    { apply to_uint64_small. unfold SIDE_BUFFER_SIZE in Hlen. lia. }
    rewrite Hu.
    destruct (Reader.read r (data_at s sb) len pathname)
      as [[[n r1] d1]| |] eqn:Er; cbn [mbind result_bind]; try discriminate.
    pose proof (read_wf _ _ _ _ _ _ _ Hr Er) as Hr1.
    pose proof (read_spec _ _ _ _ _ _ _ Er) as (Hi1 & _ & _ & _).
    assert (Hlen0 : 0 <= len) by lia.
    destruct (read_range _ _ _ _ _ _ _ Hlen0 Er) as [->|Hn].
    + cbn [Z.ltb Z.compare EIO Z.opp]. intros [= <- <- <-].
      split; [|exact Hr1]. apply set_meta_wf; [exact Hs|]. cbn. lia.
    + assert ((n <? 0) = false) as -> by lia.
      destruct (incr_next_lru_priority (set_data s sb d1)) as [p s2] eqn:Ep.
      apply IH; [|exact Hr1].
      apply set_meta_wf.
      * replace s2 with (incr_next_lru_priority (set_data s sb d1)).2
          by (rewrite Ep; reflexivity).
        exact Hs.
      * cbn. intros _. destruct Hr as (_ & _ & Ho). lia.
Qed.

Lemma acquire_side_buffer_wf (s : side_buffers) :
  side_buffers_wf s -> side_buffers_wf (acquire_side_buffer s).2.
Proof.
  intros Hs. unfold acquire_side_buffer. cbn [snd].
  apply set_meta_wf; [exact Hs|]. cbn. lia.
Qed.

Lemma advance_offset_wf fuel (r : Reader.t) want pathname s b r' s' :
  side_buffers_wf s -> reader_wf r ->
  Reader.advance_offset fuel r want pathname s = Ok (b, r', s') ->
  side_buffers_wf s' /\ reader_wf r'.
Proof.
  intros Hs Hr. unfold Reader.advance_offset.
  destruct (_ || _); [intros [= <- <- <-]; auto|].
  destruct (want <? _); [intros [= <- <- <-]; auto|].
  destruct (want =? _); [intros [= <- <- <-]; auto|].
  pose proof (acquire_side_buffer_wf s Hs) as Hs1.
  destruct (acquire_side_buffer s) as [sb s1]. cbn [snd] in Hs1.
  destruct (NUM_SIDE_BUFFERS <=? sb)%nat; [intros [= <- <- <-]; auto|].
  apply advance_offset_loop_wf; assumption.
Qed.

Lemma read_from_side_buffer_wf idx dst len off (s : side_buffers) :
  side_buffers_wf s ->
  side_buffers_wf (read_from_side_buffer idx dst len off s).2.
Proof.
  intros Hs. unfold read_from_side_buffer.
  pose proof (best_side_buffer_inv s idx len off (seq 0 NUM_SIDE_BUFFERS))
    as Hinv.
  destruct (best_side_buffer s idx len off (seq 0 NUM_SIDE_BUFFERS))
    as [[best|] bl]; cbn [fst snd]; [|exact Hs].
  unfold best_inv in Hinv; cbn [fst snd] in Hinv.
  destruct Hinv as (Hin & _). apply elem_of_seq_0 in Hin.
  apply set_meta_wf; [exact Hs|]. cbn. apply (proj2 Hs). exact Hin.
Qed.

Lemma advance_index_wf (r : Reader.t) want b r' :
  reader_wf r -> Reader.advance_index r want = Ok (b, r') -> reader_wf r'.
Proof.
  intros (Ha & Hi & Ho) Hr.
  destruct (advance_index_loop_spec
              (Z.to_nat (want - Reader.index_within_archive r)) r want Ha
              (Nat.le_refl _))
    as (b0 & r0 & Hr0 & Ha0 & Hstep & _ & _ & _).
  unfold Reader.advance_index in Hr. destruct Ha as [a Ha].
  rewrite Ha in Hr. rewrite Hr0 in Hr. injection Hr as <- <-.
  split; [exact Ha0|]. unfold reader_step in Hstep. lia.
Qed.

Lemma open_fresh_reader_wf password realpath (r : Reader.t) :
  open_fresh_reader password realpath = Some r -> reader_wf r.
Proof.
  unfold open_fresh_reader.
  destruct archive_read_new as [a|]; [|discriminate].
  destruct (archive_read_open_filename _ _ _) as [status a1].
  destruct (negb (status =? ARCHIVE_OK)); [discriminate|].
  intros [= <-]. split; [eexists; reflexivity|]. cbn. lia.
Qed.

Lemma saved_at_insert (c : reader_cache) (i j : nat) x p :
  length (g_saved_readers c) = NUM_SAVED_READERS ->
  saved_at {| g_saved_readers := <[i := x]> (g_saved_readers c);
              release_next_lru_priority := p |} j =
  if decide (i = j)
  then (if decide (i < NUM_SAVED_READERS)%nat then x else (None, 0))
  else saved_at c j.
Proof.
  intros Hlen. unfold saved_at; cbn [g_saved_readers].
  destruct (decide (i = j)) as [->|Hne].
  - destruct (decide (j < NUM_SAVED_READERS)%nat) as [Hlt|Hge].
    + rewrite list_lookup_insert_eq by (rewrite Hlen; exact Hlt). reflexivity.
    + rewrite lookup_ge_None_2; [reflexivity|].
      rewrite length_insert, Hlen. lia.
  - rewrite list_lookup_insert_ne by exact Hne. reflexivity.
Qed.

Lemma acquire_reader_wf password realpath want (c : reader_cache) ur c' :
  readers_wf c ->
  acquire_reader password realpath want c = Ok (ur, c') ->
  readers_wf c' /\ (forall r, ur = Some r -> reader_wf r).
Proof.
  intros [Hlen Hc]. unfold acquire_reader.
  destruct (want <? 0).
  { intros [= <- <-]. split; [split; assumption|discriminate]. }
  destruct (best_saved_reader c want (seq 0 NUM_SAVED_READERS)).1.1
    as [best|] eqn:Eb.
  - set (c1 := {| g_saved_readers := <[best := (None, 0)]> (g_saved_readers c);
                  release_next_lru_priority := release_next_lru_priority c |}).
    assert (Hc1 : readers_wf c1).
    { split; [cbn; rewrite length_insert; exact Hlen|].
      intros i r. unfold c1. rewrite saved_at_insert by exact Hlen.
      destruct (decide (best = i)); [|apply Hc].
      destruct (decide (best < NUM_SAVED_READERS)%nat); discriminate. }
    destruct ((saved_at c best).1) as [r|] eqn:Er.
    + destruct (Reader.advance_index r want) as [[ok r']| |] eqn:Ea;
        cbn [mbind result_bind]; try discriminate.
      pose proof (advance_index_wf r want ok r' (Hc best r Er) Ea) as Hr'.
      destruct ok; intros [= <- <-]; (split; [exact Hc1|]).
      * intros r0 [= <-]. exact Hr'.
      * discriminate.
    + intros [= <- <-]. split; [exact Hc1|discriminate].
  - destruct (open_fresh_reader password realpath) as [r|] eqn:Eo.
    + destruct (Reader.advance_index r want) as [[ok r']| |] eqn:Ea;
        cbn [mbind result_bind]; try discriminate.
      pose proof (advance_index_wf r want ok r'
                    (open_fresh_reader_wf _ _ _ Eo) Ea) as Hr'.
      destruct ok; intros [= <- <-]; (split; [split; assumption|]).
      * intros r0 [= <-]. exact Hr'.
      * discriminate.
    + intros [= <- <-]. split; [split; assumption|discriminate].
Qed.

Lemma release_reader_wf (r : Reader.t) (c : reader_cache) :
  readers_wf c -> reader_wf r -> readers_wf (release_reader (Some r) c).
Proof.
  intros [Hlen Hc] Hr. unfold release_reader. cbn [Nat.leb NUM_SAVED_READERS].
  split; [cbn; rewrite length_insert; exact Hlen|].
  intros i r0. rewrite saved_at_insert by exact Hlen.
  destruct (decide (_ = i)); [|apply Hc].
  destruct (decide (_ < _)%nat); [|discriminate].
  intros [= <-]. exact Hr.
Qed.

End ServingFacts.


Section MyReadFacts.
Context `{Libarchive}.
Hypothesis Hssize : reads_ssize_t.

Lemma swap_wf (a b : Reader.t) :
  reader_wf a -> reader_wf b ->
  reader_wf (Reader.swap a b).1 /\ reader_wf (Reader.swap a b).2.
Proof. intros Ha Hb. split; [exact Hb|exact Ha]. Qed.

(** What a call of [my_read] keeps, and what it returns. *)
Lemma my_read_inv fuel password realpath st pathname dst dst_len offset
    (fh : option Reader.t) s c ret dst' fh' s' c' :
  0 <= dst_len ->
  side_buffers_wf s -> readers_wf c ->
  (forall r, fh = Some r -> reader_wf r) ->
  my_read fuel password realpath st pathname dst dst_len offset fh s c
    = Ok (ret, dst', fh', s', c') ->
  (side_buffers_wf s' /\ readers_wf c' /\
   (forall r', fh' = Some r' -> reader_wf r') /\
   (is_Some fh' <-> is_Some fh)) /\
  (ret = - EINVAL \/ ret = - EIO \/
   0 <= offset /\ 0 <= ret <= dst_len /\ ret <= INT_MAX /\
   exists r n node,
     fh = Some r /\
     g_nodes_by_index st !!
       Z.to_nat (to_uint64 (Reader.index_within_archive r)) = Some (Some n) /\
     nodes st !! n = Some node /\
     (ret = 0 \/ offset + ret <= Node.size node)).
Proof.
  intros Hlen Hs Hc Hfh. unfold my_read.
  assert (Hsame : forall e,
            e = - EINVAL \/ e = - EIO ->
            Ok (e, dst, fh, s, c) = Ok (ret, dst', fh', s', c') ->
            (side_buffers_wf s' /\ readers_wf c' /\
             (forall r', fh' = Some r' -> reader_wf r') /\
             (is_Some fh' <-> is_Some fh)) /\
            (ret = - EINVAL \/ ret = - EIO \/
             0 <= offset /\ 0 <= ret <= dst_len /\ ret <= INT_MAX /\
             exists r n node,
               fh = Some r /\
               g_nodes_by_index st !!
                 Z.to_nat (to_uint64 (Reader.index_within_archive r))
                 = Some (Some n) /\
               nodes st !! n = Some node /\
               (ret = 0 \/ offset + ret <= Node.size node))).
  { intros e He [= <- <- <- <- <-].
    split; [split; [exact Hs|split; [exact Hc|split; [exact Hfh|reflexivity]]]|].
    tauto. }
  destruct ((offset <? 0) || (dst_len >? INT_MAX)) eqn:Earg;
    [apply Hsame; auto|].
  apply orb_false_iff in Earg as [Eoff Elen].
  apply Z.ltb_ge in Eoff.
  assert (Hlen' : dst_len <= INT_MAX)
    by (destruct (Z.gtb_spec dst_len INT_MAX); [discriminate|lia]).
  destruct fh as [r|]; [|apply Hsame; auto].
  pose proof (Hfh r eq_refl) as Hr.
  destruct (_ || _); [apply Hsame; auto|].
  cbv zeta.
  destruct (_ >=? _); [apply Hsame; auto|].
  destruct (g_nodes_by_index st !! _) as [[n|]|] eqn:Eslot; cbn [default id];
    [|apply Hsame; auto..].
  destruct (nodes st !! n) as [node|] eqn:Enode;
    cbn [deref mbind result_bind]; [|discriminate].
  destruct (Node.size node <? 0); [apply Hsame; auto|].
  assert (Hfound : forall k, k = 0 \/ offset + k <= Node.size node ->
            exists r0 n0 node0,
              Some r = Some r0 /\
              g_nodes_by_index st !!
                Z.to_nat (to_uint64 (Reader.index_within_archive r0))
                = Some (Some n0) /\
              nodes st !! n0 = Some node0 /\
              (k = 0 \/ offset + k <= Node.size node0)).
  { intros k Hk. exists r, n, node. auto. }
  assert (Hzero :
            Ok (0, dst, Some r, s, c) = Ok (ret, dst', fh', s', c') ->
            (side_buffers_wf s' /\ readers_wf c' /\
             (forall r', fh' = Some r' -> reader_wf r') /\
             (is_Some fh' <-> is_Some (Some r))) /\
            (ret = - EINVAL \/ ret = - EIO \/
             0 <= offset /\ 0 <= ret <= dst_len /\ ret <= INT_MAX /\
             exists r0 n0 node0,
               Some r = Some r0 /\
               g_nodes_by_index st !!
                 Z.to_nat (to_uint64 (Reader.index_within_archive r0))
                 = Some (Some n0) /\
               nodes st !! n0 = Some node0 /\
               (ret = 0 \/ offset + ret <= Node.size node0))).
  { intros [= <- <- <- <- <-].
    split; [split; [exact Hs|split; [exact Hc|split; [exact Hfh|reflexivity]]]|].
    right. right. unfold INT_MAX. repeat split; try lia. apply Hfound. auto. }
  destruct (Z.leb_spec (Node.size node) offset) as [Hsz|Hsz];
    [exact Hzero|].
  set (remaining := to_uint64 (Node.size node - offset)).
  assert (Hrem : 0 <= remaining <= Node.size node - offset).
  { unfold remaining, to_uint64. split.
    - apply Z.mod_pos_bound. lia.
    - apply Z.mod_le; lia. }
  set (len := if dst_len >? remaining then remaining else dst_len).
  assert (Hlen2 : 0 <= len <= dst_len /\ len <= Node.size node - offset).
  { unfold len. destruct (Z.gtb_spec dst_len remaining); lia. }
  destruct (Z.eqb_spec len 0) as [_|Hne]; [exact Hzero|].
  pose proof (read_from_side_buffer_wf (Reader.index_within_archive r)
                dst len offset s Hs) as Hs1.
  destruct (read_from_side_buffer _ dst len offset s) as [[hit dst1] s1].
  cbn [snd] in Hs1.
  destruct hit.
  { intros [= <- <- <- <- <-].
    split; [split; [exact Hs1|split; [exact Hc|split; [exact Hfh|reflexivity]]]|].
    right. right. repeat split; try lia. apply Hfound. right. lia. }
  (* the Reader to go on with *)
  match goal with
  | |- context [mbind _ ?m] =>
      assert (Hacq : forall r1 c1, m = Ok (r1, c1) ->
                readers_wf c1 /\ forall x, r1 = Some x -> reader_wf x)
  end.
  { intros r1 c1. destruct (offset <? Reader.offset_within_entry r).
    - destruct (acquire_reader _ _ _ c) as [[ur c0]| |] eqn:Ea;
        cbn [mbind result_bind]; try discriminate.
      destruct (acquire_reader_wf _ _ _ _ _ _ Hc Ea) as [Hc0 Hur].
      destruct ur as [ur|]; [|intros [= <- <-]; split; [exact Hc0|discriminate]].
      destruct (_ || _); [intros [= <- <-]; split; [exact Hc0|discriminate]|].
      destruct (swap_wf r ur Hr (Hur ur eq_refl)) as [Hw1 Hw2].
      destruct (Reader.swap r ur) as [r' ur']. cbn [fst snd] in Hw1, Hw2.
      intros [= <- <-]. split; [apply release_reader_wf; assumption|].
      intros x [= <-]. exact Hw1.
    - intros [= <- <-]. split; [exact Hc|]. intros x [= <-]. exact Hr. }
  match goal with
  | |- context [mbind _ ?m] => destruct m as [[r1 c1]| |] eqn:Em
  end; cbn [mbind result_bind]; try discriminate.
  destruct (Hacq r1 c1 eq_refl) as [Hc1 Hr1].
  destruct r1 as [r1|].
  2:{ intros [= <- <- <- <- <-].
      split; [split; [exact Hs1|split; [exact Hc1|split; [exact Hfh|reflexivity]]]|].
      tauto. }
  destruct (Reader.advance_offset fuel r1 offset pathname s1)
    as [[[ok r2] s2]| |] eqn:Eadv; cbn [mbind result_bind]; try discriminate.
  destruct (advance_offset_wf Hssize _ _ _ _ _ _ _ _ Hs1 (Hr1 r1 eq_refl) Eadv)
    as [Hs2 Hr2].
  assert (Hiff : forall x : Reader.t, is_Some (Some x) <-> is_Some (Some r)).
  { intros x. split; intros _; eexists; reflexivity. }
  destruct ok; cbn [negb].
  2:{ intros [= <- <- <- <- <-].
      split; [split; [exact Hs2|split; [exact Hc1|split; [|apply Hiff]]]|tauto].
      intros x [= <-]. exact Hr2. }
  destruct (Reader.read r2 dst1 len pathname) as [[[k r3] dst2]| |] eqn:Erd;
    cbn [mbind result_bind]; try discriminate.
  intros [= <- <- <- <- <-].
  split.
  { split; [exact Hs2|]. split; [exact Hc1|]. split; [|apply Hiff].
    intros x [= <-]. exact (read_wf _ _ _ _ _ _ _ Hr2 Erd). }
  destruct (read_range Hssize _ _ _ _ _ _ _ (proj1 (proj1 Hlen2)) Erd)
    as [->|Hk]; [tauto|].
  right. right. repeat split; try lia. apply Hfound. right. lia.
Qed.

End MyReadFacts.


Lemma steady_library_reads_ssize_t : reads_ssize_t (H := steady_library).
Proof.
  intros a len. cbn. destruct (len <=? 0); cbn; lia.
Qed.

Lemma main_initialize_side_buffers_wf (s : side_buffers) :
  length (g_side_buffer_metadata s) = NUM_SIDE_BUFFERS ->
  side_buffers_wf (main_initialize_side_buffers s).
Proof.
  intros Hlen.
  destruct (main_initialize_side_buffers_meta s Hlen) as [Hl Hm].
  split; [exact Hl|]. intros i Hi. rewrite (Hm i Hi). cbn. lia.
Qed.

Lemma empty_reader_cache_wf `{Libarchive} : readers_wf empty_reader_cache.
Proof.
  split; [reflexivity|]. intros i r. unfold saved_at, empty_reader_cache.
  cbn [g_saved_readers]. destruct (replicate _ _ !! i) as [x|] eqn:Ex.
  - apply lookup_replicate in Ex as [-> _]. discriminate.
  - discriminate.
Qed.

Lemma example_side_buffers_wf : side_buffers_wf example_side_buffers.
Proof.
  split; [reflexivity|]. intros i Hi.
  do 8 (destruct i as [|i]; [cbn; unfold SIDE_BUFFER_SIZE; lia|]).
  unfold NUM_SIDE_BUFFERS in Hi. lia.
Qed.

Lemma steady_reader_wf : reader_wf steady_reader.
Proof. split; [eexists; reflexivity|]. cbn. lia. Qed.

Section Serving.
Context `{Libarchive}.

(** X4. The copy that [read_from_side_buffer] makes on a hit stays
    inside the side buffer: with the side buffers as the program keeps
    them, the bytes copied are those from [o] to [o + dst_len] of one
    buffer, with [0 <= o] and [o + dst_len <= SIDE_BUFFER_SIZE]. *)
Theorem read_from_side_buffer_in_bounds (s : side_buffers)
    (idx off len : Z) (dst : list Byte.byte) :
  side_buffers_wf s -> 0 <= len < 2 ^ 64 ->
  (read_from_side_buffer idx dst len off s).1.1 = true ->
  exists i,
    (i < NUM_SIDE_BUFFERS)%nat /\
    let o := off - side_buffer_metadata.offset_within_entry (meta_at s i) in
    0 <= o /\ o + len <= SIDE_BUFFER_SIZE /\
    o + len <= side_buffer_metadata.length (meta_at s i) /\
    (read_from_side_buffer idx dst len off s).1.2 =
      memcpy dst (drop (Z.to_nat o) (data_at s i)) (Z.to_nat len).
Proof.
  intros [Hlen Hwf] Hl. unfold read_from_side_buffer.
  pose proof (best_side_buffer_inv s idx len off (seq 0 NUM_SIDE_BUFFERS))
    as Hinv.
  destruct (best_side_buffer s idx len off (seq 0 NUM_SIDE_BUFFERS))
    as [[best|] bl]; cbn [fst snd]; [|discriminate].
  intros _. unfold best_inv in Hinv; cbn [fst snd] in Hinv.
  destruct Hinv as (Hin & _ & Hc & _). apply elem_of_seq_0 in Hin.
  apply contains_true_iff in Hc as (H0 & H1 & H2 & H3 & H4).
  destruct (Hwf best Hin H0) as [Ho Hl'].
  exists best. split; [exact Hin|]. cbv zeta.
  rewrite to_uint64_small in H4 by (unfold SIDE_BUFFER_SIZE in Hl'; lia).
  repeat split; try lia.
Qed.

Hypothesis Hssize : reads_ssize_t.

(** X5. Serving keeps the state in order: after a call of [my_read],
    [my_open] or [my_release] there are still [NUM_SIDE_BUFFERS] side
    buffers, none longer than [SIDE_BUFFER_SIZE] or starting at a
    negative offset, and every Reader, in the cache or behind a file
    handle, has a stream, an index from -1 on and a non-negative
    offset.  [my_read] keeps the Reader of the handle in place. *)
Theorem serving_keeps_state_well_formed (s : side_buffers) (c : reader_cache)
    (password realpath : string) (st : tree) (pathname : string) :
  side_buffers_wf s -> readers_wf c ->
  (forall fuel dst dst_len offset r ret dst' fh' s' c',
     0 <= dst_len -> reader_wf r ->
     my_read fuel password realpath st pathname dst dst_len offset (Some r)
       s c = Ok (ret, dst', fh', s', c') ->
     side_buffers_wf s' /\ readers_wf c' /\
     exists r', fh' = Some r' /\ reader_wf r') /\
  (forall ffi ret ffi' c',
     my_open password realpath st pathname ffi c = Ok (ret, ffi', c') ->
     readers_wf c' /\
     (ret = 0 -> exists i r, ffi' = Some i /\ fh i = Some r /\ reader_wf r)) /\
  (forall r, reader_wf r -> readers_wf (my_release pathname (Some r) c).2).
Proof.
  intros Hs Hc. split; [|split].
  - intros fuel dst dst_len offset r ret dst' fh' s' c' Hlen Hr Hrun.
    destruct (my_read_inv Hssize _ _ _ _ _ _ _ _ _ _ _ _ _ _ _ _ Hlen Hs Hc
                (fun r0 (E : Some r = Some r0) =>
                   eq_ind r reader_wf Hr r0 (Some_inj _ _ E)) Hrun)
      as [(Hs' & Hc' & Hfh' & Hiff) _].
    split; [exact Hs'|]. split; [exact Hc'|].
    destruct (proj2 Hiff ltac:(eexists; reflexivity)) as [r' ->].
    exists r'. auto.
  - intros ffi ret ffi' c'. unfold my_open.
    destruct (g_nodes_by_name st !! pathname) as [n|];
      [|intros [= <- <- <-]; split; [exact Hc|discriminate]].
    destruct (nodes st !! n) as [node|]; cbn [deref mbind result_bind];
      [|discriminate].
    destruct (S_ISDIR _); [intros [= <- <- <-]; split; [exact Hc|discriminate]|].
    destruct (_ || _); [intros [= <- <- <-]; split; [exact Hc|discriminate]|].
    destruct ffi as [i|]; cbn [deref mbind result_bind]; [|discriminate].
    destruct (negb _); [intros [= <- <- <-]; split; [exact Hc|discriminate]|].
    destruct (acquire_reader _ _ _ c) as [[ur c1]| |] eqn:Ea;
      cbn [mbind result_bind]; try discriminate.
    destruct (acquire_reader_wf _ _ _ _ _ _ Hc Ea) as [Hc1 Hur].
    destruct ur as [r|]; intros [= <- <- <-];
      (split; [exact Hc1|]); [|discriminate].
    intros _. eexists _, r. split; [reflexivity|]. split; [reflexivity|].
    apply Hur. reflexivity.
  - intros r Hr. cbn [my_release snd]. apply release_reader_wf; assumption.
Qed.

End Serving.

Lemma read_from_side_buffer_in_bounds_witness :
  exists i,
    (i < NUM_SIDE_BUFFERS)%nat /\
    let o := 4 - side_buffer_metadata.offset_within_entry
                   (meta_at example_side_buffers i) in
    0 <= o /\ o + 10 <= SIDE_BUFFER_SIZE /\
    o + 10 <= side_buffer_metadata.length (meta_at example_side_buffers i) /\
    (read_from_side_buffer 3 [] 10 4 example_side_buffers).1.2 =
      memcpy [] (drop (Z.to_nat o) (data_at example_side_buffers i))
        (Z.to_nat 10).
Proof.
  apply (read_from_side_buffer_in_bounds example_side_buffers 3 4 10 []).
  - exact example_side_buffers_wf.
  - lia.
  - reflexivity.
Defined.

Lemma serving_keeps_state_well_formed_witness :
  readers_wf
    (my_release (H := steady_library) "/f" (Some steady_reader)
       empty_reader_cache).2.
Proof.
  exact (proj2 (proj2
    (serving_keeps_state_well_formed (H := steady_library)
       steady_library_reads_ssize_t
       (main_initialize_side_buffers zeroed_side_buffers)
       empty_reader_cache "" "a.zip" example_tree "/f"
       (main_initialize_side_buffers_wf zeroed_side_buffers eq_refl)
       empty_reader_cache_wf)) steady_reader steady_reader_wf).
Defined.



(** ** Opening a file *)

Section MyOpen.
Context `{Libarchive}.

(** [acquire_reader] returns, and a Reader that it returns is at the
    start of the entry asked for. *)
Lemma acquire_reader_result password realpath want (c : reader_cache) :
  readers_wf c -> 0 <= want ->
  exists ur c',
    acquire_reader password realpath want c = Ok (ur, c') /\
    forall r, ur = Some r ->
      Reader.index_within_archive r = want /\
      Reader.offset_within_entry r = 0 /\
      is_Some (Reader.archive r).
Proof.
  intros [Hlen Hc] Hwant. unfold acquire_reader.
  assert ((want <? 0) = false) as -> by lia.
  assert (Hadv : forall r0 : Reader.t, qualifies want r0 ->
            0 <= Reader.offset_within_entry r0 ->
            forall c1 : reader_cache, exists ur c',
              ('(ok, r') ← Reader.advance_index r0 want;
               if (ok : bool) then Ok (Some r', c1) else Ok (None, c1))
              = Ok (ur, c') /\
              forall r, ur = Some r ->
                Reader.index_within_archive r = want /\
                Reader.offset_within_entry r = 0 /\
                is_Some (Reader.archive r)).
  { intros r0 Hq Ho c1.
    destruct (advance_index_qualified r0 want Hq Ho) as (ok & r' & -> & Hok).
    cbn [mbind result_bind]. destruct ok.
    - eexists _, _. split; [reflexivity|]. intros r [= <-].
      destruct (Hok eq_refl) as (Ha & Hi & Ho'). auto.
    - eexists _, _. split; [reflexivity|]. discriminate. }
  pose proof (best_saved_reader_inv c want (seq 0 NUM_SAVED_READERS)) as Hinv.
  destruct (best_saved_reader c want (seq 0 NUM_SAVED_READERS))
    as [[[best|] bi] bo]; cbn [fst].
  - destruct Hinv as (_ & ri & Hri & Hq & _).
    { intros i r _ Hr. destruct (Hc i r Hr) as (_ & Hi & Ho). auto. }
    rewrite Hri. apply Hadv; [exact Hq|].
    exact (proj2 (proj2 (Hc best ri Hri))).
  - destruct (open_fresh_reader password realpath) as [r0|] eqn:Eo.
    + destruct (open_fresh_reader_new _ _ _ Eo) as (_ & _ & Hi & Ho).
      apply Hadv; [left; lia|lia].
    + eexists _, _. split; [reflexivity|]. discriminate.
Qed.


End MyOpen.



Section Reuse.
Context `{Libarchive}.

(** X8. A Reader that [release_reader] has put into the cache is found
    again: when it is at or before the start of the entry asked for,
    [acquire_reader] opens no new stream but takes a cached Reader that
    is at least as far, and advances that one. *)
Theorem released_reader_is_reused (password realpath : string) (want : Z)
    (r : Reader.t) (c : reader_cache) :
  readers_wf c -> reader_wf r -> 0 <= want -> qualifies want r ->
  exists k rk ok r',
    (k < NUM_SAVED_READERS)%nat /\
    (saved_at (release_reader (Some r) c) k).1 = Some rk /\
    qualifies want rk /\ reader_le r rk /\
    Reader.advance_index rk want = Ok (ok, r') /\
    acquire_reader password realpath want (release_reader (Some r) c) =
      Ok (if ok then Some r' else None,
          take_saved_reader (release_reader (Some r) c) k).
Proof.
  intros Hc Hr Hwant Hq.
  pose proof (release_reader_wf r c Hc Hr) as Hc2.
  assert (Hin : exists i, (i < NUM_SAVED_READERS)%nat /\
            (saved_at (release_reader (Some r) c) i).1 = Some r).
  { unfold release_reader. cbn [Nat.leb NUM_SAVED_READERS].
    set (i := oldest_index _ _).
    assert (Hi : (i < NUM_SAVED_READERS)%nat)
      by (apply oldest_index_lt; unfold NUM_SAVED_READERS; lia).
    exists i. split; [exact Hi|].
    rewrite saved_at_insert by exact (proj1 Hc).
    destruct (decide (i = i)); [|contradiction].
    destruct (decide (i < NUM_SAVED_READERS)%nat); [reflexivity|].
    contradiction. }
  destruct Hin as (i & Hi & Hsi).
  set (c2 := release_reader (Some r) c) in *.
  pose proof (best_saved_reader_inv c2 want (seq 0 NUM_SAVED_READERS)) as Hinv.
  unfold acquire_reader. assert ((want <? 0) = false) as -> by lia.
  destruct (best_saved_reader c2 want (seq 0 NUM_SAVED_READERS))
    as [[[best|] bi] bo]; cbn [fst].
  - destruct Hinv as (Hb & rb & Hrb & Hqb & Hmax).
    { intros j rj _ Hrj. destruct (proj2 Hc2 j rj Hrj) as (_ & ? & ?). auto. }
    apply elem_of_seq_0 in Hb.
    destruct (advance_index_spec rb want) as (ok & r' & Hadv & _).
    exists best, rb, ok, r'. split; [exact Hb|]. split; [exact Hrb|].
    split; [exact Hqb|].
    split; [apply (Hmax i r); [apply elem_of_seq_0; exact Hi|exact Hsi|exact Hq]|].
    split; [exact Hadv|].
    rewrite Hrb, Hadv. cbn [mbind result_bind]. destruct ok; reflexivity.
  - exfalso. refine (Hinv _ i r _ Hsi Hq); [|apply elem_of_seq_0; exact Hi].
    intros j rj _ Hrj. destruct (proj2 Hc2 j rj Hrj) as (_ & ? & ?). auto.
Qed.

End Reuse.

Lemma released_reader_is_reused_witness :
  exists k rk ok r',
    (k < NUM_SAVED_READERS)%nat /\
    (saved_at (release_reader (H := steady_library) (Some steady_reader)
                 empty_reader_cache) k).1 = Some rk /\
    qualifies 5 rk /\ reader_le steady_reader rk /\
    Reader.advance_index rk 5 = Ok (ok, r') /\
    acquire_reader "" "a.zip" 5
      (release_reader (Some steady_reader) empty_reader_cache) =
      Ok (if ok then Some r' else None,
          take_saved_reader
            (release_reader (Some steady_reader) empty_reader_cache) k).
Proof.
  apply (released_reader_is_reused (H := steady_library) "" "a.zip" 5
           steady_reader empty_reader_cache).
  - exact empty_reader_cache_wf.
  - exact steady_reader_wf.
  - lia.
  - left. cbn. lia.
Defined.


(** ** Induction over the walk of [insert_leaf_node] *)

(** What [add_child] does to the fields of the nodes other than their
    links. *)
Lemma add_child_fields (h : list Node.t) (this n : nat) (h' : list Node.t)
    (self : Node.t) :
  h !! this = Some self -> this <> n ->
  Node.add_child h this n = Ok h' ->
  length h' = length h /\
  forall k x, h !! k = Some x ->
    exists x',
      h' !! k = Some x' /\
      Node.rel_name x' = Node.rel_name x /\
      Node.symlink x' = Node.symlink x /\
      Node.index_within_archive x' = Node.index_within_archive x /\
      Node.mtime x' = Node.mtime x /\
      Node.mode x' = Node.mode x /\
      Node.size x' =
        (if decide (k = this) then Node.size x + block_size
         else Node.size x) /\
      Node.parent x' = (if decide (k = n) then Some this else Node.parent x).
Proof.
  intros Hthis Hne. unfold Node.add_child.
  destruct (h !! n) as [child|] eqn:Hn; cbn [deref mbind result_bind];
    [|discriminate].
  destruct (bool_decide (is_Some (Node.parent child))); [discriminate|].
  rewrite Hthis. cbn [deref mbind result_bind].
  destruct (negb (Node.is_dir self)); [discriminate|].
  rewrite (update_ok h this _ self Hthis). cbn [mbind result_bind].
  set (h1 := <[this := Node.set_size (Node.size self + block_size) self]> h).
  assert (Hn1 : h1 !! n = Some child).
  { unfold h1. rewrite list_lookup_insert_ne by exact Hne. exact Hn. }
  rewrite (update_ok h1 n _ child Hn1). cbn [mbind result_bind].
  set (h2 := <[n := Node.set_parent (Some this) child]> h1).
  assert (Hlt : (this < length h)%nat) by (eapply lookup_lt_Some; eauto).
  assert (Hltn : (n < length h)%nat) by (eapply lookup_lt_Some; eauto).
  assert (Hlen2 : length h2 = length h).
  { unfold h2, h1. rewrite !length_insert. reflexivity. }
  set (R := fun (k : nat) (x x' : Node.t) =>
         Node.rel_name x' = Node.rel_name x /\
         Node.symlink x' = Node.symlink x /\
         Node.index_within_archive x' = Node.index_within_archive x /\
         Node.mtime x' = Node.mtime x /\
         Node.mode x' = Node.mode x /\
         Node.size x' =
           (if decide (k = this) then Node.size x + block_size
            else Node.size x) /\
         Node.parent x' =
           (if decide (k = n) then Some this else Node.parent x)).
  assert (H2 : forall k x, h !! k = Some x ->
            exists x', h2 !! k = Some x' /\ R k x x').
  { intros k x Hk. unfold h2, h1, R.
    destruct (decide (k = n)) as [->|Hkn].
    - rewrite list_lookup_insert_eq by (rewrite length_insert; exact Hltn).
      assert (x = child) as -> by congruence.
      eexists. split; [reflexivity|]. cbn.
      destruct (decide (n = this)); [congruence|]. repeat split; reflexivity.
    - rewrite list_lookup_insert_ne by congruence.
      destruct (decide (k = this)) as [->|Hkt].
      + rewrite list_lookup_insert_eq by exact Hlt.
        assert (x = self) as -> by congruence.
        eexists. split; [reflexivity|]. cbn. repeat split; reflexivity.
      + rewrite list_lookup_insert_ne by congruence.
        exists x. repeat split; try reflexivity. exact Hk. }
  (* a further write to a link keeps [R] *)
  assert (Hlink : forall (g : list Node.t) (p : nat) (y y' : Node.t),
            (forall k x, h !! k = Some x ->
               exists x', g !! k = Some x' /\ R k x x') ->
            g !! p = Some y ->
            Node.rel_name y' = Node.rel_name y ->
            Node.symlink y' = Node.symlink y ->
            Node.index_within_archive y' = Node.index_within_archive y ->
            Node.mtime y' = Node.mtime y -> Node.mode y' = Node.mode y ->
            Node.size y' = Node.size y -> Node.parent y' = Node.parent y ->
            forall k x, h !! k = Some x ->
              exists x', <[p := y']> g !! k = Some x' /\ R k x x').
  { intros g p y y' Hg Hp E1 E2 E3 E4 E5 E6 E7 k x Hk.
    destruct (Hg k x Hk) as (x1 & Hx1 & HR).
    destruct (decide (k = p)) as [->|Hkp].
    - rewrite list_lookup_insert_eq by (eapply lookup_lt_Some; eauto).
      assert (x1 = y) as -> by congruence.
      exists y'. split; [reflexivity|]. unfold R in *.
      rewrite E1, E2, E3, E4, E5, E6, E7. exact HR.
    - rewrite list_lookup_insert_ne by congruence. eauto. }
  destruct (H2 this self Hthis) as (self2 & Hself2 & _).
  rewrite Hself2. cbn [deref mbind result_bind]. unfold Node.update.
  destruct (Node.last_child self2) as [l|].
  - destruct (h2 !! l) as [ln|] eqn:Hln; cbn [deref mbind result_bind];
      [|discriminate].
    set (h3 := <[l := Node.set_next_sibling (Some n) ln]> h2).
    destruct (h3 !! this) as [self3|] eqn:Hself3;
      cbn [deref mbind result_bind]; [|discriminate].
    intros [= <-]. split; [unfold h3; rewrite !length_insert; exact Hlen2|].
    apply (Hlink h3 this self3); try reflexivity; [|exact Hself3].
    apply (Hlink h2 l ln); try reflexivity; assumption.
  - rewrite Hself2. cbn [deref mbind result_bind].
    set (h3 := <[this := Node.set_last_child (Some n) self2]> h2).
    assert (Hself3 : h3 !! this = Some (Node.set_last_child (Some n) self2)).
    { unfold h3. apply list_lookup_insert_eq. rewrite Hlen2. exact Hlt. }
    rewrite Hself3. cbn [deref mbind result_bind].
    intros [= <-]. split; [unfold h3; rewrite !length_insert; exact Hlen2|].
    apply (Hlink h3 this (Node.set_last_child (Some n) self2));
      try reflexivity; [|exact Hself3].
    apply (Hlink h2 this self2); try reflexivity; assumption.
Qed.

Section WalkInduction.
Variables (symlink : string) (idx size mtime mode : Z).
Variable P : tree -> Prop.

(** [P] is kept by the update at the top of the loop, by the insertion
    of an implicit directory and by the insertion of the leaf. *)
Hypothesis P_touch :
  forall st parent pn,
    tree_inv st -> P st ->
    nodes st !! parent = Some pn -> Node.is_dir pn = true ->
    P (set_nodes (<[parent := touch mtime (branch_mode_of mode) pn]>
                    (nodes st)) st).
Hypothesis P_branch :
  forall st A rel parent pn nodes2,
    tree_inv st -> P st ->
    dir_at st A = Some parent -> no_slash rel = true ->
    g_nodes_by_name st !! (A +:+ "/" +:+ rel) = None ->
    nodes st !! parent = Some pn -> Node.is_dir pn = true ->
    Node.add_child
      (nodes st ++ [Node.new rel "" (-1) 0 mtime (branch_mode_of mode)])
      parent (length (nodes st)) = Ok nodes2 ->
    P {| nodes := nodes2;
         g_nodes_by_name :=
           <[A +:+ "/" +:+ rel := length (nodes st)]> (g_nodes_by_name st);
         g_nodes_by_index := g_nodes_by_index st;
         g_root_node := g_root_node st;
         g_block_count := g_block_count st + 1 |}.
Hypothesis P_leaf :
  forall st A rel parent pn nodes2 node,
    tree_inv st -> P st ->
    dir_at st A = Some parent -> no_slash rel = true ->
    g_nodes_by_name st !! (A +:+ "/" +:+ rel) = None ->
    nodes st !! parent = Some pn -> Node.is_dir pn = true ->
    Node.add_child
      (nodes st ++ [Node.new rel symlink idx size mtime
                      (leaf_mode_of symlink mode)])
      parent (length (nodes st)) = Ok nodes2 ->
    nodes2 !! length (nodes st) = Some node ->
    0 <= idx -> Z.of_nat (length (g_nodes_by_index st)) <= idx ->
    P {| nodes := nodes2;
         g_nodes_by_name :=
           <[A +:+ "/" +:+ rel := length (nodes st)]> (g_nodes_by_name st);
         g_nodes_by_index :=
           resize (Z.to_nat idx) None (g_nodes_by_index st) ++
           [Some (length (nodes st))];
         g_root_node := g_root_node st;
         g_block_count :=
           g_block_count st + Node.get_block_count node + 1 |}.

Lemma insert_leaf_node_loop_preserves :
  0 <= idx ->
  forall q A parent st ret st',
    walk_pre mtime mode st A parent -> P st ->
    insert_leaf_node_loop symlink idx size mtime (branch_mode_of mode)
      (leaf_mode_of symlink mode) (A +:+ "/") q parent st = Ok (ret, st') ->
    P st'.
Proof.
  intros Hidx q. remember (String.length q) as len eqn:Hlen.
  revert q Hlen. induction len as [len IH] using lt_wf_ind.
  intros q -> A parent st ret st' (Hinv & Hda & pn & Hp & Hd & Hpp) HP.
  rewrite insert_leaf_node_loop_unfold.
  rewrite (update_ok (nodes st) parent _ pn Hp). cbn [mbind result_bind].
  destruct (touch_parent_inv mtime mode st parent pn Hinv Hp Hd Hpp)
    as (Hinv1 & Hle1 & Hp1).
  pose proof (P_touch st parent pn Hinv HP Hp Hd) as HP1.
  set (st1 := set_nodes (<[parent := touch mtime (branch_mode_of mode) pn]>
                           (nodes st)) st) in *.
  assert (Hda1 : dir_at st1 A = Some parent) by exact Hda.
  assert (Hd1 : Node.is_dir (touch mtime (branch_mode_of mode) pn) = true)
    by (apply touch_is_dir; exact Hd).
  assert (Hmt1 : mtime <= Node.mtime (touch mtime (branch_mode_of mode) pn))
    by (rewrite touch_mtime; lia).
  assert (Hbb1 : bits_sub (branch_bits mode)
                   (Node.mode (touch mtime (branch_mode_of mode) pn))).
  { rewrite touch_mode, branch_mode_of_eq.
    eapply bits_sub_trans; [apply bits_sub_lor_l|apply bits_sub_lor_r]. }
  destruct (scan_fragment q) as [rel [q'|]] eqn:Es.
  - apply scan_fragment_some in Es as (-> & Hns & Hlt).
    assert (Hpre : (A +:+ "/") +:+ rel +:+ "/" = (A +:+ "/" +:+ rel) +:+ "/")
      by (rewrite !string_app_assoc; reflexivity).
    rewrite Hpre, (string_app_assoc A "/" rel). clear Hpre.
    unfold insert_leaf_node_branch.
    destruct (g_nodes_by_name st1 !! (A +:+ "/" +:+ rel)) as [n|] eqn:En.
    + destruct (inv_names st1 Hinv1 _ n En) as [node Hnode].
      rewrite Hnode. cbn [deref mbind result_bind].
      destruct (Node.is_dir node) eqn:Hnd; cbn [negb mbind result_bind].
      2:{ intros [= <- <-]. exact HP1. }
      apply (IH (String.length q') Hlt q' eq_refl (A +:+ "/" +:+ rel) n st1);
        [eapply walk_pre_found; eauto|exact HP1].
    + destruct (attach_inv st1 A rel parent
                  (touch mtime (branch_mode_of mode) pn)
                  (Node.new rel "" (-1) 0 mtime (branch_mode_of mode))
                  (g_nodes_by_index st1) (g_block_count st1 + 1))
        as (nodes2 & new' & Hadd & Hnew' & Hm & Ht & Hi & Hpar & Hlen2
            & Hinv2 & Hle2); try assumption; try reflexivity.
      { unfold contrib, Node.is_dir. cbn [Node.mode Node.new].
        rewrite is_dir_branch_mode, land_branch_mode_perm. exact Hbb1. }
      pose proof (P_branch st1 A rel parent _ nodes2 Hinv1 HP1 Hda1 Hns En
                    Hp1 Hd1 Hadd) as HP2.
      rewrite Hadd. cbn [mbind result_bind].
      intros Hloop.
      match type of Hloop with
      | insert_leaf_node_loop _ _ _ _ _ _ _ _ _ ?s = _ => set (st2 := s) in *
      end.
      apply (IH (String.length q') Hlt q' eq_refl
               (A +:+ "/" +:+ rel) (length (nodes st1)) st2 ret st');
        [|exact HP2|exact Hloop].
      split; [exact Hinv2|].
      split; [rewrite dir_at_named; apply lookup_insert_eq|].
      exists new'. split; [exact Hnew'|].
      split.
      { unfold Node.is_dir. rewrite Hm. apply is_dir_branch_mode. }
      intros pp ppn Hnpar Hppn.
      assert (pp = parent) as -> by congruence.
      destruct (le_nodes st1 st2 Hle2 parent _ Hp1)
        as (x' & Hx' & Hxt & Hxm & _).
      assert (ppn = x') as ->.
      { rewrite Hppn in Hx'. injection Hx' as Hx'. exact Hx'. }
      split; [lia|]. eapply bits_sub_trans; eauto.
  - apply scan_fragment_none in Es as (-> & Hns).
    rewrite (string_app_assoc A "/" rel).
    unfold insert_leaf_node_terminal.
    destruct (g_nodes_by_name st1 !! (A +:+ "/" +:+ rel)) as [n|] eqn:En.
    + cbn [mbind result_bind]. intros [= <- <-]. exact HP1.
    + destruct (attach_inv st1 A rel parent
                  (touch mtime (branch_mode_of mode) pn)
                  (Node.new rel symlink idx size mtime
                     (leaf_mode_of symlink mode))
                  (g_nodes_by_index st1) (g_block_count st1))
        as (nodes2 & new' & Hadd & Hnew' & _); try assumption;
        try reflexivity.
      { unfold contrib, Node.is_dir. cbn [Node.mode Node.new].
        rewrite is_dir_leaf_mode, branch_bits_leaf_mode. exact Hbb1. }
      rewrite Hadd. cbn [mbind result_bind]. rewrite Hnew'.
      cbn [deref mbind result_bind].
      destruct (Z.gtb_spec (Z.of_nat (length (g_nodes_by_index st1))) idx)
        as [|Hle]; [discriminate|].
      cbn [mbind result_bind]. intros [= <- <-].
      exact (P_leaf st1 A rel parent _ nodes2 new' Hinv1 HP1 Hda1 Hns En
               Hp1 Hd1 Hadd Hnew' Hidx Hle).
Qed.

Lemma insert_leaf_node_preserves (pathname : string) (st st' : tree)
    (ret : Z) :
  tree_inv st -> P st ->
  insert_leaf_node pathname symlink idx size mtime mode st = Ok (ret, st') ->
  P st'.
Proof.
  intros Hinv HP. unfold insert_leaf_node.
  destruct (Z.ltb_spec idx 0) as [|Hidx]; [intros [= <- <-]; exact HP|].
  destruct pathname as [|c q]; [intros [= <- <-]; exact HP|].
  destruct (negb (Ascii.eqb c "/")); [intros [= <- <-]; exact HP|].
  destruct (inv_root st Hinv) as (root & rnode & Hr & Hrn & Hrd & Hrp & _).
  rewrite Hr. cbn [deref mbind result_bind].
  apply (insert_leaf_node_loop_preserves Hidx q "" root st ret st');
    [|exact HP].
  split; [exact Hinv|]. split; [exact Hr|].
  exists rnode. split; [exact Hrn|]. split; [exact Hrd|].
  intros pp ppn Hpp. congruence.
Qed.

End WalkInduction.

Section StartUpInduction.
Context `{Libarchive}.
Variable P : tree -> Prop.
Hypothesis P_insert :
  forall pathname symlink idx size mtime mode st ret st',
    tree_inv st -> P st ->
    insert_leaf_node pathname symlink idx size mtime mode st = Ok (ret, st') ->
    P st'.

Lemma insert_leaf_preserves fuel is_raw innername a e idx s st ret a' s' st' :
  tree_inv st -> P st ->
  insert_leaf fuel is_raw innername a e idx s st = Ok (ret, a', s', st') ->
  P st'.
Proof.
  intros Hinv HP. unfold insert_leaf.
  destruct (String.eqb _ ""); [intros [= <- <- <- <-]; exact HP|].
  destruct (_ || _); [intros [= <- <- <- <-]; exact HP|].
  destruct (_ && _); [intros [= <- <- <- <-]; exact HP|].
  match goal with
  | |- context [mbind _ ?m] => destruct m as [[[[sz|] a1] s1]| |]
  end; cbn [mbind result_bind]; try discriminate.
  2:{ intros [= <- <- <- <-]. exact HP. }
  destruct (insert_leaf_node _ _ _ _ _ _ st) as [[r st1]| |] eqn:Hn;
    cbn [mbind result_bind]; try discriminate.
  intros [= <- <- <- <-]. eapply P_insert; eauto.
Qed.

Lemma build_tree_loop_preserves fuel is_raw innername :
  forall first g s st ret g' s' st',
    tree_inv st -> P st ->
    build_tree_loop fuel is_raw innername first g s st
    = Ok (ret, g', s', st') ->
    P st'.
Proof.
  induction fuel as [|fuel IH]; intros first g s st ret g' s' st' Hinv HP;
    [discriminate|].
  cbn [build_tree_loop].
  match goal with
  | |- context [mbind _ ?m] => destruct m as [[[r go] g1]| |]
  end; cbn [mbind result_bind]; try discriminate.
  destruct go; cbn [negb]; [|intros [= <- <- <- <-]; exact HP].
  destruct (g_initialize_archive_entry g1) as [e|];
    cbn [deref mbind result_bind]; try discriminate.
  destruct (S_ISDIR (archive_entry_mode e)); [apply IH; assumption|].
  destruct (insert_leaf _ _ _ _ _ _ _ st) as [[[[r1 a1] s1] st1]| |] eqn:Hl;
    cbn [mbind result_bind]; try discriminate.
  pose proof (insert_leaf_preserves _ _ _ _ _ _ _ _ _ _ _ _ Hinv HP Hl) as HP1.
  destruct (insert_leaf_inv _ _ _ _ _ _ _ _ _ _ _ _ Hinv Hl) as [Hinv1 _].
  destruct (negb (r1 =? 0)); [intros [= <- <- <- <-]; exact HP1|].
  apply IH; assumption.
Qed.

Lemma post_initialize_sync_preserves fuel is_raw innername g s error g' s'
    st :
  P (insert_root_node empty_tree) ->
  post_initialize_sync fuel is_raw innername g s empty_tree
  = Ok (error, g', s', st) ->
  P st.
Proof.
  intros HP. unfold post_initialize_sync. cbn [g_root_node empty_tree].
  destruct (build_tree _ _ _ _ _ _) as [[[[r g1] s1] st1]| |] eqn:Hb;
    cbn [mbind result_bind]; try discriminate.
  intros [= <- <- <- <-]. revert Hb. unfold build_tree.
  destruct (_ <? 0); [intros [= <- <- <- <-]; exact HP|].
  apply build_tree_loop_preserves; [apply insert_root_node_inv|exact HP].
Qed.

End StartUpInduction.


(** ** The index table *)

Lemma touch_fields mtime bm (x : Node.t) :
  Node.rel_name (touch mtime bm x) = Node.rel_name x /\
  Node.symlink (touch mtime bm x) = Node.symlink x /\
  Node.index_within_archive (touch mtime bm x) = Node.index_within_archive x /\
  Node.size (touch mtime bm x) = Node.size x /\
  Node.parent (touch mtime bm x) = Node.parent x.
Proof. unfold touch. destruct (_ <? _); repeat split; reflexivity. Qed.

(** The nodes after [add_child] on a heap with a new node at its end. *)
Lemma add_child_new_fields (h : list Node.t) (new : Node.t) (this : nat)
    (h2 : list Node.t) (pn : Node.t) :
  h !! this = Some pn ->
  Node.add_child (h ++ [new]) this (length h) = Ok h2 ->
  length h2 = S (length h) /\
  (forall k x, h !! k = Some x ->
     exists x',
       h2 !! k = Some x' /\
       Node.rel_name x' = Node.rel_name x /\
       Node.symlink x' = Node.symlink x /\
       Node.index_within_archive x' = Node.index_within_archive x /\
       Node.mtime x' = Node.mtime x /\
       Node.mode x' = Node.mode x /\
       Node.size x' =
         (if decide (k = this) then Node.size x + block_size
          else Node.size x) /\
       Node.parent x' = Node.parent x) /\
  exists new',
    h2 !! length h = Some new' /\
    Node.rel_name new' = Node.rel_name new /\
    Node.symlink new' = Node.symlink new /\
    Node.index_within_archive new' = Node.index_within_archive new /\
    Node.mtime new' = Node.mtime new /\
    Node.mode new' = Node.mode new /\
    Node.size new' = Node.size new /\
    Node.parent new' = Some this.
Proof.
  intros Hthis Hadd.
  assert (Hlt : (this < length h)%nat) by (eapply lookup_lt_Some; eauto).
  assert (Hthis' : (h ++ [new]) !! this = Some pn)
    by (rewrite lookup_app_l by exact Hlt; exact Hthis).
  destruct (add_child_fields (h ++ [new]) this (length h) h2 pn Hthis'
              ltac:(lia) Hadd) as [Hlen Hf].
  split; [rewrite Hlen, length_app; cbn; lia|].
  split.
  - intros k x Hk.
    assert (Hkl : (k < length h)%nat) by (eapply lookup_lt_Some; eauto).
    destruct (Hf k x) as (x' & Hx' & E1 & E2 & E3 & E4 & E5 & E6 & E7).
    { rewrite lookup_app_l by exact Hkl. exact Hk. }
    exists x'. rewrite decide_False in E7 by lia. auto 10.
  - destruct (Hf (length h) new) as (x' & Hx' & E1 & E2 & E3 & E4 & E5 & E6 & E7).
    { rewrite lookup_app_r by lia. rewrite Nat.sub_diag. reflexivity. }
    exists x'. rewrite decide_False in E6 by lia.
    rewrite decide_True in E7 by reflexivity. auto 10.
Qed.

Lemma index_inv_touch mtime mode st parent pn :
  tree_inv st -> index_inv st ->
  nodes st !! parent = Some pn -> Node.is_dir pn = true ->
  index_inv (set_nodes (<[parent := touch mtime (branch_mode_of mode) pn]>
                          (nodes st)) st).
Proof.
  intros _ [H1 H2] Hp _.
  assert (Hlt : (parent < length (nodes st))%nat)
    by (eapply lookup_lt_Some; eauto).
  split; cbn [set_nodes nodes g_nodes_by_index].
  - intros i n Hi. destruct (H1 i n Hi) as (x & Hx & Hxi).
    destruct (decide (n = parent)) as [->|Hne].
    + rewrite list_lookup_insert_eq by exact Hlt.
      eexists. split; [reflexivity|].
      rewrite (proj1 (proj2 (proj2 (touch_fields _ _ _)))). congruence.
    + rewrite list_lookup_insert_ne by congruence. eauto.
  - intros n x Hn Hx.
    destruct (decide (n = parent)) as [->|Hne].
    + rewrite list_lookup_insert_eq in Hn by exact Hlt.
      injection Hn as <-.
      rewrite (proj1 (proj2 (proj2 (touch_fields _ _ _)))) in *.
      apply H2; assumption.
    + rewrite list_lookup_insert_ne in Hn by congruence. apply H2; assumption.
Qed.

Lemma index_inv_attach (st : tree) (new : Node.t) (parent : nat)
    (pn : Node.t) (nodes2 : list Node.t) (names : gmap string nat)
    (by_index : list (option nat)) (bc : Z) :
  index_inv st ->
  nodes st !! parent = Some pn ->
  Node.add_child (nodes st ++ [new]) parent (length (nodes st)) = Ok nodes2 ->
  (Node.index_within_archive new = -1 /\ by_index = g_nodes_by_index st \/
   0 <= Node.index_within_archive new /\
   Z.of_nat (length (g_nodes_by_index st)) <= Node.index_within_archive new /\
   by_index =
     resize (Z.to_nat (Node.index_within_archive new)) None
       (g_nodes_by_index st) ++ [Some (length (nodes st))]) ->
  index_inv {| nodes := nodes2; g_nodes_by_name := names;
               g_nodes_by_index := by_index;
               g_root_node := g_root_node st; g_block_count := bc |}.
Proof.
  intros [H1 H2] Hp Hadd Hby.
  destruct (add_child_new_fields _ _ _ _ _ Hp Hadd)
    as (Hlen & Hold & new' & Hnew' & _ & _ & Hni & _).
  assert (Hold_i : forall k x, nodes st !! k = Some x ->
            exists x', nodes2 !! k = Some x' /\
              Node.index_within_archive x' = Node.index_within_archive x).
  { intros k x Hk. destruct (Hold k x Hk) as (x' & Hx' & _ & _ & E & _).
    eauto. }
  assert (Hrange : forall i n, g_nodes_by_index st !! i = Some (Some n) ->
            exists x', nodes2 !! n = Some x' /\
              Node.index_within_archive x' = Z.of_nat i).
  { intros i n Hi. destruct (H1 i n Hi) as (x & Hx & Hxi).
    destruct (Hold_i n x Hx) as (x' & Hx' & E). exists x'.
    split; [exact Hx'|congruence]. }
  split; cbn [nodes g_nodes_by_index].
  - intros i n Hi.
    destruct Hby as [[_ ->]|(Hidx & Hle & ->)]; [eauto|].
    set (w := Z.to_nat (Node.index_within_archive new)) in *.
    destruct (decide (i < w)%nat) as [Hiw|Hiw].
    + rewrite lookup_app_l in Hi by (rewrite length_resize; exact Hiw).
      destruct (decide (i < length (g_nodes_by_index st))%nat) as [Hil|Hil].
      * rewrite lookup_resize in Hi by assumption. eauto.
      * rewrite lookup_resize_new in Hi by (try lia). discriminate.
    + rewrite lookup_app_r in Hi by (rewrite length_resize; lia).
      rewrite length_resize in Hi.
      destruct (i - w)%nat as [|j] eqn:Ej; [|destruct j; discriminate].
      cbn in Hi. injection Hi as <-. exists new'. split; [exact Hnew'|].
      rewrite Hni. unfold w in *. lia.
  - intros n x Hn Hx.
    destruct (decide (n < length (nodes st))%nat) as [Hnl|Hnl].
    + destruct (lookup_lt_is_Some_2 (nodes st) n Hnl) as [x0 Hx0].
      destruct (Hold_i n x0 Hx0) as (x' & Hx' & E).
      assert (x' = x) as -> by congruence.
      rewrite E in *. pose proof (H2 n x0 Hx0 Hx) as Hi.
      destruct Hby as [[_ ->]|(Hidx & Hle & ->)]; [exact Hi|].
      pose proof (lookup_lt_Some _ _ _ Hi) as Hlt.
      rewrite lookup_app_l by (rewrite length_resize; lia).
      rewrite lookup_resize by lia. exact Hi.
    + assert (n = length (nodes st)) as ->.
      { apply lookup_lt_Some in Hn. lia. }
      assert (x = new') as -> by congruence.
      rewrite Hni in *.
      destruct Hby as [[Hm _]|(Hidx & Hle & ->)]; [lia|].
      rewrite lookup_app_r by (rewrite length_resize; lia).
      rewrite length_resize, Nat.sub_diag. reflexivity.
Qed.

Lemma insert_leaf_node_index_inv pathname symlink idx size mtime mode
    st ret st' :
  tree_inv st -> index_inv st ->
  insert_leaf_node pathname symlink idx size mtime mode st = Ok (ret, st') ->
  index_inv st'.
Proof.
  apply (insert_leaf_node_preserves symlink idx size mtime mode index_inv).
  - apply index_inv_touch.
  - intros st0 A rel parent pn nodes2 _ HP _ _ _ Hp _ Hadd.
    eapply index_inv_attach; eauto.
  - intros st0 A rel parent pn nodes2 node _ HP _ _ _ Hp _ Hadd _ Hidx Hle.
    eapply index_inv_attach; eauto.
Qed.

Lemma insert_root_node_index_inv : index_inv (insert_root_node empty_tree).
Proof.
  split; cbn.
  - intros i n Hi. destruct i; discriminate.
  - intros n x Hn Hx. destruct n as [|n]; [|destruct n; discriminate].
    injection Hn as <-. cbn in Hx. lia.
Qed.


(** ** The kinds of nodes *)

Lemma branch_mode_type m : Z.land (branch_mode_of m) (Z.lnot 365) = S_IFDIR.
Proof.
  rewrite branch_mode_of_eq, Z.land_lor_distr_l.
  rewrite <- (branch_bits_perm m), <- Z.land_assoc.
  change (Z.land 365 (Z.lnot 365)) with 0. rewrite Z.land_0_r. reflexivity.
Qed.

Lemma leaf_mode_type symlink m :
  Z.land (leaf_mode_of symlink m) (Z.lnot 365) =
  if String.eqb symlink "" then S_IFREG else S_IFLNK.
Proof.
  unfold leaf_mode_of. rewrite Z.land_lor_distr_l, <- Z.land_assoc.
  change (Z.land 365 (Z.lnot 365)) with 0. rewrite Z.land_0_r.
  destruct (String.eqb symlink ""); reflexivity.
Qed.

(** The type of a mode whose other bits are within 0555. *)
Lemma land_type m : Z.land m S_IFMT = Z.land (Z.land m (Z.lnot 365)) S_IFMT.
Proof.
  rewrite <- Z.land_assoc. reflexivity.
Qed.

Lemma node_kind_is_dir (x : Node.t) :
  node_kind x ->
  (Node.is_dir x = true <-> Node.index_within_archive x = -1) /\
  (S_ISLNK (Node.mode x) = true <-> Node.symlink x <> "") /\
  (Node.is_dir x = true -> Node.symlink x = "").
Proof.
  unfold Node.is_dir, S_ISDIR, S_ISLNK. rewrite land_type.
  intros [(-> & Hs & Hi)|[(-> & Hs & Hi)|(-> & Hs & Hi)]]; cbn;
    repeat split; try congruence; try lia; try discriminate.
Qed.

Lemma node_kind_touch mtime mode (x : Node.t) :
  Node.is_dir x = true -> node_kind x ->
  node_kind (touch mtime (branch_mode_of mode) x).
Proof.
  intros Hd Hk. pose proof (node_kind_is_dir x Hk) as (Hdi & _ & Hds).
  destruct (touch_fields mtime (branch_mode_of mode) x)
    as (_ & E2 & E3 & _).
  left. rewrite E2, E3, touch_mode, Z.land_lor_distr_l, branch_mode_type.
  split; [|split; [auto|apply Hdi; exact Hd]].
  destruct Hk as [(-> & _)|[(Hm & _ & Hi)|(Hm & _ & Hi)]];
    [reflexivity| |]; apply Hdi in Hd; lia.
Qed.

Lemma kinds_inv_attach (st : tree) (new : Node.t) (parent : nat)
    (pn : Node.t) (nodes2 : list Node.t) (names : gmap string nat)
    (by_index : list (option nat)) (bc : Z) :
  kinds_inv st -> node_kind new ->
  nodes st !! parent = Some pn ->
  Node.add_child (nodes st ++ [new]) parent (length (nodes st)) = Ok nodes2 ->
  kinds_inv {| nodes := nodes2; g_nodes_by_name := names;
               g_nodes_by_index := by_index;
               g_root_node := g_root_node st; g_block_count := bc |}.
Proof.
  intros Hk Hnew Hp Hadd.
  destruct (add_child_new_fields _ _ _ _ _ Hp Hadd)
    as (Hlen & Hold & new' & Hnew' & _ & Es & Ei & _ & Em & _).
  intros n x Hn. cbn [nodes] in Hn.
  destruct (decide (n < length (nodes st))%nat) as [Hnl|Hnl].
  - destruct (lookup_lt_is_Some_2 (nodes st) n Hnl) as [x0 Hx0].
    destruct (Hold n x0 Hx0) as (x' & Hx' & _ & E2 & E3 & _ & E5 & _).
    assert (x' = x) as -> by congruence.
    unfold node_kind. rewrite E2, E3, E5. exact (Hk n x0 Hx0).
  - assert (n = length (nodes st)) as ->.
    { apply lookup_lt_Some in Hn. lia. }
    assert (x = new') as -> by congruence.
    unfold node_kind. rewrite Es, Ei, Em. exact Hnew.
Qed.

Lemma insert_leaf_node_kinds_inv pathname symlink idx size mtime mode
    st ret st' :
  tree_inv st -> kinds_inv st ->
  insert_leaf_node pathname symlink idx size mtime mode st = Ok (ret, st') ->
  kinds_inv st'.
Proof.
  apply (insert_leaf_node_preserves symlink idx size mtime mode kinds_inv).
  - intros st0 parent pn _ HP Hp Hd n x Hn. cbn [set_nodes nodes] in Hn.
    destruct (decide (n = parent)) as [->|Hne].
    + rewrite list_lookup_insert_eq in Hn by (eapply lookup_lt_Some; eauto).
      injection Hn as <-. apply node_kind_touch; eauto.
    + rewrite list_lookup_insert_ne in Hn by congruence. eauto.
  - intros st0 A rel parent pn nodes2 _ HP _ _ _ Hp _ Hadd.
    apply (kinds_inv_attach st0
             (Node.new rel "" (-1) 0 mtime (branch_mode_of mode))
             parent pn nodes2 _ _ _ HP); [|exact Hp|exact Hadd].
    left. cbn [Node.new Node.mode Node.symlink Node.index_within_archive].
    rewrite branch_mode_type. auto.
  - intros st0 A rel parent pn nodes2 node _ HP _ _ _ Hp _ Hadd _ Hidx Hle.
    apply (kinds_inv_attach st0
             (Node.new rel symlink idx size mtime (leaf_mode_of symlink mode))
             parent pn nodes2 _ _ _ HP); [|exact Hp|exact Hadd].
    right. cbn [Node.new Node.mode Node.symlink Node.index_within_archive].
    rewrite leaf_mode_type.
    destruct (String.eqb_spec symlink ""); [left|right]; auto.
Qed.

Lemma insert_root_node_kinds_inv : kinds_inv (insert_root_node empty_tree).
Proof.
  intros n x Hn. cbn in Hn.
  destruct n as [|n]; [|destruct n; discriminate].
  injection Hn as <-. left. cbn. auto.
Qed.

(** ** Counting names, nodes and blocks *)

Lemma fmap_attached {A B : Type} (f : A -> B) (h h2 : list A) (new : A) :
  length h2 = S (length h) ->
  (forall k x, h !! k = Some x -> exists x', h2 !! k = Some x' /\ f x' = f x) ->
  h2 !! length h = Some new ->
  f <$> h2 = (f <$> h) ++ [f new].
Proof.
  intros Hlen Hold Hnew. apply list_eq. intros i.
  rewrite list_lookup_fmap.
  destruct (decide (i < length h)%nat) as [Hi|Hi].
  - rewrite lookup_app_l by (rewrite length_fmap; exact Hi).
    rewrite list_lookup_fmap.
    destruct (lookup_lt_is_Some_2 h i Hi) as [x Hx].
    destruct (Hold i x Hx) as (x' & Hx' & E). rewrite Hx, Hx'. cbn.
    congruence.
  - rewrite lookup_app_r by (rewrite length_fmap; lia). rewrite length_fmap.
    destruct (decide (i = length h)) as [->|Hne].
    + rewrite Nat.sub_diag, Hnew. reflexivity.
    + rewrite (lookup_ge_None_2 h2) by lia.
      destruct (i - length h)%nat as [|j] eqn:Ej; [lia|]. reflexivity.
Qed.

Lemma foldr_add_app (l1 l2 : list Z) :
  foldr Z.add 0 (l1 ++ l2) = foldr Z.add 0 l1 + foldr Z.add 0 l2.
Proof. induction l1 as [|a l1 IH]; cbn; [reflexivity|]. rewrite IH. lia. Qed.

Lemma count_inv_attach (st : tree) (K : string) (new : Node.t) (parent : nat)
    (pn : Node.t) (nodes2 : list Node.t) (by_index : list (option nat))
    (bc : Z) :
  count_inv st ->
  g_nodes_by_name st !! K = None ->
  nodes st !! parent = Some pn -> Node.is_dir pn = true ->
  Node.add_child (nodes st ++ [new]) parent (length (nodes st)) = Ok nodes2 ->
  (forall new', nodes2 !! length (nodes st) = Some new' ->
     bc = g_block_count st + leaf_blocks new' + 1) ->
  count_inv {| nodes := nodes2;
               g_nodes_by_name := <[K := length (nodes st)]> (g_nodes_by_name st);
               g_nodes_by_index := by_index;
               g_root_node := g_root_node st; g_block_count := bc |}.
Proof.
  intros [Hsz Hbc] HK Hp Hd Hadd Hbc'.
  destruct (add_child_new_fields _ _ _ _ _ Hp Hadd)
    as (Hlen & Hold & new' & Hnew' & _).
  split; cbn [nodes g_nodes_by_name g_block_count].
  - rewrite map_size_insert_None by exact HK. rewrite Hsz, Hlen. reflexivity.
  - rewrite (Hbc' new' Hnew'), Hbc, Hlen.
    rewrite (fmap_attached leaf_blocks (nodes st) nodes2 new' Hlen);
      [|
       |exact Hnew'].
    + rewrite foldr_add_app. cbn. lia.
    + intros k x Hk.
      destruct (Hold k x Hk) as (x' & Hx' & _ & _ & _ & _ & Em & Es & _).
      exists x'. split; [exact Hx'|].
      unfold leaf_blocks, Node.is_dir, Node.get_block_count. rewrite Em.
      destruct (decide (k = parent)) as [->|Hne]; [|rewrite Es; reflexivity].
      assert (x = pn) as -> by congruence.
      unfold Node.is_dir in Hd. rewrite Hd. reflexivity.
Qed.

Lemma insert_leaf_node_count_inv pathname symlink idx size mtime mode
    st ret st' :
  tree_inv st -> count_inv st ->
  insert_leaf_node pathname symlink idx size mtime mode st = Ok (ret, st') ->
  count_inv st'.
Proof.
  apply (insert_leaf_node_preserves symlink idx size mtime mode count_inv).
  - intros st0 parent pn _ [Hsz Hbc] Hp Hd.
    split; cbn [set_nodes nodes g_nodes_by_name g_block_count].
    + rewrite length_insert. exact Hsz.
    + rewrite length_insert, Hbc. f_equal. f_equal.
      rewrite list_fmap_insert. symmetry. apply list_insert_id.
      rewrite list_lookup_fmap, Hp. cbn. f_equal.
      unfold leaf_blocks. rewrite touch_is_dir by exact Hd.
      rewrite Hd. reflexivity.
  - intros st0 A rel parent pn nodes2 _ HP _ _ HK Hp Hd Hadd.
    eapply count_inv_attach; eauto.
    intros new' Hnew'.
    destruct (add_child_new_fields _ _ _ _ _ Hp Hadd)
      as (_ & _ & n' & Hn' & _ & _ & _ & _ & Em & _).
    assert (new' = n') as -> by congruence.
    unfold leaf_blocks, Node.is_dir. rewrite Em. cbn [Node.new Node.mode].
    rewrite is_dir_branch_mode. lia.
  - intros st0 A rel parent pn nodes2 node _ HP _ _ HK Hp Hd Hadd Hnode _ _.
    eapply count_inv_attach; eauto.
    intros new' Hnew'. assert (new' = node) as -> by congruence.
    destruct (add_child_new_fields _ _ _ _ _ Hp Hadd)
      as (_ & _ & n' & Hn' & _ & _ & _ & _ & Em & _).
    assert (node = n') as -> by congruence.
    unfold leaf_blocks, Node.is_dir. rewrite Em. cbn [Node.new Node.mode].
    rewrite is_dir_leaf_mode. reflexivity.
Qed.

Lemma insert_root_node_count_inv : count_inv (insert_root_node empty_tree).
Proof. split; vm_compute; reflexivity. Qed.

(** ** The nodes that stay as they are *)

Lemma file_kept_refl x : file_kept x x.
Proof. unfold file_kept. auto 10. Qed.

Lemma file_kept_trans x y z : file_kept x y -> file_kept y z -> file_kept x z.
Proof.
  intros (A1 & A2 & A3 & A4 & A5 & A6) (B1 & B2 & B3 & B4 & B5 & B6).
  unfold file_kept. repeat split; try congruence;
    destruct (A6 H) as (? & ? & ?);
    (destruct B6 as (? & ? & ?); [congruence|]); congruence.
Qed.

Lemma files_kept_refl st : files_kept st st.
Proof.
  split; [auto|]. intros k x Hk. exists x. split; [exact Hk|].
  apply file_kept_refl.
Qed.

Lemma files_kept_attach (st0 st : tree) (K : string) (new : Node.t)
    (parent : nat) (pn : Node.t) (nodes2 : list Node.t)
    (by_index : list (option nat)) (bc : Z) :
  files_kept st0 st ->
  g_nodes_by_name st !! K = None ->
  nodes st !! parent = Some pn -> Node.is_dir pn = true ->
  Node.add_child (nodes st ++ [new]) parent (length (nodes st)) = Ok nodes2 ->
  files_kept st0
    {| nodes := nodes2;
       g_nodes_by_name := <[K := length (nodes st)]> (g_nodes_by_name st);
       g_nodes_by_index := by_index;
       g_root_node := g_root_node st; g_block_count := bc |}.
Proof.
  intros [Hn Hk] HK Hp Hd Hadd.
  destruct (add_child_new_fields _ _ _ _ _ Hp Hadd) as (Hlen & Hold & _).
  split; cbn [nodes g_nodes_by_name].
  - intros K' n HK'. apply Hn in HK'.
    rewrite lookup_insert_ne by congruence. exact HK'.
  - intros k x Hx. destruct (Hk k x Hx) as (x1 & Hx1 & Hkept).
    destruct (Hold k x1 Hx1) as (x' & Hx' & E1 & E2 & E3 & E4 & E5 & E6 & E7).
    exists x'. split; [exact Hx'|].
    apply (file_kept_trans x x1 x' Hkept).
    unfold file_kept, Node.is_dir. rewrite E1, E2, E3, E4, E5, E7.
    repeat split; try reflexivity.
    destruct (decide (k = parent)) as [->|Hne]; [|exact E6].
    assert (x1 = pn) as -> by congruence.
    unfold Node.is_dir in Hd. congruence.
Qed.

Lemma insert_leaf_node_files_kept (st0 : tree) pathname symlink idx size
    mtime mode st ret st' :
  tree_inv st -> files_kept st0 st ->
  insert_leaf_node pathname symlink idx size mtime mode st = Ok (ret, st') ->
  files_kept st0 st'.
Proof.
  apply (insert_leaf_node_preserves symlink idx size mtime mode
           (files_kept st0)).
  - intros st1 parent pn _ [Hn Hk] Hp Hd.
    split; cbn [set_nodes nodes g_nodes_by_name]; [exact Hn|].
    intros k x Hx. destruct (Hk k x Hx) as (x1 & Hx1 & Hkept).
    destruct (decide (k = parent)) as [->|Hne].
    + rewrite list_lookup_insert_eq by (eapply lookup_lt_Some; eauto).
      eexists. split; [reflexivity|].
      assert (x1 = pn) as -> by congruence.
      apply (file_kept_trans x pn _ Hkept).
      destruct (touch_fields mtime (branch_mode_of mode) pn)
        as (E1 & E2 & E3 & _ & E5).
      unfold file_kept. rewrite E1, E2, E3, E5, touch_is_dir by exact Hd.
      repeat split; congruence.
    + rewrite list_lookup_insert_ne by congruence. eauto.
  - intros st1 A rel parent pn nodes2 _ HP _ _ HK Hp Hd Hadd.
    eapply files_kept_attach; eauto.
  - intros st1 A rel parent pn nodes2 node _ HP _ _ HK Hp Hd Hadd _ _ _.
    eapply files_kept_attach; eauto.
Qed.


(** ** The invariants after start-up *)

Section StartUpFacts.
Context `{Libarchive}.
Variables (fuel : nat) (is_raw : bool) (innername : option string)
  (g g' : initialize_globals) (s s' : side_buffers) (error : Z) (st : tree).
Hypothesis Hrun :
  post_initialize_sync fuel is_raw innername g s empty_tree
  = Ok (error, g', s', st).

Lemma post_initialize_sync_index_inv : index_inv st.
Proof.
  apply (post_initialize_sync_preserves index_inv
           insert_leaf_node_index_inv _ _ _ _ _ _ _ _ _
           insert_root_node_index_inv Hrun).
Qed.

Lemma post_initialize_sync_kinds_inv : kinds_inv st.
Proof.
  apply (post_initialize_sync_preserves kinds_inv
           insert_leaf_node_kinds_inv _ _ _ _ _ _ _ _ _
           insert_root_node_kinds_inv Hrun).
Qed.

Lemma post_initialize_sync_count_inv : count_inv st.
Proof.
  apply (post_initialize_sync_preserves count_inv
           insert_leaf_node_count_inv _ _ _ _ _ _ _ _ _
           insert_root_node_count_inv Hrun).
Qed.

End StartUpFacts.

(** X9. After start-up, [g_nodes_by_index] and the nodes agree.  The
    node that the table has at a position [i] is a file, regular or a
    symbolic link, whose archive index is [i]; a node that is not a
    directory is in the table at the position of its archive index,
    which is not negative; and a directory has the archive index -1. *)
Theorem start_up_index_table `{Libarchive} (fuel : nat) (is_raw : bool)
    (innername : option string) (g g' : initialize_globals)
    (s s' : side_buffers) (error : Z) (st : tree) :
  post_initialize_sync fuel is_raw innername g s empty_tree
  = Ok (error, g', s', st) ->
  (forall i n, g_nodes_by_index st !! i = Some (Some n) ->
     exists x,
       nodes st !! n = Some x /\ Node.is_dir x = false /\
       Node.index_within_archive x = Z.of_nat i) /\
  (forall n x, nodes st !! n = Some x ->
     if Node.is_dir x then Node.index_within_archive x = -1
     else
       0 <= Node.index_within_archive x /\
       g_nodes_by_index st !! Z.to_nat (Node.index_within_archive x)
       = Some (Some n)).
Proof.
  intros Hrun.
  destruct (post_initialize_sync_index_inv _ _ _ _ _ _ _ _ _ Hrun)
    as [H1 H2].
  pose proof (post_initialize_sync_kinds_inv _ _ _ _ _ _ _ _ _ Hrun) as Hk.
  split.
  - intros i n Hi. destruct (H1 i n Hi) as (x & Hx & Hxi).
    exists x. split; [exact Hx|]. split; [|exact Hxi].
    destruct (node_kind_is_dir x (Hk n x Hx)) as ([Hd _] & _).
    destruct (Node.is_dir x); [|reflexivity]. specialize (Hd eq_refl). lia.
  - intros n x Hx.
    destruct (node_kind_is_dir x (Hk n x Hx)) as ([Hd Hd'] & _).
    destruct (Node.is_dir x) eqn:Ed; [auto|].
    assert (0 <= Node.index_within_archive x).
    { destruct (Hk n x Hx) as [(_ & _ & Hi)|[(_ & _ & Hi)|(_ & _ & Hi)]];
        [|exact Hi|exact Hi].
      specialize (Hd' Hi). discriminate. }
    split; [assumption|]. apply H2; assumption.
Qed.

Lemma start_up_index_table_witness :
  (forall i n, g_nodes_by_index two_files_tree !! i = Some (Some n) ->
     exists x,
       nodes two_files_tree !! n = Some x /\ Node.is_dir x = false /\
       Node.index_within_archive x = Z.of_nat i) /\
  (forall n x, nodes two_files_tree !! n = Some x ->
     if Node.is_dir x then Node.index_within_archive x = -1
     else
       0 <= Node.index_within_archive x /\
       g_nodes_by_index two_files_tree !!
         Z.to_nat (Node.index_within_archive x) = Some (Some n)).
Proof.
  apply (start_up_index_table (H := scripted two_files_archive true)
           3 false None two_files_initialize_globals
           (@Build_initialize_globals (scripted two_files_archive true)
              None None (-1))
           zeroed_side_buffers zeroed_side_buffers 0 two_files_tree).
  vm_compute. reflexivity.
Defined.


Lemma one_file_library_reads_ssize_t : @reads_ssize_t one_file_library.
Proof. intros a len. cbn. destruct (len <=? 0); cbn; lia. Qed.

Section ReadReturns.
Context `{Libarchive}.
Hypothesis Hwithin : reads_within_length.
Hypothesis Hprogress : reads_make_progress.

(** [Reader::read] returns: the check before [abort()] passes. *)
Lemma read_returns (r : Reader.t) dst dst_len pathname :
  is_Some (Reader.archive r) -> 0 <= dst_len ->
  exists n r' dst', Reader.read r dst dst_len pathname = Ok (n, r', dst').
Proof.
  intros [a Ha] Hlen. unfold Reader.read. rewrite Ha.
  cbn [deref mbind result_bind].
  pose proof (Hwithin a dst_len Hlen) as Hn.
  destruct (archive_read_data a dst_len) as [[n bytes] a'].
  cbn [fst] in Hn.
  destruct (Z.ltb_spec n 0); [eauto|].
  assert (to_uint64 n <= n) by (apply Z.mod_le; lia).
  destruct (Z.gtb_spec (to_uint64 n) dst_len); [lia|eauto].
Qed.

(** The loop of [advance_offset] returns within as many iterations as
    there are bytes between the offset and [want]. *)
Lemma advance_offset_loop_returns fuel :
  forall (r : Reader.t) want p sb s,
    is_Some (Reader.archive r) ->
    (Z.to_nat (want - Reader.offset_within_entry r) <= fuel)%nat ->
    exists b r' s',
      Reader.advance_offset_loop fuel r want p sb s = Ok (b, r', s').
Proof.
  induction fuel as [|fuel IH]; intros r want p sb s [a Ha] Hfuel.
  - cbn. destruct (Z.gtb_spec want (Reader.offset_within_entry r));
      [lia|eauto].
  - destruct (Z.lt_ge_cases (Reader.offset_within_entry r) want) as [Hlt|Hge].
    2:{ cbn. destruct (Z.gtb_spec want (Reader.offset_within_entry r));
          [lia|eauto]. }
    pose proof (first_chunk_bounds (want - Reader.offset_within_entry r)
                  ltac:(lia)) as [Hb Hb'].
    pose proof (Hwithin a (first_chunk (want - Reader.offset_within_entry r))
                  ltac:(lia)) as Hn.
    pose proof (Hprogress a (first_chunk (want - Reader.offset_within_entry r))
                  ltac:(lia)) as Hn0.
    destruct (archive_read_data a
                (first_chunk (want - Reader.offset_within_entry r)))
      as [[n bytes] a1] eqn:Hread.
    cbn [fst] in Hn, Hn0.
    destruct (Z.lt_ge_cases n 0) as [Hneg|Hpos].
    + rewrite (advance_offset_loop_error fuel r want p sb s a n bytes a1
                 Ha Hlt Hread Hneg).
      eauto.
    + rewrite (advance_offset_loop_count fuel r want p sb s a n bytes a1
                 Ha Hlt Hread) by lia.
      apply IH; [eexists; reflexivity|].
      cbn [Reader.offset_within_entry]. lia.
Qed.

Lemma advance_offset_returns fuel (r : Reader.t) want p s :
  is_Some (Reader.archive r) ->
  (Z.to_nat (want - Reader.offset_within_entry r) <= fuel)%nat ->
  exists b r' s', Reader.advance_offset fuel r want p s = Ok (b, r', s').
Proof.
  intros Ha Hfuel. unfold Reader.advance_offset.
  destruct (_ || _); [eauto|].
  destruct (want <? _); [eauto|].
  destruct (want =? _); [eauto|].
  destruct (acquire_side_buffer s) as [sb s1].
  destruct (NUM_SIDE_BUFFERS <=? sb)%nat; [eauto|].
  apply advance_offset_loop_returns; assumption.
Qed.

(** [acquire_reader] returns. *)
Lemma acquire_reader_returns password realpath want (c : reader_cache) :
  readers_wf c ->
  exists ur c', acquire_reader password realpath want c = Ok (ur, c').
Proof.
  intros Hc. destruct (Z.lt_ge_cases want 0) as [Hneg|Hpos].
  - unfold acquire_reader.
    assert ((want <? 0) = true) as -> by (apply Z.ltb_lt; lia). eauto.
  - destruct (acquire_reader_result password realpath want c Hc Hpos)
      as (ur & c' & Ha & _).
    eauto.
Qed.

(** [my_read] returns: it follows pointers into the tree only, it does
    not reach [abort()], and its loops end. *)
Lemma my_read_returns fuel password realpath st pathname dst dst_len offset
    (fh : option Reader.t) s c :
  reads_ssize_t ->
  (forall i n, g_nodes_by_index st !! i = Some (Some n) ->
     is_Some (nodes st !! n)) ->
  0 <= dst_len ->
  side_buffers_wf s -> readers_wf c ->
  (forall r, fh = Some r -> reader_wf r) ->
  (Z.to_nat offset <= fuel)%nat ->
  exists ret dst' fh' s' c',
    my_read fuel password realpath st pathname dst dst_len offset fh s c
    = Ok (ret, dst', fh', s', c').
Proof.
  intros Hssize Hidx Hlen Hs Hc Hfh Hfuel. unfold my_read.
  destruct (_ || _); [eauto 10|].
  destruct fh as [r|]; [|eauto 10].
  pose proof (Hfh r eq_refl) as Hr.
  destruct (_ || _); [eauto 10|].
  cbv zeta.
  destruct (_ >=? _); [eauto 10|].
  destruct (g_nodes_by_index st !! _) as [[n|]|] eqn:Eslot; cbn [default id];
    [|eauto 10..].
  destruct (Hidx _ _ Eslot) as (node & Enode). rewrite Enode.
  cbn [deref mbind result_bind].
  destruct (Node.size node <? 0); [eauto 10|].
  destruct (Z.leb_spec (Node.size node) offset) as [Hsz|Hsz]; [eauto 10|].
  set (remaining := to_uint64 (Node.size node - offset)).
  assert (Hrem : 0 <= remaining).
  { unfold remaining, to_uint64. apply Z.mod_pos_bound. lia. }
  set (len := if dst_len >? remaining then remaining else dst_len).
  assert (Hlen2 : 0 <= len).
  { unfold len. destruct (Z.gtb_spec dst_len remaining); lia. }
  destruct (Z.eqb_spec len 0) as [_|Hne]; [eauto 10|].
  pose proof (read_from_side_buffer_wf (Reader.index_within_archive r)
                dst len offset s Hs) as Hs1.
  destruct (read_from_side_buffer _ dst len offset s) as [[hit dst1] s1].
  cbn [snd] in Hs1.
  destruct hit; [eauto 10|].
  match goal with
  | |- context [mbind _ ?m] =>
      assert (Hacq : exists r1 c1, m = Ok (r1, c1) /\
                forall x, r1 = Some x -> reader_wf x)
  end.
  { destruct (Z.ltb_spec offset (Reader.offset_within_entry r)) as [Hlt|Hge].
    - destruct (acquire_reader_returns password realpath
                  (Reader.index_within_archive r) c Hc) as (ur & c0 & Ea).
      rewrite Ea. cbn [mbind result_bind].
      destruct (acquire_reader_wf _ _ _ _ _ _ Hc Ea) as [Hc0 Hur].
      destruct ur as [ur|]; [|eexists _, _; split; [reflexivity|discriminate]].
      destruct (_ || _); [eexists _, _; split; [reflexivity|discriminate]|].
      destruct (Reader.swap r ur) as [r' ur'] eqn:Esw.
      eexists _, _. split; [reflexivity|].
      intros x [= <-]. unfold Reader.swap in Esw. injection Esw as <- <-.
      exact (Hur ur eq_refl).
    - eexists _, _. split; [reflexivity|].
      intros x [= <-]. exact Hr. }
  destruct Hacq as (r1 & c1 & -> & Hr1). cbn [mbind result_bind].
  destruct r1 as [r1|]; [|eauto 10].
  pose proof (Hr1 r1 eq_refl) as Hwf1.
  destruct (advance_offset_returns fuel r1 offset pathname s1)
    as (ok & r2 & s2 & Eadv).
  { apply Hwf1. }
  { destruct Hwf1 as (_ & _ & Ho). lia. }
  rewrite Eadv. cbn [mbind result_bind].
  destruct (advance_offset_wf Hssize _ _ _ _ _ _ _ _ Hs1 Hwf1 Eadv)
    as [Hs2 Hr2].
  destruct ok; cbn [negb]; [|eauto 10].
  destruct (read_returns r2 dst1 len pathname) as (k & r3 & dst2 & Erd).
  { apply Hr2. }
  { exact Hlen2. }
  rewrite Erd. cbn [mbind result_bind]. eauto 10.
Qed.

End ReadReturns.

Section ReadResult.
Context `{Libarchive}.
Hypothesis Hssize : reads_ssize_t.


End ReadResult.

Lemma steady_library_reads_within_length :
  reads_within_length (H := steady_library).
Proof.
  intros a len Hlen. cbn. destruct (Z.leb_spec len 0); cbn; lia.
Qed.

Lemma steady_library_reads_make_progress :
  reads_make_progress (H := steady_library).
Proof.
  intros a len Hlen. cbn. destruct (Z.leb_spec len 0); cbn; lia.
Qed.


Lemma one_file_library_reads_within_length :
  @reads_within_length one_file_library.
Proof.
  intros a len Hlen. cbn. destruct (Z.leb_spec len 0); cbn; lia.
Qed.

Lemma one_file_library_reads_make_progress :
  reads_make_progress (H := one_file_library).
Proof.
  intros a len Hlen. cbn. destruct (Z.leb_spec len 0); cbn; lia.
Qed.

Section OpenThenRead.
Context `{Libarchive}.
Hypothesis Hssize : reads_ssize_t.


End OpenThenRead.



(** X11. After start-up every name shows a directory, a regular file or
    a symbolic link without write permission: [my_getattr] returns 0
    with a mode that is one of [S_IFDIR], [S_IFREG] and [S_IFLNK] apart
    from the bits 0555.  [my_readlink] with room for at least one byte
    agrees with it: it returns 0 when that mode is the mode of a
    symbolic link, and [-ENOLINK] without touching the buffer when it
    is not. *)
Theorem start_up_node_kinds `{Libarchive} (fuel : nat) (is_raw : bool)
    (innername : option string) (g g' : initialize_globals)
    (s s' : side_buffers) (error : Z) (st : tree)
    (g_uid g_gid : Z) (K : string) (z : struct_stat) :
  post_initialize_sync fuel is_raw innername g s empty_tree
  = Ok (error, g', s', st) ->
  is_Some (g_nodes_by_name st !! K) ->
  exists stt,
    my_getattr g_uid g_gid st K z = Ok (0, stt) /\
    (Z.land (st_mode stt) (Z.lnot 365) = S_IFDIR \/
     Z.land (st_mode stt) (Z.lnot 365) = S_IFREG \/
     Z.land (st_mode stt) (Z.lnot 365) = S_IFLNK) /\
    forall dst dst_len, 0 < dst_len ->
      if S_ISLNK (st_mode stt)
      then exists dst', my_readlink st K dst dst_len = Ok (0, dst')
      else my_readlink st K dst dst_len = Ok (- ENOLINK, dst).
Proof.
  intros Hrun [n Hn].
  pose proof (post_initialize_sync_inv _ _ _ _ _ _ _ _ _ Hrun) as Hinv.
  pose proof (post_initialize_sync_kinds_inv _ _ _ _ _ _ _ _ _ Hrun) as Hk.
  destruct (inv_names st Hinv K n Hn) as [node Hnode].
  exists (get_stat g_uid g_gid node).
  unfold my_getattr, my_readlink. rewrite Hn, Hnode.
  cbn [deref mbind result_bind get_stat st_mode].
  split; [reflexivity|].
  pose proof (Hk n node Hnode) as Hkind.
  split.
  { destruct Hkind as [(Hm & _)|[(Hm & _)|(Hm & _)]]; auto. }
  intros dst dst_len Hlen.
  destruct (node_kind_is_dir node Hkind) as (_ & [Hl Hl'] & _).
  destruct (Z.eqb_spec dst_len 0) as [|_]; [lia|].
  destruct (S_ISLNK (Node.mode node)).
  - destruct (String.eqb_spec (Node.symlink node) "") as [E|_];
      [destruct (Hl eq_refl E)|].
    cbn [orb]. eauto.
  - destruct (String.eqb_spec (Node.symlink node) "") as [_|E];
      [reflexivity|]. specialize (Hl' E). discriminate.
Qed.

Lemma start_up_node_kinds_witness :
  exists stt,
    my_getattr 1000 1000 two_files_tree "/a/x"
      (Build_struct_stat 0 0 0 0 0 0 0 0) = Ok (0, stt) /\
    (Z.land (st_mode stt) (Z.lnot 365) = S_IFDIR \/
     Z.land (st_mode stt) (Z.lnot 365) = S_IFREG \/
     Z.land (st_mode stt) (Z.lnot 365) = S_IFLNK) /\
    forall dst dst_len, 0 < dst_len ->
      if S_ISLNK (st_mode stt)
      then exists dst', my_readlink two_files_tree "/a/x" dst dst_len
                        = Ok (0, dst')
      else my_readlink two_files_tree "/a/x" dst dst_len
           = Ok (- ENOLINK, dst).
Proof.
  apply (start_up_node_kinds (H := scripted two_files_archive true)
           3 false None two_files_initialize_globals
           (@Build_initialize_globals (scripted two_files_archive true)
              None None (-1))
           zeroed_side_buffers zeroed_side_buffers 0 two_files_tree
           1000 1000 "/a/x" (Build_struct_stat 0 0 0 0 0 0 0 0)).
  - vm_compute. reflexivity.
  - eexists. vm_compute. reflexivity.
Defined.

(** X12. What [my_statfs] reports after start-up: it returns 0, the
    number of files is the number of nodes of the tree, directories
    and the root among them, and the number of blocks is one for every
    node and, for every node that is not a directory, the number of
    512-byte blocks that its size takes. *)
Theorem my_statfs_counts `{Libarchive} (fuel : nat) (is_raw : bool)
    (innername : option string) (g g' : initialize_globals)
    (s s' : side_buffers) (error : Z) (st : tree) :
  post_initialize_sync fuel is_raw innername g s empty_tree
  = Ok (error, g', s', st) ->
  (my_statfs st).1 = 0 /\
  f_files (my_statfs st).2 = Z.of_nat (length (nodes st)) /\
  f_blocks (my_statfs st).2 =
    Z.of_nat (length (nodes st)) +
    foldr Z.add 0
      ((fun x => if Node.is_dir x then 0
                 else Z.quot (Node.size x + 511) 512) <$> nodes st).
Proof.
  intros Hrun.
  destruct (post_initialize_sync_count_inv _ _ _ _ _ _ _ _ _ Hrun)
    as [Hsz Hbc].
  split; [reflexivity|]. cbn [my_statfs snd f_files f_blocks].
  split; [rewrite Hsz; reflexivity|exact Hbc].
Qed.

Lemma my_statfs_counts_witness :
  (my_statfs two_files_tree).1 = 0 /\
  f_files (my_statfs two_files_tree).2 =
    Z.of_nat (length (nodes two_files_tree)) /\
  f_blocks (my_statfs two_files_tree).2 =
    Z.of_nat (length (nodes two_files_tree)) +
    foldr Z.add 0
      ((fun x => if Node.is_dir x then 0
                 else Z.quot (Node.size x + 511) 512) <$>
       nodes two_files_tree).
Proof.
  apply (my_statfs_counts (H := scripted two_files_archive true)
           3 false None two_files_initialize_globals
           (@Build_initialize_globals (scripted two_files_archive true)
              None None (-1))
           zeroed_side_buffers zeroed_side_buffers 0 two_files_tree).
  vm_compute. reflexivity.
Defined.


(** ** Files stay as they are *)

Lemma one_file_tree_inv : tree_inv one_file_tree.
Proof.
  apply (insert_leaf_node_inv "/a/x" "" 0 3 5 (Z.lor S_IFREG 256)
           (insert_root_node empty_tree) one_file_tree 0
           insert_root_node_inv).
  vm_compute. reflexivity.
Qed.

(** X13. The first entry with a pathname wins, and a file never
    changes: whatever entries the loop of [build_tree] goes on to
    insert, every name stays bound to its node, and a node that is not
    a directory keeps its name, its link target, its archive index, its
    size, its mtime, its mode and its parent, so that [my_getattr] and
    [my_readlink] show it as before. *)
Theorem build_tree_keeps_files `{Libarchive} (fuel : nat) (is_raw : bool)
    (innername : option string) (first : bool) (g g' : initialize_globals)
    (s s' : side_buffers) (st st' : tree) (ret : Z)
    (K : string) (n : nat) (x : Node.t) :
  tree_inv st ->
  build_tree_loop fuel is_raw innername first g s st = Ok (ret, g', s', st') ->
  g_nodes_by_name st !! K = Some n -> nodes st !! n = Some x ->
  Node.is_dir x = false ->
  exists x',
    g_nodes_by_name st' !! K = Some n /\ nodes st' !! n = Some x' /\
    Node.rel_name x' = Node.rel_name x /\
    Node.symlink x' = Node.symlink x /\
    Node.index_within_archive x' = Node.index_within_archive x /\
    Node.size x' = Node.size x /\ Node.mtime x' = Node.mtime x /\
    Node.mode x' = Node.mode x /\ Node.parent x' = Node.parent x /\
    (forall g_uid g_gid z,
       my_getattr g_uid g_gid st' K z = my_getattr g_uid g_gid st K z) /\
    (forall dst dst_len,
       my_readlink st' K dst dst_len = my_readlink st K dst dst_len).
Proof.
  intros Hinv Hrun HK Hx Hd.
  destruct (build_tree_loop_preserves (files_kept st)
              (insert_leaf_node_files_kept st) fuel is_raw innername
              first g s st ret g' s' st' Hinv (files_kept_refl st) Hrun)
    as [Hnames Hnodes].
  destruct (Hnodes n x Hx) as (x' & Hx' & E1 & E2 & E3 & E4 & E5 & E6).
  destruct (E6 Hd) as (E7 & E8 & E9).
  exists x'. rewrite (Hnames K n HK).
  repeat (split; [assumption||reflexivity|]).
  split.
  - intros g_uid g_gid z. unfold my_getattr.
    rewrite (Hnames K n HK), HK, Hx, Hx'. cbn [deref mbind result_bind].
    unfold get_stat, Node.get_block_count. rewrite E7, E8, E9. reflexivity.
  - intros dst dst_len. unfold my_readlink.
    rewrite (Hnames K n HK), HK, Hx, Hx'. cbn [deref mbind result_bind].
    rewrite E2. reflexivity.
Qed.


Lemma build_tree_keeps_files_witness :
  exists x',
    g_nodes_by_name collision_tree !! "/a/x" = Some 2%nat /\
    nodes collision_tree !! 2%nat = Some x' /\
    Node.rel_name x' = "x" /\ Node.symlink x' = "" /\
    Node.index_within_archive x' = 0 /\
    Node.size x' = 3 /\ Node.mtime x' = 5 /\
    Node.mode x' = Z.lor S_IFREG 256 /\ Node.parent x' = Some 1%nat /\
    (forall g_uid g_gid z,
       my_getattr g_uid g_gid collision_tree "/a/x" z
       = my_getattr g_uid g_gid one_file_tree "/a/x" z) /\
    (forall dst dst_len,
       my_readlink collision_tree "/a/x" dst dst_len
       = my_readlink one_file_tree "/a/x" dst dst_len).
Proof.
  apply (build_tree_keeps_files (H := scripted collision_archive true)
           2 false None false collision_initialize_globals
           (@Build_initialize_globals (scripted collision_archive true)
              (Some {| script_headers := []; script_remaining := 3;
                       script_data_error := false |})
              None 2)
           zeroed_side_buffers zeroed_side_buffers
           one_file_tree collision_tree 0 "/a/x" 2%nat
           (Node.set_parent (Some 1%nat)
              (Node.new "x" "" 0 3 5 (Z.lor S_IFREG 256)))).
  - exact one_file_tree_inv.
  - vm_compute. reflexivity.
  - vm_compute. reflexivity.
  - vm_compute. reflexivity.
  - reflexivity.
Defined.


(** ** An insertion returns, and binds its name *)

Lemma dir_paths_head (q A cur : string) : A ∈ dir_paths A cur q.
Proof.
  rewrite dir_paths_scan. destruct (scan_fragment q) as [rel [q'|]];
    apply list_elem_of_here.
Qed.

Section InsertTotal.
Variables (symlink : string) (idx size mtime mode : Z).

(** The loop of [insert_leaf_node] returns; and when the name of the
    leaf is free and no name on the way to it is bound to a file, it
    binds the name to a new leaf with the fields given. *)
Lemma insert_leaf_node_loop_total :
  0 <= idx ->
  forall q A parent st,
    walk_pre mtime mode st A parent ->
    Z.of_nat (length (g_nodes_by_index st)) <= idx ->
    exists st',
      insert_leaf_node_loop symlink idx size mtime (branch_mode_of mode)
        (leaf_mode_of symlink mode) (A +:+ "/") q parent st = Ok (0, st') /\
      (g_nodes_by_name st !! (A +:+ "/" +:+ q) = None ->
       (forall B m M, B ∈ dir_paths A (A +:+ "/") q ->
          g_nodes_by_name st !! B = Some m -> nodes st !! m = Some M ->
          Node.is_dir M = true) ->
       exists n x B,
         g_nodes_by_name st' !! (A +:+ "/" +:+ q) = Some n /\
         nodes st' !! n = Some x /\ length (nodes st') = S n /\
         A +:+ "/" +:+ q = B +:+ "/" +:+ Node.rel_name x /\
         no_slash (Node.rel_name x) = true /\
         Node.symlink x = symlink /\ Node.index_within_archive x = idx /\
         Node.size x = size /\ Node.mtime x = mtime /\
         Node.mode x = leaf_mode_of symlink mode /\
         g_nodes_by_index st' !! Z.to_nat idx = Some (Some n)).
Proof.
  intros Hidx q. remember (String.length q) as len eqn:Hlen.
  revert q Hlen. induction len as [len IH] using lt_wf_ind.
  intros q -> A parent st (Hinv & Hda & pn & Hp & Hd & Hpp) Hby.
  rewrite insert_leaf_node_loop_unfold.
  rewrite (update_ok (nodes st) parent _ pn Hp). cbn [mbind result_bind].
  destruct (touch_parent_inv mtime mode st parent pn Hinv Hp Hd Hpp)
    as (Hinv1 & Hle1 & Hp1).
  set (st1 := set_nodes (<[parent := touch mtime (branch_mode_of mode) pn]>
                           (nodes st)) st) in *.
  assert (Hda1 : dir_at st1 A = Some parent) by exact Hda.
  assert (Hd1 : Node.is_dir (touch mtime (branch_mode_of mode) pn) = true)
    by (apply touch_is_dir; exact Hd).
  assert (Hmt1 : mtime <= Node.mtime (touch mtime (branch_mode_of mode) pn))
    by (rewrite touch_mtime; lia).
  assert (Hbb1 : bits_sub (branch_bits mode)
                   (Node.mode (touch mtime (branch_mode_of mode) pn))).
  { rewrite touch_mode, branch_mode_of_eq.
    eapply bits_sub_trans; [apply bits_sub_lor_l|apply bits_sub_lor_r]. }
  (* a name bound in [st1] to a directory of [st] is bound to a directory *)
  assert (Hdir1 : forall m M1, nodes st1 !! m = Some M1 ->
            exists M, nodes st !! m = Some M /\
              Node.is_dir M1 = Node.is_dir M).
  { intros m M1 HM1.
    assert (Hm : (m < length (nodes st))%nat).
    { apply lookup_lt_Some in HM1. unfold st1 in HM1. cbn in HM1.
      rewrite length_insert in HM1. exact HM1. }
    destruct (lookup_lt_is_Some_2 (nodes st) m Hm) as [M HM].
    destruct (le_nodes st st1 Hle1 m M HM) as (M' & HM' & _ & _ & _ & _ & E).
    exists M. split; [exact HM|]. congruence. }
  pose proof (dir_paths_scan q A (A +:+ "/")) as Hpaths.
  destruct (scan_fragment q) as [rel [q'|]] eqn:Es.
  - apply scan_fragment_some in Es as (-> & Hns & Hlt).
    assert (Hpre : (A +:+ "/") +:+ rel +:+ "/" = (A +:+ "/" +:+ rel) +:+ "/")
      by (rewrite !string_app_assoc; reflexivity).
    assert (HK : A +:+ "/" +:+ rel +:+ "/" +:+ q'
                 = (A +:+ "/" +:+ rel) +:+ "/" +:+ q')
      by (rewrite !string_app_assoc; reflexivity).
    rewrite Hpre, (string_app_assoc A "/" rel) in *. clear Hpre.
    rewrite HK.
    unfold insert_leaf_node_branch.
    destruct (g_nodes_by_name st1 !! (A +:+ "/" +:+ rel)) as [n|] eqn:En.
    + destruct (inv_names st1 Hinv1 _ n En) as [node Hnode].
      rewrite Hnode. cbn [deref mbind result_bind].
      destruct (Node.is_dir node) eqn:Hnd; cbn [negb mbind result_bind].
      2:{ eexists. split; [reflexivity|]. intros _ Hfree.
          destruct (Hdir1 n node Hnode) as (M & HM & E).
          rewrite (Hfree (A +:+ "/" +:+ rel) n M) in E;
            [congruence| |exact En|exact HM].
          rewrite Hpaths. apply list_elem_of_further, dir_paths_head. }
      destruct (IH (String.length q') Hlt q' eq_refl (A +:+ "/" +:+ rel) n st1)
        as (st' & Hrun & Hbind);
        [eapply walk_pre_found; eauto|exact Hby|].
      exists st'. split; [exact Hrun|].
      intros Hnone Hfree. apply Hbind; [exact Hnone|].
      intros B m M1 HB Hm HM1.
      destruct (Hdir1 m M1 HM1) as (M & HM & ->).
      apply (Hfree B m M); [|exact Hm|exact HM].
      rewrite Hpaths. apply list_elem_of_further. exact HB.
    + destruct (attach_inv st1 A rel parent
                  (touch mtime (branch_mode_of mode) pn)
                  (Node.new rel "" (-1) 0 mtime (branch_mode_of mode))
                  (g_nodes_by_index st1) (g_block_count st1 + 1))
        as (nodes2 & new' & Hadd & Hnew' & Hm & Ht & Hi & Hpar & Hlen2
            & Hinv2 & Hle2); try assumption; try reflexivity.
      { unfold contrib, Node.is_dir. cbn [Node.mode Node.new].
        rewrite is_dir_branch_mode, land_branch_mode_perm. exact Hbb1. }
      rewrite Hadd. cbn [mbind result_bind].
      match goal with
      | |- context [insert_leaf_node_loop _ _ _ _ _ _ _ _ _ ?s] =>
          set (st2 := s) in *
      end.
      destruct (IH (String.length q') Hlt q' eq_refl
                  (A +:+ "/" +:+ rel) (length (nodes st1)) st2)
        as (st' & Hrun & Hbind); [|exact Hby|].
      { split; [exact Hinv2|].
        split; [rewrite dir_at_named; apply lookup_insert_eq|].
        exists new'. split; [exact Hnew'|].
        split.
        { unfold Node.is_dir. rewrite Hm. apply is_dir_branch_mode. }
        intros pp ppn Hnpar Hppn.
        assert (pp = parent) as -> by congruence.
        destruct (le_nodes st1 st2 Hle2 parent _ Hp1)
          as (x' & Hx' & Hxt & Hxm & _).
        assert (ppn = x') as ->.
        { rewrite Hppn in Hx'. injection Hx' as Hx'. exact Hx'. }
        split; [lia|]. eapply bits_sub_trans; eauto. }
      exists st'. split; [exact Hrun|].
      intros Hnone Hfree. apply Hbind.
      { unfold st2. cbn [g_nodes_by_name].
        rewrite lookup_insert_ne by (intros E; symmetry in E;
                                     exact (string_app_slash_longer _ _ E)).
        exact Hnone. }
      intros B m M2 HB Hm2 HM2.
      unfold st2 in Hm2, HM2. cbn [g_nodes_by_name nodes] in Hm2, HM2.
      destruct (decide (B = A +:+ "/" +:+ rel)) as [->|HBne].
      * rewrite lookup_insert_eq in Hm2. injection Hm2 as Hm2.
        assert (Hn2 : nodes2 !! m = Some new')
          by (rewrite <- Hm2; exact Hnew').
        rewrite Hn2 in HM2. injection HM2 as <-.
        unfold Node.is_dir. rewrite Hm. apply is_dir_branch_mode.
      * rewrite lookup_insert_ne in Hm2 by congruence.
        destruct (inv_names st1 Hinv1 _ m Hm2) as [M1 HM1].
        destruct (le_nodes st1 st2 Hle2 m M1 HM1)
          as (M2' & HM2' & _ & _ & _ & _ & E).
        assert (M2' = M2) as ->.
        { unfold st2 in HM2'. cbn [nodes] in HM2'. congruence. }
        rewrite E. destruct (Hdir1 m M1 HM1) as (M & HM & ->).
        apply (Hfree B m M); [|exact Hm2|exact HM].
        rewrite Hpaths. apply list_elem_of_further. exact HB.
  - apply scan_fragment_none in Es as (-> & Hns).
    rewrite (string_app_assoc A "/" rel).
    unfold insert_leaf_node_terminal.
    destruct (g_nodes_by_name st1 !! (A +:+ "/" +:+ rel)) as [n|] eqn:En.
    + cbn [mbind result_bind]. eexists. split; [reflexivity|].
      intros Hnone. unfold st1 in En. cbn [set_nodes g_nodes_by_name] in En.
      congruence.
    + destruct (attach_inv st1 A rel parent
                  (touch mtime (branch_mode_of mode) pn)
                  (Node.new rel symlink idx size mtime
                     (leaf_mode_of symlink mode))
                  (g_nodes_by_index st1) (g_block_count st1))
        as (nodes2 & new' & Hadd & Hnew' & _ & _ & _ & _ & Hlen2 & _);
        try assumption; try reflexivity.
      { unfold contrib, Node.is_dir. cbn [Node.mode Node.new].
        rewrite is_dir_leaf_mode, branch_bits_leaf_mode. exact Hbb1. }
      rewrite Hadd. cbn [mbind result_bind]. rewrite Hnew'.
      cbn [deref mbind result_bind].
      destruct (Z.gtb_spec (Z.of_nat (length (g_nodes_by_index st1))) idx)
        as [Hgt|Hle]; [unfold st1 in Hgt; cbn in Hgt; lia|].
      cbn [mbind result_bind]. eexists. split; [reflexivity|].
      intros _ _.
      destruct (add_child_new_fields _ _ _ _ _ Hp1 Hadd)
        as (_ & _ & n' & Hn' & E1 & E2 & E3 & E4 & E5 & E6 & _).
      assert (n' = new') as -> by congruence.
      exists (length (nodes st1)), new', A.
      cbn [nodes g_nodes_by_name g_nodes_by_index].
      rewrite lookup_insert_eq, E1, E2, E3, E4, E5, E6.
      cbn [Node.new Node.rel_name Node.symlink Node.index_within_archive
           Node.size Node.mtime Node.mode].
      repeat (split; [assumption||reflexivity|]).
      rewrite lookup_app_r by (rewrite length_resize; lia).
      rewrite length_resize, Nat.sub_diag. reflexivity.
Qed.

End InsertTotal.

(** X14. Inserting a leaf and looking it up.  In a tree that satisfies
    its invariants, [insert_leaf_node] with an archive index that is
    not negative and not yet in [g_nodes_by_index] returns.  When the
    pathname starts with a slash, is not bound and no pathname above it
    is bound to a file, it returns 0 and the pathname is bound to a new
    node, the last one allocated, with the link target, the archive
    index, the size and the mtime given and with the read and execute
    bits of the mode given on its type; its name is the text after the
    last slash; [g_nodes_by_index] has it at its archive index, and
    [my_getattr] shows it. *)
Theorem insert_leaf_node_then_lookup (st : tree) (k symlink : string)
    (idx size mtime mode : Z) (g_uid g_gid : Z) (z : struct_stat) :
  tree_inv st -> 0 <= idx ->
  Z.of_nat (length (g_nodes_by_index st)) <= idx ->
  g_nodes_by_name st !! ("/" +:+ k) = None ->
  (forall B m M, B ∈ ancestor_paths ("/" +:+ k) ->
     g_nodes_by_name st !! B = Some m -> nodes st !! m = Some M ->
     Node.is_dir M = true) ->
  exists st' n x B,
    insert_leaf_node ("/" +:+ k) symlink idx size mtime mode st
    = Ok (0, st') /\
    g_nodes_by_name st' !! ("/" +:+ k) = Some n /\
    nodes st' !! n = Some x /\ length (nodes st') = S n /\
    "/" +:+ k = B +:+ "/" +:+ Node.rel_name x /\
    no_slash (Node.rel_name x) = true /\
    Node.symlink x = symlink /\ Node.index_within_archive x = idx /\
    Node.size x = size /\ Node.mtime x = mtime /\
    Node.mode x =
      Z.lor (Z.land mode 365)
        (if String.eqb symlink "" then S_IFREG else S_IFLNK) /\
    g_nodes_by_index st' !! Z.to_nat idx = Some (Some n) /\
    my_getattr g_uid g_gid st' ("/" +:+ k) z =
      Ok (0,
          {| st_mode :=
               Z.lor (Z.land mode 365)
                 (if String.eqb symlink "" then S_IFREG else S_IFLNK);
             st_nlink := 1; st_uid := g_uid; st_gid := g_gid;
             st_size := size; st_mtime := mtime; st_blksize := 512;
             st_blocks := Z.quot (size + 511) 512 |}).
Proof.
  intros Hinv Hidx Hby Hnone Hfree.
  destruct (inv_root st Hinv) as (root & rnode & Hr & Hrn & Hrd & Hrp & _).
  destruct (insert_leaf_node_loop_total symlink idx size mtime mode Hidx
              k "" root st) as (st' & Hrun & Hbind); [|exact Hby|].
  { split; [exact Hinv|]. split; [exact Hr|].
    exists rnode. split; [exact Hrn|]. split; [exact Hrd|].
    intros pp ppn Hpp. congruence. }
  destruct (Hbind Hnone Hfree)
    as (n & x & B & Hn & Hx & Hlen & HB & Hns & E1 & E2 & E3 & E4 & E5
        & Hi).
  exists st', n, x, B.
  split.
  { unfold insert_leaf_node. destruct (Z.ltb_spec idx 0) as [|_]; [lia|].
    change ("/" +:+ k) with (String "/" k). cbn [Ascii.eqb negb].
    rewrite Hr. cbn [deref mbind result_bind Ascii.eqb Bool.eqb negb].
    exact Hrun. }
  repeat (split; [assumption|]).
  unfold my_getattr. change ("" +:+ "/" +:+ k) with ("/" +:+ k) in Hn.
  rewrite Hn, Hx. cbn [deref mbind result_bind].
  unfold get_stat, Node.get_block_count. rewrite E3, E4, E5. reflexivity.
Qed.

Lemma insert_leaf_node_then_lookup_witness :
  exists st' n x B,
    insert_leaf_node ("/" +:+ "a/y") "" 1 4 6 (Z.lor S_IFREG 365)
      one_file_tree = Ok (0, st') /\
    g_nodes_by_name st' !! ("/" +:+ "a/y") = Some n /\
    nodes st' !! n = Some x /\ length (nodes st') = S n /\
    "/" +:+ "a/y" = B +:+ "/" +:+ Node.rel_name x /\
    no_slash (Node.rel_name x) = true /\
    Node.symlink x = "" /\ Node.index_within_archive x = 1 /\
    Node.size x = 4 /\ Node.mtime x = 6 /\
    Node.mode x =
      Z.lor (Z.land (Z.lor S_IFREG 365) 365)
        (if String.eqb "" "" then S_IFREG else S_IFLNK) /\
    g_nodes_by_index st' !! Z.to_nat 1 = Some (Some n) /\
    my_getattr 1000 1000 st' ("/" +:+ "a/y")
      (Build_struct_stat 0 0 0 0 0 0 0 0) =
      Ok (0,
          {| st_mode :=
               Z.lor (Z.land (Z.lor S_IFREG 365) 365)
                 (if String.eqb "" "" then S_IFREG else S_IFLNK);
             st_nlink := 1; st_uid := 1000; st_gid := 1000;
             st_size := 4; st_mtime := 6; st_blksize := 512;
             st_blocks := Z.quot (4 + 511) 512 |}).
Proof.
  apply (insert_leaf_node_then_lookup one_file_tree "a/y" "" 1 4 6
           (Z.lor S_IFREG 365) 1000 1000 (Build_struct_stat 0 0 0 0 0 0 0 0)).
  - exact one_file_tree_inv.
  - lia.
  - vm_compute. discriminate.
  - vm_compute. reflexivity.
  - intros B m M HB. vm_compute in HB.
    apply elem_of_cons in HB as [->|HB];
      [vm_compute; discriminate|].
    apply elem_of_cons in HB as [->|HB]; [|inversion HB].
    intros Hm. vm_compute in Hm. injection Hm as <-.
    intros HM. vm_compute in HM. injection HM as <-. reflexivity.
Defined.


(** ** Start-up does not abort *)

Lemma insert_leaf_node_returns (pathname symlink : string)
    (idx size mtime mode : Z) (st : tree) :
  tree_inv st -> Z.of_nat (length (g_nodes_by_index st)) <= idx ->
  exists ret st',
    insert_leaf_node pathname symlink idx size mtime mode st = Ok (ret, st') /\
    (ret = 0 \/ ret = - EIO) /\
    Z.of_nat (length (g_nodes_by_index st')) <= idx + 1.
Proof.
  intros Hinv Hby.
  assert (Hsame : exists ret st',
            Ok (0, st) = Ok (ret, st') /\ (ret = 0 \/ ret = - EIO) /\
            Z.of_nat (length (g_nodes_by_index st')) <= idx + 1).
  { eexists _, _. split; [reflexivity|]. split; [auto|lia]. }
  assert (Hrun : exists ret st',
            insert_leaf_node pathname symlink idx size mtime mode st
            = Ok (ret, st') /\ (ret = 0 \/ ret = - EIO)).
  { unfold insert_leaf_node.
    destruct (Z.ltb_spec idx 0) as [|Hidx]; [eauto|].
    destruct pathname as [|c q]; [eauto|].
    destruct (negb (Ascii.eqb c "/")); [eauto|].
    destruct (inv_root st Hinv) as (root & rnode & Hr & Hrn & Hrd & Hrp & _).
    rewrite Hr. cbn [deref mbind result_bind].
    destruct (insert_leaf_node_loop_total symlink idx size mtime mode Hidx
                q "" root st) as (st' & Hrun & _); [|exact Hby|eauto].
    split; [exact Hinv|]. split; [exact Hr|].
    exists rnode. split; [exact Hrn|]. split; [exact Hrd|].
    intros pp ppn Hpp. congruence. }
  destruct Hrun as (ret & st' & Hrun & Hret).
  exists ret, st'. split; [exact Hrun|]. split; [exact Hret|].
  revert Hrun.
  apply (insert_leaf_node_preserves symlink idx size mtime mode
           (fun st => Z.of_nat (length (g_nodes_by_index st)) <= idx + 1));
    [auto|auto| |exact Hinv|lia].
  intros st0 A rel parent pn nodes2 node _ _ _ _ _ _ _ _ _ Hidx Hle.
  cbn [g_nodes_by_index]. rewrite length_app, length_resize. cbn. lia.
Qed.

Section NeverAborts.
Context `{Libarchive}.
Hypothesis Hheaders : headers_set_entry.
Hypothesis Hreads : reads_within_length.

Lemma insert_leaf_measure_returns fuel a (s : side_buffers) size :
  is_Some a ->
  insert_leaf_measure fuel a s size <> Aborted /\
  forall sz a' s', insert_leaf_measure fuel a s size = Ok (sz, a', s') ->
    is_Some a'.
Proof.
  revert a s size. induction fuel as [|fuel IH]; intros a s size [a0 ->];
    [split; discriminate|].
  cbn [insert_leaf_measure deref mbind result_bind].
  pose proof (Hreads a0 SIDE_BUFFER_SIZE ltac:(unfold SIDE_BUFFER_SIZE; lia))
    as Hn.
  destruct (archive_read_data a0 SIDE_BUFFER_SIZE) as [[n bytes] a'].
  cbn [fst] in Hn.
  destruct (n =? 0); [split; [discriminate|intros ? ? ? [= <- <- <-]; eauto]|].
  destruct (n <? 0); [split; [discriminate|intros ? ? ? [= <- <- <-]; eauto]|].
  destruct (Z.gtb_spec n SIDE_BUFFER_SIZE) as [|_]; [lia|].
  apply IH. eauto.
Qed.

Lemma insert_leaf_returns fuel is_raw innername a e idx (s : side_buffers)
    (st : tree) :
  tree_inv st -> is_Some a ->
  Z.of_nat (length (g_nodes_by_index st)) <= idx ->
  insert_leaf fuel is_raw innername a e idx s st <> Aborted /\
  forall ret a' s' st',
    insert_leaf fuel is_raw innername a e idx s st = Ok (ret, a', s', st') ->
    is_Some a' /\ (ret = 0 \/ ret = - EIO) /\
    Z.of_nat (length (g_nodes_by_index st')) <= idx + 1.
Proof.
  intros Hinv Ha Hby. unfold insert_leaf.
  assert (Hskip : forall r, r = 0 \/ r = - EIO ->
            Ok (r, a, s, st) <> Aborted /\
            forall ret a' s' st',
              Ok (r, a, s, st) = Ok (ret, a', s', st') ->
              is_Some a' /\ (ret = 0 \/ ret = - EIO) /\
              Z.of_nat (length (g_nodes_by_index st')) <= idx + 1).
  { intros r Hr. split; [discriminate|]. intros ? ? ? ? [= <- <- <- <-].
    split; [exact Ha|]. split; [exact Hr|lia]. }
  destruct (String.eqb _ ""); [apply Hskip; auto|].
  destruct (_ || _); [apply Hskip; auto|].
  destruct (_ && _); [apply Hskip; auto|].
  match goal with
  | |- context [insert_leaf_node ?p ?l idx _ ?t ?m st] =>
      set (pathname := p); set (symlink := l); set (mtime := t);
      set (mode := m)
  end.
  assert (Hnode : forall size (a1 : option struct_archive)
                         (s1 : side_buffers), is_Some a1 ->
            ('(ret, st') ← insert_leaf_node pathname symlink idx size mtime
                             mode st;
             Ok (ret, a1, s1, st')) <> Aborted /\
            forall ret a' s' st',
              ('(ret, st') ← insert_leaf_node pathname symlink idx size mtime
                               mode st;
               Ok (ret, a1, s1, st')) = Ok (ret, a', s', st') ->
              is_Some a' /\ (ret = 0 \/ ret = - EIO) /\
              Z.of_nat (length (g_nodes_by_index st')) <= idx + 1).
  { intros size a1 s1 Ha1.
    destruct (insert_leaf_node_returns pathname symlink idx size mtime mode
                st Hinv Hby) as (r & st1 & -> & Hr & Hlen).
    cbn [mbind result_bind]. split; [discriminate|].
    intros ? ? ? ? [= <- <- <- <-]. auto. }
  destruct (negb (archive_entry_size_is_set e)).
  - destruct (insert_leaf_measure_returns fuel a s (archive_entry_size e) Ha)
      as [Hna Hsome].
    destruct (insert_leaf_measure fuel a s (archive_entry_size e))
      as [[[sz a1] s1]| |]; cbn [mbind result_bind];
      [|congruence|split; discriminate].
    pose proof (Hsome sz a1 s1 eq_refl) as Ha1.
    destruct sz as [size|]; [apply Hnode; exact Ha1|].
    split; [discriminate|]. intros ? ? ? ? [= <- <- <- <-].
    split; [exact Ha1|]. split; [auto|lia].
  - cbn [mbind result_bind]. apply Hnode. exact Ha.
Qed.

Lemma build_tree_loop_returns fuel is_raw innername :
  forall (first : bool) g (s : side_buffers) (st : tree),
    tree_inv st -> is_Some (g_initialize_archive g) ->
    (first = true -> is_Some (g_initialize_archive_entry g)) ->
    Z.of_nat (length (g_nodes_by_index st)) <=
      g_initialize_index_within_archive g + (if first then 0 else 1) ->
    build_tree_loop fuel is_raw innername first g s st <> Aborted /\
    forall ret g' s' st',
      build_tree_loop fuel is_raw innername first g s st
      = Ok (ret, g', s', st') ->
      ret = 0 \/ ret = - EIO.
Proof.
  induction fuel as [|fuel IH]; intros first g s st Hinv [a Ha] He Hby;
    [split; discriminate|].
  cbn [build_tree_loop].
  (* the globals and the entry after the header has been read *)
  assert (Hhead :
    forall g1 e,
      is_Some (g_initialize_archive g1) ->
      g_initialize_archive_entry g1 = Some e ->
      Z.of_nat (length (g_nodes_by_index st)) <=
        g_initialize_index_within_archive g1 ->
      (e0 ← deref (g_initialize_archive_entry g1);
       if S_ISDIR (archive_entry_mode e0) then
         build_tree_loop fuel is_raw innername false g1 s st
       else
         '(ret, a, s, st) ←
           insert_leaf (S fuel) is_raw innername (g_initialize_archive g1) e0
             (g_initialize_index_within_archive g1) s st;
         let g :=
           {| g_initialize_archive := a;
              g_initialize_archive_entry := g_initialize_archive_entry g1;
              g_initialize_index_within_archive :=
                g_initialize_index_within_archive g1 |} in
         if negb (ret =? 0) then Ok (ret, g, s, st)
         else build_tree_loop fuel is_raw innername false g s st) <> Aborted /\
      forall ret g' s' st',
        (e0 ← deref (g_initialize_archive_entry g1);
         if S_ISDIR (archive_entry_mode e0) then
           build_tree_loop fuel is_raw innername false g1 s st
         else
           '(ret, a, s, st) ←
             insert_leaf (S fuel) is_raw innername (g_initialize_archive g1) e0
               (g_initialize_index_within_archive g1) s st;
           let g :=
             {| g_initialize_archive := a;
                g_initialize_archive_entry := g_initialize_archive_entry g1;
                g_initialize_index_within_archive :=
                  g_initialize_index_within_archive g1 |} in
           if negb (ret =? 0) then Ok (ret, g, s, st)
           else build_tree_loop fuel is_raw innername false g s st)
        = Ok (ret, g', s', st') ->
        ret = 0 \/ ret = - EIO).
  { intros g1 e Ha1 He1 Hby1. rewrite He1. cbn [deref mbind result_bind].
    destruct (S_ISDIR (archive_entry_mode e)).
    { apply IH; [exact Hinv|exact Ha1|discriminate|lia]. }
    destruct (insert_leaf_returns (S fuel) is_raw innername
                (g_initialize_archive g1) e
                (g_initialize_index_within_archive g1) s st Hinv Ha1 Hby1)
      as [Hna Hres].
    destruct (insert_leaf _ _ _ _ _ _ _ st) as [[[[r a1] s1] st1]| |] eqn:El;
      cbn [mbind result_bind]; [|congruence|split; discriminate].
    destruct (Hres r a1 s1 st1 eq_refl) as (Ha1' & Hr & Hlen).
    destruct (insert_leaf_inv _ _ _ _ _ _ _ _ _ _ _ _ Hinv El) as [Hinv1 _].
    destruct (negb (r =? 0)).
    { split; [discriminate|]. intros ? ? ? ? [= <- <- <- <-]. exact Hr. }
    apply IH; [exact Hinv1|exact Ha1'|discriminate|exact Hlen]. }
  destruct first.
  - cbn [mbind result_bind negb].
    destruct (He eq_refl) as [e He1].
    apply (Hhead g e); [eauto|exact He1|lia].
  - rewrite Ha. cbn [deref mbind result_bind].
    pose proof (Hheaders a) as Hent.
    destruct (archive_read_next_header a) as [[status e] a'].
    cbn [fst snd] in Hent.
    destruct (Z.eqb_spec status ARCHIVE_EOF) as [|_].
    { cbn [mbind result_bind negb]. split; [discriminate|].
      intros ? ? ? ? [= <- <- <- <-]. auto. }
    destruct (Z.eqb_spec status ARCHIVE_WARN) as [Hw|_].
    { cbn [mbind result_bind negb].
      destruct Hent as [e1 ->]; [auto|].
      apply (Hhead _ e1); [cbn; eauto|reflexivity|cbn; lia]. }
    destruct (Z.eqb_spec status ARCHIVE_OK) as [Hok|_]; cbn [negb].
    2:{ cbn [mbind result_bind negb]. split; [discriminate|].
        intros ? ? ? ? [= <- <- <- <-]. auto. }
    cbn [mbind result_bind negb].
    destruct Hent as [e1 ->]; [auto|].
    apply (Hhead _ e1); [cbn; eauto|reflexivity|cbn; lia].
Qed.

(** X15. Start-up does not abort.  With a library that sets the entry
    whenever it returns a header and that never reads more than the
    length asked for, [post_initialize_sync], entered as
    [pre_initialize] leaves the globals, with a stream and its first
    entry, trips no assertion, in [Node::add_child] or in
    [insert_leaf_node], calls [abort] nowhere and follows no null
    pointer; and what it returns is 0 or [-EIO]. *)
Theorem start_up_never_aborts (fuel : nat) (is_raw : bool)
    (innername : option string) (g : initialize_globals)
    (s : side_buffers) :
  is_Some (g_initialize_archive g) ->
  is_Some (g_initialize_archive_entry g) ->
  post_initialize_sync fuel is_raw innername g s empty_tree <> Aborted /\
  forall error g' s' st,
    post_initialize_sync fuel is_raw innername g s empty_tree
    = Ok (error, g', s', st) ->
    error = 0 \/ error = - EIO.
Proof.
  intros Ha He. unfold post_initialize_sync, build_tree.
  cbn [g_root_node empty_tree].
  destruct (Z.ltb_spec (g_initialize_index_within_archive g) 0) as [|Hidx].
  { cbn [mbind result_bind]. split; [discriminate|].
    intros ? ? ? ? [= <- <- <- <-]. auto. }
  destruct (build_tree_loop_returns fuel is_raw innername true g s
              (insert_root_node empty_tree) insert_root_node_inv Ha
              (fun _ => He) ltac:(cbn; lia)) as [Hna Hres].
  destruct (build_tree_loop _ _ _ _ _ _ _) as [[[[r g1] s1] st1]| |];
    cbn [mbind result_bind]; [|congruence|split; discriminate].
  split; [discriminate|]. intros ? ? ? ? [= <- <- <- <-].
  exact (Hres r g1 s1 st1 eq_refl).
Qed.

End NeverAborts.

Lemma one_file_library_headers_set_entry : @headers_set_entry one_file_library.
Proof.
  intros [|a]; cbn; [intros [E|E]; discriminate E|eauto].
Qed.

Lemma start_up_never_aborts_witness :
  post_initialize_sync (H := one_file_library) 2 false None
    one_file_initialize_globals zeroed_side_buffers empty_tree <> Aborted /\
  forall error g' s' st,
    post_initialize_sync (H := one_file_library) 2 false None
      one_file_initialize_globals zeroed_side_buffers empty_tree
    = Ok (error, g', s', st) ->
    error = 0 \/ error = - EIO.
Proof.
  apply (start_up_never_aborts (H := one_file_library)
           one_file_library_headers_set_entry
           one_file_library_reads_within_length 2 false None
           one_file_initialize_globals zeroed_side_buffers).
  - eexists. reflexivity.
  - eexists. reflexivity.
Defined.


(** ** The lists of children *)

Lemma update_lookup (h h1 : list Node.t) (p : nat) (f : Node.t -> Node.t) :
  Node.update h p f = Ok h1 ->
  length h1 = length h /\
  forall k, h1 !! k = if decide (k = p) then f <$> h !! k else h !! k.
Proof.
  unfold Node.update. destruct (h !! p) as [x|] eqn:Hp;
    cbn [deref mbind result_bind]; [|discriminate].
  intros [= <-]. split; [apply length_insert|]. intros k.
  destruct (decide (k = p)) as [->|Hne].
  - rewrite list_lookup_insert_eq by (eapply lookup_lt_Some; eauto).
    rewrite Hp. reflexivity.
  - apply list_lookup_insert_ne. congruence.
Qed.

(** The links after [add_child]. *)
Lemma add_child_exact (h : list Node.t) (this n : nat) (h' : list Node.t)
    (self : Node.t) :
  h !! this = Some self ->
  Node.add_child h this n = Ok h' ->
  length h' = length h /\
  forall k x, h !! k = Some x ->
    exists x',
      h' !! k = Some x' /\
      Node.parent x' = (if decide (k = n) then Some this else Node.parent x) /\
      Node.first_child x' =
        (if decide (k = this) then
           match Node.last_child self with
           | None => Some n
           | Some _ => Node.first_child x
           end
         else Node.first_child x) /\
      Node.last_child x' =
        (if decide (k = this) then Some n else Node.last_child x) /\
      Node.next_sibling x' =
        (if decide (Node.last_child self = Some k) then Some n
         else Node.next_sibling x).
Proof.
  intros Hthis. unfold Node.add_child.
  destruct (h !! n) as [child|] eqn:Hn; cbn [deref mbind result_bind];
    [|discriminate].
  destruct (bool_decide (is_Some (Node.parent child))); [discriminate|].
  rewrite Hthis. cbn [deref mbind result_bind].
  destruct (negb (Node.is_dir self)); [discriminate|].
  destruct (Node.update h this _) as [h1| |] eqn:E1;
    cbn [mbind result_bind]; try discriminate.
  apply update_lookup in E1 as [L1 E1].
  destruct (Node.update h1 n _) as [h2| |] eqn:E2;
    cbn [mbind result_bind]; try discriminate.
  apply update_lookup in E2 as [L2 E2].
  destruct (h2 !! this) as [self2|] eqn:Hself2;
    cbn [deref mbind result_bind]; [|discriminate].
  assert (Hlast2 : Node.last_child self2 = Node.last_child self).
  { rewrite E2, E1, Hthis in Hself2.
    destruct (decide (this = n)), (decide (this = this)); try congruence;
      cbn in Hself2; injection Hself2 as <-; reflexivity. }
  rewrite Hlast2.
  assert (Hk2 : forall k x, h !! k = Some x ->
            exists x2, h2 !! k = Some x2 /\
              Node.parent x2 =
                (if decide (k = n) then Some this else Node.parent x) /\
              Node.first_child x2 = Node.first_child x /\
              Node.last_child x2 = Node.last_child x /\
              Node.next_sibling x2 = Node.next_sibling x).
  { intros k x Hk. rewrite E2, E1, Hk.
    destruct (decide (k = n)), (decide (k = this)); cbn;
      eexists; (split; [reflexivity|]); cbn; auto. }
  destruct (Node.last_child self) as [l|] eqn:El.
  - destruct (Node.update h2 l _) as [h3| |] eqn:E3;
      cbn [mbind result_bind]; try discriminate.
    apply update_lookup in E3 as [L3 E3].
    intros E4. apply update_lookup in E4 as [L4 E4].
    split; [congruence|]. intros k x Hk.
    destruct (Hk2 k x Hk) as (x2 & Hx2 & P2 & F2 & A2 & N2).
    rewrite E4, E3, Hx2.
    destruct (decide (k = this)), (decide (k = l)),
      (decide (Some l = Some k)); try congruence; cbn;
      eexists; (split; [reflexivity|]); cbn; auto.
  - destruct (Node.update h2 this _) as [h3| |] eqn:E3;
      cbn [mbind result_bind]; try discriminate.
    apply update_lookup in E3 as [L3 E3].
    intros E4. apply update_lookup in E4 as [L4 E4].
    split; [congruence|]. intros k x Hk.
    destruct (Hk2 k x Hk) as (x2 & Hx2 & P2 & F2 & A2 & N2).
    rewrite E4, E3, Hx2.
    destruct (decide (k = this)), (decide (None = Some k));
      try congruence; cbn;
      eexists; (split; [reflexivity|]); cbn; auto.
Qed.

Lemma filter_ext_in {A : Type} (P Q : A -> Prop)
    `{!forall x, Decision (P x)} `{!forall x, Decision (Q x)} (l : list A) :
  (forall x, x ∈ l -> P x <-> Q x) -> filter P l = filter Q l.
Proof.
  induction l as [|a l IH]; intros Hext; [reflexivity|].
  rewrite !filter_cons.
  rewrite IH by (intros x Hx; apply Hext; right; exact Hx).
  destruct (decide (P a)) as [HP|HP], (decide (Q a)) as [HQ|HQ];
    try reflexivity; exfalso; apply (Hext a (list_elem_of_here _ _)) in HP
    || apply (Hext a (list_elem_of_here _ _)) in HQ; contradiction.
Qed.

Lemma elem_of_children_of (h : list Node.t) (d c : nat) :
  c ∈ children_of h d <->
  exists C, h !! c = Some C /\ Node.parent C = Some d.
Proof.
  unfold children_of. rewrite list_elem_of_filter, elem_of_seq. split.
  - intros [Hp _]. destruct (h !! c) as [C|]; [|discriminate]. eauto.
  - intros (C & HC & Hp). rewrite HC. split; [exact Hp|].
    apply lookup_lt_Some in HC. lia.
Qed.

Lemma children_of_NoDup (h : list Node.t) (d : nat) : NoDup (children_of h d).
Proof. apply NoDup_filter, NoDup_seq. Qed.

Lemma children_of_same (h h' : list Node.t) (d : nat) :
  length h' = length h ->
  (forall k x, h !! k = Some x ->
     exists x', h' !! k = Some x' /\ Node.parent x' = Node.parent x) ->
  children_of h' d = children_of h d.
Proof.
  intros Hlen Hold. unfold children_of. rewrite Hlen.
  apply filter_ext_in. intros c Hc. apply elem_of_seq in Hc.
  destruct (lookup_lt_is_Some_2 h c ltac:(lia)) as [x Hx].
  destruct (Hold c x Hx) as (x' & Hx' & E). rewrite Hx, Hx'. cbn.
  rewrite E. reflexivity.
Qed.

Lemma children_of_attached (h h2 : list Node.t) (this d : nat) :
  length h2 = S (length h) ->
  (forall k x, h !! k = Some x ->
     exists x', h2 !! k = Some x' /\ Node.parent x' = Node.parent x) ->
  (exists N, h2 !! length h = Some N /\ Node.parent N = Some this) ->
  children_of h2 d =
  children_of h d ++ (if decide (d = this) then [length h] else []).
Proof.
  intros Hlen Hold (N & HN & HNp). unfold children_of.
  rewrite Hlen, seq_S, filter_app. f_equal.
  - apply filter_ext_in. intros c Hc. apply elem_of_seq in Hc.
    destruct (lookup_lt_is_Some_2 h c ltac:(lia)) as [x Hx].
    destruct (Hold c x Hx) as (x' & Hx' & E). rewrite Hx, Hx'. cbn.
    rewrite E. reflexivity.
  - cbn [Nat.add]. rewrite filter_cons, filter_nil, HN. cbn. rewrite HNp.
    destruct (decide (Some this = Some d)), (decide (d = this));
      congruence.
Qed.

Lemma is_chain_same (h h' : list Node.t) (l : list nat) :
  forall c,
    is_chain h c l ->
    (forall x X, x ∈ l -> h !! x = Some X ->
       exists X', h' !! x = Some X' /\
         Node.next_sibling X' = Node.next_sibling X) ->
    is_chain h' c l.
Proof.
  induction l as [|x l IH]; intros c; cbn [is_chain]; [auto|].
  intros (-> & X & HX & Hrest) Hold. split; [reflexivity|].
  destruct (Hold x X (list_elem_of_here _ _) HX) as (X' & HX' & E).
  exists X'. split; [exact HX'|]. rewrite E. apply IH; [exact Hrest|].
  intros y Y Hy. apply Hold. right. exact Hy.
Qed.

Lemma is_chain_extend (h h' : list Node.t) (l0 : list nat) (l n : nat) :
  forall c,
    is_chain h c (l0 ++ [l]) -> NoDup (l0 ++ [l]) ->
    (forall x X, x <> l -> h !! x = Some X ->
       exists X', h' !! x = Some X' /\
         Node.next_sibling X' = Node.next_sibling X) ->
    (exists L', h' !! l = Some L' /\ Node.next_sibling L' = Some n) ->
    (exists N, h' !! n = Some N /\ Node.next_sibling N = None) ->
    is_chain h' c (l0 ++ [l; n]).
Proof.
  induction l0 as [|x l0 IH]; intros c; cbn [app is_chain].
  - intros (-> & L & HL & _) _ _ (L' & HL' & E) (N & HN & EN).
    split; [reflexivity|]. exists L'. split; [exact HL'|]. rewrite E.
    split; [reflexivity|]. exists N. split; [exact HN|]. exact EN.
  - intros (-> & X & HX & Hrest) Hnd Hold HL HN.
    apply NoDup_cons in Hnd as [Hx Hnd].
    split; [reflexivity|].
    destruct (Hold x X) as (X' & HX' & E); [|exact HX|].
    { intros ->. apply Hx. apply elem_of_app. right. left. }
    exists X'. split; [exact HX'|]. rewrite E. apply IH; assumption.
Qed.

Lemma chain_inv_attach (h : list Node.t) (new : Node.t) (this : nat)
    (pn : Node.t) (h2 : list Node.t) :
  chain_inv h ->
  (forall c C p, h !! c = Some C -> Node.parent C = Some p ->
     (p < length h)%nat) ->
  h !! this = Some pn ->
  Node.parent new = None -> Node.first_child new = None ->
  Node.last_child new = None -> Node.next_sibling new = None ->
  Node.add_child (h ++ [new]) this (length h) = Ok h2 ->
  chain_inv h2.
Proof.
  intros Hch Hpar Hthis Hn1 Hn2 Hn3 Hn4 Hadd.
  assert (Hlt : (this < length h)%nat) by (eapply lookup_lt_Some; eauto).
  assert (Hthis1 : (h ++ [new]) !! this = Some pn)
    by (rewrite lookup_app_l by exact Hlt; exact Hthis).
  destruct (add_child_exact (h ++ [new]) this (length h) h2 pn Hthis1 Hadd)
    as [Hlen Hex].
  rewrite length_app in Hlen. cbn [length] in Hlen.
  rewrite Nat.add_1_r in Hlen.
  (* the old nodes and the new one in [h2] *)
  assert (Hold : forall k x, h !! k = Some x ->
            exists x',
              h2 !! k = Some x' /\ Node.parent x' = Node.parent x /\
              Node.first_child x' =
                (if decide (k = this) then
                   match Node.last_child pn with
                   | None => Some (length h)
                   | Some _ => Node.first_child x
                   end
                 else Node.first_child x) /\
              Node.last_child x' =
                (if decide (k = this) then Some (length h)
                 else Node.last_child x) /\
              Node.next_sibling x' =
                (if decide (Node.last_child pn = Some k) then Some (length h)
                 else Node.next_sibling x)).
  { intros k x Hk.
    assert (Hkl : (k < length h)%nat) by (eapply lookup_lt_Some; eauto).
    destruct (Hex k x) as (x' & Hx' & P & F & A & N).
    { rewrite lookup_app_l by exact Hkl. exact Hk. }
    exists x'. rewrite decide_False in P by lia. auto. }
  destruct (Hch this pn Hthis) as [Hchain_this Hlast_this].
  assert (Hlast_lt : forall l, Node.last_child pn = Some l ->
            (l < length h)%nat /\ l ∈ children_of h this).
  { intros l Hl. rewrite Hlast_this in Hl.
    apply last_Some_elem_of in Hl. split; [|exact Hl].
    apply elem_of_children_of in Hl as (C & HC & _).
    eapply lookup_lt_Some; eauto. }
  destruct (Hex (length h) new) as (new' & Hnew' & NP & NF & NA & NN).
  { rewrite lookup_app_r by lia. rewrite Nat.sub_diag. reflexivity. }
  rewrite decide_True in NP by reflexivity.
  rewrite decide_False in NF by lia. rewrite decide_False in NA by lia.
  rewrite decide_False in NN
    by (intros Hl; apply Hlast_lt in Hl as [Hl _]; lia).
  assert (Hparents : forall k x, h !! k = Some x ->
            exists x', h2 !! k = Some x' /\ Node.parent x' = Node.parent x).
  { intros k x Hk. destruct (Hold k x Hk) as (x' & Hx' & P & _). eauto. }
  assert (Hchildren : forall d,
            children_of h2 d =
            children_of h d ++ (if decide (d = this) then [length h] else [])).
  { intros d. apply children_of_attached; [exact Hlen|exact Hparents|].
    exists new'. split; [exact Hnew'|exact NP]. }
  intros d D2 HD2. rewrite Hchildren.
  destruct (decide (d < length h)%nat) as [Hd|Hd].
  - destruct (lookup_lt_is_Some_2 h d Hd) as [D HD].
    destruct (Hold d D HD) as (D' & HD' & P & F & A & N).
    assert (D' = D2) as -> by congruence.
    destruct (Hch d D HD) as [Hchain Hlast].
    destruct (decide (d = this)) as [->|Hne].
    + assert (D = pn) as -> by congruence.
      rewrite F, A, last_snoc. split; [|reflexivity].
      destruct (children_of h this) as [|c0 cs] eqn:Ecs using rev_ind.
      * cbn in Hlast_this. rewrite Hlast_this. cbn [app is_chain].
        split; [reflexivity|]. exists new'. split; [exact Hnew'|].
        rewrite NN. exact Hn4.
      * clear IHcs. rewrite last_snoc in Hlast_this. rewrite Hlast_this.
        rewrite <- app_assoc. cbn [app].
        apply (is_chain_extend h h2 cs c0 (length h) _ Hchain_this).
        -- rewrite <- Ecs. apply children_of_NoDup.
        -- intros x X Hx HX. destruct (Hold x X HX) as (X' & HX' & _ & _ & _ & E).
           exists X'. split; [exact HX'|]. rewrite E, Hlast_this.
           rewrite decide_False by congruence. reflexivity.
        -- destruct (Hlast_lt c0 Hlast_this) as [Hc0 _].
           destruct (lookup_lt_is_Some_2 h c0 Hc0) as [L HL].
           destruct (Hold c0 L HL) as (L' & HL' & _ & _ & _ & E).
           exists L'. split; [exact HL'|]. rewrite E, Hlast_this.
           rewrite decide_True by reflexivity. reflexivity.
        -- exists new'. split; [exact Hnew'|]. rewrite NN. exact Hn4.
    + rewrite F, A, app_nil_r. split; [|exact Hlast].
      apply (is_chain_same h h2 _ _ Hchain).
      intros x X Hx HX. destruct (Hold x X HX) as (X' & HX' & _ & _ & _ & E).
      exists X'. split; [exact HX'|]. rewrite E.
      rewrite decide_False; [reflexivity|].
      intros Hl. apply Hlast_lt in Hl as [_ Hl].
      apply elem_of_children_of in Hl as (C & HC & HCp).
      apply elem_of_children_of in Hx as (C' & HC' & HCp').
      congruence.
  - assert (d = length h) as ->.
    { apply lookup_lt_Some in HD2. lia. }
    assert (D2 = new') as -> by congruence.
    rewrite decide_False by lia. rewrite app_nil_r.
    assert (Hnone : children_of h (length h) = []).
    { destruct (children_of h (length h)) as [|c cs] eqn:Ecs; [reflexivity|].
      assert (Hc : c ∈ children_of h (length h))
        by (rewrite Ecs; left).
      apply elem_of_children_of in Hc as (C & HC & HCp).
      pose proof (Hpar c C _ HC HCp). lia. }
    rewrite Hnone, NF, NA. cbn. split; [exact Hn2|exact Hn3].
Qed.

Lemma insert_leaf_node_chain_inv pathname symlink idx size mtime mode
    st ret st' :
  tree_inv st -> chain_inv (nodes st) ->
  insert_leaf_node pathname symlink idx size mtime mode st = Ok (ret, st') ->
  chain_inv (nodes st').
Proof.
  assert (Hpar : forall st0, tree_inv st0 ->
            forall c C p, nodes st0 !! c = Some C -> Node.parent C = Some p ->
              (p < length (nodes st0))%nat).
  { intros st0 Hinv c C p HC HCp.
    destruct (inv_parent st0 Hinv c C p HC HCp) as (pn & Hpn & _).
    eapply lookup_lt_Some; eauto. }
  apply (insert_leaf_node_preserves symlink idx size mtime mode
           (fun st => chain_inv (nodes st))).
  - intros st0 parent pn Hinv Hch Hp Hd. cbn [set_nodes nodes].
    assert (Hlt : (parent < length (nodes st0))%nat)
      by (eapply lookup_lt_Some; eauto).
    assert (Hold : forall k x, nodes st0 !! k = Some x ->
              exists x',
                <[parent := touch mtime (branch_mode_of mode) pn]> (nodes st0)
                  !! k = Some x' /\
                Node.parent x' = Node.parent x /\
                Node.first_child x' = Node.first_child x /\
                Node.last_child x' = Node.last_child x /\
                Node.next_sibling x' = Node.next_sibling x).
    { intros k x Hk. destruct (decide (k = parent)) as [->|Hne].
      - rewrite list_lookup_insert_eq by exact Hlt.
        assert (x = pn) as -> by congruence.
        eexists. split; [reflexivity|].
        rewrite touch_parent, touch_first_child, touch_last_child,
          touch_next_sibling. auto.
      - rewrite list_lookup_insert_ne by congruence. eauto 10. }
    intros d D' HD'.
    assert (Hd' : (d < length (nodes st0))%nat).
    { apply lookup_lt_Some in HD'. rewrite length_insert in HD'. exact HD'. }
    destruct (lookup_lt_is_Some_2 (nodes st0) d Hd') as [D HD].
    destruct (Hold d D HD) as (D2 & HD2 & _ & F & A & _).
    assert (D2 = D') as -> by congruence.
    destruct (Hch d D HD) as [Hchain Hlast].
    rewrite (children_of_same (nodes st0)), F, A.
    + split; [|exact Hlast]. apply (is_chain_same _ _ _ _ Hchain).
      intros x X _ HX. destruct (Hold x X HX) as (X' & HX' & _ & _ & _ & E).
      eauto.
    + apply length_insert.
    + intros k x Hk. destruct (Hold k x Hk) as (x' & Hx' & P & _). eauto.
  - intros st0 A rel parent pn nodes2 Hinv Hch _ _ _ Hp _ Hadd. cbn [nodes].
    eapply chain_inv_attach; eauto; reflexivity.
  - intros st0 A rel parent pn nodes2 node Hinv Hch _ _ _ Hp _ Hadd _ _ _.
    cbn [nodes]. eapply chain_inv_attach; eauto; reflexivity.
Qed.

Lemma insert_root_node_chain_inv :
  chain_inv (nodes (insert_root_node empty_tree)).
Proof.
  intros d D HD. cbn in HD.
  destruct d as [|d]; [|destruct d; discriminate].
  injection HD as <-. split; reflexivity.
Qed.


Lemma post_initialize_sync_chain_inv `{Libarchive} fuel is_raw innername
    g s error g' s' st :
  post_initialize_sync fuel is_raw innername g s empty_tree
  = Ok (error, g', s', st) ->
  chain_inv (nodes st).
Proof.
  apply (post_initialize_sync_preserves (fun st => chain_inv (nodes st))
           insert_leaf_node_chain_inv _ _ _ _ _ _ _ _ _
           insert_root_node_chain_inv).
Qed.

Section ReaddirFacts.
Variable buf : Type.
Variable filler : buf -> string -> option struct_stat -> Z -> Z * buf.

Lemma my_readdir_loop_chain (g_uid g_gid : Z) (st : tree) (l : list nat) :
  forall (c : option nat) (fuel : nat) (b : buf),
    is_chain (nodes st) c l -> (length l <= fuel)%nat ->
    exists cs,
      Forall2 (fun c C => nodes st !! c = Some C) l cs /\
      my_readdir_loop buf filler fuel g_uid g_gid st c b =
      Ok (fill_entries buf filler
            ((fun C => (Node.rel_name C, Some (get_stat g_uid g_gid C)))
               <$> cs) b).
Proof.
  induction l as [|x l IH]; intros c fuel b; cbn [is_chain length].
  - intros -> _. exists []. split; [constructor|].
    destruct fuel; reflexivity.
  - intros (-> & X & HX & Hrest) Hfuel.
    destruct fuel as [|fuel]; [lia|].
    cbn [my_readdir_loop]. rewrite HX. cbn [deref mbind result_bind].
    destruct (filler b (Node.rel_name X) (Some (get_stat g_uid g_gid X)) 0)
      as [full b'] eqn:Ef.
    destruct (IH (Node.next_sibling X) fuel b' Hrest ltac:(lia))
      as (cs & Hcs & Hrun).
    exists (X :: cs). split; [constructor; assumption|].
    cbn [fmap list_fmap fill_entries]. rewrite Ef.
    destruct (negb (full =? 0)); [reflexivity|exact Hrun].
Qed.

(** X16. What [my_readdir] lists.  After start-up, for a pathname bound
    to a directory, [my_readdir] hands to the filler ".", ".." and then
    the name and the [stat] of every node whose parent is the
    directory, each once and in the order in which the nodes were
    inserted; it returns [-ENOMEM] as soon as the filler reports a full
    buffer and 0 otherwise.  Its loop over the siblings ends: as many
    steps as there are nodes are enough. *)
Theorem my_readdir_lists_children `{Libarchive} (fuel0 : nat) (is_raw : bool)
    (innername : option string) (g g' : initialize_globals)
    (s s' : side_buffers) (error : Z) (st : tree)
    (fuel : nat) (g_uid g_gid : Z) (K : string) (d : nat) (D : Node.t)
    (b : buf) :
  post_initialize_sync fuel0 is_raw innername g s empty_tree
  = Ok (error, g', s', st) ->
  g_nodes_by_name st !! K = Some d -> nodes st !! d = Some D ->
  Node.is_dir D = true ->
  (length (nodes st) <= fuel)%nat ->
  exists cs,
    Forall2 (fun c C => nodes st !! c = Some C)
      (filter (fun c => nodes st !! c ≫= Node.parent = Some d)
         (seq 0 (length (nodes st)))) cs /\
    my_readdir buf filler fuel g_uid g_gid st K b =
    Ok (fill_entries buf filler
          ((".", None) :: ("..", None) ::
           ((fun C => (Node.rel_name C, Some (get_stat g_uid g_gid C)))
              <$> cs)) b).
Proof.
  intros Hrun HK HD Hd Hfuel.
  pose proof (post_initialize_sync_chain_inv _ _ _ _ _ _ _ _ _ Hrun) as Hch.
  destruct (Hch d D HD) as [Hchain _].
  assert (Hlen : (length (children_of (nodes st) d) <= fuel)%nat).
  { unfold children_of.
    pose proof (length_filter
                  (fun c => nodes st !! c ≫= Node.parent = Some d)
                  (seq 0 (length (nodes st)))) as Hf.
    rewrite length_seq in Hf. lia. }
  destruct (filler b "." None 0) as [full1 b1] eqn:E1.
  destruct (filler b1 ".." None 0) as [full2 b2] eqn:E2.
  destruct (my_readdir_loop_chain g_uid g_gid st _ _ fuel b2 Hchain Hlen)
    as (cs & Hcs & Hloop).
  exists cs. split; [exact Hcs|].
  unfold my_readdir. rewrite HK, HD. cbn [deref mbind result_bind].
  unfold Node.is_dir in Hd. rewrite Hd. cbn [negb fill_entries].
  rewrite E1. destruct (negb (full1 =? 0)); [reflexivity|].
  rewrite E2. destruct (negb (full2 =? 0)); [reflexivity|].
  exact Hloop.
Qed.

End ReaddirFacts.

Lemma my_readdir_lists_children_witness :
  exists cs,
    Forall2 (fun c C => nodes two_files_tree !! c = Some C)
      (filter (fun c => nodes two_files_tree !! c ≫= Node.parent = Some 1%nat)
         (seq 0 (length (nodes two_files_tree)))) cs /\
    my_readdir (list string) (list_filler 3) 4 1000 1000 two_files_tree
      "/a" [] =
    Ok (fill_entries (list string) (list_filler 3)
          ((".", None) :: ("..", None) ::
           ((fun C => (Node.rel_name C, Some (get_stat 1000 1000 C)))
              <$> cs)) []).
Proof.
  apply (my_readdir_lists_children (list string) (list_filler 3)
           (H := scripted two_files_archive true)
           3 false None two_files_initialize_globals
           (@Build_initialize_globals (scripted two_files_archive true)
              None None (-1))
           zeroed_side_buffers zeroed_side_buffers 0 two_files_tree
           4 1000 1000 "/a" 1%nat
           (Node.set_last_child (Some 3%nat)
              (Node.set_first_child (Some 2%nat)
                 (Node.set_parent (Some 0%nat)
                    (Node.set_size 1024
                       (Node.new "a" "" (-1) 0 6 16749))))) []).
  - vm_compute. reflexivity.
  - vm_compute. reflexivity.
  - vm_compute. reflexivity.
  - reflexivity.
  - vm_compute. lia.
Defined.

(** The listing of "/a" in [two_files_tree], with room for three names
    and with room for four. *)
Example my_readdir_two_files :
  my_readdir (list string) (list_filler 3) 4 1000 1000 two_files_tree
    "/a" [] = Ok (- ENOMEM, ["."; ".."; "x"]) /\
  my_readdir (list string) (list_filler 4) 4 1000 1000 two_files_tree
    "/a" [] = Ok (0, ["."; ".."; "x"; "y"]).
Proof. split; vm_compute; reflexivity. Qed.


(** ** The inner name of the archive *)

Lemma strrchr_some (s : string) (c : ascii) (i : nat) :
  strrchr s c = Some i ->
  exists pre post,
    s = pre +:+ String c post /\ String.length pre = i /\
    lacks c post = true.
Proof.
  revert i. induction s as [|a s IH]; intros i; cbn [strrchr];
    [discriminate|].
  destruct (strrchr s c) as [j|] eqn:Ej.
  - intros [= <-]. destruct (IH j eq_refl) as (pre & post & -> & Hlen & Hl).
    exists (String a pre), post. split; [reflexivity|].
    split; [cbn; lia|exact Hl].
  - destruct (Ascii.eqb_spec a c) as [->|Hne]; [|discriminate].
    intros [= <-]. exists "", s. split; [reflexivity|].
    split; [reflexivity|].
    clear IH. induction s as [|b s IHs]; [reflexivity|].
    cbn [strrchr] in Ej. destruct (strrchr s c); [discriminate|].
    destruct (Ascii.eqb b c) eqn:Eb; [discriminate|].
    cbn. rewrite Eb. apply IHs. reflexivity.
Qed.

Lemma strrchr_none (s : string) (c : ascii) :
  strrchr s c = None -> lacks c s = true.
Proof.
  induction s as [|b s IHs]; [reflexivity|].
  cbn [strrchr]. destruct (strrchr s c); [discriminate|].
  destruct (Ascii.eqb b c) eqn:Eb; [discriminate|].
  intros _. cbn. rewrite Eb. apply IHs. reflexivity.
Qed.

Lemma string_drop_app (pre s : string) :
  string_drop (String.length pre) (pre +:+ s) = s.
Proof.
  induction pre as [|a pre IH]; [apply string_drop_0|].
  rewrite string_app_cons. cbn [String.length]. rewrite string_drop_S.
  exact IH.
Qed.

Lemma substring_app (pre s : string) :
  String.substring 0 (String.length pre) (pre +:+ s) = pre.
Proof.
  induction pre as [|a pre IH]; [destruct s; reflexivity|].
  rewrite string_app_cons. cbn. f_equal. exact IH.
Qed.

Lemma lacks_app (c : ascii) (a b : string) :
  lacks c (a +:+ b) = lacks c a && lacks c b.
Proof.
  induction a as [|x a IH]; [reflexivity|].
  rewrite string_app_cons. cbn. rewrite IH, andb_assoc. reflexivity.
Qed.

Lemma lacks_slash (s : string) : lacks "/" s = no_slash s.
Proof. induction s as [|a s IH]; [reflexivity|]. cbn. rewrite IH. reflexivity. Qed.

Lemma innername_has_no_slash (filename : string) :
  exists base,
    innername (Some filename) = Some base /\ lacks "/" base = true.
Proof.
  unfold innername.
  assert (Hbase : forall name, lacks "/" name = true ->
            exists base,
              match strrchr name "." with
              | Some last_dot => Some (String.substring 0 last_dot name)
              | None => Some name
              end = Some base /\ lacks "/" base = true).
  { intros name Hname. destruct (strrchr name ".") as [i|] eqn:Ed; [|eauto].
    destruct (strrchr_some _ _ _ Ed) as (pre & post & -> & <- & Hpost).
    rewrite lacks_app in Hname. apply andb_true_iff in Hname as [Hpre _].
    exists pre. rewrite substring_app. auto. }
  destruct (strrchr filename "/") as [i|] eqn:Es.
  - destruct (strrchr_some _ _ _ Es) as (pre & post & -> & <- & Hpost).
    replace (string_drop (S (String.length pre)) (pre +:+ String "/" post))
      with post; [apply Hbase; exact Hpost|].
    change (String "/" post) with ("/" +:+ post).
    rewrite <- string_app_assoc.
    replace (S (String.length pre)) with (String.length (pre +:+ "/"))
      by (rewrite string_length_app; cbn; lia).
    symmetry. apply string_drop_app.
  - apply Hbase, strrchr_none. exact Es.
Qed.

(** X17. [innername] gives the "bar.ext0" of "/foo/bar.ext0.ext1": the
    filename is a directory part that is empty or ends with a slash,
    then the inner name, which has no slash, then an extension that is
    either empty, the inner name having no dot then, or a dot followed
    by a text without dot and without slash. *)
Theorem innername_splits_filename (filename : string) :
  exists dir base ext,
    innername (Some filename) = Some base /\
    filename = dir +:+ base +:+ ext /\
    (dir = "" \/ exists d, dir = d +:+ "/") /\
    lacks "/" base = true /\
    (ext = "" /\ lacks "." base = true \/
     exists e, ext = "." +:+ e /\ lacks "." e = true /\ lacks "/" e = true).
Proof.
  unfold innername.
  assert (Hbase : forall dir name,
            filename = dir +:+ name -> lacks "/" name = true ->
            (dir = "" \/ exists d, dir = d +:+ "/") ->
            exists dir base ext,
              match strrchr name "." with
              | Some last_dot => Some (String.substring 0 last_dot name)
              | None => Some name
              end = Some base /\
              filename = dir +:+ base +:+ ext /\
              (dir = "" \/ exists d, dir = d +:+ "/") /\
              lacks "/" base = true /\
              (ext = "" /\ lacks "." base = true \/
               exists e, ext = "." +:+ e /\ lacks "." e = true /\
                 lacks "/" e = true)).
  { intros dir name -> Hname Hdir.
    destruct (strrchr name ".") as [i|] eqn:Ed.
    - destruct (strrchr_some _ _ _ Ed) as (pre & post & -> & <- & Hpost).
      rewrite lacks_app in Hname. apply andb_true_iff in Hname as [Hpre Hp].
      cbn in Hp.
      exists dir, pre, ("." +:+ post). rewrite substring_app.
      split; [reflexivity|]. split; [reflexivity|]. split; [exact Hdir|].
      split; [exact Hpre|]. right. exists post. auto.
    - exists dir, name, "". rewrite string_app_nil_r.
      split; [reflexivity|]. split; [reflexivity|]. split; [exact Hdir|].
      split; [exact Hname|]. left. split; [reflexivity|].
      apply strrchr_none. exact Ed. }
  destruct (strrchr filename "/") as [i|] eqn:Es.
  - destruct (strrchr_some _ _ _ Es) as (pre & post & -> & <- & Hpost).
    replace (string_drop (S (String.length pre)) (pre +:+ String "/" post))
      with post.
    2:{ change (String "/" post) with ("/" +:+ post).
        rewrite <- string_app_assoc.
        replace (S (String.length pre)) with (String.length (pre +:+ "/"))
          by (rewrite string_length_app; cbn; lia).
        symmetry. apply string_drop_app. }
    apply (Hbase (pre +:+ "/") post).
    + rewrite string_app_assoc. reflexivity.
    + exact Hpost.
    + right. exists pre. reflexivity.
  - apply (Hbase "" filename); [reflexivity| |left; reflexivity].
    apply strrchr_none. exact Es.
Qed.

Lemma split_slash_no_slash (s : string) :
  no_slash s = true -> split_slash s = [s].
Proof.
  induction s as [|c s IH]; [reflexivity|]. cbn.
  destruct (Ascii.eqb c "/"); [discriminate|]. cbn. intros Hs.
  rewrite (IH Hs). reflexivity.
Qed.

Lemma strip_leading_no_slash (s : string) :
  no_slash s = true -> strip_leading s = s.
Proof.
  destruct s as [|c1 s1]; [reflexivity|]. cbn.
  destruct (Ascii.eqb c1 "/"); [discriminate|]. cbn.
  destruct s1 as [|c2 s2]; [reflexivity|]. cbn.
  destruct (Ascii.eqb c2 "/"); [discriminate|].
  rewrite andb_false_r. reflexivity.
Qed.

(** X18. The one entry of a raw archive, which libarchive names
    "data", goes by the inner name of the archive: it is inserted as
    "/" with the inner name.  When the inner name is empty, as for the
    archive ".gz", it is inserted as "/data"; and when the inner name
    is "." or "..", as for the archives "..gz" and "...gz", it is
    rejected, so that nothing but the root is mounted. *)
Theorem raw_archive_entry_goes_by_innername (filename : string)
    (e : struct_archive_entry) :
  entry_pathname e = Some "data" ->
  exists base,
    innername (Some filename) = Some base /\
    normalize_pathname true (innername (Some filename)) e =
      if String.eqb base "" then "/data"
      else if String.eqb base "." || String.eqb base ".." then ""
      else "/" +:+ base.
Proof.
  intros He.
  destruct (innername_has_no_slash filename) as (base & Hb & Hns).
  exists base. split; [exact Hb|].
  rewrite normalize_pathname_entry_name. unfold entry_name.
  rewrite He, Hb. cbn [andb String.eqb Ascii.eqb Bool.eqb].
  destruct base as [|c base]; [reflexivity|].
  cbn [at_end negb]. rewrite valid_pathname_components.
  rewrite lacks_slash in Hns.
  rewrite strip_leading_no_slash, split_slash_no_slash by exact Hns.
  cbn [existsb]. unfold bad_component. rewrite orb_false_r.
  change (String.eqb (String c base) "") with false. cbn [orb].
  destruct (_ || _); reflexivity.
Qed.


Lemma raw_archive_entry_goes_by_innername_witness :
  exists base,
    innername (Some "/foo/bar.txt.gz") = Some base /\
    normalize_pathname true (innername (Some "/foo/bar.txt.gz")) data_entry =
      if String.eqb base "" then "/data"
      else if String.eqb base "." || String.eqb base ".." then ""
      else "/" +:+ base.
Proof.
  apply (raw_archive_entry_goes_by_innername "/foo/bar.txt.gz" data_entry).
  reflexivity.
Defined.

(** The inner names of some archives, and what their entry "data" is
    inserted as. *)
Example innername_examples :
  innername (Some "/foo/bar.ext0.ext1") = Some "bar.ext0" /\
  innername (Some "a.b/c") = Some "c" /\
  innername (Some "dir/") = Some "" /\
  normalize_pathname true (innername (Some "/foo/bar.txt.gz")) data_entry
    = "/bar.txt" /\
  normalize_pathname true (innername (Some ".gz")) data_entry = "/data" /\
  normalize_pathname true (innername (Some "...gz")) data_entry = "".
Proof. repeat split; vm_compute; reflexivity. Qed.


(** ** The first part of start-up *)

Lemma determine_passphrase_exit_code_range (e : string) :
  determine_passphrase_exit_code e ∈ [20; 21; 22; 32].
Proof.
  unfold determine_passphrase_exit_code.
  destruct (starts_with e "Incorrect passphrase");
    [apply list_elem_of_In; cbn; auto|].
  destruct (starts_with e "Passphrase required");
    [apply list_elem_of_In; cbn; auto|].
  destruct (existsb _ _); apply list_elem_of_In; cbn; auto.
Qed.

Section PreInitializeFacts.
Context `{StartUpCalls}.

Lemma pre_initialize_loop_spec (fuel : nat) :
  forall g st code g' st',
    pre_initialize_loop fuel g st = Ok (code, g', st') ->
    match code with
    | Some c =>
        g' = free_initialize_archive /\
        (c = EXIT_CODE_INVALID_ARCHIVE_HEADER /\ st' = st \/
         c = 0 /\ st' = insert_root_node st)
    | None =>
        st' = st /\ is_Some (g_initialize_archive g') /\
        g_initialize_index_within_archive g <
          g_initialize_index_within_archive g' /\
        exists e,
          g_initialize_archive_entry g' = Some e /\
          S_ISDIR (archive_entry_mode e) = false
    end.
Proof.
  induction fuel as [|fuel IH]; intros g st code g' st'; [discriminate|].
  cbn [pre_initialize_loop].
  destruct (g_initialize_archive g) as [a|]; cbn [deref mbind result_bind];
    [|discriminate].
  destruct (archive_read_next_header a) as [[status e] a'].
  destruct (negb (status =? ARCHIVE_WARN) && negb (status =? ARCHIVE_OK)).
  - destruct (negb (status =? ARCHIVE_EOF)); intros [= <- <- <-]; auto.
  - cbn [g_initialize_archive_entry].
    destruct e as [e|]; cbn [deref mbind result_bind]; [|discriminate].
    destruct (S_ISDIR (archive_entry_mode e)) eqn:Ed.
    + intros Hrun. specialize (IH _ _ _ _ _ Hrun).
      destruct code as [c|]; [exact IH|].
      cbn [g_initialize_index_within_archive] in IH.
      destruct IH as (-> & Ha & Hi & He). repeat split; auto; lia.
    + intros [= <- <- <-]. cbn. repeat split; eauto; lia.
Qed.

Lemma pre_initialize_loop_returns (fuel : nat) :
  headers_set_entry ->
  forall g st,
    is_Some (g_initialize_archive g) ->
    pre_initialize_loop fuel g st <> Aborted.
Proof.
  intros Hheaders. induction fuel as [|fuel IH]; intros g st [a Ha];
    [discriminate|].
  cbn [pre_initialize_loop]. rewrite Ha. cbn [deref mbind result_bind].
  pose proof (Hheaders a) as Hent.
  destruct (archive_read_next_header a) as [[status e] a'].
  cbn [fst snd] in Hent.
  destruct (Z.eqb_spec status ARCHIVE_WARN) as [Hw|_]; cbn [negb andb].
  - destruct Hent as [e1 ->]; [auto|]. cbn [deref mbind result_bind
      g_initialize_archive_entry].
    destruct (S_ISDIR _); [apply IH; cbn; eauto|discriminate].
  - destruct (Z.eqb_spec status ARCHIVE_OK) as [Hok|_]; cbn [negb].
    + destruct Hent as [e1 ->]; [auto|]. cbn [deref mbind result_bind
        g_initialize_archive_entry].
      destruct (S_ISDIR _); [apply IH; cbn; eauto|discriminate].
    + destruct (negb _); discriminate.
Qed.

Lemma pre_initialize_filters_returns (fuel : nat) a n :
  forall i, pre_initialize_filters fuel a n i <> Aborted.
Proof.
  induction fuel as [|fuel IH]; intros i; [discriminate|].
  cbn [pre_initialize_filters].
  destruct (i =? n); [discriminate|]. destruct (negb _); [discriminate|].
  apply IH.
Qed.

(** What [pre_initialize] returns, and that it follows no null
    pointer. *)
Lemma pre_initialize_result (fuel : nat)
    (g_archive_filename : option string) (s : side_buffers) (st : tree) :
  (forall code G s' st',
     pre_initialize fuel g_archive_filename initial_start_up_globals s st
     = Ok (code, G, s', st') ->
     code ∈ [0; 1; 11; 20; 21; 22; 30; 31; 32] /\
     (code <> 0 ->
      g_initialize G = free_initialize_archive /\ st' = st)) /\
  (headers_set_entry -> failed_reads_set_error ->
   pre_initialize fuel g_archive_filename initial_start_up_globals s st
   <> Aborted).
Proof.
  assert (Hin : forall c, In c [0; 1; 11; 20; 21; 22; 30; 31; 32] ->
            c ∈ [0; 1; 11; 20; 21; 22; 30; 31; 32]).
  { intros c Hc. apply list_elem_of_In. exact Hc. }
  unfold pre_initialize.
  destruct g_archive_filename as [filename|].
  2:{ split; [|discriminate]. intros ? ? ? ? [= <- <- <- <-].
      split; [apply Hin; cbn; auto|]. auto. }
  cbn [g_archive_realpath g_archive_fd g_initialize g_archive_file_size
       g_archive_is_raw initial_start_up_globals].
  destruct (realpath filename) as [path|].
  2:{ split; [|discriminate]. intros ? ? ? ? [= <- <- <- <-].
      split; [apply Hin; cbn; auto|]. auto. }
  destruct (open_rdonly path <? 0).
  { split; [|discriminate]. intros ? ? ? ? [= <- <- <- <-].
    split; [apply Hin; cbn; auto|]. auto. }
  destruct (fstat (open_rdonly path)) as [r st_size].
  destruct (negb (r =? 0)).
  { split; [|discriminate]. intros ? ? ? ? [= <- <- <- <-].
    split; [apply Hin; cbn; auto|]. auto. }
  cbn [g_initialize_archive g_initialize_archive_entry
       g_initialize_index_within_archive].
  destruct archive_read_new as [a0|].
  2:{ split; [|discriminate]. intros ? ? ? ? [= <- <- <- <-].
      split; [apply Hin; cbn; auto|]. auto. }
  destruct (my_archive_read_open _) as [r1 a].
  destruct (negb (r1 =? ARCHIVE_OK)).
  { split; [|discriminate]. intros ? ? ? ? [= <- <- <- <-].
    split; [apply Hin; cbn; auto|]. auto. }
  match goal with
  | |- context [pre_initialize_loop fuel ?g0 st] => set (g0' := g0)
  end.
  pose proof (pre_initialize_loop_spec fuel g0' st) as Hspec.
  pose proof (fun Hh => pre_initialize_loop_returns fuel Hh g0' st
                          ltac:(cbn; eauto)) as Hret.
  destruct (pre_initialize_loop fuel g0' st) as [[[code g] st1]| |];
    cbn [mbind result_bind].
  2:{ split; [discriminate|]. intros Hh _. destruct (Hret Hh eq_refl). }
  2:{ split; discriminate. }
  specialize (Hspec code g st1 eq_refl). clear Hret.
  destruct code as [c|].
  { destruct Hspec as (-> & [[-> ->]|[-> ->]]).
    - split; [|discriminate]. intros ? ? ? ? [= <- <- <- <-].
      split; [apply Hin; cbn; auto 10|]. auto.
    - split; [|discriminate]. intros ? ? ? ? [= <- <- <- <-].
      split; [apply Hin; cbn; auto|]. intros Hne. destruct (Hne eq_refl). }
  destruct Hspec as (-> & [a1 Ha1] & _ & e & He & Hed).
  rewrite Ha1. cbn [deref mbind result_bind].
  destruct (archive_format a1 =? ARCHIVE_FORMAT_RAW).
  - pose proof (pre_initialize_filters_returns fuel a1
                  (archive_filter_count a1) 0) as Hf.
    destruct (pre_initialize_filters fuel a1 (archive_filter_count a1) 0)
      as [found| |]; cbn [mbind result_bind];
      [|congruence|split; discriminate].
    split; [|destruct found; discriminate].
    destruct found; intros ? ? ? ? [= <- <- <- <-].
    + split; [apply Hin; cbn; auto|]. intros Hne. destruct (Hne eq_refl).
    + split; [apply Hin; cbn; auto 10|]. auto.
  - pose proof (fun Hh : failed_reads_set_error => Hh a1 1) as Herr.
    destruct (archive_read_data a1 1) as [[n bytes] a'].
    cbn [fst snd] in Herr.
    destruct (Z.ltb_spec n 0) as [Hn|Hn].
    + destruct (archive_error_string a') as [msg|] eqn:Emsg;
        cbn [deref mbind result_bind].
      * split; [|discriminate]. intros ? ? ? ? [= <- <- <- <-].
        split; [|auto].
        pose proof (determine_passphrase_exit_code_range msg) as Hr.
        apply list_elem_of_In in Hr. apply Hin. cbn in Hr |- *.
        intuition auto.
      * split; [discriminate|]. intros _ Hh.
        destruct (Herr Hh Hn) as [? ?]. discriminate.
    + split; [|discriminate]. intros ? ? ? ? [= <- <- <- <-].
      split; [apply Hin; cbn; auto|]. intros Hne. destruct (Hne eq_refl).
Qed.

(** The loop over the headers returns, with the same result whatever
    the fuel beyond the headers that are left. *)
Lemma pre_initialize_loop_total (left : struct_archive -> nat) :
  headers_set_entry -> headers_run_out left ->
  forall (n : nat) g st a,
    g_initialize_archive g = Some a -> (left a <= n)%nat ->
    exists res, forall fuel, (n < fuel)%nat ->
      pre_initialize_loop fuel g st = Ok res.
Proof.
  intros Hheaders Hout.
  induction n as [|n IH]; intros g st a Ha Hn;
    pose proof (Hheaders a) as Hent; pose proof (Hout a) as Hdec;
    destruct (archive_read_next_header a) as [[status e] a'] eqn:Ehdr;
    cbn [fst snd] in Hent, Hdec;
    (destruct (negb (status =? ARCHIVE_WARN) && negb (status =? ARCHIVE_OK))
       eqn:Est;
     [ exists (if negb (status =? ARCHIVE_EOF)
               then (Some EXIT_CODE_INVALID_ARCHIVE_HEADER,
                     free_initialize_archive, st)
               else (Some 0, free_initialize_archive, insert_root_node st));
       intros [|fuel] Hfuel; [lia|];
       cbn [pre_initialize_loop]; rewrite Ha;
       cbn [deref mbind result_bind]; rewrite Ehdr, Est;
       destruct (negb (status =? ARCHIVE_EOF)); reflexivity
     | assert (Hst : status = ARCHIVE_OK \/ status = ARCHIVE_WARN)
         by (destruct (Z.eqb_spec status ARCHIVE_WARN);
             destruct (Z.eqb_spec status ARCHIVE_OK);
             auto; discriminate);
       specialize (Hdec Hst); destruct (Hent Hst) as [e1 ->] ]).
  - lia.
  - destruct (S_ISDIR (archive_entry_mode e1)) eqn:Ed.
    + destruct (IH {| g_initialize_archive := Some a';
                      g_initialize_archive_entry := Some e1;
                      g_initialize_index_within_archive :=
                        g_initialize_index_within_archive g + 1 |} st a'
                  eq_refl ltac:(lia)) as [res Hres].
      exists res. intros [|fuel] Hfuel; [lia|].
      cbn [pre_initialize_loop]. rewrite Ha. cbn [deref mbind result_bind].
      rewrite Ehdr, Est.
      cbn [deref mbind result_bind g_initialize_archive_entry].
      rewrite Ed. apply Hres. lia.
    + eexists. intros [|fuel] Hfuel; [lia|].
      cbn [pre_initialize_loop]. rewrite Ha. cbn [deref mbind result_bind].
      rewrite Ehdr, Est.
      cbn [deref mbind result_bind g_initialize_archive_entry].
      rewrite Ed. reflexivity.
Qed.

(** The loop over the filters returns within [n - i] iterations. *)
Lemma pre_initialize_filters_total (fuel : nat) a n :
  forall i, i <= n -> (Z.to_nat (n - i) < fuel)%nat ->
    exists found, pre_initialize_filters fuel a n i = Ok found.
Proof.
  induction fuel as [|fuel IH]; intros i Hi Hfuel; [lia|].
  cbn [pre_initialize_filters].
  destruct (Z.eqb_spec i n); [eauto|].
  destruct (negb _); [eauto|].
  apply IH; lia.
Qed.

(** [pre_initialize] returns, once the fuel is beyond the headers that
    are left of the archive and its filters. *)
Lemma pre_initialize_total (left : struct_archive -> nat)
    (g_archive_filename : option string) (G0 : start_up_globals)
    (s : side_buffers) (st : tree) :
  headers_set_entry -> failed_reads_set_error ->
  headers_run_out left -> filter_counts_not_negative ->
  exists fuel0, forall fuel, (fuel0 <= fuel)%nat ->
    exists code G s' st',
      pre_initialize fuel g_archive_filename G0 s st = Ok (code, G, s', st').
Proof.
  intros Hheaders Herrors Hout Hcount.
  unfold pre_initialize.
  destruct g_archive_filename as [filename|]; [|exists 0%nat; eauto 10].
  cbn [g_archive_realpath g_archive_fd g_initialize g_archive_file_size
       g_archive_is_raw].
  destruct (realpath filename) as [path|]; [|exists 0%nat; eauto 10].
  destruct (open_rdonly path <? 0); [exists 0%nat; eauto 10|].
  destruct (fstat (open_rdonly path)) as [r st_size].
  destruct (negb (r =? 0)); [exists 0%nat; eauto 10|].
  cbn [g_initialize_archive g_initialize_archive_entry
       g_initialize_index_within_archive].
  destruct archive_read_new as [a0|]; [|exists 0%nat; eauto 10].
  destruct (my_archive_read_open _) as [r1 a].
  destruct (negb (r1 =? ARCHIVE_OK)); [exists 0%nat; eauto 10|].
  match goal with
  | |- context [pre_initialize_loop _ ?g0 st] => set (g0' := g0)
  end.
  destruct (pre_initialize_loop_total left Hheaders Hout (left a) g0' st a
              eq_refl (le_n _)) as [[[code g] st1] Hloop].
  pose proof (pre_initialize_loop_spec (S (left a)) g0' st code g st1
                (Hloop _ (Nat.lt_succ_diag_r _))) as Hspec.
  destruct code as [c|].
  { exists (S (left a)). intros fuel Hfuel.
    rewrite (Hloop fuel) by lia. cbn [mbind result_bind]. eauto 10. }
  destruct Hspec as (_ & [a1 Ha1] & _).
  pose proof (Hcount a1) as Hc1.
  exists (Nat.max (S (left a)) (S (Z.to_nat (archive_filter_count a1)))).
  intros fuel Hfuel.
  rewrite (Hloop fuel) by lia. cbn [mbind result_bind].
  rewrite Ha1. cbn [deref mbind result_bind].
  destruct (archive_format a1 =? ARCHIVE_FORMAT_RAW).
  - destruct (pre_initialize_filters_total fuel a1 (archive_filter_count a1)
                0) as [found ->]; [lia|lia|].
    cbn [mbind result_bind]. destruct found; eauto 10.
  - pose proof (Herrors a1 1) as Herr.
    destruct (archive_read_data a1 1) as [[n bytes] a'].
    cbn [fst snd] in Herr.
    destruct (Z.ltb_spec n 0) as [Hn|Hn]; [|eauto 10].
    destruct (Herr Hn) as [msg ->]. cbn [deref mbind result_bind]. eauto 10.
Qed.

(** X19. The exit codes of [pre_initialize].  Entered with the globals
    as the program starts with them, whatever it returns is 0 or one of
    the exit codes 1, 11, 20, 21, 22, 30, 31 and 32; and when it
    returns an exit code, it leaves no stream behind and the tree as it
    was: [g_initialize_archive] and [g_initialize_archive_entry] are
    null and [g_initialize_index_within_archive] is -1.  With a library
    that sets the entry whenever it returns a header and an error
    string whenever a read fails, it follows no null pointer; and when
    moreover the headers of the archive run out ([left] bounds the
    headers still to come) and no filter count is negative, it does
    return such a value, once the fuel is enough for the headers and
    the filters. *)
Theorem pre_initialize_exit_codes (left : struct_archive -> nat)
    (fuel : nat) (g_archive_filename : option string) (s : side_buffers)
    (st : tree) :
  (forall code G s' st',
     pre_initialize fuel g_archive_filename initial_start_up_globals s st
     = Ok (code, G, s', st') ->
     code ∈ [0; 1; 11; 20; 21; 22; 30; 31; 32] /\
     (code <> 0 ->
      g_initialize G = free_initialize_archive /\ st' = st)) /\
  (headers_set_entry -> failed_reads_set_error ->
   pre_initialize fuel g_archive_filename initial_start_up_globals s st
   <> Aborted /\
   (headers_run_out left -> filter_counts_not_negative ->
    exists fuel0, forall fuel', (fuel0 <= fuel')%nat ->
      exists code G s' st',
        pre_initialize fuel' g_archive_filename initial_start_up_globals s st
        = Ok (code, G, s', st') /\
        code ∈ [0; 1; 11; 20; 21; 22; 30; 31; 32] /\
        (code <> 0 ->
         g_initialize G = free_initialize_archive /\ st' = st))).
Proof.
  split.
  { exact (proj1 (pre_initialize_result fuel g_archive_filename s st)). }
  intros Hheaders Herrors. split.
  { exact (proj2 (pre_initialize_result fuel g_archive_filename s st)
             Hheaders Herrors). }
  intros Hout Hcount.
  destruct (pre_initialize_total left g_archive_filename
              initial_start_up_globals s st Hheaders Herrors Hout Hcount)
    as [fuel0 Hrun].
  exists fuel0. intros fuel' Hfuel.
  destruct (Hrun fuel' Hfuel) as (code & G & s' & st' & Hpre).
  exists code, G, s', st'. split; [exact Hpre|].
  exact (proj1 (pre_initialize_result fuel' g_archive_filename s st)
           code G s' st' Hpre).
Qed.

End PreInitializeFacts.


Lemma one_file_calls_failed_reads_set_error :
  failed_reads_set_error (H0 := one_file_calls).
Proof.
  intros a len. cbn. destruct (len <=? 0); cbn; lia.
Qed.

Lemma one_file_library_headers_run_out :
  headers_run_out (H := one_file_library) (fun a => a).
Proof.
  intros [|a]; cbn; [intros [E|E]; discriminate E|lia].
Qed.

Lemma pre_initialize_exit_codes_witness :
  exists fuel0, forall fuel', (fuel0 <= fuel')%nat ->
    exists code G s' st',
      pre_initialize (H0 := one_file_calls) fuel' (Some "a.zip")
        initial_start_up_globals zeroed_side_buffers empty_tree
      = Ok (code, G, s', st') /\
      code ∈ [0; 1; 11; 20; 21; 22; 30; 31; 32] /\
      (code <> 0 ->
       g_initialize G = free_initialize_archive /\ st' = empty_tree).
Proof.
  refine (proj2 (proj2 (pre_initialize_exit_codes (H0 := one_file_calls)
                          (fun a => a) 0 (Some "a.zip") zeroed_side_buffers
                          empty_tree)
                   one_file_library_headers_set_entry
                   one_file_calls_failed_reads_set_error)
            one_file_library_headers_run_out _).
  intros a. cbn. lia.
Defined.

Section StartUpReturns.
Context `{Libarchive}.
Variable left : struct_archive -> nat.
Hypothesis Hheaders : headers_set_entry.
Hypothesis Hreads : reads_within_length.
Hypothesis Hout : archive_runs_out left.

(** The loop that measures an entry returns within the reads that the
    data left allow. *)
Lemma insert_leaf_measure_total fuel :
  forall a (s : side_buffers) size,
    (left a < fuel)%nat ->
    exists sz a' s',
      insert_leaf_measure fuel (Some a) s size = Ok (sz, Some a', s') /\
      (left a' <= left a)%nat.
Proof.
  induction fuel as [|fuel IH]; intros a s size Hfuel; [lia|].
  cbn [insert_leaf_measure deref mbind result_bind].
  pose proof (Hreads a SIDE_BUFFER_SIZE ltac:(unfold SIDE_BUFFER_SIZE; lia))
    as Hn.
  destruct (proj2 Hout a SIDE_BUFFER_SIZE
              ltac:(unfold SIDE_BUFFER_SIZE; lia)) as [Hle Hlt].
  destruct (archive_read_data a SIDE_BUFFER_SIZE) as [[n bytes] a1].
  cbn [fst snd] in Hn, Hle, Hlt.
  destruct (Z.eqb_spec n 0); [eauto 10|].
  destruct (Z.ltb_spec n 0); [eauto 10|].
  destruct (Z.gtb_spec n SIDE_BUFFER_SIZE) as [|_]; [lia|].
  specialize (Hlt ltac:(lia)).
  match goal with
  | |- context [insert_leaf_measure fuel (Some a1) ?s1 ?z] =>
      destruct (IH a1 s1 z ltac:(lia)) as (sz & a' & s' & Hrun & Hle')
  end.
  exists sz, a', s'. split; [exact Hrun|lia].
Qed.

Lemma insert_leaf_total fuel is_raw innername a e idx (s : side_buffers)
    (st : tree) :
  tree_inv st -> Z.of_nat (length (g_nodes_by_index st)) <= idx ->
  (left a < fuel)%nat ->
  exists ret a' s' st',
    insert_leaf fuel is_raw innername (Some a) e idx s st
    = Ok (ret, Some a', s', st') /\
    (left a' <= left a)%nat.
Proof.
  intros Hinv Hby Hfuel. unfold insert_leaf.
  destruct (String.eqb _ ""); [eauto 10|].
  destruct (_ || _); [eauto 10|].
  destruct (_ && _); [eauto 10|].
  match goal with
  | |- context [insert_leaf_node ?p ?l idx _ ?t ?m st] =>
      set (pathname := p); set (symlink := l); set (mtime := t);
      set (mode := m)
  end.
  assert (Hnode : forall size a1 (s1 : side_buffers),
            (left a1 <= left a)%nat ->
            exists ret a' s' st',
              ('(ret, st') ← insert_leaf_node pathname symlink idx size mtime
                               mode st;
               Ok (ret, Some a1, s1, st')) = Ok (ret, Some a', s', st') /\
              (left a' <= left a)%nat).
  { intros size a1 s1 Ha1.
    destruct (insert_leaf_node_returns pathname symlink idx size mtime mode
                st Hinv Hby) as (r & st1 & -> & _).
    cbn [mbind result_bind]. eauto 10. }
  destruct (negb (archive_entry_size_is_set e)).
  - destruct (insert_leaf_measure_total fuel a s (archive_entry_size e) Hfuel)
      as (sz & a1 & s1 & -> & Hle).
    cbn [mbind result_bind].
    destruct sz as [size|]; [apply Hnode; exact Hle|eauto 10].
  - cbn [mbind result_bind]. apply Hnode. lia.
Qed.

(** The loop of [build_tree] returns once the fuel is beyond what is
    left of the archive. *)
Lemma build_tree_loop_total fuel is_raw innername :
  forall (first : bool) g (s : side_buffers) (st : tree) a,
    tree_inv st -> g_initialize_archive g = Some a ->
    (first = true -> is_Some (g_initialize_archive_entry g)) ->
    Z.of_nat (length (g_nodes_by_index st)) <=
      g_initialize_index_within_archive g + (if first then 0 else 1) ->
    (left a + (if first then 1 else 0) < fuel)%nat ->
    exists ret g' s' st',
      build_tree_loop fuel is_raw innername first g s st
      = Ok (ret, g', s', st').
Proof.
  induction fuel as [|fuel IH]; intros first g s st a Hinv Ha He Hby Hfuel;
    [lia|].
  cbn [build_tree_loop].
  (* the globals and the entry after the header has been read *)
  assert (Hhead :
    forall g1 a1 e,
      g_initialize_archive g1 = Some a1 ->
      g_initialize_archive_entry g1 = Some e ->
      Z.of_nat (length (g_nodes_by_index st)) <=
        g_initialize_index_within_archive g1 ->
      (left a1 < fuel)%nat ->
      exists ret g' s' st',
        (e0 ← deref (g_initialize_archive_entry g1);
         if S_ISDIR (archive_entry_mode e0) then
           build_tree_loop fuel is_raw innername false g1 s st
         else
           '(ret, a, s, st) ←
             insert_leaf (S fuel) is_raw innername (g_initialize_archive g1) e0
               (g_initialize_index_within_archive g1) s st;
           let g :=
             {| g_initialize_archive := a;
                g_initialize_archive_entry := g_initialize_archive_entry g1;
                g_initialize_index_within_archive :=
                  g_initialize_index_within_archive g1 |} in
           if negb (ret =? 0) then Ok (ret, g, s, st)
           else build_tree_loop fuel is_raw innername false g s st)
        = Ok (ret, g', s', st')).
  { intros g1 a1 e Ha1 He1 Hby1 Hleft. rewrite He1.
    cbn [deref mbind result_bind].
    destruct (S_ISDIR (archive_entry_mode e)).
    { apply (IH false g1 s st a1); [exact Hinv|exact Ha1|discriminate|lia|lia]. }
    rewrite Ha1.
    destruct (insert_leaf_total (S fuel) is_raw innername a1 e
                (g_initialize_index_within_archive g1) s st Hinv Hby1
                ltac:(lia)) as (r & a2 & s2 & st2 & El & Hle).
    rewrite El. cbn [mbind result_bind].
    destruct (insert_leaf_returns Hreads (S fuel) is_raw innername
                (Some a1) e (g_initialize_index_within_archive g1) s st Hinv
                ltac:(eauto) Hby1) as [_ Hres].
    destruct (Hres r (Some a2) s2 st2 El) as (_ & _ & Hlen).
    destruct (insert_leaf_inv _ _ _ _ _ _ _ _ _ _ _ _ Hinv El) as [Hinv1 _].
    destruct (negb (r =? 0)); [eauto 10|].
    apply (IH false _ s2 st2 a2);
      [exact Hinv1|reflexivity|discriminate|exact Hlen|lia]. }
  destruct first.
  - cbn [mbind result_bind negb].
    destruct (He eq_refl) as [e He1].
    apply (Hhead g a e); [exact Ha|exact He1|lia|lia].
  - rewrite Ha. cbn [deref mbind result_bind].
    pose proof (Hheaders a) as Hent.
    pose proof (proj1 Hout a) as Hdec.
    destruct (archive_read_next_header a) as [[status e] a'].
    cbn [fst snd] in Hent, Hdec.
    destruct (Z.eqb_spec status ARCHIVE_EOF) as [|_].
    { cbn [mbind result_bind negb]. eauto 10. }
    destruct (Z.eqb_spec status ARCHIVE_WARN) as [Hw|_].
    { cbn [mbind result_bind negb].
      destruct Hent as [e1 ->]; [auto|]. specialize (Hdec ltac:(auto)).
      apply (Hhead _ a' e1); [reflexivity|reflexivity|cbn; lia|lia]. }
    destruct (Z.eqb_spec status ARCHIVE_OK) as [Hok|_]; cbn [negb].
    2:{ cbn [mbind result_bind negb]. eauto 10. }
    cbn [mbind result_bind negb].
    destruct Hent as [e1 ->]; [auto|]. specialize (Hdec ltac:(auto)).
    apply (Hhead _ a' e1); [reflexivity|reflexivity|cbn; lia|lia].
Qed.

End StartUpReturns.

Section StartUp.
Context `{StartUpCalls}.
Hypothesis Hheaders : headers_set_entry.
Hypothesis Hreads : reads_within_length.

(** How [pre_initialize] hands over to [post_initialize_sync]. *)
Lemma pre_initialize_hands_over (fuel : nat)
    (g_archive_filename : option string) (s s1 : side_buffers)
    (G : start_up_globals) (st1 : tree) :
  pre_initialize fuel g_archive_filename initial_start_up_globals s
    empty_tree = Ok (0, G, s1, st1) ->
  (st1 = insert_root_node empty_tree /\
   g_initialize G = free_initialize_archive \/
   st1 = empty_tree /\
   is_Some (g_initialize_archive (g_initialize G)) /\
   0 <= g_initialize_index_within_archive (g_initialize G) /\
   exists e,
     g_initialize_archive_entry (g_initialize G) = Some e /\
     S_ISDIR (archive_entry_mode e) = false) /\
  forall fuel' innername,
    post_initialize_sync fuel' (g_archive_is_raw G) innername
      (g_initialize G) s1 st1 <> Aborted /\
    forall error g' s' st,
      post_initialize_sync fuel' (g_archive_is_raw G) innername
        (g_initialize G) s1 st1 = Ok (error, g', s', st) ->
      (error = 0 \/ error = - EIO) /\ tree_inv st /\
      exists root, g_root_node st = Some root /\
        g_nodes_by_name st !! "/" = Some root.
Proof.
  intros Hpre.
  assert (Hstate :
    st1 = insert_root_node empty_tree /\
    g_initialize G = free_initialize_archive \/
    st1 = empty_tree /\
    is_Some (g_initialize_archive (g_initialize G)) /\
    0 <= g_initialize_index_within_archive (g_initialize G) /\
    exists e,
      g_initialize_archive_entry (g_initialize G) = Some e /\
      S_ISDIR (archive_entry_mode e) = false).
  { revert Hpre. unfold pre_initialize.
    destruct g_archive_filename as [filename|];
      [|intros [= E _ _ _]; discriminate E].
    cbn [g_archive_realpath g_archive_fd g_initialize g_archive_file_size
         g_archive_is_raw initial_start_up_globals].
    destruct (realpath filename) as [path|];
      [|intros [= E _ _ _]; discriminate E].
    destruct (open_rdonly path <? 0); [intros [= E _ _ _]; discriminate E|].
    destruct (fstat (open_rdonly path)) as [r st_size].
    destruct (negb (r =? 0)); [intros [= E _ _ _]; discriminate E|].
    cbn [g_initialize_archive g_initialize_archive_entry
         g_initialize_index_within_archive].
    destruct archive_read_new as [a0|];
      [|intros [= E _ _ _]; discriminate E].
    destruct (my_archive_read_open _) as [r1 a].
    destruct (negb (r1 =? ARCHIVE_OK)); [intros [= E _ _ _]; discriminate E|].
    match goal with
    | |- context [pre_initialize_loop fuel ?g0 empty_tree] => set (g0' := g0)
    end.
    pose proof (pre_initialize_loop_spec fuel g0' empty_tree) as Hspec.
    destruct (pre_initialize_loop fuel g0' empty_tree) as [[[code g] st0]| |];
      cbn [mbind result_bind]; try discriminate.
    specialize (Hspec code g st0 eq_refl).
    destruct code as [c|].
    { destruct Hspec as (-> & [[-> ->]|[-> ->]]).
      - intros [=].
      - intros [= <- <- <-]. left. auto. }
    destruct Hspec as (-> & [a1 Ha1] & Hidx & e & He & Hed).
    cbn [g0' g_initialize_index_within_archive] in Hidx.
    rewrite Ha1. cbn [deref mbind result_bind].
    destruct (archive_format a1 =? ARCHIVE_FORMAT_RAW).
    - destruct (pre_initialize_filters _ _ _ _) as [found| |];
        cbn [mbind result_bind]; try discriminate.
      destruct found; [intros [= <- <- <-]|intros [=]].
      right. cbn. rewrite Ha1. split; [reflexivity|].
      split; [eauto|]. split; [lia|eauto].
    - destruct (archive_read_data a1 1) as [[n bytes] a'].
      destruct (n <? 0).
      + destruct (archive_error_string a') as [msg|];
          cbn [deref mbind result_bind]; [|discriminate].
        intros [= E _ _ _].
        pose proof (determine_passphrase_exit_code_range msg) as Hr.
        rewrite E in Hr. apply list_elem_of_In in Hr. cbn in Hr.
        intuition discriminate.
      + intros [= <- <- <-]. right. cbn. split; [reflexivity|].
        split; [eauto|]. split; [lia|eauto]. }
  split; [exact Hstate|]. intros fuel' innername.
  destruct Hstate as [[-> HG]|(-> & Ha & Hidx & e & He & _)].
  - cbn. split; [discriminate|]. intros ? ? ? ? [= <- <- <- <-].
    split; [auto|]. split; [exact insert_root_node_inv|].
    exists 0%nat. split; reflexivity.
  - unfold post_initialize_sync, build_tree. cbn [g_root_node empty_tree].
    destruct (Z.ltb_spec (g_initialize_index_within_archive (g_initialize G))
                0) as [|_]; [lia|].
    destruct (build_tree_loop_returns Hheaders Hreads fuel'
                (g_archive_is_raw G) innername true (g_initialize G) s1
                (insert_root_node empty_tree) insert_root_node_inv Ha
                (fun _ => ex_intro _ e He) ltac:(cbn; lia)) as [Hna Hres].
    destruct (build_tree_loop _ _ _ _ _ _ _) as [[[[r g1] s2] st2]| |] eqn:Eb;
      cbn [mbind result_bind]; [|congruence|split; discriminate].
    split; [discriminate|]. intros ? ? ? ? [= <- <- <- <-].
    split; [exact (Hres r g1 s2 st2 eq_refl)|].
    destruct (build_tree_loop_inv _ _ _ _ _ _ _ _ _ _ _
                insert_root_node_inv Eb) as [Hinv _].
    split; [exact Hinv|].
    destruct (inv_root st2 Hinv) as (root & rnode & Hr & _ & _ & _ & Hn).
    eauto.
Qed.

(** X20. The two parts of start-up fit together, with a library that
    sets the entry whenever it returns a header and never reads more
    than the length asked for.  When [pre_initialize], entered with the
    globals as the program starts with them and with no node yet,
    returns 0, it has either met the end of the archive and inserted
    the root, or it holds a stream with its first entry that is not a
    directory, at an index that is not negative, and has left the tree
    alone.  [post_initialize_sync] then trips no assertion and follows
    no null pointer, and whatever it returns is 0 or [-EIO], with a
    tree that satisfies the invariants and has its root bound to "/".
    And when the archive runs out ([left] bounds the headers and the
    data still to come), [post_initialize_sync] does return such a
    value, once the fuel is beyond what is left of the archive. *)
Theorem pre_initialize_then_post_initialize_sync
    (left : struct_archive -> nat) (fuel : nat)
    (g_archive_filename : option string) (s s1 : side_buffers)
    (G : start_up_globals) (st1 : tree) :
  pre_initialize fuel g_archive_filename initial_start_up_globals s
    empty_tree = Ok (0, G, s1, st1) ->
  (st1 = insert_root_node empty_tree /\
   g_initialize G = free_initialize_archive \/
   st1 = empty_tree /\
   is_Some (g_initialize_archive (g_initialize G)) /\
   0 <= g_initialize_index_within_archive (g_initialize G) /\
   exists e,
     g_initialize_archive_entry (g_initialize G) = Some e /\
     S_ISDIR (archive_entry_mode e) = false) /\
  forall fuel' innername,
    (post_initialize_sync fuel' (g_archive_is_raw G) innername
       (g_initialize G) s1 st1 <> Aborted /\
     forall error g' s' st,
       post_initialize_sync fuel' (g_archive_is_raw G) innername
         (g_initialize G) s1 st1 = Ok (error, g', s', st) ->
       (error = 0 \/ error = - EIO) /\ tree_inv st /\
       exists root, g_root_node st = Some root /\
         g_nodes_by_name st !! "/" = Some root) /\
    (archive_runs_out left ->
     (forall a, g_initialize_archive (g_initialize G) = Some a ->
        (S (left a) < fuel')%nat) ->
     exists error g' s' st,
       post_initialize_sync fuel' (g_archive_is_raw G) innername
         (g_initialize G) s1 st1 = Ok (error, g', s', st) /\
       (error = 0 \/ error = - EIO) /\ tree_inv st /\
       exists root, g_root_node st = Some root /\
         g_nodes_by_name st !! "/" = Some root).
Proof.
  intros Hpre.
  destruct (pre_initialize_hands_over fuel
              g_archive_filename s s1 G st1 Hpre) as [Hstate Hpart].
  split; [exact Hstate|]. intros fuel' innername.
  split; [exact (Hpart fuel' innername)|].
  intros Hout Hfuel.
  assert (Hrun : exists error g' s' st,
            post_initialize_sync fuel' (g_archive_is_raw G) innername
              (g_initialize G) s1 st1 = Ok (error, g', s', st)).
  { destruct Hstate as [[-> HG]|(-> & [a Ha] & Hidx & e & He & _)].
    - cbn. eauto 10.
    - unfold post_initialize_sync, build_tree. cbn [g_root_node empty_tree].
      destruct (Z.ltb_spec (g_initialize_index_within_archive (g_initialize G))
                  0) as [|_]; [lia|].
      specialize (Hfuel a Ha).
      destruct (build_tree_loop_total left Hheaders Hreads Hout fuel'
                  (g_archive_is_raw G) innername true (g_initialize G) s1
                  (insert_root_node empty_tree) a insert_root_node_inv Ha
                  (fun _ => ex_intro _ e He))
        as (r & g1 & s2 & st2 & ->); [cbn; lia|lia|].
      cbn [mbind result_bind]. eauto 10. }
  destruct Hrun as (error & g' & s' & st & Hrun).
  exists error, g', s', st. split; [exact Hrun|].
  exact (proj2 (Hpart fuel' innername) error g' s' st Hrun).
Qed.

End StartUp.

Lemma scripted_headers_set_entry file openable :
  headers_set_entry (H := scripted file openable).
Proof.
  intros a. cbn. unfold script_next_header.
  destruct (script_headers a) as [|[[status e] len] rest]; cbn;
    [intros [E|E]; discriminate E|eauto].
Qed.

Lemma scripted_reads_within_length file openable :
  reads_within_length (H := scripted file openable).
Proof.
  intros a len Hlen. cbn. unfold script_read_data.
  destruct (script_data_error a); cbn [fst snd].
  - unfold ARCHIVE_FATAL. lia.
  - lia.
Qed.

Lemma scripted_archive_runs_out file openable :
  archive_runs_out (H := scripted file openable) script_left.
Proof.
  split.
  - intros a. cbn. unfold script_next_header, script_left.
    destruct (script_headers a) as [|[[status e] len] rest] eqn:Eh; cbn;
      [intros [E|E]; discriminate E|].
    intros _. lia.
  - intros a len Hlen. cbn. unfold script_read_data, script_left.
    destruct (script_data_error a); cbn [fst snd script_remaining script_headers].
    + split; [lia|unfold ARCHIVE_FATAL; lia].
    + split; lia.
Qed.

Lemma pre_initialize_then_post_initialize_sync_witness :
  exists error g' s' st,
    post_initialize_sync (H := scripted two_files_file true) 10 false None
      two_files_file_initialize_globals
      (set_data zeroed_side_buffers SIDE_BUFFER_INDEX_DECOMPRESSED
         (store [Byte.x00]
            (data_at zeroed_side_buffers SIDE_BUFFER_INDEX_DECOMPRESSED)))
      empty_tree = Ok (error, g', s', st) /\
    (error = 0 \/ error = - EIO) /\ tree_inv st /\
    exists root, g_root_node st = Some root /\
      g_nodes_by_name st !! "/" = Some root.
Proof.
  refine (proj2 (proj2 (pre_initialize_then_post_initialize_sync
                          (H0 := scripted_calls two_files_file)
                          (scripted_headers_set_entry two_files_file true)
                          (scripted_reads_within_length two_files_file true)
                          script_left 2 (Some "a.zip")
                          zeroed_side_buffers
                          (set_data zeroed_side_buffers
                             SIDE_BUFFER_INDEX_DECOMPRESSED
                             (store [Byte.x00]
                                (data_at zeroed_side_buffers
                                   SIDE_BUFFER_INDEX_DECOMPRESSED)))
                          {| g_archive_realpath := Some "a.zip";
                             g_archive_fd := 3;
                             g_archive_file_size := 100;
                             g_archive_is_raw := false;
                             g_initialize :=
                               two_files_file_initialize_globals |}
                          empty_tree _) 10%nat None)
            (scripted_archive_runs_out two_files_file true) _).
  - vm_compute. reflexivity.
  - intros a [= <-]. vm_compute. lia.
Defined.


(** ** The size of a directory *)

Lemma children_of_new_node (st : tree) :
  tree_inv st -> children_of (nodes st) (length (nodes st)) = [].
Proof.
  intros Hinv.
  destruct (children_of (nodes st) (length (nodes st))) as [|c cs] eqn:Ecs;
    [reflexivity|].
  assert (Hc : c ∈ children_of (nodes st) (length (nodes st)))
    by (rewrite Ecs; left).
  apply elem_of_children_of in Hc as (C & HC & HCp).
  destruct (inv_parent st Hinv c C _ HC HCp) as (pn & Hpn & _).
  apply lookup_lt_Some in Hpn. lia.
Qed.

Lemma dir_size_inv_attach (st : tree) (new : Node.t) (parent : nat)
    (pn : Node.t) (nodes2 : list Node.t) (names : gmap string nat)
    (by_index : list (option nat)) (bc : Z) :
  tree_inv st -> dir_size_inv st ->
  nodes st !! parent = Some pn ->
  (Node.is_dir new = true -> Node.size new = 0) ->
  Node.add_child (nodes st ++ [new]) parent (length (nodes st)) = Ok nodes2 ->
  dir_size_inv {| nodes := nodes2; g_nodes_by_name := names;
                  g_nodes_by_index := by_index;
                  g_root_node := g_root_node st; g_block_count := bc |}.
Proof.
  intros Hinv Hsz Hp Hnew Hadd.
  destruct (add_child_new_fields _ _ _ _ _ Hp Hadd)
    as (Hlen & Hold & new' & Hnew' & _ & _ & _ & _ & Em & Es & Ep).
  assert (Hchildren : forall d,
            children_of nodes2 d =
            children_of (nodes st) d ++
            (if decide (d = parent) then [length (nodes st)] else [])).
  { intros d. apply children_of_attached; [exact Hlen| |eauto].
    intros k x Hk. destruct (Hold k x Hk) as (x' & Hx' & H1); eauto.
    exists x'. split; [exact Hx'|]. apply H1. }
  intros d D2 HD2 Hd2. cbn [nodes] in *. rewrite Hchildren.
  destruct (decide (d < length (nodes st))%nat) as [Hd|Hd].
  - destruct (lookup_lt_is_Some_2 (nodes st) d Hd) as [D HD].
    destruct (Hold d D HD) as (D' & HD' & _ & _ & _ & _ & Em' & Es' & _).
    assert (D' = D2) as -> by congruence.
    assert (HdD : Node.is_dir D = true)
      by (unfold Node.is_dir in *; congruence).
    rewrite Es', (Hsz d D HD HdD), length_app.
    destruct (decide (d = parent)); cbn [length]; lia.
  - assert (d = length (nodes st)) as ->.
    { apply lookup_lt_Some in HD2. lia. }
    assert (D2 = new') as -> by congruence.
    rewrite decide_False
      by (apply lookup_lt_Some in Hp; lia).
    rewrite (children_of_new_node st Hinv), Es. cbn.
    rewrite Hnew; [lia|]. unfold Node.is_dir in *. congruence.
Qed.

Lemma insert_leaf_node_dir_size_inv pathname symlink idx size mtime mode
    st ret st' :
  tree_inv st -> dir_size_inv st ->
  insert_leaf_node pathname symlink idx size mtime mode st = Ok (ret, st') ->
  dir_size_inv st'.
Proof.
  apply (insert_leaf_node_preserves symlink idx size mtime mode dir_size_inv).
  - intros st0 parent pn Hinv Hsz Hp Hd d D' HD' Hd'.
    cbn [set_nodes nodes] in *.
    assert (Hlt : (parent < length (nodes st0))%nat)
      by (eapply lookup_lt_Some; eauto).
    assert (Hold : forall k x, nodes st0 !! k = Some x ->
              exists x',
                <[parent := touch mtime (branch_mode_of mode) pn]> (nodes st0)
                  !! k = Some x' /\
                Node.parent x' = Node.parent x /\
                Node.size x' = Node.size x /\
                Node.is_dir x' = Node.is_dir x).
    { intros k x Hk. destruct (decide (k = parent)) as [->|Hne].
      - rewrite list_lookup_insert_eq by exact Hlt.
        assert (x = pn) as -> by congruence.
        eexists. split; [reflexivity|].
        destruct (touch_fields mtime (branch_mode_of mode) pn)
          as (_ & _ & _ & E4 & E5).
        rewrite touch_is_dir by exact Hd. auto.
      - rewrite list_lookup_insert_ne by congruence. eauto 10. }
    assert (Hd0 : (d < length (nodes st0))%nat).
    { apply lookup_lt_Some in HD'. rewrite length_insert in HD'. exact HD'. }
    destruct (lookup_lt_is_Some_2 (nodes st0) d Hd0) as [D HD].
    destruct (Hold d D HD) as (D2 & HD2 & _ & Es & Ed).
    assert (D2 = D') as -> by congruence.
    rewrite (children_of_same (nodes st0)), Es.
    + apply Hsz; [exact HD|congruence].
    + apply length_insert.
    + intros k x Hk. destruct (Hold k x Hk) as (x' & Hx' & P & _). eauto.
  - intros st0 A rel parent pn nodes2 Hinv HP _ _ _ Hp _ Hadd.
    apply (dir_size_inv_attach st0
             (Node.new rel "" (-1) 0 mtime (branch_mode_of mode))
             parent pn nodes2 _ _ _ Hinv HP Hp); [reflexivity|exact Hadd].
  - intros st0 A rel parent pn nodes2 node Hinv HP _ _ _ Hp _ Hadd _ _ _.
    apply (dir_size_inv_attach st0
             (Node.new rel symlink idx size mtime (leaf_mode_of symlink mode))
             parent pn nodes2 _ _ _ Hinv HP Hp); [|exact Hadd].
    unfold Node.is_dir. cbn [Node.new Node.mode].
    rewrite is_dir_leaf_mode. discriminate.
Qed.

Lemma insert_root_node_dir_size_inv :
  dir_size_inv (insert_root_node empty_tree).
Proof.
  intros d D HD _. cbn in HD.
  destruct d as [|d]; [|destruct d; discriminate].
  injection HD as <-. reflexivity.
Qed.

(** X21. The size of a directory.  After start-up, [my_getattr] shows
    for a directory a size of 512 bytes for every node whose parent it
    is, and as many blocks as it has such nodes. *)
Theorem directory_size_counts_children `{Libarchive} (fuel : nat)
    (is_raw : bool) (innername : option string) (g g' : initialize_globals)
    (s s' : side_buffers) (error : Z) (st : tree)
    (g_uid g_gid : Z) (K : string) (d : nat) (D : Node.t) (z : struct_stat) :
  post_initialize_sync fuel is_raw innername g s empty_tree
  = Ok (error, g', s', st) ->
  g_nodes_by_name st !! K = Some d -> nodes st !! d = Some D ->
  Node.is_dir D = true ->
  let n :=
    Z.of_nat
      (length (filter (fun c => nodes st !! c ≫= Node.parent = Some d)
                 (seq 0 (length (nodes st))))) in
  exists stt,
    my_getattr g_uid g_gid st K z = Ok (0, stt) /\
    st_size stt = 512 * n /\ st_blocks stt = n.
Proof.
  intros Hrun HK HD Hd n.
  pose proof (post_initialize_sync_preserves dir_size_inv
                insert_leaf_node_dir_size_inv _ _ _ _ _ _ _ _ _
                insert_root_node_dir_size_inv Hrun d D HD Hd) as Hsz.
  exists (get_stat g_uid g_gid D). unfold my_getattr. rewrite HK, HD.
  cbn [deref mbind result_bind get_stat st_size st_blocks].
  split; [reflexivity|]. split; [exact Hsz|].
  unfold Node.get_block_count. rewrite Hsz. fold n.
  assert (Hn : 0 <= n) by apply Nat2Z.is_nonneg.
  change (Z.of_nat (length (children_of (nodes st) d))) with n.
  unfold block_size. rewrite Z.quot_div_nonneg by lia.
  symmetry. apply (Z.div_unique _ _ _ 511); lia.
Qed.

Lemma directory_size_counts_children_witness :
  let n :=
    Z.of_nat
      (length (filter (fun c => nodes two_files_tree !! c ≫= Node.parent
                                = Some 1%nat)
                 (seq 0 (length (nodes two_files_tree))))) in
  exists stt,
    my_getattr 1000 1000 two_files_tree "/a"
      (Build_struct_stat 0 0 0 0 0 0 0 0) = Ok (0, stt) /\
    st_size stt = 512 * n /\ st_blocks stt = n.
Proof.
  apply (directory_size_counts_children
           (H := scripted two_files_archive true)
           3 false None two_files_initialize_globals
           (@Build_initialize_globals (scripted two_files_archive true)
              None None (-1))
           zeroed_side_buffers zeroed_side_buffers 0 two_files_tree
           1000 1000 "/a" 1%nat
           (Node.set_last_child (Some 3%nat)
              (Node.set_first_child (Some 2%nat)
                 (Node.set_parent (Some 0%nat)
                    (Node.set_size 1024
                       (Node.new "a" "" (-1) 0 6 16749)))))
           (Build_struct_stat 0 0 0 0 0 0 0 0)).
  - vm_compute. reflexivity.
  - vm_compute. reflexivity.
  - vm_compute. reflexivity.
  - reflexivity.
Defined.


(** ** Names and nodes *)

Lemma names_inv_attach (st : tree) (A rel : string) (new : Node.t)
    (parent : nat) (pn : Node.t) (nodes2 : list Node.t)
    (by_index : list (option nat)) (bc : Z) :
  tree_inv st -> names_inv st ->
  dir_at st A = Some parent -> no_slash rel = true ->
  g_nodes_by_name st !! (A +:+ "/" +:+ rel) = None ->
  nodes st !! parent = Some pn ->
  Node.rel_name new = rel ->
  Node.add_child (nodes st ++ [new]) parent (length (nodes st)) = Ok nodes2 ->
  names_inv
    {| nodes := nodes2;
       g_nodes_by_name :=
         <[A +:+ "/" +:+ rel := length (nodes st)]> (g_nodes_by_name st);
       g_nodes_by_index := by_index;
       g_root_node := g_root_node st; g_block_count := bc |}.
Proof.
  intros Hinv [Huniq Hpath] Hda Hns Hnone Hp Hrel Hadd.
  destruct (add_child_new_fields _ _ _ _ _ Hp Hadd)
    as (Hlen & Hold & new' & Hnew' & Er & _ & _ & _ & _ & _ & Ep).
  assert (Hfresh : forall K, g_nodes_by_name st !! K <> Some (length (nodes st))).
  { intros K HK. destruct (inv_names st Hinv K _ HK) as [x Hx].
    apply lookup_lt_Some in Hx. lia. }
  split.
  - intros K1 K2 n. cbn [g_nodes_by_name].
    destruct (decide (K1 = A +:+ "/" +:+ rel)) as [->|H1],
             (decide (K2 = A +:+ "/" +:+ rel)) as [->|H2];
      [reflexivity| | |].
    + rewrite lookup_insert_eq, lookup_insert_ne by congruence.
      intros [= <-] HK. destruct (Hfresh _ HK).
    + rewrite lookup_insert_eq, lookup_insert_ne by congruence.
      intros HK [= <-]. destruct (Hfresh _ HK).
    + rewrite !lookup_insert_ne by congruence. apply Huniq.
  - assert (Hdir : forall A0 p, dir_at st A0 = Some p ->
              dir_at {| nodes := nodes2;
                        g_nodes_by_name :=
                          <[A +:+ "/" +:+ rel := length (nodes st)]>
                            (g_nodes_by_name st);
                        g_nodes_by_index := by_index;
                        g_root_node := g_root_node st;
                        g_block_count := bc |} A0 = Some p).
    { intros A0 p. unfold dir_at. cbn [g_root_node g_nodes_by_name].
      destruct (String.eqb A0 ""); [auto|]. intros HA0.
      rewrite lookup_insert_ne by congruence. exact HA0. }
    intros n x Hx. cbn [nodes g_nodes_by_name g_root_node] in *.
    destruct (decide (n < length (nodes st))%nat) as [Hn|Hn].
    + destruct (lookup_lt_is_Some_2 (nodes st) n Hn) as [x0 Hx0].
      destruct (Hold n x0 Hx0) as (x' & Hx' & E1 & _ & _ & _ & _ & _ & E7).
      assert (x' = x) as -> by congruence.
      rewrite E1, E7. specialize (Hpath n x0 Hx0).
      destruct (Node.parent x0) as [p|]; [|exact Hpath].
      destruct Hpath as (A0 & HA0 & HK & Hn0).
      exists A0. split; [apply Hdir; exact HA0|]. split; [|exact Hn0].
      rewrite lookup_insert_ne by congruence. exact HK.
    + assert (n = length (nodes st)) as ->.
      { apply lookup_lt_Some in Hx. lia. }
      assert (x = new') as -> by congruence.
      rewrite Ep, Er, Hrel. exists A.
      split; [apply Hdir; exact Hda|].
      split; [apply lookup_insert_eq|exact Hns].
Qed.

Lemma insert_leaf_node_names_inv pathname symlink idx size mtime mode
    st ret st' :
  tree_inv st -> names_inv st ->
  insert_leaf_node pathname symlink idx size mtime mode st = Ok (ret, st') ->
  names_inv st'.
Proof.
  apply (insert_leaf_node_preserves symlink idx size mtime mode names_inv).
  - intros st0 parent pn Hinv [Huniq Hpath] Hp Hd.
    split; [exact Huniq|].
    intros n x Hx. cbn [set_nodes nodes g_nodes_by_name g_root_node] in *.
    assert (Hsame : exists x0, nodes st0 !! n = Some x0 /\
              Node.parent x = Node.parent x0 /\
              Node.rel_name x = Node.rel_name x0).
    { destruct (decide (n = parent)) as [->|Hne].
      - rewrite list_lookup_insert_eq in Hx
          by (eapply lookup_lt_Some; eauto).
        injection Hx as <-. exists pn. split; [exact Hp|].
        destruct (touch_fields mtime (branch_mode_of mode) pn)
          as (E1 & _ & _ & _ & E5). auto.
      - rewrite list_lookup_insert_ne in Hx by congruence. eauto. }
    destruct Hsame as (x0 & Hx0 & -> & ->). exact (Hpath n x0 Hx0).
  - intros st0 A rel parent pn nodes2 Hinv HP Hda Hns Hnone Hp _ Hadd.
    exact (names_inv_attach st0 A rel
             (Node.new rel "" (-1) 0 mtime (branch_mode_of mode))
             parent pn nodes2 _ _ Hinv HP Hda Hns Hnone Hp eq_refl Hadd).
  - intros st0 A rel parent pn nodes2 node Hinv HP Hda Hns Hnone Hp _ Hadd
      _ _ _.
    exact (names_inv_attach st0 A rel
             (Node.new rel symlink idx size mtime (leaf_mode_of symlink mode))
             parent pn nodes2 _ _ Hinv HP Hda Hns Hnone Hp eq_refl Hadd).
Qed.

Lemma insert_root_node_names_inv : names_inv (insert_root_node empty_tree).
Proof.
  split.
  - intros K1 K2 n. cbn [insert_root_node g_nodes_by_name empty_tree].
    intros H1 H2. apply lookup_insert_Some in H1 as [[<- _]|[_ H1]];
      [|rewrite lookup_empty in H1; discriminate].
    apply lookup_insert_Some in H2 as [[<- _]|[_ H2]];
      [reflexivity|rewrite lookup_empty in H2; discriminate].
  - intros n x Hx. cbn in Hx.
    destruct n as [|n]; [|destruct n; discriminate].
    injection Hx as <-. reflexivity.
Qed.

(** The names that the loop of [insert_leaf_node] binds are made of
    leading components of the pathname of the leaf. *)
Lemma insert_leaf_node_loop_names symlink idx size mtime bm lm :
  forall q A parent st ret st',
    insert_leaf_node_loop symlink idx size mtime bm lm (A +:+ "/") q parent st
    = Ok (ret, st') ->
    forall K n, g_nodes_by_name st' !! K = Some n ->
      g_nodes_by_name st !! K = Some n \/
      exists k rest,
        K = A +:+ "/" +:+ k /\
        A +:+ "/" +:+ q = K +:+ rest /\
        (rest = "" \/ exists r, rest = "/" +:+ r).
Proof.
  intros q. remember (String.length q) as len eqn:Hlen.
  revert q Hlen. induction len as [len IH] using lt_wf_ind.
  intros q -> A parent st ret st'.
  rewrite insert_leaf_node_loop_unfold.
  destruct (Node.update (nodes st) parent _) as [nodes1| |];
    cbn [mbind result_bind]; try discriminate.
  set (st1 := set_nodes nodes1 st).
  change (g_nodes_by_name st) with (g_nodes_by_name st1).
  clearbody st1.
  destruct (scan_fragment q) as [rel [q'|]] eqn:Es.
  - apply scan_fragment_some in Es as (-> & Hns & Hlt).
    assert (Hpre : (A +:+ "/") +:+ rel +:+ "/" = (A +:+ "/" +:+ rel) +:+ "/")
      by (rewrite !string_app_assoc; reflexivity).
    assert (HK : A +:+ "/" +:+ rel +:+ "/" +:+ q'
                 = (A +:+ "/" +:+ rel) +:+ "/" +:+ q')
      by (rewrite !string_app_assoc; reflexivity).
    rewrite Hpre, (string_app_assoc A "/" rel). clear Hpre.
    unfold insert_leaf_node_branch.
    destruct (g_nodes_by_name st1 !! (A +:+ "/" +:+ rel)) as [m|] eqn:En.
    + destruct (nodes st1 !! m) as [node|]; cbn [deref mbind result_bind];
        [|discriminate].
      destruct (negb (Node.is_dir node)); cbn [mbind result_bind].
      { intros [= <- <-]. auto. }
      intros Hrun K n HKn.
      destruct (IH _ Hlt q' eq_refl _ _ _ _ _ Hrun K n HKn)
        as [Hold|(k & rest & Ek & E & Hrest)]; [auto|].
      right. exists (rel +:+ "/" +:+ k), rest.
      split; [rewrite Ek, !string_app_assoc; reflexivity|].
      split; [congruence|exact Hrest].
    + destruct (Node.add_child _ _ _) as [nodes2| |];
        cbn [mbind result_bind]; try discriminate.
      intros Hrun K n HKn.
      destruct (IH _ Hlt q' eq_refl _ _ _ _ _ Hrun K n HKn)
        as [Hold|(k & rest & Ek & E & Hrest)].
      * cbn [g_nodes_by_name] in Hold.
        apply lookup_insert_Some in Hold as [[<- <-]|[_ Hold]]; [|auto].
        right. exists rel, ("/" +:+ q'). split; [reflexivity|].
        split; [exact HK|]. right. eauto.
      * right. exists (rel +:+ "/" +:+ k), rest.
        split; [rewrite Ek, !string_app_assoc; reflexivity|].
        split; [congruence|exact Hrest].
  - apply scan_fragment_none in Es as (-> & Hns).
    rewrite (string_app_assoc A "/" rel).
    unfold insert_leaf_node_terminal.
    destruct (g_nodes_by_name st1 !! (A +:+ "/" +:+ rel)) as [m|] eqn:En.
    + cbn [mbind result_bind]. intros [= <- <-]. auto.
    + destruct (Node.add_child _ _ _) as [nodes2| |];
        cbn [mbind result_bind]; try discriminate.
      destruct (nodes2 !! _) as [node|]; cbn [deref mbind result_bind];
        [|discriminate].
      destruct (_ >? _); [discriminate|]. cbn [mbind result_bind].
      intros [= <- <-] K n HKn. cbn [g_nodes_by_name] in HKn.
      apply lookup_insert_Some in HKn as [[<- <-]|[_ Hold]]; [|auto].
      right. exists rel, "". rewrite string_app_nil_r. auto.
Qed.

Lemma split_slash_app (a b : string) :
  split_slash (a +:+ "/" +:+ b) = split_slash a ++ split_slash b.
Proof.
  induction a as [|c a IH]; [reflexivity|].
  rewrite string_app_cons. cbn [split_slash]. rewrite IH.
  destruct (Ascii.eqb c "/"); [reflexivity|].
  destruct (split_slash a) as [|f fs] eqn:Ea; [|reflexivity].
  destruct (split_slash_not_nil a Ea).
Qed.

Lemma string_app_inj_l (a b c : string) : a +:+ b = a +:+ c -> b = c.
Proof.
  induction a as [|x a IH]; [auto|]. rewrite !string_app_cons.
  intros [= E]. auto.
Qed.

Lemma insert_leaf_node_names_wf pathname symlink idx size mtime mode
    st ret st' :
  clean_pathname pathname -> names_wf st ->
  insert_leaf_node pathname symlink idx size mtime mode st = Ok (ret, st') ->
  names_wf st'.
Proof.
  intros Hclean Hwf. unfold insert_leaf_node.
  destruct (idx <? 0); [intros [= <- <-]; exact Hwf|].
  destruct pathname as [|c q]; [intros [= <- <-]; exact Hwf|].
  destruct (Ascii.eqb_spec c "/") as [->|_]; cbn [negb];
    [|intros [= <- <-]; exact Hwf].
  destruct (g_root_node st) as [root|]; cbn [deref mbind result_bind];
    [|discriminate].
  intros Hrun K n HKn.
  destruct (insert_leaf_node_loop_names _ _ _ _ _ _ q "" root st ret st'
              Hrun K n HKn) as [Hold|(k & rest & -> & E & Hrest)]; [eauto|].
  change ("" +:+ "/" +:+ q) with ("/" +:+ q) in E.
  change ("" +:+ "/" +:+ k) with ("/" +:+ k) in *.
  rewrite string_app_assoc in E. apply (string_app_inj_l "/") in E.
  destruct Hclean as [Hq|(rest0 & Hq & Hbad)].
  { injection Hq as ->. destruct k; [left; reflexivity|discriminate E]. }
  apply (string_app_inj_l "/") in Hq. subst rest0.
  right. exists k. split; [reflexivity|].
  destruct Hrest as [->|[r ->]].
  - rewrite string_app_nil_r in E. congruence.
  - rewrite E, split_slash_app, existsb_app in Hbad.
    apply orb_false_iff in Hbad as [Hbad _]. exact Hbad.
Qed.

Section StartUpNames.
Context `{Libarchive}.

Lemma insert_leaf_names_wf fuel is_raw innername a e idx s st ret a' s' st' :
  names_wf st ->
  insert_leaf fuel is_raw innername a e idx s st = Ok (ret, a', s', st') ->
  names_wf st'.
Proof.
  intros Hwf. unfold insert_leaf.
  destruct (String.eqb_spec (normalize_pathname is_raw innername e) "")
    as [|Hne]; [intros [= <- <- <- <-]; exact Hwf|].
  destruct (_ || _); [intros [= <- <- <- <-]; exact Hwf|].
  destruct (_ && _); [intros [= <- <- <- <-]; exact Hwf|].
  match goal with
  | |- context [mbind _ ?m] => destruct m as [[[[sz|] a1] s1]| |]
  end; cbn [mbind result_bind]; try discriminate.
  2:{ intros [= <- <- <- <-]. exact Hwf. }
  destruct (insert_leaf_node _ _ _ _ _ _ st) as [[r st1]| |] eqn:Hn;
    cbn [mbind result_bind]; try discriminate.
  intros [= <- <- <- <-].
  apply (insert_leaf_node_names_wf _ _ _ _ _ _ _ _ _) with (3 := Hn);
    [|exact Hwf].
  destruct (normalize_pathname_accepts is_raw innername e Hne)
    as (rest & -> & _ & _ & Hbad).
  right. eauto.
Qed.

Lemma build_tree_loop_names_wf fuel is_raw innername :
  forall first g s st ret g' s' st',
    names_wf st ->
    build_tree_loop fuel is_raw innername first g s st
    = Ok (ret, g', s', st') ->
    names_wf st'.
Proof.
  induction fuel as [|fuel IH]; intros first g s st ret g' s' st' Hwf;
    [discriminate|].
  cbn [build_tree_loop].
  match goal with
  | |- context [mbind _ ?m] => destruct m as [[[r go] g1]| |]
  end; cbn [mbind result_bind]; try discriminate.
  destruct go; cbn [negb]; [|intros [= <- <- <- <-]; exact Hwf].
  destruct (g_initialize_archive_entry g1) as [e|];
    cbn [deref mbind result_bind]; try discriminate.
  destruct (S_ISDIR (archive_entry_mode e)); [apply IH; assumption|].
  destruct (insert_leaf _ _ _ _ _ _ _ st) as [[[[r1 a1] s1] st1]| |] eqn:Hl;
    cbn [mbind result_bind]; try discriminate.
  pose proof (insert_leaf_names_wf _ _ _ _ _ _ _ _ _ _ _ _ Hwf Hl) as Hwf1.
  destruct (negb (r1 =? 0)); [intros [= <- <- <- <-]; exact Hwf1|].
  apply IH; assumption.
Qed.

Lemma post_initialize_sync_names_wf fuel is_raw innername g s error g' s'
    st :
  post_initialize_sync fuel is_raw innername g s empty_tree
  = Ok (error, g', s', st) ->
  names_wf st.
Proof.
  assert (Hroot : names_wf (insert_root_node empty_tree)).
  { intros K n HK. cbn in HK.
    apply lookup_insert_Some in HK as [[<- _]|[_ HK]]; [left; reflexivity|].
    rewrite lookup_empty in HK. discriminate. }
  unfold post_initialize_sync. cbn [g_root_node empty_tree].
  destruct (build_tree _ _ _ _ _ _) as [[[[r g1] s1] st1]| |] eqn:Hb;
    cbn [mbind result_bind]; try discriminate.
  intros [= <- <- <- <-]. revert Hb. unfold build_tree.
  destruct (_ <? 0); [intros [= <- <- <- <-]; exact Hroot|].
  apply build_tree_loop_names_wf. exact Hroot.
Qed.

Lemma post_initialize_sync_names_inv fuel is_raw innername g s error g' s'
    st :
  post_initialize_sync fuel is_raw innername g s empty_tree
  = Ok (error, g', s', st) ->
  names_inv st.
Proof.
  apply (post_initialize_sync_preserves names_inv
           insert_leaf_node_names_inv _ _ _ _ _ _ _ _ _
           insert_root_node_names_inv).
Qed.

End StartUpNames.


(** X22. What [my_readdir] lists can be looked up.  After start-up,
    for a node whose parent is the directory bound to a pathname,
    [my_getattr] on that pathname followed by a slash and the name of
    the node returns 0 with the [stat] of the node, where the pathname
    of the root stands for itself; the name has no slash and is not
    empty, "." or "..". *)
Theorem listed_entries_can_be_looked_up `{Libarchive} (fuel : nat)
    (is_raw : bool) (innername : option string) (g g' : initialize_globals)
    (s s' : side_buffers) (error : Z) (st : tree)
    (g_uid g_gid : Z) (K : string) (d c : nat) (C : Node.t)
    (z : struct_stat) :
  post_initialize_sync fuel is_raw innername g s empty_tree
  = Ok (error, g', s', st) ->
  g_nodes_by_name st !! K = Some d ->
  nodes st !! c = Some C -> Node.parent C = Some d ->
  let pathname :=
    if String.eqb K "/" then "/" +:+ Node.rel_name C
    else K +:+ "/" +:+ Node.rel_name C in
  g_nodes_by_name st !! pathname = Some c /\
  my_getattr g_uid g_gid st pathname z = Ok (0, get_stat g_uid g_gid C) /\
  no_slash (Node.rel_name C) = true /\
  bad_component (Node.rel_name C) = false.
Proof.
  intros Hrun HK HC HCp pathname.
  pose proof (post_initialize_sync_inv _ _ _ _ _ _ _ _ _ Hrun) as Hinv.
  destruct (post_initialize_sync_names_inv _ _ _ _ _ _ _ _ _ Hrun)
    as [Huniq Hpath].
  pose proof (post_initialize_sync_names_wf _ _ _ _ _ _ _ _ _ Hrun) as Hwf.
  specialize (Hpath c C HC). rewrite HCp in Hpath.
  destruct Hpath as (A & HA & Hname & Hns).
  assert (Hpathname : pathname = A +:+ "/" +:+ Node.rel_name C /\
            bad_component (Node.rel_name C) = false).
  { pose proof (Hwf _ _ Hname) as Hclean. unfold dir_at in HA.
    unfold pathname.
    destruct (String.eqb_spec A "") as [EA|HAne].
    - subst A.
      destruct (inv_root st Hinv) as (root & rnode & Hr & Hrn & _ & Hrp & Hn).
      assert (d = root) as -> by congruence.
      rewrite (Huniq K "/" root HK Hn). split; [reflexivity|].
      change ("" +:+ "/" +:+ Node.rel_name C)
        with ("/" +:+ Node.rel_name C) in *.
      destruct Hclean as [E|(rest & E & Hbad)].
      + (* the root has no parent *)
        rewrite E in Hname. congruence.
      + apply (string_app_inj_l "/") in E. subst rest.
        rewrite split_slash_no_slash in Hbad by exact Hns.
        cbn in Hbad. rewrite orb_false_r in Hbad. exact Hbad.
    - pose proof (Huniq K A d HK HA) as ->.
      destruct (Hwf _ _ HA) as [->|(a & -> & Ha)].
      + (* the root is not named with an empty component below it *)
        destruct Hclean as [E|(rest & E & Hbad)]; [discriminate E|].
        apply (string_app_inj_l "/" ("/" +:+ Node.rel_name C)) in E.
        subst rest. discriminate Hbad.
      + destruct Hclean as [E|(rest & E & Hbad)].
        { rewrite string_app_assoc in E.
          apply (string_app_inj_l "/" _ "") in E.
          destruct a; discriminate E. }
        rewrite string_app_assoc in E. apply (string_app_inj_l "/") in E.
        subst rest. rewrite split_slash_app, existsb_app in Hbad.
        apply orb_false_iff in Hbad as [_ Hbad].
        rewrite split_slash_no_slash in Hbad by exact Hns.
        cbn in Hbad. rewrite orb_false_r in Hbad.
        split; [|exact Hbad].
        destruct (String.eqb_spec ("/" +:+ a) "/") as [E|_]; [|reflexivity].
        apply (string_app_inj_l "/" _ "") in E. subst a.
        exfalso. apply HAne. discriminate Ha. }
  destruct Hpathname as [-> Hbad].
  split; [exact Hname|]. split; [|auto].
  unfold my_getattr. rewrite Hname, HC. reflexivity.
Qed.

Lemma listed_entries_can_be_looked_up_witness :
  let pathname :=
    if String.eqb "/a" "/" then "/" +:+ "y" else "/a" +:+ "/" +:+ "y" in
  g_nodes_by_name two_files_tree !! pathname = Some 3%nat /\
  my_getattr 1000 1000 two_files_tree pathname
    (Build_struct_stat 0 0 0 0 0 0 0 0)
  = Ok (0, get_stat 1000 1000
             (Node.set_parent (Some 1%nat)
                (Node.new "y" "" 1 4 6 (Z.lor S_IFREG 365)))) /\
  no_slash "y" = true /\ bad_component "y" = false.
Proof.
  apply (listed_entries_can_be_looked_up
           (H := scripted two_files_archive true)
           3 false None two_files_initialize_globals
           (@Build_initialize_globals (scripted two_files_archive true)
              None None (-1))
           zeroed_side_buffers zeroed_side_buffers 0 two_files_tree
           1000 1000 "/a" 1%nat 3%nat
           (Node.set_parent (Some 1%nat)
              (Node.new "y" "" 1 4 6 (Z.lor S_IFREG 365)))
           (Build_struct_stat 0 0 0 0 0 0 0 0)).
  - vm_compute. reflexivity.
  - vm_compute. reflexivity.
  - vm_compute. reflexivity.
  - reflexivity.
Defined.

(** X23. What can be looked up is listed.  After start-up, every name
    but "/" is the pathname of a directory, where the empty pathname
    stands for the root, followed by a slash and the name of the node
    it is bound to; the parent of the node is that directory, so that
    the node is among those that [my_readdir] lists for it. *)
Theorem bound_names_are_listed `{Libarchive} (fuel : nat)
    (is_raw : bool) (innername : option string) (g g' : initialize_globals)
    (s s' : side_buffers) (error : Z) (st : tree) (K : string) (n : nat) :
  post_initialize_sync fuel is_raw innername g s empty_tree
  = Ok (error, g', s', st) ->
  g_nodes_by_name st !! K = Some n -> K <> "/" ->
  exists A x p P,
    K = A +:+ "/" +:+ Node.rel_name x /\
    nodes st !! n = Some x /\ Node.parent x = Some p /\
    g_nodes_by_name st !! (if String.eqb A "" then "/" else A) = Some p /\
    nodes st !! p = Some P /\ Node.is_dir P = true /\
    n ∈ filter (fun c => nodes st !! c ≫= Node.parent = Some p)
          (seq 0 (length (nodes st))).
Proof.
  intros Hrun HK HKne.
  pose proof (post_initialize_sync_inv _ _ _ _ _ _ _ _ _ Hrun) as Hinv.
  destruct (post_initialize_sync_names_inv _ _ _ _ _ _ _ _ _ Hrun)
    as [Huniq Hpath].
  destruct (inv_names st Hinv K n HK) as [x Hx].
  destruct (inv_root st Hinv) as (root & _ & Hr & _ & _ & _ & Hn).
  specialize (Hpath n x Hx).
  destruct (Node.parent x) as [p|] eqn:Hp.
  2:{ assert (n = root) as -> by congruence.
      destruct (HKne (Huniq K "/" root HK Hn)). }
  destruct Hpath as (A & HA & Hname & Hns).
  destruct (inv_parent st Hinv n x p Hx Hp) as (P & HP & HPd & _).
  exists A, x, p, P.
  split; [exact (Huniq _ _ n HK Hname)|].
  split; [exact Hx|]. split; [exact Hp|].
  split.
  { unfold dir_at in HA. destruct (String.eqb A ""); [congruence|exact HA]. }
  split; [exact HP|]. split; [exact HPd|].
  apply (elem_of_children_of (nodes st) p n). eauto.
Qed.

Lemma bound_names_are_listed_witness :
  exists A x p P,
    "/a/y" = A +:+ "/" +:+ Node.rel_name x /\
    nodes two_files_tree !! 3%nat = Some x /\ Node.parent x = Some p /\
    g_nodes_by_name two_files_tree !! (if String.eqb A "" then "/" else A)
    = Some p /\
    nodes two_files_tree !! p = Some P /\ Node.is_dir P = true /\
    3%nat ∈ filter (fun c => nodes two_files_tree !! c ≫= Node.parent
                             = Some p)
              (seq 0 (length (nodes two_files_tree))).
Proof.
  apply (bound_names_are_listed (H := scripted two_files_archive true)
           3 false None two_files_initialize_globals
           (@Build_initialize_globals (scripted two_files_archive true)
              None None (-1))
           zeroed_side_buffers zeroed_side_buffers 0 two_files_tree
           "/a/y" 3%nat).
  - vm_compute. reflexivity.
  - vm_compute. reflexivity.
  - discriminate.
Defined.


(** ** Pathnames without slashes *)

Lemma valid_pathname_scan_no_slashes (next : string -> bool) :
  forall r frag,
    valid_pathname_scan false next (frag +:+ r) r (String.length frag) =
    no_slash r && negb (bad_component (frag +:+ r)).
Proof.
  induction r as [|c r IH]; intros frag.
  - cbn [valid_pathname_scan no_slash andb].
    rewrite fragment_check, string_app_nil_r, andb_true_r. reflexivity.
  - cbn [valid_pathname_scan no_slash].
    destruct (Ascii.eqb c "/") eqn:Ec; cbn [negb andb]; [reflexivity|].
    replace (frag +:+ String c r) with ((frag +:+ String c "") +:+ r)
      by (rewrite string_app_assoc; reflexivity).
    replace (S (String.length frag))
      with (String.length (frag +:+ String c ""))
      by (rewrite string_length_app; cbn; lia).
    apply IH.
Qed.

(** X24. [valid_pathname] when slashes are not allowed: it accepts the
    texts that have no slash and are not empty, "." or "..", and no
    others; a null pointer is rejected. *)
Theorem valid_pathname_without_slashes (p : option string) :
  valid_pathname p false =
  match p with
  | Some p => no_slash p && negb (bad_component p)
  | None => false
  end.
Proof.
  destruct p as [p|]; [|reflexivity]. unfold valid_pathname. cbn [negb].
  assert (Hloop : (if at_end p then false else valid_pathname_loop false p)
                  = no_slash p && negb (bad_component p)).
  { destruct p as [|c p]; [reflexivity|]. cbn [at_end].
    rewrite valid_pathname_loop_unfold.
    exact (valid_pathname_scan_no_slashes _ (String c p) ""). }
  destruct p as [|c1 p]; [exact Hloop|].
  unfold char_at. cbn [String.get].
  change (default zero (Some c1)) with c1.
  destruct (Ascii.eqb c1 "/") eqn:E1.
  { cbn [no_slash]. rewrite E1. cbn [negb andb].
    destruct (Ascii.eqb c1 "." && _); reflexivity. }
  destruct p as [|c2 p].
  { cbn [String.get]. rewrite andb_false_r. exact Hloop. }
  cbn [String.get]. change (default zero (Some c2)) with c2.
  destruct (Ascii.eqb c2 "/") eqn:E2.
  { destruct (Ascii.eqb c1 "."); cbn [andb]; [|exact Hloop].
    cbn [no_slash]. rewrite E1, E2. reflexivity. }
  rewrite andb_false_r. exact Hloop.
Qed.


(** ** Measuring an entry *)

(** [insert_leaf_node] on a free pathname below directories. *)
Lemma insert_leaf_node_binds (st : tree) (k symlink : string)
    (idx size mtime mode : Z) :
  tree_inv st -> 0 <= idx ->
  Z.of_nat (length (g_nodes_by_index st)) <= idx ->
  g_nodes_by_name st !! ("/" +:+ k) = None ->
  (forall B m M, B ∈ ancestor_paths ("/" +:+ k) ->
     g_nodes_by_name st !! B = Some m -> nodes st !! m = Some M ->
     Node.is_dir M = true) ->
  exists st' n x,
    insert_leaf_node ("/" +:+ k) symlink idx size mtime mode st
    = Ok (0, st') /\
    g_nodes_by_name st' !! ("/" +:+ k) = Some n /\
    nodes st' !! n = Some x /\
    Node.size x = size /\ Node.mtime x = mtime /\
    Node.index_within_archive x = idx.
Proof.
  intros Hinv Hidx Hby Hnone Hfree.
  destruct (inv_root st Hinv) as (root & rnode & Hr & Hrn & Hrd & Hrp & _).
  destruct (insert_leaf_node_loop_total symlink idx size mtime mode Hidx
              k "" root st) as (st' & Hrun & Hbind); [|exact Hby|].
  { split; [exact Hinv|]. split; [exact Hr|].
    exists rnode. split; [exact Hrn|]. split; [exact Hrd|].
    intros pp ppn Hpp. congruence. }
  destruct (Hbind Hnone Hfree)
    as (n & x & B & Hn & Hx & _ & _ & _ & _ & E2 & E3 & E4 & _).
  exists st', n, x.
  split.
  { unfold insert_leaf_node. destruct (Z.ltb_spec idx 0) as [|_]; [lia|].
    change ("/" +:+ k) with (String "/" k). cbn [Ascii.eqb negb].
    rewrite Hr. cbn [deref mbind result_bind Ascii.eqb Bool.eqb negb].
    exact Hrun. }
  auto.
Qed.

Section Measuring.
Context `{Libarchive}.

Lemma insert_leaf_measure_measured (ns : list Z) :
  forall fuel a a' (s : side_buffers) size,
    measured a ns a' ->
    Forall (fun n => 0 < n <= SIDE_BUFFER_SIZE) ns ->
    (length ns < fuel)%nat ->
    exists s',
      insert_leaf_measure fuel (Some a) s size
      = Ok (Some (size + foldr Z.add 0 ns), Some a', s').
Proof.
  induction ns as [|n ns IH]; intros fuel a a' s size Hm Hall Hfuel;
    (destruct fuel as [|fuel]; [cbn in Hfuel; lia|]);
    cbn [insert_leaf_measure deref mbind result_bind measured] in *.
  - destruct Hm as [bytes ->]. cbn [Z.eqb]. eexists.
    cbn [foldr]. rewrite Z.add_0_r. reflexivity.
  - destruct Hm as (bytes & a1 & -> & Hm).
    apply Forall_cons in Hall as [Hn Hall].
    destruct (Z.eqb_spec n 0) as [|_]; [lia|].
    destruct (Z.ltb_spec n 0) as [|_]; [lia|].
    destruct (Z.gtb_spec n SIDE_BUFFER_SIZE) as [|_]; [lia|].
    assert (Hfuel' : (length ns < fuel)%nat) by (cbn in Hfuel; lia).
    match goal with
    | |- context [insert_leaf_measure fuel (Some a1) ?s1 _] =>
        destruct (IH fuel a1 a' s1 (size + n) Hm Hall Hfuel') as [s' ->]
    end.
    exists s'. cbn [foldr]. rewrite Z.add_assoc. reflexivity.
Qed.

(** X25. An entry whose size libarchive does not know is measured: for
    a regular file on a free pathname below directories, [insert_leaf]
    reads the entry to its end, [SIDE_BUFFER_SIZE] bytes at most at a
    time, and the node that it inserts has the size that the entry
    reports with the counts of all these reads added. *)
Theorem insert_leaf_measures_size (fuel : nat) (is_raw : bool)
    (innername : option string) (a a' : struct_archive)
    (e : struct_archive_entry) (idx : Z) (s : side_buffers) (st : tree)
    (k : string) (ns : list Z) :
  tree_inv st -> 0 <= idx ->
  Z.of_nat (length (g_nodes_by_index st)) <= idx ->
  archive_entry_size_is_set e = false ->
  Z.land (archive_entry_mode e) S_IFMT = S_IFREG ->
  normalize_pathname is_raw innername e = "/" +:+ k ->
  g_nodes_by_name st !! ("/" +:+ k) = None ->
  (forall B m M, B ∈ ancestor_paths ("/" +:+ k) ->
     g_nodes_by_name st !! B = Some m -> nodes st !! m = Some M ->
     Node.is_dir M = true) ->
  measured a ns a' ->
  Forall (fun n => 0 < n <= SIDE_BUFFER_SIZE) ns ->
  (length ns < fuel)%nat ->
  exists s' st' n x,
    insert_leaf fuel is_raw innername (Some a) e idx s st
    = Ok (0, Some a', s', st') /\
    g_nodes_by_name st' !! ("/" +:+ k) = Some n /\
    nodes st' !! n = Some x /\
    Node.size x = archive_entry_size e + foldr Z.add 0 ns /\
    Node.index_within_archive x = idx.
Proof.
  intros Hinv Hidx Hby Hunset Hreg Hpath Hnone Hfree Hm Hall Hfuel.
  unfold insert_leaf. rewrite Hpath.
  change (String.eqb ("/" +:+ k) "") with false. cbv iota.
  unfold S_ISBLK, S_ISCHR, S_ISFIFO, S_ISSOCK, S_ISLNK. rewrite Hreg.
  cbn [Z.eqb S_IFREG S_IFBLK S_IFCHR S_IFIFO S_IFSOCK S_IFLNK Pos.eqb
       orb andb].
  rewrite Hunset. cbn [negb].
  destruct (insert_leaf_measure_measured ns fuel a a' s
              (archive_entry_size e) Hm Hall Hfuel) as [s' ->].
  cbn [mbind result_bind].
  destruct (insert_leaf_node_binds st k ""
              idx (archive_entry_size e + foldr Z.add 0 ns)
              (archive_entry_mtime e) (archive_entry_mode e)
              Hinv Hidx Hby Hnone Hfree)
    as (st' & n & x & -> & Hn & Hx & Es & _ & Ei).
  cbn [mbind result_bind]. exists s', st', n, x. auto.
Qed.

End Measuring.

Lemma insert_leaf_measures_size_witness :
  exists s' st' n x,
    insert_leaf (H := scripted example_archive true) 4 true (Some "bar.txt")
      (Some unsized_stream) unsized_entry 0 zeroed_side_buffers
      (insert_root_node empty_tree)
    = Ok (0,
          Some {| script_headers := []; script_remaining := 0;
                  script_data_error := false |},
          s', st') /\
    g_nodes_by_name st' !! ("/" +:+ "bar.txt") = Some n /\
    nodes st' !! n = Some x /\
    Node.size x = 0 + foldr Z.add 0 [131072; 131072; 37856] /\
    Node.index_within_archive x = 0.
Proof.
  apply (insert_leaf_measures_size (H := scripted example_archive true)
           4 true (Some "bar.txt") unsized_stream
           {| script_headers := []; script_remaining := 0;
              script_data_error := false |}
           unsized_entry 0 zeroed_side_buffers
           (insert_root_node empty_tree) "bar.txt"
           [131072; 131072; 37856]).
  - exact insert_root_node_inv.
  - lia.
  - cbn. lia.
  - reflexivity.
  - reflexivity.
  - vm_compute. reflexivity.
  - vm_compute. reflexivity.
  - intros B m M HB. vm_compute in HB.
    apply elem_of_cons in HB as [->|HB]; [|inversion HB].
    vm_compute. discriminate.
  - cbn. eexists _, _. split; [reflexivity|].
    eexists _, _. split; [reflexivity|].
    eexists _, _. split; [reflexivity|].
    eexists. reflexivity.
  - repeat constructor; unfold SIDE_BUFFER_SIZE; lia.
  - cbn. lia.
Defined.


(** ** The passphrase callback *)

Lemma ends_with_app_char (s : string) (a c : ascii) :
  ends_with (s +:+ String a "") c = Ascii.eqb a c.
Proof.
  induction s as [|b s IH]; [reflexivity|].
  rewrite string_app_cons. cbn [ends_with].
  destruct (s +:+ String a "") eqn:E; [|exact IH].
  destruct s; discriminate E.
Qed.

Lemma pop_back_app_char (s : string) (a : ascii) :
  pop_back (s +:+ String a "") = s.
Proof.
  induction s as [|b s IH]; [reflexivity|].
  rewrite string_app_cons. cbn [pop_back].
  destruct (s +:+ String a "") eqn:E; [destruct s; discriminate E|].
  rewrite IH. reflexivity.
Qed.

Lemma string_snoc_cases (s : string) :
  s = "" \/ exists s' a, s = s' +:+ String a "".
Proof.
  induction s as [|b s IH]; [left; reflexivity|]. right.
  destruct IH as [->|(s' & a & ->)].
  - exists "", b. reflexivity.
  - exists (String b s'), a. reflexivity.
Qed.

Lemma newlines_snoc (k : nat) :
  newlines k +:+ String newline "" = String newline (newlines k).
Proof.
  induction k as [|k IH]; [reflexivity|].
  cbn [newlines]. rewrite string_app_cons, IH. reflexivity.
Qed.

Lemma read_password_strip_spec (fuel : nat) :
  forall line, (String.length line < fuel)%nat ->
    exists p k,
      read_password_strip fuel line = Ok p /\
      line = p +:+ newlines k /\ ends_with p newline = false.
Proof.
  induction fuel as [|fuel IH]; intros line Hlen; [lia|].
  cbn [read_password_strip].
  destruct (ends_with line newline) eqn:Ee.
  - destruct (string_snoc_cases line) as [->|(s' & a & ->)];
      [discriminate Ee|].
    rewrite ends_with_app_char in Ee. apply Ascii.eqb_eq in Ee as ->.
    rewrite pop_back_app_char.
    destruct (IH s') as (p & k & -> & -> & Hp).
    { rewrite string_length_app in Hlen. cbn in Hlen. lia. }
    exists p, (S k). split; [reflexivity|]. split; [|exact Hp].
    rewrite string_app_assoc, newlines_snoc. reflexivity.
  - exists line, 0%nat. rewrite string_app_nil_r. auto.
Qed.

(** X26. The passphrase is asked for once.  The first call of
    [read_password_from_stdin] takes the line read from standard input
    without the newlines at its end: it keeps that text in [password]
    and returns it, or a null pointer when the text is empty; so does
    it when reading fails.  Every later call returns a null pointer and
    leaves [password] alone. *)
Theorem read_password_from_stdin_once (fuel : nat) (line : string)
    (G : password_globals) :
  password_count G = 0 -> (String.length line < fuel)%nat ->
  exists p k,
    line = p +:+ newlines k /\ ends_with p newline = false /\
    read_password_from_stdin fuel (Some line) G =
      Ok (if String.eqb p "" then None else Some p,
          {| password := p; password_count := 1 |}) /\
    (fuel <> 0%nat ->
     read_password_from_stdin fuel None G =
       Ok (None, {| password := ""; password_count := 1 |})) /\
    forall fuel' getline (G' : password_globals),
      password_count G' <> 0 ->
      read_password_from_stdin fuel' getline G' =
        Ok (None, {| password := password G';
                     password_count := password_count G' + 1 |}).
Proof.
  intros Hcount Hlen.
  destruct (read_password_strip_spec fuel line Hlen) as (p & k & Hrun & -> & Hp).
  exists p, k. split; [reflexivity|]. split; [exact Hp|].
  split; [|split].
  - unfold read_password_from_stdin. rewrite Hcount. cbn [Z.eqb negb].
    rewrite Hrun. cbn [mbind result_bind password_count].
    destruct (String.eqb p ""); reflexivity.
  - intros Hfuel. unfold read_password_from_stdin. rewrite Hcount.
    cbn [Z.eqb negb]. destruct fuel as [|fuel]; [contradiction|].
    reflexivity.
  - intros fuel' getline G' HG'. unfold read_password_from_stdin.
    destruct (Z.eqb_spec (password_count G') 0) as [|_]; [contradiction|].
    reflexivity.
Qed.

Lemma read_password_from_stdin_once_witness :
  exists p k,
    String "s" (String "e" (String "c" (String newline (String newline ""))))
    = p +:+ newlines k /\
    ends_with p newline = false /\
    read_password_from_stdin 6
      (Some (String "s" (String "e" (String "c"
               (String newline (String newline ""))))))
      {| password := ""; password_count := 0 |} =
      Ok (if String.eqb p "" then None else Some p,
          {| password := p; password_count := 1 |}) /\
    (6%nat <> 0%nat ->
     read_password_from_stdin 6 None {| password := ""; password_count := 0 |}
     = Ok (None, {| password := ""; password_count := 1 |})) /\
    forall fuel' getline (G' : password_globals),
      password_count G' <> 0 ->
      read_password_from_stdin fuel' getline G' =
        Ok (None, {| password := password G';
                     password_count := password_count G' + 1 |}).
Proof.
  apply (read_password_from_stdin_once 6
           (String "s" (String "e" (String "c"
              (String newline (String newline "")))))
           {| password := ""; password_count := 0 |}).
  - reflexivity.
  - cbn. lia.
Defined.
